(* ===== verification/_CoqProject ===== *)
-Q . S2P
Prelude.v
Text.v
PkChecksum.v
Inverse.v
Session.v
BlastRadius.v
Config.v
Predicate.v
DryRun.v
Apply.v
Revert.v
Wire.v
Frontend.v
Backend.v
Classifier.v
Fuzz.v
Grant.v
GrantedApply.v
Policy.v
Intent.v
AuditChain.v
AuditSink.v
AuditAnchor.v
Warden.v
WardenLive.v
Conn.v
Messages.v
Approval.v
Applyd.v
Daemon.v
Mcp.v
McpServer.v
Agent.v
Cli.v
ProxyGate.v
Scram.v
SharedSink.v
ThreadedSink.v
ProxySession.v
ProxyMain.v
Startup.v
CliMain.v
Bench.v
BenchCorpus.v
Fidelity.v
Machine.v
CloneLedger.v
CloneProvider.v
