(* ===== verification/Prelude.v ===== *)
(** * pg_brakes: a verification development

    pg_brakes stands between AI agents and a PostgreSQL database.  A proxy relays the
    wire protocol and lets through only provable reads within budgets; writes go through
    a dry run, a signed single-use grant and a guarded apply; every decision lands in a
    hash-chained audit log whose head is anchored outside the database; a warden watches
    the server from the side and trips a circuit breaker.  This library models the core
    of that program from the Rust sources under [src/crates], [src/dbsafe-bench] and [src/spikes/fidelity] and
    proves what makes it correct.  Nothing is assumed: third-party code is a parameter of the definitions that
    use it, and what is relied on of it is a hypothesis of the theorem.

    ** Files, in dependency order, and the code they model

    - [Prelude] (this file): Rust's [Result] as an error monad with the notation [let?],
      machine integers as [Z] with their wrap-around and saturation written out, bytes and
      the little- and big-endian encodings, orders and sorting ([CmpOrder], [rust_sort]),
      strings as their UTF-8 bytes, self-delimiting encodings.
    - [Text]: the string functions of the Rust standard library the program uses.
    - [PkChecksum]: [core/src/pk_checksum.rs], the checksum of a set of primary keys.
    - [Inverse]: [core/src/inverse.rs], inverse plans and the certified operations.
    - [Session]: [core/src/clock.rs] (Module [Clock], the [Clock] class and the mock
      clock), [barrier.rs] (Module [Barrier]), [session.rs] (Module [Session], the trust
      lattice and the session counters).
    - [BlastRadius]: [core/src/blast_radius.rs], the dry-run record and the suggested
      cap, with [f64] as the binary64 of the Standard Library's [SpecFloat].
    - [Config]: [policy/src/config.rs], the policy document, its validation and the layered
      resolution of a connection target; YAML decoding is a parameter.
    - [Predicate]: [clone-orchestrator/src/predicate.rs], the volatility gate and the
      self-determined-predicate gate; the SQL parser and visitor are parameters.
    - [DryRun]: [clone-orchestrator/src/proposal.rs] (Module [Proposal]) and [dry_run.rs]
      (Module [DryRun]); the measurement backend is a class, [RehearsalLaws] its promise.
    - [Apply]: [clone-orchestrator/src/apply.rs], the guarded apply over the connection
      class [ApplyConn]; [ApplyConnLaws] is what a transactional connection promises, a log
      of committed transactions.
    - [Revert]: [clone-orchestrator/src/revert.rs], over [RevertConn] and the tables its
      laws [RevertConnLaws] speak of, apart from the relations that triggers write.
    - [Wire], [Frontend], [Backend]: [pgwire/src/buf.rs], [codec.rs], [error.rs],
      [frontend.rs], [backend.rs], [scram.rs], [detector.rs]; a reader is a state-and-error
      monad over the remaining bytes.
    - [Classifier]: [pgwire/src/classifier.rs], the read-only classifier; the SQL parser and
      the expression visitor are parameters.
    - [Fuzz]: [fuzz/fuzz_targets/classifier.rs], the oracle of the classifier's fuzz target.
    - [Grant]: [policy/src/grant.rs]; the nonce store is a class whose laws are what the
      trait documents, discharged by the in-memory store.
    - [GrantedApply]: [clone-orchestrator/src/apply_grant.rs], the one production caller of
      the guarded apply, composing [Predicate], [Grant] and [Apply].
    - [Policy]: the data of [policy/src/intent.rs], [verdict.rs], [risk.rs]; [Intent]: the
      statement classes and the annotation parser of [intent.rs].
    - [AuditChain]: [audit/src/record.rs], [chain.rs]; JSON and SHA-256 are parameters.
    - [AuditSink]: [audit/src/sink.rs], [pg.rs] and the table of
      [audit/sql/10_audit_meta.sql]; the class [SinkLaws] is what a sink promises, proved of
      the in-memory and of the Postgres sink; the transaction under the advisory lock is
      a step relation over processes.
    - [AuditAnchor]: [audit/src/secret.rs], [kms.rs], [anchor.rs], [boot.rs] (Modules
      [Secret], [Kms], [Anchor], [Boot]), over a file system of lines.
    - [Warden]: [warden/src/model.rs], [thresholds.rs], [breaker.rs], [poller.rs] and the
      audited tick of [run.rs] (Modules [WardenModel], [Thresholds], [Breaker], [Poller],
      [Run]); proved against [SinkLaws], not against one sink.
    - [WardenLive]: the rest of [warden/src/run.rs] and [main.rs]: settings, the observation
      and the kills over a live connection, the loop; [ActivityLaws] is what is relied on of
      the server's view of its sessions.
    - [Conn]: [clone-orchestrator/src/conn.rs], the Postgres connections behind the classes
      [Rehearsal], [ApplyConn] and [RevertConn], over a class [Client] for the session;
      [SessionLaws] and [ServerLaws] are what is relied on of the server (for the texts the
      connections send, and of a proposal's statement only where it is one UPDATE or DELETE,
      in a rehearsal one that does nothing a rollback does not take back), and the instance
      [PgApplyConn_laws] discharges the contract of the guarded apply from them.
    - [Messages]: the error texts that travel between components.
    - [Approval]: [cli/src/request.rs], [principal.rs], [refuse.rs], [webhook.rs],
      [flow.rs] (Modules [Request], [Authority], [Webhook], [Flow]); the sink is passed
      alongside the flow because the service shares it.
    - [Applyd]: [applyd/src/protocol.rs] and [service.rs] (Modules [Protocol], [Service]);
      a call of the service is a step of a labelled transition system, whose labels are the
      approvals signed and the applies that wrote.
    - [Daemon]: [applyd/src/main.rs], the dispatch of a line onto the service over the
      connections of [Conn].
    - [Mcp]: the data of [mcp/src] and its pure functions (Modules [Json], [Contract],
      [Catalog], [Wires]); [McpServer]: the calls over the wires, the nine tools and the
      settings (Modules [Calls], [Server], [Main]), over a class [Net] for the network and
      a trace of what was dialled, sent and run.
    - [Agent]: the tool server composed with the daemon, over a socket that may lose
      answers.
    - [Cli]: [cli/src/verify.rs], [doctor.rs] and the commands [verify] and [doctor] of
      [main.rs] (Modules [Verify], [Doctor]), over the boot of [AuditAnchor] and a class
      [CatalogDb] for the session with the primary; [CatalogLaws] is what PostgreSQL
      documents of each text the preflight sends, over a catalogue of roles and grants.
    - [ProxyGate]: [proxy/src/budget.rs], [window.rs], [enforce.rs], [explain.rs] (Modules
      [Budget], [Window], [Enforce], [Explain]).
    - [Scram]: [proxy/src/auth.rs], the server side of SCRAM-SHA-256; SHA-256, HMAC, PBKDF2
      and base64 are parameters, [CryptoLaws] what is relied on.
    - [SharedSink]: the shared handle of [audit/src/sink.rs], one sink behind a mutex that a
      panic poisons, as a step relation of its holders.
    - [ThreadedSink]: [proxy/src/threaded_sink.rs], a sink wherever the one it owns is.
    - [ProxySession]: [proxy/src/config.rs] (Module [ProxyConfig]), [session.rs] and
      [recorder.rs] (Module [ProxySession]).  A session is a program over a [World]: the
      bytes either peer will send, how much each will still take, the audit sink, the
      clock, and the trace of what was written where.
    - [ProxyMain]: the configuration half of [proxy/src/main.rs].
    - [Startup]: the rest of [proxy/src/main.rs], [proxy/src/tls.rs] and [applyd/src/main.rs]
      (Modules [AuditStart], [Tls], [ProxyStart], [ApplydStart]): the settings, the audit
      boot, the anchor task, the accept loops; [Deployment] puts a daemon beside a proxy.
    - [CliMain]: the command line of [cli/src/main.rs], with its exit code, the key
      generation and the demo of the approval flow.
    - [Bench]: [dbsafe-bench/src], the probes of the safety benchmark over the components
      above, its runner, its report and the golden comparison; [BenchCorpus]: the frozen
      corpus and the golden file.
    - [Fidelity]: [spikes/fidelity/src/harness.rs] and [differ.rs] (Modules [Schema],
      [Differ], [Harness], [Criteria]), on the database its seed creates.
    - [Machine]: a host for the clone orchestrator, with a file system, a process table and
      a schedule of faults: each fallible call succeeds, fails part way, or is where the
      process is killed.
    - [CloneLedger]: [clone-orchestrator/src/provider/ledger.rs], the ledger and the orphan
      reaper on that host.
    - [CloneProvider]: [provider.rs], [provider/local.rs], [provider/parity.rs] (Modules
      [Governance], [LocalClone], [Parity]); the PostgreSQL tools are parameters.

    ** What the theorems show

    - Reads: the classifier decides its specification ([read_iff_safe]), and where that
      specification stops short ([expression_subqueries_escape]); what the fuzz target asks of
      a classifier ([fuzz_target_silent_iff]) holds of this one ([fuzz_target_is_silent]); the frame gate
      ([gate_decides]); the cutoffs bound a statement and a window
      ([cutoff_bounds_stream], [window_bounds_disclosure]); the EXPLAIN gate and how a
      chosen alias passes it ([spoofed_alias_passes_any_ceiling]).
    - Sessions: whatever the peers send, the backend is sent only the agent's own frames,
      in order, its statements only audited reads, and the proxy's EXPLAIN of them
      ([backend_is_sent_only_audited_reads]), and only after the agent proved the password
      ([backend_reached_only_by_proof], [password_is_accepted]); a statement and a window
      bound what is shown ([statement_disclosure_bounded], [session_disclosure_bounded]);
      nothing but a refusal is said in clear where TLS is required; every connection ends
      but one kind ([connection_ends_iff]).  Where they stop short:
      [blocked_pipeline_leaves_backend_unsynced], [unsynced_row_is_taken_for_the_plan].
    - Configuration: a document loads exactly when it is well formed, a resolved target's
      connection string says nothing but the target, and a proxy that starts runs on exactly
      the settings of its environment, which are safe ([started_proxy_is_safe]).
    - Clones: the ledger entry precedes the copy at every point of provisioning, a pass
      accounts for every clone left, a killed orchestrator's clone does not survive a pass
      ([killed_orchestrator_leaves_no_clone]), the funnel tears down what it made, parity
      is set equality.  Where they stop short: [torn_entry_stops_the_reaper],
      [failed_provision_is_not_torn_down].
    - Wire: both message sets round-trip through the framing, framing is exact, the
      decoding loops end, decoded messages say what the bytes say.
    - Writes: the checksum is order-independent and identifies the rows; the suggested cap
      admits the predicted write, and a dry run's record passes the apply's checks under
      it; the candidate runs only after every gate ([rehearses_only_certified]); a
      self-determined predicate that is plainly written pins the rows by key; an accepted grant binds the request
      and is used once; a guarded apply commits one transaction within cap, footprint and
      coverage, or nothing; nothing is committed without an approval
      ([commits_only_approved]) and at most once per grant; a revert restores every row of
      every relation that no trigger writes ([revert_undoes_apply]).  Where these stop short:
      [extra_target_updates_commit], [self_determined_blind_spots], [error_after_commit].
    - Service: over any run of the apply service each write is made under a grant signed
      earlier in it by someone else, no two under one nonce
      ([every_write_has_its_signature]), and is what was signed
      ([write_is_what_was_approved]); an approved proposal is let through
      ([approved_proposal_reaches_guards]); no apply goes unrecorded; the daemon refines the
      service whatever the interleaving of its clients, as long as no apply finds a
      transaction left open ([daemon_refines_service]).  The connection persists nothing in
      the rehearsal of a statement confined to its transaction, locks and images what it
      writes before it writes it, and restores exactly what was captured.  Where these stop
      short: [pg_audit_tail_is_empty],
      [production_rehearsal_is_ungated], [failed_begin_keeps_transaction].
    - Agent: whatever tools it calls, the tool server does only what the tool says
      ([tools_do_only_what_they_say]), pairs requests with answers on every connection it
      keeps ([requests_are_paired_with_answers]) and answers every call
      ([every_tool_call_is_told]); composed with the daemon, an agent alone commits nothing
      ([agent_alone_commits_nothing]).  Where this stops short:
      [lost_answer_hides_the_commit], [row_shows_distinct_names], [plaintext_iff].
    - Audit: verification decides well-formedness, the head determines the chain, edits
      and deletions are detected; the Postgres sink refines the in-memory chain and
      concurrent appenders never fork it; a rewrite across a restart is detected, an
      honest restart boots, and an honest extension after the last anchor is refused.  The
      holders of a shared sink extend one chain ([holders_share_one_chain]); a daemon beside
      a running proxy starts exactly on the head the proxy published
      ([daemon_starts_iff_head_is_published]).
    - Command line: a verified chain is what the verifier reports, though on a fresh anchor
      path it trusts the chain it is given ([fresh_anchor_trusts_the_chain]); the preflight
      passes exactly on the hardened floor of the catalogue it can see
      ([preflight_passes_iff_floor]); a generated key is
      read back, the demo runs through once ([demo_runs_through]) and not twice
      ([second_demo_is_refused]).
    - Benchmark: the gate is green on the frozen corpus ([frozen_gate_is_green]), a green gate
      says of every scenario that asks a component what it did ([green_gate_is_evidence]), and the golden
      comparison is exact ([golden_diff_is_exact]).  Where it stops short:
      [legit_backfill_is_refused].
    - Fidelity: an update or a delete that is captured, applied and restored brings its rows
      back and nothing else differs but the triggers' rows ([certified_rows_come_back]).
      Where it stops short: [cascade_drift_escapes].
    - Warden: exactly the agent's runaways it observes are killed; over the live connection,
      for whom the killer's connection is called ([live_warden_kills_iff]), and that a lost connection blinds it
      ([blind_warden_never_stops]); trips happen exactly on their
      conditions, an open breaker holds, every action is recorded in a verifying chain.

    Theorems that depend on a hash or a MAC carry no collision assumption: their
    conclusion offers the collision instead.

    ** Bounds and fuel

    Decoding loops run on fuel equal to the bytes left, one more than any run needs
    ([decoding_loops_terminate]); white-space stripping likewise.  The query loop runs on the bytes the
    agent has left and the relay loops on those of the backend; [connection_ends_iff] shows
    it is enough.  [peeks] is how often a connection looks at a header that does not grow.
    The reaper's waits are the fifty tries of the source, and the two wires of the tool
    server make its two attempts.  Sequence numbers,
    counters and sizes are unbounded [Z] with the width's wrap-around or saturation at
    each operation; hypotheses such as [binding_fits] or [meter_ok] state the widths.

    ** Not modelled

    The transport under the streams, rustls, PEM, asynchronous scheduling, the database
    itself (beyond the audit table, the transactions the connection classes describe and the
    schema of the spike), file modes and the MCP protocol library above the tool calls are
    not modelled.  I/O errors are modelled in the sessions (a peer that closes, a sink that
    fails), on the clone host (the schedule of faults) and in the spike (statements that
    fail), not in the anchor's file.  Printed texts and log lines, the test code with its
    support crate, the drivers of the fuzzed decoders and the deployment files are left out: they hold no
    logic of the program that a definition here does not already have. *)

From Stdlib Require Export ZArith Lia Strings.Byte.
From stdpp Require Export base numbers strings gmap sorting list.

#[global] Open Scope Z_scope.

(** ** Tactics and hints of the development *)

Create HintDb pgb.
Create HintDb wire.

(** Closes a decidable closed goal by evaluation. *)
Ltac by_decide := apply (bool_decide_unpack _); vm_compute; exact I.

(** ** Rust's [Result] as an error monad *)

Inductive result (E A : Type) : Type :=
| Ok (a : A)
| Err (e : E).
Arguments Ok {E A} a.
Arguments Err {E A} e.

Definition result_bind {E A B} (m : result E A) (k : A -> result E B) : result E B :=
  match m with Ok a => k a | Err e => Err e end.

Definition result_map_err {E F A} (f : E -> F) (m : result E A) : result F A :=
  match m with Ok a => Ok a | Err e => Err (f e) end.

Definition is_ok {E A} (m : result E A) : bool :=
  match m with Ok _ => true | Err _ => false end.

Declare Scope rust_scope.
Delimit Scope rust_scope with rust.
#[global] Open Scope rust_scope.

(** [let? x := e in k] is Rust's [let x = e?; k]. *)
Notation "'let?' x ':=' e 'in' k" := (result_bind e (fun x => k))
  (at level 10, x pattern, e at level 100, k at level 200) : rust_scope.

#[global] Instance result_eq_dec {E A} `{EqDecision E, EqDecision A} : EqDecision (result E A).
Proof. solve_decision. Defined.

Lemma result_bind_ok {E A B} (m : result E A) (k : A -> result E B) b :
  result_bind m k = Ok b <-> exists a, m = Ok a /\ k a = Ok b.
Proof. destruct m; simpl; naive_solver. Qed.

Lemma result_bind_err {E A B} (m : result E A) (k : A -> result E B) e :
  result_bind m k = Err e <-> m = Err e \/ exists a, m = Ok a /\ k a = Err e.
Proof. destruct m; simpl; naive_solver. Qed.

(** ** Machine-width integers: a [w]-bit integer is a [Z], with its wrap-around written out *)

Definition u32_max : Z := 2 ^ 32 - 1.
Definition u64_max : Z := 2 ^ 64 - 1.
Definition in_u (w : Z) (z : Z) : Prop := 0 <= z < 2 ^ w.
Definition in_s (w : Z) (z : Z) : Prop := - 2 ^ (w - 1) <= z < 2 ^ (w - 1).
Definition wrap_u (w z : Z) : Z := z mod 2 ^ w.
Definition wrap_s (w z : Z) : Z := (z + 2 ^ (w - 1)) mod 2 ^ w - 2 ^ (w - 1).

#[global] Instance in_u_dec w z : Decision (in_u w z).
Proof. unfold in_u. apply _. Defined.
#[global] Instance in_s_dec w z : Decision (in_s w z).
Proof. unfold in_s. apply _. Defined.

(** [u64::saturating_add] and [u64::saturating_sub]. *)
Definition sat_add (a b : Z) : Z := Z.min (a + b) u64_max.
Definition sat_sub (a b : Z) : Z := Z.max (a - b) 0.

Lemma wrap_u_id w z : in_u w z -> wrap_u w z = z.
Proof. intros H. by apply Z.mod_small. Qed.

Lemma wrap_s_id w z : 0 < w -> in_s w z -> wrap_s w z = z.
Proof.
  unfold wrap_s, in_s. intros Hw H.
  assert (2 ^ w = 2 * 2 ^ (w - 1)) as E
    by (rewrite <- Z.pow_succ_r by lia; f_equal; lia).
  rewrite Z.mod_small; lia.
Qed.

Lemma sat_add_in_u a b : 0 <= a -> 0 <= b -> in_u 64 (sat_add a b).
Proof. unfold in_u, sat_add, u64_max. lia. Qed.

Lemma sat_add_mono a b : in_u 64 a -> 0 <= b -> a <= sat_add a b.
Proof. unfold in_u, sat_add, u64_max. lia. Qed.

(** ** Bytes and the fixed-width integer encodings of the Rust standard library *)

Definition Z_of_byte (b : byte) : Z := Z.of_N (Byte.to_N b).
Definition byte_of_Z (z : Z) : byte :=
  match Byte.of_N (Z.to_N (z mod 256)) with Some b => b | None => x00 end.

Lemma Z_of_byte_range b : 0 <= Z_of_byte b < 256.
Proof. unfold Z_of_byte. pose proof (Byte.to_N_bounded b). lia. Qed.

Lemma Z_of_byte_of_Z z : Z_of_byte (byte_of_Z z) = z mod 256.
Proof.
  unfold byte_of_Z, Z_of_byte.
  pose proof (Z.mod_pos_bound z 256 ltac:(lia)) as Hb.
  destruct (Byte.of_N (Z.to_N (z mod 256))) as [b|] eqn:E.
  - apply Byte.to_of_N in E. rewrite E. lia.
  - apply Byte.of_N_None_iff in E. lia.
Qed.

Lemma Z_of_byte_inj a b : Z_of_byte a = Z_of_byte b -> a = b.
Proof.
  unfold Z_of_byte. intros H%N2Z.inj.
  pose proof (Byte.of_to_N a). pose proof (Byte.of_to_N b). congruence.
Qed.

Lemma byte_of_Z_of_byte b : byte_of_Z (Z_of_byte b) = b.
Proof.
  apply Z_of_byte_inj. rewrite Z_of_byte_of_Z. apply Z.mod_small, Z_of_byte_range.
Qed.

#[global] Instance byte_eq_dec : EqDecision byte.
Proof. intros a b. exact (Byte.byte_eq_dec a b). Defined.

(** [uN::to_le_bytes] / [to_be_bytes] on [n] bytes; a value outside the width is
    truncated first, as Rust's [as] does. *)
Fixpoint le_bytes (n : nat) (z : Z) : list byte :=
  match n with
  | O => []
  | S n => byte_of_Z z :: le_bytes n (z / 256)
  end.
Fixpoint le_val (l : list byte) : Z :=
  match l with
  | [] => 0
  | b :: l => Z_of_byte b + 256 * le_val l
  end.
Definition be_bytes (n : nat) (z : Z) : list byte := rev (le_bytes n z).
Definition be_val (l : list byte) : Z := le_val (rev l).

Lemma le_bytes_length n z : length (le_bytes n z) = n.
Proof. revert z; induction n as [|n IH]; intros z; simpl; [done|by rewrite IH]. Qed.

Lemma be_bytes_length n z : length (be_bytes n z) = n.
Proof. unfold be_bytes. by rewrite length_rev, le_bytes_length. Qed.

Lemma le_val_bytes n z : le_val (le_bytes n z) = z mod 256 ^ Z.of_nat n.
Proof.
  revert z; induction n as [|n IH]; intros z.
  - simpl. by rewrite Z.mod_1_r.
  - cbn [le_bytes le_val]. rewrite IH, Z_of_byte_of_Z.
    rewrite Nat2Z.inj_succ, Z.pow_succ_r by lia.
    rewrite Z.rem_mul_r by lia. lia.
Qed.

Lemma be_val_bytes n z : be_val (be_bytes n z) = z mod 256 ^ Z.of_nat n.
Proof. unfold be_val, be_bytes. by rewrite rev_involutive, le_val_bytes. Qed.

Lemma le_val_range l : 0 <= le_val l < 256 ^ Z.of_nat (length l).
Proof.
  induction l as [|b l IH]; [simpl; lia|].
  cbn [le_val length]. rewrite Nat2Z.inj_succ, Z.pow_succ_r by lia.
  pose proof (Z_of_byte_range b). lia.
Qed.

Lemma le_bytes_val l : le_bytes (length l) (le_val l) = l.
Proof.
  induction l as [|b l IH]; [done|]. cbn [le_val length le_bytes].
  pose proof (Z_of_byte_range b) as Hb. f_equal.
  - apply Z_of_byte_inj. rewrite Z_of_byte_of_Z.
    rewrite Z.mul_comm, Z_mod_plus_full. by apply Z.mod_small.
  - rewrite Z.mul_comm, Z.div_add by lia. rewrite Z.div_small by lia. by rewrite Z.add_0_l.
Qed.

Lemma le_bytes_inj n a b :
  in_u (8 * Z.of_nat n) a -> in_u (8 * Z.of_nat n) b -> le_bytes n a = le_bytes n b -> a = b.
Proof.
  unfold in_u. intros Ha Hb E. apply (f_equal le_val) in E. rewrite !le_val_bytes in E.
  rewrite Z.pow_mul_r in Ha, Hb by lia. change (2 ^ 8) with 256 in *.
  by rewrite !Z.mod_small in E.
Qed.

#[global] Arguments le_bytes : simpl never.
#[global] Arguments be_bytes : simpl never.

Lemma le_bytes_mod n a b :
  a mod 2 ^ (8 * Z.of_nat n) = b mod 2 ^ (8 * Z.of_nat n) -> le_bytes n a = le_bytes n b.
Proof.
  intros E. rewrite <- (le_bytes_val (le_bytes n a)), <- (le_bytes_val (le_bytes n b)).
  rewrite !le_val_bytes, !le_bytes_length. change 256 with (2 ^ 8).
  rewrite <- Z.pow_mul_r by lia. by rewrite E.
Qed.

(** Two's complement: the signed reading of the same bytes. *)
Definition to_signed (w z : Z) : Z := if z <? 2 ^ (w - 1) then z else z - 2 ^ w.

Lemma to_signed_wrap w z : 0 < w -> in_s w z -> to_signed w (z mod 2 ^ w) = z.
Proof.
  unfold to_signed, in_s. intros Hw H.
  assert (2 ^ w = 2 * 2 ^ (w - 1)) as E
    by (rewrite <- Z.pow_succ_r by lia; f_equal; lia).
  destruct (decide (0 <= z)).
  - rewrite Z.mod_small by lia. destruct (Z.ltb_spec z (2 ^ (w - 1))); lia.
  - rewrite <- (Z.mod_add z 1) by lia. rewrite Z.mod_small by lia.
    destruct (Z.ltb_spec (z + 1 * 2 ^ w) (2 ^ (w - 1))); lia.
Qed.

Lemma to_signed_bytes n z :
  (0 < n)%nat -> in_s (8 * Z.of_nat n) z ->
  to_signed (8 * Z.of_nat n) (be_val (be_bytes n z)) = z.
Proof.
  intros Hn H. rewrite be_val_bytes.
  change 256 with (2 ^ 8). rewrite <- Z.pow_mul_r by lia.
  apply to_signed_wrap; [lia|done].
Qed.

Lemma be_bytes_signed_inj n a b :
  (0 < n)%nat -> in_s (8 * Z.of_nat n) a -> in_s (8 * Z.of_nat n) b ->
  be_bytes n a = be_bytes n b -> a = b.
Proof.
  intros Hn Ha Hb E.
  rewrite <- (to_signed_bytes n a Hn Ha), <- (to_signed_bytes n b Hn Hb). by rewrite E.
Qed.

(** ** Derived orders: [#[derive(PartialOrd, Ord)]] as a lawful three-way comparison *)

Class CmpOrder {A : Type} (cmp : A -> A -> comparison) : Prop := {
  cmp_eq x y : cmp x y = Eq <-> x = y;
  cmp_flip x y : cmp y x = CompOpp (cmp x y);
  cmp_lt_trans x y z : cmp x y = Lt -> cmp y z = Lt -> cmp x z = Lt
}.

Definition cmp_le {A} (cmp : A -> A -> comparison) (x y : A) : Prop := cmp x y <> Gt.

#[global] Instance cmp_le_dec {A} (cmp : A -> A -> comparison) x y : Decision (cmp_le cmp x y).
Proof. unfold cmp_le, Decision. destruct (cmp x y); (left; discriminate) || (right; tauto). Defined.

Section cmp_order.
Context {A : Type} (cmp : A -> A -> comparison) `{!CmpOrder cmp}.

Lemma cmp_refl x : cmp x x = Eq.
Proof. by apply cmp_eq. Qed.

#[global] Instance cmp_le_total : Total (cmp_le cmp).
Proof.
  intros x y. unfold cmp_le. rewrite (cmp_flip (cmp:=cmp) x y).
  destruct (cmp x y); simpl; (left; discriminate) || (right; discriminate).
Qed.

#[global] Instance cmp_le_antisymm : AntiSymm (=) (cmp_le cmp).
Proof.
  intros x y. unfold cmp_le. rewrite (cmp_flip (cmp:=cmp) x y).
  destruct (cmp x y) eqn:E; simpl; intros; try done. by apply cmp_eq.
Qed.

#[global] Instance cmp_le_trans : Transitive (cmp_le cmp).
Proof.
  intros x y z. unfold cmp_le.
  destruct (cmp x y) eqn:E1, (cmp y z) eqn:E2; try done;
    repeat match goal with H : cmp _ _ = Eq |- _ => apply cmp_eq in H; subst end; try congruence.
  - by rewrite (cmp_refl z).
  - by rewrite (cmp_lt_trans _ _ _ E1 E2).
Qed.

(** [<[T]>::sort]: for a total order whose equality is identity, any sort gives
    the one sorted permutation. *)
Definition rust_sort (l : list A) : list A := merge_sort (cmp_le cmp) l.

Lemma rust_sort_perm l : rust_sort l ≡ₚ l.
Proof. apply merge_sort_Permutation. Qed.

Lemma rust_sort_sorted l : StronglySorted (cmp_le cmp) (rust_sort l).
Proof. apply StronglySorted_merge_sort; apply _. Qed.

(** Sorting is a canonical form of the multiset. *)
Lemma rust_sort_canonical l1 l2 : rust_sort l1 = rust_sort l2 <-> l1 ≡ₚ l2.
Proof.
  split; intros H.
  - rewrite <- (rust_sort_perm l1), H. apply rust_sort_perm.
  - apply (StronglySorted_unique (cmp_le cmp)); [apply rust_sort_sorted..|].
    by rewrite !rust_sort_perm.
Qed.
End cmp_order.

(** Lexicographic comparison of slices ([Vec<T>: Ord]). *)
Fixpoint lex_cmp {A} (cmp : A -> A -> comparison) (l1 l2 : list A) : comparison :=
  match l1, l2 with
  | [], [] => Eq
  | [], _ :: _ => Lt
  | _ :: _, [] => Gt
  | x :: l1, y :: l2 => match cmp x y with Eq => lex_cmp cmp l1 l2 | c => c end
  end.

#[global] Instance lex_cmp_order {A} (cmp : A -> A -> comparison) :
  CmpOrder cmp -> CmpOrder (lex_cmp cmp).
Proof.
  intros Hc. split.
  - induction x as [|x l IH]; intros [|y l2]; simpl; try done.
    destruct (cmp x y) eqn:E.
    + apply cmp_eq in E as ->. rewrite IH. naive_solver.
    + split; [done|]. intros [= -> ->]. rewrite cmp_refl in E; done.
    + split; [done|]. intros [= -> ->]. rewrite cmp_refl in E; done.
  - induction x as [|x l IH]; intros [|y l2]; simpl; try done.
    rewrite (cmp_flip (cmp:=cmp) x y). destruct (cmp x y); simpl; auto.
  - induction x as [|x l IH]; intros [|y l2] [|z l3]; simpl; try done.
    destruct (cmp x y) eqn:E1, (cmp y z) eqn:E2; try done;
      repeat match goal with H : cmp _ _ = Eq |- _ => apply cmp_eq in H; subst end.
    + rewrite cmp_refl by done. apply IH.
    + by rewrite E2.
    + by rewrite E1.
    + by rewrite (cmp_lt_trans _ _ _ E1 E2).
Qed.

#[global] Instance Z_cmp_order : CmpOrder Z.compare.
Proof.
  split.
  - apply Z.compare_eq_iff.
  - intros. apply Z.compare_antisym.
  - intros x y z. rewrite !Z.compare_lt_iff. lia.
Qed.

(** ** Strings: a Rust [String] is its byte sequence *)

Definition as_bytes (s : string) : list byte := String.list_byte_of_string s.
Definition of_bytes (l : list byte) : string := String.string_of_list_byte l.

Lemma of_as_bytes s : of_bytes (as_bytes s) = s.
Proof. apply String.string_of_list_byte_of_string. Qed.

Lemma as_of_bytes l : as_bytes (of_bytes l) = l.
Proof. apply String.list_byte_of_string_of_list_byte. Qed.

#[global] Instance as_bytes_inj : Inj (=) (=) as_bytes.
Proof. intros a b E. rewrite <- (of_as_bytes a), <- (of_as_bytes b). by rewrite E. Qed.

Definition byte_cmp (a b : byte) : comparison := Z.compare (Z_of_byte a) (Z_of_byte b).

#[global] Instance byte_cmp_order : CmpOrder byte_cmp.
Proof.
  split; unfold byte_cmp.
  - intros x y. rewrite Z.compare_eq_iff. split; [apply Z_of_byte_inj|by intros ->].
  - intros. apply Z.compare_antisym.
  - intros x y z. rewrite !Z.compare_lt_iff. lia.
Qed.

(** [str: Ord] compares the UTF-8 bytes. *)
Definition str_cmp (a b : string) : comparison := lex_cmp byte_cmp (as_bytes a) (as_bytes b).

#[global] Instance str_cmp_order : CmpOrder str_cmp.
Proof.
  split; unfold str_cmp.
  - intros x y. rewrite cmp_eq. split; [apply as_bytes_inj|by intros ->].
  - intros. apply cmp_flip.
  - intros x y z. apply cmp_lt_trans.
Qed.

(** ** Self-delimiting encodings *)

(** An encoder is self-delimiting on [P] when two encoded values followed by any
    tails agree only if the values and the tails agree. *)
Definition prefix_free {A} (P : A -> Prop) (enc : A -> list byte) : Prop :=
  forall x y r1 r2, P x -> P y -> enc x ++ r1 = enc y ++ r2 -> x = y /\ r1 = r2.

Lemma prefix_free_flat_map {A} (P : A -> Prop) (enc : A -> list byte) l1 l2 r1 r2 :
  prefix_free P enc -> length l1 = length l2 -> Forall P l1 -> Forall P l2 ->
  concat (map enc l1) ++ r1 = concat (map enc l2) ++ r2 -> l1 = l2 /\ r1 = r2.
Proof.
  intros Hp. revert l2 r1 r2. induction l1 as [|x l1 IH]; intros [|y l2] r1 r2 Hl H1 H2; simpl in *; try done.
  rewrite <- !app_assoc. intros E.
  apply Forall_cons_iff in H1 as [Hx H1]. apply Forall_cons_iff in H2 as [Hy H2].
  apply Hp in E as [-> E]; [|done..]. apply IH in E as [-> ->]; auto.
Qed.
