(* ===== verification/Text.v ===== *)
(** * Text: the string functions of the Rust standard library the program uses

    [str::trim] (Unicode [White_Space], on the UTF-8 bytes), [to_ascii_lowercase],
    [starts_with], [contains] and the lemmas about them that the components share. *)

From Stdlib Require Import ZifyBool.
From S2P Require Import Prelude.

Module Text.

(** The bytes left after one white-space code point at the front of a UTF-8 sequence.
    The code points are U+0009-000D, 0020, 0085, 00A0, 1680, 2000-200A, 2028, 2029,
    202F, 205F and 3000. *)
Definition strip_ws (l : list byte) : option (list byte) :=
  match map Z_of_byte (take 3 l) with
  | b0 :: rest =>
      if ((9 <=? b0) && (b0 <=? 13)) || (b0 =? 32) then Some (drop 1 l)
      else
        match rest with
        | b1 :: rest2 =>
            if (b0 =? 194) && ((b1 =? 133) || (b1 =? 160)) then Some (drop 2 l)
            else
              match rest2 with
              | [b2] =>
                  if ((b0 =? 225) && (b1 =? 154) && (b2 =? 128))
                     || ((b0 =? 226) && (b1 =? 128) &&
                         (((128 <=? b2) && (b2 <=? 138)) || (b2 =? 168) || (b2 =? 169) || (b2 =? 175)))
                     || ((b0 =? 226) && (b1 =? 129) && (b2 =? 159))
                     || ((b0 =? 227) && (b1 =? 128) && (b2 =? 128))
                  then Some (drop 3 l)
                  else None
              | _ => None
              end
        | [] => None
        end
  | [] => None
  end.

(** The same at the back: [l] is the reversed byte sequence. *)
Definition strip_ws_back (l : list byte) : option (list byte) :=
  match strip_ws (rev (take 1 l)) with
  | Some [] => Some (drop 1 l)
  | _ =>
      match strip_ws (rev (take 2 l)) with
      | Some [] => Some (drop 2 l)
      | _ =>
          match strip_ws (rev (take 3 l)) with
          | Some [] => Some (drop 3 l)
          | _ => None
          end
      end
  end.

(** Repeats a strip; each strip removes at least one byte, so the length is enough fuel. *)
Fixpoint strip_all (strip : list byte -> option (list byte)) (fuel : nat) (l : list byte) : list byte :=
  match fuel with
  | O => l
  | S fuel => match strip l with Some l' => strip_all strip fuel l' | None => l end
  end.

Definition trim_start (l : list byte) : list byte := strip_all strip_ws (length l) l.
Definition trim_end (l : list byte) : list byte :=
  rev (strip_all strip_ws_back (length l) (rev l)).
Definition trim_bytes (l : list byte) : list byte := trim_end (trim_start l).
Definition trim (s : string) : string := of_bytes (trim_bytes (as_bytes s)).

Definition is_blank (s : string) : bool := bool_decide (trim s = ""%string).

(** [u8::to_ascii_lowercase] on every byte. *)
Definition ascii_lower (b : byte) : byte :=
  let z := Z_of_byte b in if (65 <=? z) && (z <=? 90) then byte_of_Z (z + 32) else b.
Definition to_ascii_lowercase (s : string) : string := of_bytes (map ascii_lower (as_bytes s)).

Fixpoint starts_with (p l : list byte) : bool :=
  match p, l with
  | [], _ => true
  | a :: p, b :: l => bool_decide (a = b) && starts_with p l
  | _ :: _, [] => false
  end.

(** [str::contains] on a substring. *)
Fixpoint contains (p l : list byte) : bool :=
  starts_with p l || match l with [] => false | _ :: l => contains p l end.

Lemma strip_ws_shorter l l' : strip_ws l = Some l' -> (length l' < length l)%nat.
Proof.
  unfold strip_ws. destruct l as [|a [|b [|c l]]]; simpl; repeat case_match; intros; simplify_eq/=; rewrite ?drop_0; lia.
Qed.

(** A white-space code point does not end in a closing brace. *)
Lemma strip_ws_last l : strip_ws l = Some [] -> last l <> Some x7d.
Proof.
  intros H E. unfold strip_ws in H.
  destruct l as [|a [|b [|c [|d l]]]]; simpl in H, E; simplify_eq/=;
    repeat (case_match; simplify_eq/=); try done.
  all: try (change (Z_of_byte x7d) with 125 in *; lia).
Qed.

Lemma starts_with_spec p l : starts_with p l = true <-> exists r, l = p ++ r.
Proof.
  revert l. induction p as [|a p IH]; intros [|b l]; simpl.
  - split; [by exists []|done].
  - split; [by exists (b :: l)|done].
  - split; [done|by intros [r ?]].
  - rewrite andb_true_iff, bool_decide_eq_true, IH. split.
    + intros [-> [r ->]]. by exists r.
    + intros [r [= -> ->]]. eauto.
Qed.

Example trim_works : trim (of_bytes [x20; xc2; xa0; x61; x20; x62; xe3; x80; x80; x0a]) = "a b"%string.
Proof. reflexivity. Qed.

End Text.
