(* ===== verification/PkChecksum.v ===== *)
(** * PkChecksum: the affected-primary-key-set checksum

    Models [src/crates/core/src/pk_checksum.rs].  A key value carries its type;
    values, tuples and the sorted multiset of tuples are serialised into one byte
    stream, which is hashed.  The hash ([sha2::Sha256] followed by [hex::encode],
    both third-party) is the section parameter [sha256_hex]; no property is assumed
    of it: where a theorem needs two streams to hash apart, its conclusion offers
    the colliding pair instead. *)

From S2P Require Import Prelude.

Module PkChecksum.

(** ** Typed key values *)

Inductive PkValue : Type :=
| Int (v : Z)              (* i64 *)
| Text (s : string)
| Bytes (b : list byte)
| Null.

#[global] Instance PkValue_eq_dec : EqDecision PkValue.
Proof. solve_decision. Defined.

Definition value_tag (v : PkValue) : byte :=
  match v with
  | Int _ => x01
  | Text _ => x02
  | Bytes _ => x03
  | Null => x00
  end.

(** [(bytes.len() as u32).to_le_bytes()]: the [as] cast truncates. *)
Definition len_u32_le {A} (l : list A) : list byte := le_bytes 4 (Z.of_nat (length l)).
Definition len_u64_le {A} (l : list A) : list byte := le_bytes 8 (Z.of_nat (length l)).

Lemma len_u32_le_length {A} (l : list A) : length (len_u32_le l) = 4%nat.
Proof. apply le_bytes_length. Qed.

Lemma len_u64_le_length {A} (l : list A) : length (len_u64_le l) = 8%nat.
Proof. apply le_bytes_length. Qed.

Definition value_encode_into (v : PkValue) (out : list byte) : list byte :=
  let out := out ++ [value_tag v] in
  match v with
  | Int i => let bytes := be_bytes 8 i in (out ++ len_u32_le bytes) ++ bytes
  | Text s => let bytes := as_bytes s in (out ++ len_u32_le bytes) ++ bytes
  | Bytes b => (out ++ len_u32_le b) ++ b
  | Null => out ++ le_bytes 4 0
  end.

(** The derived [Ord]: variants in declaration order, then the payload. *)
Definition variant_index (v : PkValue) : Z :=
  match v with Int _ => 0 | Text _ => 1 | Bytes _ => 2 | Null => 3 end.

Definition value_cmp (a b : PkValue) : comparison :=
  match a, b with
  | Int x, Int y => Z.compare x y
  | Text x, Text y => str_cmp x y
  | Bytes x, Bytes y => lex_cmp byte_cmp x y
  | Null, Null => Eq
  | _, _ => Z.compare (variant_index a) (variant_index b)
  end.

(** ** Key tuples *)

Record PkTuple : Type := mkPkTuple { tuple_values : list PkValue }.

#[global] Instance PkTuple_eq_dec : EqDecision PkTuple.
Proof. solve_decision. Defined.

Inductive ChecksumError : Type :=
| Refused (relation : string)
| EmptyTuple
| InconsistentArity (expected actual : nat).

Definition tuple_new (values : list PkValue) : result ChecksumError PkTuple :=
  match values with
  | [] => Err EmptyTuple
  | _ => Ok (mkPkTuple values)
  end.

Definition tuple_single (v : PkValue) : PkTuple := mkPkTuple [v].

Definition tuple_encode_into (t : PkTuple) (out : list byte) : list byte :=
  foldl (fun out v => value_encode_into v out) (out ++ len_u32_le (tuple_values t))
    (tuple_values t).

Definition tuple_cmp (a b : PkTuple) : comparison :=
  lex_cmp value_cmp (tuple_values a) (tuple_values b).

(** ** The builder *)

Record PkSetBuilder : Type := mkBuilder {
  relation : string;
  arity : option nat;
  tuples : list PkTuple;
  pk_less : bool
}.

Definition for_relation (rel : string) : PkSetBuilder := mkBuilder rel None [] false.
Definition new_pk_less (rel : string) : PkSetBuilder := mkBuilder rel None [] true.

(** [push(&mut self, …)]: the builder after the call and the call's result. *)
Definition push (b : PkSetBuilder) (t : PkTuple) : PkSetBuilder * result ChecksumError unit :=
  let ar := length (tuple_values t) in
  match arity b with
  | Some expected =>
      if decide (expected = ar)
      then (mkBuilder (relation b) (arity b) (tuples b ++ [t]) (pk_less b), Ok tt)
      else (b, Err (InconsistentArity expected ar))
  | None => (mkBuilder (relation b) (Some ar) (tuples b ++ [t]) (pk_less b), Ok tt)
  end.

Definition builder_len (b : PkSetBuilder) : nat := length (tuples b).

Definition builder_is_empty (b : PkSetBuilder) : bool :=
  match tuples b with [] => true | _ => false end.

Definition domain_tag : list byte := as_bytes "pgb-pkset-v1" ++ [x00].

(** The bytes fed to the hasher, in the order of the [update] calls. *)
Definition hashed_stream (ts : list PkTuple) : list byte :=
  foldl (fun acc t => let buf := tuple_encode_into t [] in (acc ++ len_u64_le buf) ++ buf)
    (domain_tag ++ len_u64_le ts) ts.

Section hash.
Variable sha256_hex : list byte -> string.

Definition finalize (b : PkSetBuilder) : result ChecksumError string :=
  if pk_less b then Err (Refused (relation b))
  else Ok (sha256_hex (hashed_stream (rust_sort tuple_cmp (tuples b)))).
End hash.

Definition as_prefixed (hex : string) : string := String.append "sha256:" hex.

(** ** The derived order is lawful *)

#[global] Instance value_cmp_order : CmpOrder value_cmp.
Proof.
  split.
  - intros [] []; simpl; try done; rewrite ?cmp_eq; naive_solver.
  - intros [] []; simpl; try done; apply cmp_flip.
  - intros [] [] []; simpl; try done; apply cmp_lt_trans.
Qed.

#[global] Instance tuple_cmp_order : CmpOrder tuple_cmp.
Proof.
  split; unfold tuple_cmp.
  - intros [x] [y]. rewrite cmp_eq. naive_solver.
  - intros. apply cmp_flip.
  - intros x y z. apply cmp_lt_trans.
Qed.

(** ** The encoding is self-delimiting *)

(** What fits the [u32] prefixes: the [as u32] casts truncate nothing. *)
Definition value_fits (v : PkValue) : Prop :=
  match v with
  | Int i => in_s 64 i
  | Text s => in_u 32 (Z.of_nat (length (as_bytes s)))
  | Bytes b => in_u 32 (Z.of_nat (length b))
  | Null => True
  end.

Definition tuple_fits (t : PkTuple) : Prop :=
  in_u 32 (Z.of_nat (length (tuple_values t))) /\ Forall value_fits (tuple_values t).

#[global] Instance value_fits_dec v : Decision (value_fits v).
Proof. destruct v; apply _. Defined.
#[global] Instance tuple_fits_dec t : Decision (tuple_fits t).
Proof. apply _. Defined.

Definition value_payload (v : PkValue) : list byte :=
  match v with
  | Int i => be_bytes 8 i
  | Text s => as_bytes s
  | Bytes b => b
  | Null => []
  end.

Definition value_enc (v : PkValue) : list byte :=
  [value_tag v] ++ len_u32_le (value_payload v) ++ value_payload v.

Definition tuple_enc (t : PkTuple) : list byte :=
  len_u32_le (tuple_values t) ++ concat (map value_enc (tuple_values t)).

Definition framed_tuple (t : PkTuple) : list byte := len_u64_le (tuple_enc t) ++ tuple_enc t.

Lemma value_encode_into_app v out : value_encode_into v out = out ++ value_enc v.
Proof.
  destruct v; unfold value_encode_into, value_enc; simpl; by rewrite <- ?app_assoc, ?app_nil_r.
Qed.

Lemma tuple_encode_into_app t out : tuple_encode_into t out = out ++ tuple_enc t.
Proof.
  destruct t as [vs]. unfold tuple_encode_into, tuple_enc; cbn [tuple_values].
  rewrite app_assoc. generalize (out ++ len_u32_le vs). clear out.
  induction vs as [|v vs IH]; intros out; simpl; [by rewrite app_nil_r|].
  by rewrite IH, value_encode_into_app, <- app_assoc.
Qed.

Lemma hashed_stream_app ts :
  hashed_stream ts = domain_tag ++ len_u64_le ts ++ concat (map framed_tuple ts).
Proof.
  unfold hashed_stream. rewrite app_assoc. generalize (domain_tag ++ len_u64_le ts).
  induction ts as [|t ts IH]; intros out; simpl; [by rewrite app_nil_r|].
  rewrite IH. rewrite tuple_encode_into_app. unfold framed_tuple. simpl.
  by rewrite <- !app_assoc.
Qed.

Lemma len_u32_le_inj {A B} (l1 : list A) (l2 : list B) r1 r2 :
  in_u 32 (Z.of_nat (length l1)) -> in_u 32 (Z.of_nat (length l2)) ->
  len_u32_le l1 ++ r1 = len_u32_le l2 ++ r2 -> length l1 = length l2 /\ r1 = r2.
Proof.
  intros H1 H2 E. apply app_inj_1 in E as [E ->]; [|by rewrite !len_u32_le_length].
  apply (le_bytes_inj 4) in E; [split; [lia|done]|done..].
Qed.

Lemma value_payload_inj v w :
  value_fits v -> value_fits w -> value_tag v = value_tag w ->
  value_payload v = value_payload w -> v = w.
Proof.
  destruct v, w; simpl; try done; intros H1 H2 _ E.
  - f_equal. apply (be_bytes_signed_inj 8); [lia|done..].
  - f_equal. by apply as_bytes_inj.
  - by subst.
Qed.

Lemma value_payload_fits v : value_fits v -> in_u 32 (Z.of_nat (length (value_payload v))).
Proof. by destruct v. Qed.

Lemma value_enc_prefix_free : prefix_free value_fits value_enc.
Proof.
  intros v w r1 r2 Hv Hw E. unfold value_enc in E.
  rewrite <- !app_assoc in E. apply app_inj_1 in E as [[= Et] E]; [|done].
  apply len_u32_le_inj in E as [Hl E]; [|by apply value_payload_fits..].
  apply app_inj_1 in E as [E ->]; [|done]. split; [|done]. by apply value_payload_inj.
Qed.

Lemma tuple_enc_prefix_free : prefix_free tuple_fits tuple_enc.
Proof.
  intros [vs] [ws] r1 r2 [Hl1 Hv] [Hl2 Hw] E. unfold tuple_enc in E. cbn [tuple_values] in *.
  rewrite <- !app_assoc in E. apply len_u32_le_inj in E as [Hl E]; [|done..].
  apply (prefix_free_flat_map value_fits) in E as [-> ->]; auto using value_enc_prefix_free.
Qed.

Lemma framed_tuple_prefix_free : prefix_free tuple_fits framed_tuple.
Proof.
  intros t u r1 r2 Ht Hu E. unfold framed_tuple in E. rewrite <- !app_assoc in E.
  apply app_inj_1 in E as [_ E]; [|by rewrite !len_u64_le_length].
  by apply tuple_enc_prefix_free.
Qed.

Lemma hashed_stream_inj ts us :
  in_u 64 (Z.of_nat (length ts)) -> in_u 64 (Z.of_nat (length us)) ->
  Forall tuple_fits ts -> Forall tuple_fits us ->
  hashed_stream ts = hashed_stream us -> ts = us.
Proof.
  intros Hl1 Hl2 H1 H2 E. rewrite !hashed_stream_app in E.
  apply app_inv_head in E.
  apply app_inj_1 in E as [El E]; [|by rewrite !len_u64_le_length].
  apply (le_bytes_inj 8) in El; [|done..].
  rewrite <- (app_nil_r (concat _)), <- (app_nil_r (concat (map framed_tuple us))) in E.
  apply (prefix_free_flat_map tuple_fits) in E as [-> _]; auto using framed_tuple_prefix_free. lia.
Qed.

Lemma finalize_ok f b h :
  finalize f b = Ok h <->
  pk_less b = false /\ h = f (hashed_stream (rust_sort tuple_cmp (tuples b))).
Proof. unfold finalize. destruct (pk_less b); naive_solver. Qed.

(** ** Sequences of pushes *)

Definition push_all (b : PkSetBuilder) (ts : list PkTuple) : PkSetBuilder :=
  foldl (fun b t => (push b t).1) b ts.

(** The builder's invariant: the arity is that of every collected tuple, and is
    set as soon as there is one. *)
Definition builder_wf (b : PkSetBuilder) : Prop :=
  match arity b with
  | None => tuples b = []
  | Some n => tuples b <> [] /\ Forall (fun t => length (tuple_values t) = n) (tuples b)
  end.

Definition same_arity (n : nat) (t : PkTuple) : bool := bool_decide (n = length (tuple_values t)).

Lemma push_wf b t : builder_wf b -> builder_wf (push b t).1.
Proof.
  unfold builder_wf, push. destruct (arity b) as [n|] eqn:Ea; simpl.
  - intros [Hne Hall]. case_decide as Hn; simpl; [|by rewrite Ea].
    split; [by destruct (tuples b)|]. apply Forall_app. split; [done|]. by repeat constructor.
  - intros ->. split; [done|]. by repeat constructor.
Qed.

Lemma push_some b n t :
  arity b = Some n ->
  (push b t).1 = if same_arity n t
                 then mkBuilder (relation b) (Some n) (tuples b ++ [t]) (pk_less b) else b.
Proof.
  unfold push, same_arity. intros Ha. rewrite Ha.
  case_decide; [rewrite bool_decide_eq_true_2 by done|rewrite bool_decide_eq_false_2 by done]; done.
Qed.

Lemma push_all_some b n ts :
  arity b = Some n ->
  push_all b ts = mkBuilder (relation b) (Some n) (tuples b ++ List.filter (same_arity n) ts) (pk_less b).
Proof.
  revert b. induction ts as [|t ts IH]; intros b Ha; simpl.
  - destruct b; simpl in *. by rewrite app_nil_r, Ha.
  - rewrite (push_some b n t Ha). destruct (same_arity n t); rewrite IH by done; simpl; [|done].
    by rewrite <- app_assoc.
Qed.

(** ** Properties *)

(** The checksum does not depend on the order in which the affected rows were
    collected: two builders of key-carrying relations whose tuples are permutations
    of each other finalize to the same checksum, whatever the hash function. *)
Theorem finalize_order_independent (sha256_hex : list byte -> string) (b1 b2 : PkSetBuilder) :
  pk_less b1 = false -> pk_less b2 = false -> tuples b1 ≡ₚ tuples b2 ->
  finalize sha256_hex b1 = finalize sha256_hex b2.
Proof.
  intros H1 H2 Hp. unfold finalize. rewrite H1, H2. do 3 f_equal.
  by apply rust_sort_canonical; [apply _|].
Qed.

Lemma finalize_order_independent_witness :
  finalize (fun l => of_bytes l) (push_all (for_relation "a.t") [tuple_single (Int 2); tuple_single (Int 1)]) =
  finalize (fun l => of_bytes l) (push_all (for_relation "b.u") [tuple_single (Int 1); tuple_single (Int 2)]).
Proof.
  apply finalize_order_independent; [reflexivity|reflexivity|]. vm_compute. constructor.
Defined.

(** The checksum identifies the affected rows: when two builders finalize to the
    same checksum, either they collected the same multiset of typed key tuples or the
    two hashed byte streams are a collision of the hash.  Row-identity drift with an
    unchanged count, a swapped column, or an integer key replaced by the text of the
    same digits is therefore visible.  The sizes are those the length prefixes can
    carry ([u32] per value and per tuple, [u64] for the set). *)
Theorem finalize_identifies_rows (sha256_hex : list byte -> string) (b1 b2 : PkSetBuilder) (h : string) :
  in_u 64 (Z.of_nat (builder_len b1)) -> in_u 64 (Z.of_nat (builder_len b2)) ->
  Forall tuple_fits (tuples b1) -> Forall tuple_fits (tuples b2) ->
  finalize sha256_hex b1 = Ok h -> finalize sha256_hex b2 = Ok h ->
  tuples b1 ≡ₚ tuples b2 \/
  exists x y, x <> y /\ sha256_hex x = sha256_hex y.
Proof.
  unfold builder_len. intros Hl1 Hl2 Hf1 Hf2 [_ ->]%finalize_ok [_ E]%finalize_ok.
  destruct (decide (hashed_stream (rust_sort tuple_cmp (tuples b1)) =
                    hashed_stream (rust_sort tuple_cmp (tuples b2)))) as [Es|Hne].
  - left. apply (rust_sort_canonical tuple_cmp), hashed_stream_inj; try done;
      rewrite rust_sort_perm by apply _; done.
  - right. eauto.
Qed.

Lemma finalize_identifies_rows_witness :
  [tuple_single (Int 1)] ≡ₚ [tuple_single (Int 1)] \/ exists x y, x <> y /\ of_bytes x = of_bytes y.
Proof.
  apply (finalize_identifies_rows of_bytes
           (push_all (for_relation "a.t") [tuple_single (Int 1)])
           (push_all (for_relation "b.u") [tuple_single (Int 1)])
           (of_bytes (hashed_stream [tuple_single (Int 1)])));
    first [by_decide|reflexivity].
Defined.

(** Collecting [t :: ts] into a fresh builder keeps exactly the tuples whose arity is
    that of [t], in order; a tuple of another arity is reported as
    [InconsistentArity] and leaves the builder as it was. *)
Theorem push_all_keeps_first_arity (rel : string) (t : PkTuple) (ts : list PkTuple) :
  let n := length (tuple_values t) in
  let b := push_all (for_relation rel) (t :: ts) in
  tuples b = t :: List.filter (same_arity n) ts /\ builder_wf b /\
  forall u, length (tuple_values u) <> n ->
    push b u = (b, Err (InconsistentArity n (length (tuple_values u)))).
Proof.
  intros n b.
  assert (b = mkBuilder rel (Some n) (t :: List.filter (same_arity n) ts) false) as ->
    by (unfold b; simpl; by rewrite (push_all_some _ n)).
  split; [done|]. split.
  - unfold builder_wf; simpl. split; [done|]. constructor; [done|].
    apply List.Forall_forall. intros u [_ Hu]%filter_In. by apply bool_decide_eq_true in Hu.
  - intros u Hu. unfold push; simpl. by rewrite decide_False by congruence.
Qed.

Lemma push_all_pk_less b ts : pk_less (push_all b ts) = pk_less b /\ relation (push_all b ts) = relation b.
Proof.
  revert b. induction ts as [|t ts IH]; intros b; simpl; [done|].
  destruct (IH (push b t).1) as [-> ->]. unfold push. destruct (arity b); [case_decide|]; done.
Qed.

(** A relation without a usable primary key is refused whatever was collected: there
    is no fallback identity. *)
Theorem pk_less_always_refused (sha256_hex : list byte -> string) (rel : string) (ts : list PkTuple) :
  finalize sha256_hex (push_all (new_pk_less rel) ts) = Err (Refused rel).
Proof. unfold finalize. by destruct (push_all_pk_less (new_pk_less rel) ts) as [-> ->]. Qed.

End PkChecksum.
