(* ===== verification/Inverse.v ===== *)
(** * Inverse: typed-inverse capture and the default-deny certified action set

    Models [src/crates/core/src/inverse.rs]: the captured pre-images and the inverse
    plan they build, the effects a revert does not undo, and [certify], the one choke
    point that decides which operations may ever be applied. *)

From S2P Require Import Prelude PkChecksum.

Module Inverse.
Import PkChecksum.

Inductive InverseKind : Type := PreimageUpsert | InsertRows | NoInverse.

#[global] Instance InverseKind_eq_dec : EqDecision InverseKind.
Proof. solve_decision. Defined.

Definition for_update : InverseKind := PreimageUpsert.
Definition for_delete : InverseKind := InsertRows.

Record InverseRow : Type := mkInverseRow {
  row_pk : PkTuple;
  before_image : list (string * PkValue)
}.

Inductive NotRestored : Type := SequenceAdvance | TriggerSideEffect | NotifyDelivered.

Definition NotRestored_ALL : list NotRestored :=
  [SequenceAdvance; TriggerSideEffect; NotifyDelivered].

Record InversePlan : Type := mkInversePlan {
  plan_relation : string;
  plan_kind : InverseKind;
  plan_rows : list InverseRow;
  plan_fk_order : list string;
  plan_not_restored : list NotRestored
}.

Record InversePlanBuilder : Type := mkPlanBuilder {
  b_relation : string;
  b_kind : InverseKind;
  b_rows : list InverseRow;
  b_fk_order : list string
}.

Definition plan_builder_new (relation : string) (kind : InverseKind) : InversePlanBuilder :=
  mkPlanBuilder relation kind [] [relation].

Definition push_row (b : InversePlanBuilder) (row : InverseRow) : InversePlanBuilder :=
  mkPlanBuilder (b_relation b) (b_kind b) (b_rows b ++ [row]) (b_fk_order b).

Definition set_fk_order (b : InversePlanBuilder) (order : list string) : InversePlanBuilder :=
  mkPlanBuilder (b_relation b) (b_kind b) (b_rows b) order.

Definition plan_build (b : InversePlanBuilder) : InversePlan :=
  mkInversePlan (b_relation b) (b_kind b) (b_rows b) (b_fk_order b) NotRestored_ALL.

(** ** The certified action set *)

Inductive CertifiedAction : Type := BoundedUpdate | BoundedDelete | NonVolatileInsert.

Inductive RefusedOp : Type :=
| RefTruncate
| RefDrop
| RefAlter
| VolatileDefaultInsert
| DeleteWithoutPreimage
| PkLessTable
| NotCertified (what : string).

Inductive Operation : Type :=
| Update (has_preimage has_pk : bool)
| Delete (has_preimage has_pk : bool)
| Insert (volatile_default has_pk : bool)
| Truncate
| Drop
| Alter
| Unknown (name : string).

#[global] Instance CertifiedAction_eq_dec : EqDecision CertifiedAction.
Proof. solve_decision. Defined.
#[global] Instance RefusedOp_eq_dec : EqDecision RefusedOp.
Proof. solve_decision. Defined.
#[global] Instance Operation_eq_dec : EqDecision Operation.
Proof. solve_decision. Defined.

(** The arms in the order of the source's [match]. *)
Definition certify (op : Operation) : result RefusedOp CertifiedAction :=
  match op with
  | Update true true => Ok BoundedUpdate
  | Delete true true => Ok BoundedDelete
  | Insert false true => Ok NonVolatileInsert
  | Update _ false | Delete _ false => Err PkLessTable
  | Insert _ false => Err PkLessTable
  | Delete false _ => Err DeleteWithoutPreimage
  | Update false _ => Err (NotCertified "UPDATE without pre-image")
  | Insert true _ => Err VolatileDefaultInsert
  | Truncate => Err RefTruncate
  | Drop => Err RefDrop
  | Alter => Err RefAlter
  | Unknown name => Err (NotCertified name)
  end.

(** What "bounded and reversible" asks of an operation, independently of the code's
    case order: it is a row-level DML statement, its target has a key, and its effect
    can be undone (a pre-image) or repeated exactly (no volatile default). *)
Definition reversible_dml (op : Operation) : bool :=
  match op with
  | Update pre pk | Delete pre pk => pre && pk
  | Insert volatile pk => negb volatile && pk
  | _ => false
  end.

Definition action_of (op : Operation) : option CertifiedAction :=
  match op with
  | Update _ _ => Some BoundedUpdate
  | Delete _ _ => Some BoundedDelete
  | Insert _ _ => Some NonVolatileInsert
  | _ => None
  end.

(** Default deny.  [certify] admits an operation exactly when it is bounded and
    reversible DML on a keyed table, as the action of its own kind; every other
    operation, structural or unknown ones included, is refused. *)
Theorem certify_closed (op : Operation) (a : CertifiedAction) :
  certify op = Ok a <-> reversible_dml op = true /\ action_of op = Some a.
Proof. destruct op as [[] []|[] []|[] []| | | |]; simpl; naive_solver. Qed.

(** The rows and the caveats survive the builder, whatever is captured. *)
Lemma captured_plan rel kind rows :
  plan_build (foldl push_row (plan_builder_new rel kind) rows) =
  mkInversePlan rel kind rows [rel] NotRestored_ALL.
Proof.
  enough (forall b, foldl push_row b rows =
                    mkPlanBuilder (b_relation b) (b_kind b) (b_rows b ++ rows) (b_fk_order b)) as ->
    by done.
  induction rows as [|r rows IH]; intros b; simpl.
  - destruct b; simpl. by rewrite app_nil_r.
  - rewrite IH; simpl. by rewrite <- app_assoc.
Qed.

End Inverse.
