(* ===== verification/Session.v ===== *)
(** * Session: injectable time, session counters and the tighten-only trust transition

    Models [src/crates/core/src/clock.rs] (the clock trait and the advanceable mock
    clock), [src/crates/core/src/barrier.rs] (the apply barrier) and
    [src/crates/core/src/session.rs] (trust lattice, trust transition, session state). *)

From S2P Require Import Prelude.

Module Clock.

(** The [Clock] trait: two readings of a clock state. *)
Class Clock (C : Type) : Type := {
  now_unix_millis : C -> Z;
  monotonic_millis : C -> Z
}.

Record MockClock : Type := mkMockClock { unix : Z; monotonic : Z }.

#[global] Instance MockClock_clock : Clock MockClock := {|
  now_unix_millis := unix;
  monotonic_millis := monotonic
|}.

Definition starting_at (start : Z) : MockClock := mkMockClock start start.
Definition mock_new : MockClock := starting_at 0.

(** [fetch_add] wraps; the returned sum [old + delta] is a plain addition, whose
    overflow is [None] (a panic under overflow checks). *)
Definition advance (c : MockClock) (delta : Z) : MockClock * option Z :=
  let old := monotonic c in
  (mkMockClock (wrap_u 64 (unix c + delta)) (wrap_u 64 (monotonic c + delta)),
   if old + delta <=? u64_max then Some (old + delta) else None).

Definition set_unix_millis (c : MockClock) (v : Z) : MockClock := mkMockClock v (monotonic c).

Lemma advance_monotonic c delta m c' :
  in_u 64 (monotonic c) -> 0 <= delta -> advance c delta = (c', Some m) ->
  monotonic c' = m /\ monotonic c <= monotonic c'.
Proof.
  unfold advance. intros Hc Hd. destruct (Z.leb_spec (monotonic c + delta) u64_max); [|done].
  intros [= <- <-]. simpl. unfold in_u, u64_max in *. rewrite wrap_u_id by (unfold in_u; lia). lia.
Qed.

End Clock.

Module Barrier.

(** [ApplyBarrier::pause_point]: an implementation transforms its own state and the
    world the injected closure may mutate. *)
Class ApplyBarrier (B W : Type) : Type := {
  pause_point : B -> string -> W -> B * W
}.

Inductive NoopBarrier : Type := mkNoopBarrier.

#[global] Instance NoopBarrier_barrier W : ApplyBarrier NoopBarrier W := {|
  pause_point := fun b _ w => (b, w)
|}.

Record ClosureBarrier (W : Type) : Type := mkClosureBarrier {
  on_pause : string -> W -> W;
  crossings : Z
}.
Arguments mkClosureBarrier {W}.
Arguments on_pause {W}.
Arguments crossings {W}.

Definition closure_barrier_new {W} (f : string -> W -> W) : ClosureBarrier W := mkClosureBarrier f 0.

#[global] Instance ClosureBarrier_barrier W : ApplyBarrier (ClosureBarrier W) W := {|
  pause_point := fun b label w =>
    (mkClosureBarrier (on_pause b) (crossings b + 1), on_pause b label w)
|}.

End Barrier.

Module Session.
Import Clock.

(** ** The trust lattice *)

Inductive TrustLevel : Type := Untrusted | Agent | Operator.

#[global] Instance TrustLevel_eq_dec : EqDecision TrustLevel.
Proof. solve_decision. Defined.

Definition trust_rank (t : TrustLevel) : Z :=
  match t with Untrusted => 0 | Agent => 1 | Operator => 2 end.

Definition trust_le (a b : TrustLevel) : Prop := trust_rank a <= trust_rank b.

Definition default_floor : TrustLevel := Untrusted.

Definition budget_multiplier_bp (t : TrustLevel) : Z :=
  match t with Untrusted => 1000 | Agent => 5000 | Operator => 10000 end.

(** [Ord::min]: the first argument when they compare equal. *)
Definition tighten (a b : TrustLevel) : TrustLevel :=
  if trust_rank a <=? trust_rank b then a else b.

Inductive TrustEvent : Type :=
| BenignRead (rows bytes : Z)
| BenignWrite (rows : Z)
| SuspiciousPattern
| FloorTripped
| SlowDripSuspected
| OperatorQuarantine.

Definition trust_ceiling (e : TrustEvent) : TrustLevel :=
  match e with
  | BenignRead _ _ | BenignWrite _ => Operator
  | SuspiciousPattern => Agent
  | FloorTripped | SlowDripSuspected | OperatorQuarantine => Untrusted
  end.

Definition event_rows (e : TrustEvent) : Z :=
  match e with BenignRead rows _ | BenignWrite rows => rows | _ => 0 end.

Definition event_bytes (e : TrustEvent) : Z :=
  match e with BenignRead _ bytes => bytes | _ => 0 end.

(** The clock is read and its value unused, as in the source. *)
Definition trust_transition {C} `{Clock C} (events : list TrustEvent) (clock : C) : TrustLevel :=
  let _now := monotonic_millis clock in
  foldl (fun level event => tighten level (trust_ceiling event)) Operator events.

(** ** Session state *)

Record SessionState : Type := mkSession {
  cumulative_rows : Z;
  cumulative_bytes : Z;
  granted : TrustLevel;
  trust : TrustLevel
}.

Definition with_granted (g : TrustLevel) : SessionState := mkSession 0 0 g g.
Definition session_new : SessionState := with_granted default_floor.

Definition session_multiplier_bp (s : SessionState) : Z := budget_multiplier_bp (trust s).

Definition apply_event {C} `{Clock C} (s : SessionState) (event : TrustEvent) (clock : C) : SessionState :=
  mkSession (sat_add (cumulative_rows s) (event_rows event))
            (sat_add (cumulative_bytes s) (event_bytes event))
            (granted s)
            (tighten (trust s) (trust_transition [event] clock)).

Definition recompute_trust {C} `{Clock C} (s : SessionState) (events : list TrustEvent) (clock : C) : SessionState :=
  mkSession (cumulative_rows s) (cumulative_bytes s) (granted s)
            (tighten (trust s) (trust_transition events clock)).

(** ** Lattice lemmas *)

#[global] Instance trust_le_po : PartialOrder trust_le.
Proof.
  split; [split|].
  - intros []; unfold trust_le; lia.
  - intros [] [] []; unfold trust_le; simpl; lia.
  - intros [] []; unfold trust_le; simpl; try done; lia.
Qed.

Lemma tighten_glb a b c : trust_le c (tighten a b) <-> trust_le c a /\ trust_le c b.
Proof. destruct a, b, c; unfold trust_le; simpl; lia. Qed.

Lemma tighten_le_l a b : trust_le (tighten a b) a.
Proof. destruct a, b; unfold trust_le; simpl; lia. Qed.

Lemma tighten_assoc a b c : tighten a (tighten b c) = tighten (tighten a b) c.
Proof. by destruct a, b, c. Qed.

Lemma tighten_top a : tighten Operator a = a.
Proof. by destruct a. Qed.

#[export] Hint Resolve tighten_le_l : pgb.

Lemma trust_fold_acc events level :
  foldl (fun level event => tighten level (trust_ceiling event)) level events =
  tighten level (foldl (fun level event => tighten level (trust_ceiling event)) Operator events).
Proof.
  revert level. induction events as [|e events IH]; intros level; simpl.
  - by destruct level.
  - rewrite IH. rewrite (IH (tighten Operator _)). rewrite tighten_assoc. by destruct level, e.
Qed.

(** The trust transition is exactly the greatest lower bound of the events'
    ceilings: it stays below every ceiling, is the highest level that does, and so
    depends on neither the order nor the repetition of events, nor on the clock. *)
Theorem trust_transition_glb {C} `{Clock C} (events : list TrustEvent) (clock : C) (t : TrustLevel) :
  trust_le t (trust_transition events clock) <->
  forall e, e ∈ events -> trust_le t (trust_ceiling e).
Proof.
  unfold trust_transition. induction events as [|e events IH]; simpl.
  - split; [|by intros; destruct t; unfold trust_le; simpl; lia]. intros _ e He. inversion He.
  - rewrite trust_fold_acc, tighten_glb, IH.
    rewrite tighten_top. setoid_rewrite elem_of_cons. naive_solver.
Qed.

(** ** Runs of a session *)

Inductive session_op {C} `{Clock C} : SessionState -> SessionState -> Prop :=
| op_apply s e clock : session_op s (apply_event s e clock)
| op_recompute s es clock : session_op s (recompute_trust s es clock).

(** Tighten-only.  Over any interleaving of events and history recomputations a
    session's trust never rises, never exceeds its granted identity if it started
    below it, and its budget multiplier never grows; the grant itself is fixed. *)
Theorem session_tighten_only {C} `{Clock C} (s s' : SessionState) :
  rtc session_op s s' ->
  trust_le (trust s') (trust s) /\ granted s' = granted s /\
  session_multiplier_bp s' <= session_multiplier_bp s /\
  (trust_le (trust s) (granted s) -> trust_le (trust s') (granted s')).
Proof.
  intros Hr.
  assert (trust_le (trust s') (trust s) /\ granted s' = granted s) as [Ht Hg].
  { induction Hr as [s|s1 s2 s3 Hs _ [IH1 IH2]]; [done|].
    rewrite IH2. destruct Hs; simpl in *; (split; [|done]); (etrans; [exact IH1|auto with pgb]). }
  split; [done|]. split; [done|]. split.
  - unfold session_multiplier_bp. revert Ht. destruct (trust s'), (trust s); unfold trust_le; simpl; lia.
  - intros Hle. rewrite Hg. by etrans.
Qed.

Definition event_in_range (e : TrustEvent) : Prop :=
  in_u 64 (event_rows e) /\ in_u 64 (event_bytes e).

#[global] Instance event_in_range_dec e : Decision (event_in_range e).
Proof. apply _. Defined.

Lemma sat_add_all (n : Z) (l : list Z) :
  in_u 64 n -> Forall (in_u 64) l ->
  foldl sat_add n l = Z.min (n + foldr Z.add 0 l) u64_max.
Proof.
  intros Hn Hl. revert n Hn. induction Hl as [|x l Hx Hl IH]; intros n Hn; simpl.
  - unfold in_u, u64_max in *. lia.
  - assert (0 <= foldr Z.add 0 l) as Hs.
    { clear IH Hn. induction Hl as [|y l Hy Hl IH]; simpl; [lia|]. unfold in_u in *. lia. }
    rewrite IH; [|apply sat_add_in_u; unfold in_u in *; lia].
    unfold sat_add, u64_max, in_u in *. lia.
Qed.

(** The cumulative counters are the exact totals of the events, pinned at the
    largest [u64] instead of wrapping, so a slow drip cannot reset its own total. *)
Theorem apply_events_totals {C} `{Clock C} (s : SessionState) (events : list TrustEvent) (clock : C) :
  in_u 64 (cumulative_rows s) -> in_u 64 (cumulative_bytes s) -> Forall event_in_range events ->
  let s' := foldl (fun s e => apply_event s e clock) s events in
  cumulative_rows s' = Z.min (cumulative_rows s + foldr Z.add 0 (map event_rows events)) u64_max /\
  cumulative_bytes s' = Z.min (cumulative_bytes s + foldr Z.add 0 (map event_bytes events)) u64_max.
Proof.
  intros Hr Hb He. simpl.
  assert (forall s, cumulative_rows (foldl (fun s e => apply_event s e clock) s events) =
                      foldl sat_add (cumulative_rows s) (map event_rows events) /\
                    cumulative_bytes (foldl (fun s e => apply_event s e clock) s events) =
                      foldl sat_add (cumulative_bytes s) (map event_bytes events)) as Hf.
  { clear. induction events as [|e es IH]; intros s; simpl; [done|].
    by destruct (IH (apply_event s e clock)) as [-> ->]. }
  destruct (Hf s) as [-> ->].
  split; apply sat_add_all; try done; apply Forall_map;
    (eapply Forall_impl; [exact He|]); by intros e [? ?].
Qed.

Lemma apply_events_totals_witness :
  cumulative_bytes (foldl (fun s e => apply_event s e mock_new) session_new
                      [BenignRead 1 (2 ^ 63); FloorTripped; BenignRead 1 (2 ^ 63 + 5)]) =
  u64_max.
Proof.
  destruct (apply_events_totals session_new
              [BenignRead 1 (2 ^ 63); FloorTripped; BenignRead 1 (2 ^ 63 + 5)] mock_new
              ltac:(by_decide) ltac:(by_decide) ltac:(by_decide)) as [_ ->].
  reflexivity.
Defined.

Lemma session_tighten_only_witness :
  trust (apply_event (with_granted Operator) SuspiciousPattern mock_new) = Agent /\
  trust_le (trust (recompute_trust (apply_event (with_granted Operator) SuspiciousPattern mock_new) [] mock_new))
           (trust (with_granted Operator)).
Proof.
  split; [reflexivity|].
  refine (proj1 (session_tighten_only (C:=MockClock) _ _ _)).
  eapply rtc_l; [apply (op_apply (with_granted Operator) SuspiciousPattern mock_new)|].
  eapply rtc_l; [apply (op_recompute _ [] mock_new)|]. apply rtc_refl.
Defined.

End Session.
