(* ===== verification/BlastRadius.v ===== *)
(** * BlastRadius: the dry-run record and the suggested write cap

    Models [src/crates/core/src/blast_radius.rs]: the record a dry run produces, its
    cross-check totals, and the absolute cap the approval is pre-filled with.  The
    [f64] arithmetic of [suggested_cap] is IEEE-754 binary64, computed with the
    Standard Library's executable [SpecFloat] (precision 53, exponent bound 1024,
    round to nearest even).  [u64] addition has a build-dependent overflow: a panic
    under overflow checks, a wrap without them; the operations that can overflow take
    the flag [oc] and return [None] for the panic. *)

From Stdlib Require Import SpecFloat.
From S2P Require Import Prelude PkChecksum Inverse.

Module BlastRadius.
Import Inverse.

(** ** Records *)

Record OpCounts : Type := mkOpCounts { ins : Z; upd : Z; del : Z }.

#[global] Instance OpCounts_eq_dec : EqDecision OpCounts.
Proof. solve_decision. Defined.

Definition op_default : OpCounts := mkOpCounts 0 0 0.

Definition op_total (c : OpCounts) : Z := sat_add (sat_add (ins c) (upd c)) (del c).
Definition op_is_empty (c : OpCounts) : bool := op_total c =? 0.

Record Affected : Type := mkAffected {
  by_table : gmap string Z;
  cascade_by_table : gmap string Z;
  pk_set_checksum : gmap string string;
  effect_by_table : gmap string OpCounts;
  total_rows : Z
}.

Record WriteCap : Type := mkWriteCap { max_rows : Z; max_wal_bytes : Z }.

#[global] Instance WriteCap_eq_dec : EqDecision WriteCap.
Proof. solve_decision. Defined.

Record TriggerFired : Type := mkTriggerFired { trigger_name : string; trigger_rows : Z }.

Inductive LockMode : Type :=
| AccessShareLock
| RowShareLock
| RowExclusiveLock
| ShareUpdateExclusiveLock
| ShareLock
| ShareRowExclusiveLock
| ExclusiveLock
| AccessExclusiveLock.

#[global] Instance LockMode_eq_dec : EqDecision LockMode.
Proof. solve_decision. Defined.

Definition lock_rank (m : LockMode) : Z :=
  match m with
  | AccessShareLock => 0
  | RowShareLock => 1
  | RowExclusiveLock => 2
  | ShareUpdateExclusiveLock => 3
  | ShareLock => 4
  | ShareRowExclusiveLock => 5
  | ExclusiveLock => 6
  | AccessExclusiveLock => 7
  end.

Record LockHeld : Type := mkLockHeld { lock_relation : string; lock_mode : LockMode; held_ms : Z }.

Record ConstraintViolation : Type := mkViolation { cv_relation : string; cv_constraint : string }.

Record BlastRadius : Type := mkBlastRadius {
  proposal_id : string;
  clone_lsn : string;
  staleness_lsn_bytes : Z;
  affected : Affected;
  triggers_fired : list TriggerFired;
  locks : list LockHeld;
  max_lock_mode : LockMode;
  duration_ms : Z;
  wal_bytes : Z;
  constraint_violations : list ConstraintViolation;
  reversible : bool;
  inverse_kind : InverseKind;
  predicate_volatile : bool
}.

(** ** Totals *)

(** [Iterator::max] keeps the later of two equal elements. *)
Definition computed_max_lock_mode (br : BlastRadius) : option LockMode :=
  foldl (fun acc m => match acc with
                      | None => Some m
                      | Some x => if lock_rank x <=? lock_rank m then Some m else Some x
                      end) None (map lock_mode (locks br)).

Definition add_u64 (oc : bool) (a b : Z) : option Z :=
  if a + b <=? u64_max then Some (a + b)
  else if oc then None else Some (wrap_u 64 (a + b)).

(** [Iterator::sum] over [u64]. *)
Definition sum_u64 (oc : bool) (l : list Z) : option Z :=
  foldl (fun acc x => acc ≫= fun a => add_u64 oc a x) (Some 0) l.

Definition map_values {V} (m : gmap string V) : list V := (map_to_list m).*2.

Definition computed_total_rows (oc : bool) (br : BlastRadius) : option Z :=
  direct ← sum_u64 oc (map_values (by_table (affected br)));
  cascade ← sum_u64 oc (map_values (cascade_by_table (affected br)));
  Some (sat_add direct cascade).

Definition predicted_total_tuples (oc : bool) (br : BlastRadius) : option Z :=
  let measured := foldl sat_add 0 (map op_total (map_values (effect_by_table (affected br)))) in
  if measured =? 0 then computed_total_rows oc br else Some measured.

(** ** The suggested cap *)

Definition f64 : Type := spec_float.
Definition f64_mul (x y : f64) : f64 := SFmul 53 1024 x y.
Definition f64_sub (x y : f64) : f64 := SFsub 53 1024 x y.
Definition f64_of_Z (z : Z) : f64 := binary_normalize 53 1024 z 0 false.
Definition f64_zero : f64 := S754_zero false.
Definition f64_1e_9 : f64 := S754_finite false 4835703278458517 (-82).

Definition f64_is_finite (x : f64) : bool :=
  match x with S754_zero _ | S754_finite _ _ _ => true | _ => false end.

(** [f64::ceil]. *)
Definition f64_ceil (x : f64) : f64 :=
  match x with
  | S754_finite s m e =>
      if 0 <=? e then x
      else
        let d := 2 ^ (- e) in
        let c := if s then - (Z.pos m / d) else - ((- Z.pos m) / d) in
        binary_normalize 53 1024 c 0 s
  | _ => x
  end.

(** [f64::max], whose result is the other operand when one is NaN. *)
Definition f64_max (x y : f64) : f64 :=
  match x, y with
  | S754_nan, _ => y
  | _, S754_nan => x
  | _, _ => if SFltb x y then y else x
  end.

(** [x as u64]: truncation, saturating at both ends, NaN to 0. *)
Definition f64_to_u64 (x : f64) : Z :=
  match x with
  | S754_finite s m e =>
      let t := if 0 <=? e then Z.pos m * 2 ^ e else Z.pos m / 2 ^ (- e) in
      if s then 0 else Z.min t u64_max
  | S754_infinity s => if s then 0 else u64_max
  | _ => 0
  end.

Definition effective_headroom (headroom : f64) : f64 :=
  if f64_is_finite headroom && SFleb f64_zero headroom then headroom else f64_zero.

Definition with_headroom (headroom : f64) (base : Z) : Z :=
  let extra := f64_mul (f64_of_Z base) headroom in
  if negb (f64_is_finite extra) then u64_max
  else
    let extra_ceiled := f64_max (f64_ceil (f64_sub extra f64_1e_9)) f64_zero in
    if SFleb (f64_of_Z u64_max) extra_ceiled then u64_max
    else sat_add base (f64_to_u64 extra_ceiled).

Definition suggested_cap (oc : bool) (br : BlastRadius) (headroom : f64) : option WriteCap :=
  let headroom := effective_headroom headroom in
  predicted ← predicted_total_tuples oc br;
  let rows_base := Z.max predicted 1 in
  Some (mkWriteCap (with_headroom headroom rows_base) (with_headroom headroom (wal_bytes br))).

Example with_headroom_ten_percent :
  with_headroom (S754_finite false 7205759403792794 (-56)) 100 = 110.
Proof. vm_compute. reflexivity. Qed.

(** ** Lemmas *)

Lemma add_u64_fits oc a b : a + b <= u64_max -> add_u64 oc a b = Some (a + b).
Proof. unfold add_u64. intros H. by destruct (Z.leb_spec (a + b) u64_max); [|lia]. Qed.

Lemma sum_nonneg l : Forall (in_u 64) l -> 0 <= foldr Z.add 0 l.
Proof. induction 1 as [|x l [Hx _] _ IH]; simpl; lia. Qed.

Lemma sum_u64_fits oc l :
  Forall (in_u 64) l -> foldr Z.add 0 l <= u64_max -> sum_u64 oc l = Some (foldr Z.add 0 l).
Proof.
  unfold sum_u64. intros Hl Hs.
  enough (forall a, 0 <= a -> a + foldr Z.add 0 l <= u64_max ->
            foldl (fun acc x => acc ≫= fun a => add_u64 oc a x) (Some a) l =
            Some (a + foldr Z.add 0 l)) as He by (apply He; lia).
  clear Hs. induction Hl as [|x l Hx Hl IH]; intros a Ha Hs; simpl in *.
  - f_equal. lia.
  - pose proof (sum_nonneg l Hl). unfold in_u in Hx.
    rewrite add_u64_fits by lia. rewrite IH by lia. f_equal. lia.
Qed.

Lemma f64_to_u64_nonneg x : 0 <= f64_to_u64 x.
Proof.
  destruct x as [s|s| |s m e]; simpl; try destruct s; unfold u64_max; try lia.
  apply Z.min_glb; [|lia]. destruct (Z.leb_spec 0 e).
  - apply Z.mul_nonneg_nonneg; [lia|apply Z.pow_nonneg; lia].
  - apply Z.div_pos; [lia|]. apply Z.pow_pos_nonneg; lia.
Qed.

(** Whatever the float computation yields, headroom never tightens. *)
Lemma with_headroom_bounds h base : in_u 64 base -> base <= with_headroom h base <= u64_max.
Proof.
  intros Hb. unfold with_headroom. cbv zeta.
  destruct (negb _); [unfold in_u, u64_max in *; lia|].
  destruct (SFleb _ _); [unfold in_u, u64_max in *; lia|].
  split; [apply sat_add_mono; [done|apply f64_to_u64_nonneg]|unfold sat_add; lia].
Qed.

Lemma foldl_sat_add_range l n : in_u 64 n -> Forall (fun x => 0 <= x) l -> in_u 64 (foldl sat_add n l).
Proof.
  intros Hn Hl. revert n Hn. induction Hl as [|x l Hx Hl IH]; intros n Hn; simpl; [done|].
  apply IH, sat_add_in_u; [unfold in_u in Hn; lia|done].
Qed.

Definition op_in_range (c : OpCounts) : Prop :=
  in_u 64 (ins c) /\ in_u 64 (upd c) /\ in_u 64 (del c).

#[global] Instance op_in_range_dec c : Decision (op_in_range c).
Proof. apply _. Defined.

Lemma op_total_nonneg c : op_in_range c -> 0 <= op_total c.
Proof. unfold op_in_range, op_total, sat_add, in_u, u64_max. lia. Qed.

(** The record's integers are [u64]s, and the direct and cascaded row counts that the
    fallback total adds without saturation stay below the width. *)
Definition record_in_range (br : BlastRadius) : Prop :=
  in_u 64 (wal_bytes br) /\
  Forall op_in_range (map_values (effect_by_table (affected br))) /\
  Forall (in_u 64) (map_values (by_table (affected br))) /\
  Forall (in_u 64) (map_values (cascade_by_table (affected br))) /\
  foldr Z.add 0 (map_values (by_table (affected br))) <= u64_max /\
  foldr Z.add 0 (map_values (cascade_by_table (affected br))) <= u64_max.

#[global] Instance record_in_range_dec br : Decision (record_in_range br).
Proof. apply _. Defined.

Lemma predicted_in_range oc br :
  record_in_range br -> exists n, predicted_total_tuples oc br = Some n /\ in_u 64 n.
Proof.
  intros (Hw & He & Hd & Hc & Hds & Hcs). unfold predicted_total_tuples.
  set (measured := foldl _ _ _).
  assert (in_u 64 measured) as Hm.
  { apply foldl_sat_add_range; [by_decide|]. apply Forall_map.
    eapply Forall_impl; [exact He|]. intros c. apply op_total_nonneg. }
  destruct (measured =? 0); [|by eauto]. unfold computed_total_rows.
  rewrite !sum_u64_fits by done. simpl. eexists. split; [done|].
  apply sat_add_in_u; by apply sum_nonneg.
Qed.

(** The suggested cap always admits the write the dry run predicted: for every
    headroom (negative, infinite and NaN included) the row bound is at least the
    predicted magnitude and at least one row, the WAL bound is at least the measured
    WAL, and both are [u64] values. *)
Theorem suggested_cap_admits_prediction (oc : bool) (br : BlastRadius) (headroom : f64) :
  record_in_range br ->
  exists predicted cap,
    predicted_total_tuples oc br = Some predicted /\
    suggested_cap oc br headroom = Some cap /\
    Z.max predicted 1 <= max_rows cap <= u64_max /\
    wal_bytes br <= max_wal_bytes cap <= u64_max.
Proof.
  intros H. destruct (predicted_in_range oc br H) as (n & En & Hn).
  unfold suggested_cap. rewrite En. simpl. do 2 eexists. do 2 (split; [done|]). simpl.
  destruct H as [Hw _]. split; apply with_headroom_bounds; [|done].
  unfold in_u in *. lia.
Qed.

Definition sample_record (direct : gmap string Z) (effects : gmap string OpCounts) (wal : Z) : BlastRadius :=
  mkBlastRadius "p-1" "3A/7F00C8" 0 (mkAffected direct ∅ ∅ effects 0) [] [] RowExclusiveLock 1 wal []
    true PreimageUpsert false.

Lemma suggested_cap_admits_prediction_witness :
  exists predicted cap,
    predicted_total_tuples true (sample_record ∅ {["app.t" := mkOpCounts 0 100 0]} 4096) = Some predicted /\
    suggested_cap true (sample_record ∅ {["app.t" := mkOpCounts 0 100 0]} 4096) S754_nan = Some cap /\
    Z.max predicted 1 <= max_rows cap <= u64_max /\
    4096 <= max_wal_bytes cap <= u64_max.
Proof.
  apply (suggested_cap_admits_prediction true
           (sample_record ∅ {["app.t" := mkOpCounts 0 100 0]} 4096) S754_nan).
  by_decide.
Defined.

(** The fallback total is not saturating.  On a record without a measured
    footprint whose two tables are each predicted to lose 2^63 rows, the cap
    computation panics when overflow is checked, and when it is not the wrapped total
    pre-fills an approval of a single row. *)
Theorem suggested_cap_fallback_overflows :
  exists br, (forall headroom, suggested_cap true br headroom = None) /\
             suggested_cap false br f64_zero = Some (mkWriteCap 1 0).
Proof.
  exists (sample_record {["app.a" := 2 ^ 63; "app.b" := 2 ^ 63]} ∅ 0).
  split; [intros h|]; vm_compute; reflexivity.
Qed.

Lemma max_fold_spec (acc : option LockMode) (l : list LockMode) m :
  foldl (fun acc m => match acc with
                      | None => Some m
                      | Some x => if lock_rank x <=? lock_rank m then Some m else Some x
                      end) acc l = Some m ->
  (acc = Some m \/ m ∈ l) /\
  (forall x, acc = Some x \/ x ∈ l -> lock_rank x <= lock_rank m).
Proof.
  revert acc. induction l as [|y l IH]; intros acc; simpl.
  - intros ->. split; [by left|]. intros x [[= ->]|Hx]; [lia|inversion Hx].
  - intros [Hin Hmax]%IH. setoid_rewrite elem_of_cons.
    destruct acc as [x|].
    + destruct (Z.leb_spec (lock_rank x) (lock_rank y)).
      * pose proof (Hmax y (or_introl eq_refl)).
        split; [naive_solver|]. intros z [[= ->]|[->|Hz]]; [lia|lia|]. apply Hmax; by right.
      * pose proof (Hmax x (or_introl eq_refl)).
        split; [naive_solver|]. intros z [[= ->]|[->|Hz]]; [lia|lia|]. apply Hmax; by right.
    + split; [naive_solver|]. intros z [?|[->|Hz]]; [done|apply Hmax; by left|apply Hmax; by right].
Qed.

(** The strongest lock is one of the record's locks and no lock is stronger. *)
Lemma computed_max_lock_mode_spec br m :
  computed_max_lock_mode br = Some m ->
  m ∈ map lock_mode (locks br) /\ (forall l, l ∈ locks br -> lock_rank (lock_mode l) <= lock_rank m).
Proof.
  intros [Hin Hmax]%max_fold_spec. split; [by destruct Hin|].
  intros l Hl. apply Hmax. right. by apply (list_elem_of_fmap_2 lock_mode).
Qed.

End BlastRadius.
