(* ===== verification/Config.v ===== *)
(** * Config: the policy document and the resolution of connection targets

    Models [src/crates/policy/src/config.rs].  Module [RoleConfig] holds the budgets the
    proxy's gates read, Module [Config] the document, its validation, and the layered
    resolution of a connection target.  YAML decoding is the crate's: a parameter.  A
    violated rule is a constructor of [Violation]; the source words it as text. *)

From Stdlib Require Import SpecFloat ZifyBool.
From stdpp Require Import pretty.
From S2P Require Import Prelude Text PkChecksum Inverse BlastRadius.

Module RoleConfig.
Import BlastRadius.

Record WindowBudget : Type := mkWindowBudget {
  window_secs : Z;
  window_max_bytes : Z;
  window_max_rows : Z
}.

Record RoleBudget : Type := mkRoleBudget {
  role_max_bytes : Z;
  role_max_rows : Z;
  max_plan_cost : f64;
  max_plan_rows : Z;
  per_window : WindowBudget
}.

End RoleConfig.

Module Config.
Import BlastRadius RoleConfig Text.

(** ** The document *)

Inductive AutonomyLevel : Type := L0 | L1 | L2 | L3.

Definition autonomy_rank (a : AutonomyLevel) : Z := match a with L0 => 0 | L1 => 1 | L2 => 2 | L3 => 3 end.
Definition MVP_MAX : AutonomyLevel := L2.

Record RolePolicy : Type := mkRolePolicy {
  select_whitelist : list string;
  role_budget : RoleBudget;
  autonomy : AutonomyLevel
}.

Inductive CloneProvider : Type := CP_None | CP_Dblab.
Record CloneConfig : Type := mkClone { provider : CloneProvider }.

Record DsnTarget : Type := mkDsn {
  dsn_host : string;
  dsn_port : Z;
  dsn_database : string;
  dsn_role : string;
  secret_ref : option string
}.

Record ReplicaConfig : Type := mkReplica { replica_dsn : option string; replica_target : option DsnTarget }.
Record PolicyPitr : Type := mkPolicyPitr { pitr_is_enabled : bool }.
Record ApproverSet : Type := mkApprovers { cli_signing_key_id : option string }.
Record AuditAnchorConfig : Type := mkAuditConfig { audit_target : option DsnTarget; anchor_endpoint : option string }.

Record PolicyConfig : Type := mkPolicy {
  version : Z;
  roles : list (string * RolePolicy);   (* a [BTreeMap]: in the order of its keys *)
  primary : option DsnTarget;
  replica : ReplicaConfig;
  clone : CloneConfig;
  pitr : PolicyPitr;
  approvers : ApproverSet;
  audit : AuditAnchorConfig
}.

(** [1_000_000.0]. *)
Definition DEFAULT_MAX_PLAN_COST : f64 := f64_of_Z 1000000.
Definition DEFAULT_MAX_PLAN_ROWS : Z := 1000000000.

(** ** Validation *)

Inductive Violation : Type :=
| VersionZero
| NoRoles
| AutonomyAbove (role : string) (level : AutonomyLevel)
| CapsNotPositive (role : string)
| PlanCostNotPositive (role : string)
| PlanRowsNotPositive (role : string)
| WindowNotPositive (role : string)
| WindowCapsNotPositive (role : string)
| WindowBelowStatement (role : string)
| FieldEmpty (place field : string)
| FieldIllegal (place field : string).

Inductive PolicyError : Type :=
| ParseFailed
| Invalid (v : Violation).

(** Whether the character at the front is white space, a control character, an equals sign,
    a quote of either kind or a backslash; a continuation byte begins none of them. *)
Definition illegal_at (l : list byte) : bool :=
  match strip_ws l with
  | Some _ => true
  | None =>
      match map Z_of_byte (take 2 l) with
      | b0 :: rest =>
          (b0 <=? 31) || (b0 =? 127) || (b0 =? 61) || (b0 =? 39) || (b0 =? 34) || (b0 =? 92) ||
          match rest with b1 :: _ => (b0 =? 194) && (128 <=? b1) && (b1 <=? 159) | [] => false end
      | [] => false
      end
  end.

Fixpoint has_illegal (l : list byte) : bool :=
  match l with
  | [] => false
  | _ :: l' => illegal_at l || has_illegal l'
  end.

Definition reject_dsn_injection (place field value : string) : result PolicyError unit :=
  if bool_decide (value = EmptyString) then Err (Invalid (FieldEmpty place field))
  else if has_illegal (as_bytes value) then Err (Invalid (FieldIllegal place field))
  else Ok tt.

Definition dsn_validate (t : DsnTarget) (place : string) : result PolicyError unit :=
  let? _ := reject_dsn_injection place "host" (dsn_host t) in
  let? _ := reject_dsn_injection place "database" (dsn_database t) in
  let? _ := reject_dsn_injection place "role" (dsn_role t) in
  match secret_ref t with Some s => reject_dsn_injection place "secret_ref" s | None => Ok tt end.

Definition f64_finite (x : f64) : bool :=
  match x with S754_finite _ _ _ | S754_zero _ => true | _ => false end.

Definition budget_validate (b : RoleBudget) (role : string) : result PolicyError unit :=
  let w := per_window b in
  if (role_max_bytes b =? 0) || (role_max_rows b =? 0) then Err (Invalid (CapsNotPositive role))
  else if negb (f64_finite (max_plan_cost b) && SFltb f64_zero (max_plan_cost b)) then
    Err (Invalid (PlanCostNotPositive role))
  else if max_plan_rows b =? 0 then Err (Invalid (PlanRowsNotPositive role))
  else if window_secs w =? 0 then Err (Invalid (WindowNotPositive role))
  else if (window_max_bytes w =? 0) || (window_max_rows w =? 0) then Err (Invalid (WindowCapsNotPositive role))
  else if (window_max_bytes w <? role_max_bytes b) || (window_max_rows w <? role_max_rows b) then
    Err (Invalid (WindowBelowStatement role))
  else Ok tt.

Definition role_validate (p : RolePolicy) (role : string) : result PolicyError unit :=
  if autonomy_rank MVP_MAX <? autonomy_rank (autonomy p) then Err (Invalid (AutonomyAbove role (autonomy p)))
  else budget_validate (role_budget p) role.

Fixpoint roles_validate (roles : list (string * RolePolicy)) : result PolicyError unit :=
  match roles with
  | [] => Ok tt
  | (name, role) :: roles => let? _ := role_validate role name in roles_validate roles
  end.

Definition target_validate (t : option DsnTarget) (place : string) : result PolicyError unit :=
  match t with Some t => dsn_validate t place | None => Ok tt end.

Definition policy_validate (c : PolicyConfig) : result PolicyError unit :=
  if version c =? 0 then Err (Invalid VersionZero)
  else
    match roles c with
    | [] => Err (Invalid NoRoles)
    | _ =>
        let? _ := roles_validate (roles c) in
        let? _ := target_validate (primary c) "policy.yaml `primary:` target" in
        let? _ := target_validate (replica_target (replica c)) "policy.yaml `replica.target:`" in
        target_validate (audit_target (audit c)) "policy.yaml `audit.target:`"
    end.

Section load.
Context (from_yaml : string -> option PolicyConfig).

Definition load_from_yaml (yaml : string) : result PolicyError PolicyConfig :=
  match from_yaml yaml with
  | None => Err ParseFailed
  | Some cfg => let? _ := policy_validate cfg in Ok cfg
  end.
End load.

(** ** Resolution of a connection target *)

Record ResolvedTarget : Type := mkResolved { r_host : string; r_port : Z; r_database : string; r_role : string }.

Definition dsn_text (host : string) (port : Z) (database role : string) : string :=
  "host=" +:+ host +:+ " port=" +:+ pretty port +:+ " dbname=" +:+ database +:+ " user=" +:+ role.

Definition to_credential_less_dsn (t : DsnTarget) : string :=
  dsn_text (dsn_host t) (dsn_port t) (dsn_database t) (dsn_role t).
Definition resolved_dsn (t : ResolvedTarget) : string := dsn_text (r_host t) (r_port t) (r_database t) (r_role t).

Inductive TargetResolutionError : Type :=
| Missing (field env_key policy_hint : string)
| Injection (field : string) (e : PolicyError).

Definition error_field (e : TargetResolutionError) : string := match e with Missing f _ _ | Injection f _ => f end.

Record TargetResolver : Type := mkResolver {
  policy_target : option DsnTarget;
  host_override : option string;
  port_override : option string;
  db_override : option string;
  role_override : option string;
  default_database : string;
  default_role : string;
  host_env_key : string;
  port_env_key : string;
  policy_hint : string
}.

Definition is_digit (b : byte) : bool := (48 <=? Z_of_byte b) && (Z_of_byte b <=? 57).

(** [str::parse] at an unsigned type: an optional plus sign and digits, within the width. *)
Definition parse_unsigned (max : Z) (s : string) : option Z :=
  let ds := match as_bytes s with x2b :: ds => ds | ds => ds end in
  match ds with
  | [] => None
  | _ =>
      if forallb is_digit ds then
        let v := foldl (fun n d => 10 * n + (Z_of_byte d - 48)) 0 ds in
        if v <=? max then Some v else None
      else None
  end.

Definition parse_u16 : string -> option Z := parse_unsigned 65535.

Definition or_else {A} (a b : option A) : option A := match a with Some _ => a | None => b end.
Definition ok_or {E A} (e : E) (o : option A) : result E A := match o with Some a => Ok a | None => Err e end.

Definition reject_resolved_injection (field value : string) : result TargetResolutionError unit :=
  result_map_err (Injection field) (reject_dsn_injection "resolved target" field value).

Definition resolve (r : TargetResolver) : result TargetResolutionError ResolvedTarget :=
  let? host := ok_or (Missing "host" (host_env_key r) (policy_hint r))
                 (or_else (host_override r) (option_map dsn_host (policy_target r))) in
  let missing_port := Missing "port" (port_env_key r) (policy_hint r) in
  let? port := match port_override r with
               | Some p => ok_or missing_port (parse_u16 p)
               | None => ok_or missing_port (option_map dsn_port (policy_target r))
               end in
  let database := default (default_database r) (or_else (db_override r) (option_map dsn_database (policy_target r))) in
  let role := default (default_role r) (or_else (role_override r) (option_map dsn_role (policy_target r))) in
  let? _ := reject_resolved_injection "host" host in
  let? _ := reject_resolved_injection "database" database in
  let? _ := reject_resolved_injection "role" role in
  Ok (mkResolved host port database role).

(** ** What validation accepts *)

(** A value that can stand unquoted in a connection string. *)
Definition clean (value : string) : Prop := value <> EmptyString /\ has_illegal (as_bytes value) = false.

Definition target_clean (t : DsnTarget) : Prop :=
  clean (dsn_host t) /\ clean (dsn_database t) /\ clean (dsn_role t) /\
  (forall s, secret_ref t = Some s -> clean s).

(** What a role may be granted: at most the second autonomy level, caps that are not zero, a
    finite positive plan ceiling, and a window no smaller than one statement. *)
Definition role_wf (p : RolePolicy) : Prop :=
  let b := role_budget p in let w := per_window b in
  autonomy p <> L3 /\
  role_max_bytes b <> 0 /\ role_max_rows b <> 0 /\
  (exists m e, max_plan_cost b = S754_finite false m e) /\ max_plan_rows b <> 0 /\
  window_secs w <> 0 /\ window_max_bytes w <> 0 /\ window_max_rows w <> 0 /\
  role_max_bytes b <= window_max_bytes w /\ role_max_rows b <= window_max_rows w.

Definition targets (c : PolicyConfig) : list DsnTarget :=
  omap id [primary c; replica_target (replica c); audit_target (audit c)].

Definition policy_wf (c : PolicyConfig) : Prop :=
  version c <> 0 /\ roles c <> [] /\ Forall (fun r => role_wf r.2) (roles c) /\ Forall target_clean (targets c).

Lemma reject_ok_iff place field value : reject_dsn_injection place field value = Ok tt <-> clean value.
Proof.
  unfold reject_dsn_injection, clean. case_bool_decide; [naive_solver|].
  destruct (has_illegal (as_bytes value)); naive_solver.
Qed.

Lemma then_iff {E A} (a : result E unit) (b : result E A) x : (let? _ := a in b) = Ok x <-> a = Ok tt /\ b = Ok x.
Proof. destruct a as [[]|]; simpl; naive_solver. Qed.

Lemma dsn_validate_ok_iff t place : dsn_validate t place = Ok tt <-> target_clean t.
Proof.
  unfold dsn_validate, target_clean. rewrite !then_iff, !reject_ok_iff.
  destruct (secret_ref t); rewrite ?reject_ok_iff; naive_solver.
Qed.

Lemma target_validate_ok_iff t place : target_validate t place = Ok tt <-> Forall target_clean (omap id [t]).
Proof.
  destruct t as [t|]; simpl; [rewrite dsn_validate_ok_iff, Forall_singleton|]; naive_solver.
Qed.

(** A cost is finite and above zero exactly when it is a positive float. *)
Lemma cost_positive_iff x :
  f64_finite x && SFltb f64_zero x = true <-> exists m e, x = S754_finite false m e.
Proof. destruct x as [[]|[]| |[] m e]; cbn; naive_solver. Qed.

Lemma role_validate_ok_iff p name : role_validate p name = Ok tt <-> role_wf p.
Proof.
  unfold role_validate, role_wf, budget_validate. rewrite <- cost_positive_iff.
  destruct (autonomy p); cbn [autonomy_rank MVP_MAX Z.ltb Z.compare];
    try (split; [done|by intros []]);
    destruct (f64_finite _ && SFltb _ _); simpl; repeat case_match; split; intros; destruct_and?; simplify_eq;
    try done; try lia; repeat split; try done; lia.
Qed.

Lemma roles_validate_ok_iff l : roles_validate l = Ok tt <-> Forall (fun r => role_wf r.2) l.
Proof.
  induction l as [|[name p] l IH]; simpl; [naive_solver|].
  rewrite then_iff, role_validate_ok_iff, Forall_cons, IH. done.
Qed.

Lemma policy_ok_iff c : policy_validate c = Ok tt <-> policy_wf c.
Proof.
  unfold policy_validate, policy_wf. destruct (version c =? 0) eqn:V; [split; [done|lia]|].
  destruct (roles c) as [|r l] eqn:R; [naive_solver|].
  rewrite !then_iff, roles_validate_ok_iff, !target_validate_ok_iff, <- !Forall_app.
  change (targets c) with (omap id ([primary c] ++ [replica_target (replica c)] ++ [audit_target (audit c)])).
  rewrite !omap_app. split; [intros []; repeat split; [lia|done..]|tauto].
Qed.

(** C32: a policy document is loaded exactly when it decodes and is well formed: a version,
    at least one role, every role within the second autonomy level with positive caps, a
    finite positive plan ceiling and a window no smaller than one statement, and every
    connection target free of characters that could end its field. *)
Theorem loaded_policy_is_well_formed (from_yaml : string -> option PolicyConfig) (yaml : string) (c : PolicyConfig) :
  load_from_yaml from_yaml yaml = Ok c <-> from_yaml yaml = Some c /\ policy_wf c.
Proof.
  unfold load_from_yaml. destruct (from_yaml yaml) as [c'|]; [|naive_solver].
  split.
  - destruct (policy_validate c') as [[]|] eqn:E; [|done]. simpl. intros [= ->]. split; [done|by apply policy_ok_iff].
  - intros [[= ->] W%policy_ok_iff]. by rewrite W.
Qed.

(** ** The keyword/value connection string *)

(** The documented format of a connection string: words [keyword = value] apart from each
    other by blanks, a value quoted or not, a backslash taking the next byte as it is. *)
Inductive ConnState : Type :=
| CKey (key : list byte)
| CEquals (key : list byte)
| CValue (key : list byte)
| CPlain (key value : list byte)
| CPlainEscape (key value : list byte)
| CQuoted (key value : list byte)
| CQuotedEscape (key value : list byte).

Definition is_blank (b : byte) : bool := let z := Z_of_byte b in ((9 <=? z) && (z <=? 13)) || (z =? 32).

(** The words read so far, with the accumulated bytes in order. *)
Fixpoint conninfo (st : ConnState) (done : list (list byte * list byte)) (l : list byte)
    : option (list (list byte * list byte)) :=
  match l with
  | [] =>
      match st with
      | CKey [] => Some done
      | CValue k => Some (done ++ [(k, [])])
      | CPlain k v | CPlainEscape k v => Some (done ++ [(k, v)])
      | _ => None
      end
  | b :: l =>
      match st with
      | CKey k =>
          if is_blank b then conninfo (if decide (k = []) then CKey [] else CEquals k) done l
          else if bool_decide (b = x3d) then (if decide (k = []) then None else conninfo (CValue k) done l)
          else conninfo (CKey (k ++ [b])) done l
      | CEquals k =>
          if is_blank b then conninfo (CEquals k) done l
          else if bool_decide (b = x3d) then conninfo (CValue k) done l else None
      | CValue k =>
          if is_blank b then conninfo (CValue k) done l
          else if bool_decide (b = x27) then conninfo (CQuoted k []) done l
          else if bool_decide (b = x5c) then conninfo (CPlainEscape k []) done l
          else conninfo (CPlain k [b]) done l
      | CPlain k v =>
          if is_blank b then conninfo (CKey []) (done ++ [(k, v)]) l
          else if bool_decide (b = x5c) then conninfo (CPlainEscape k v) done l
          else conninfo (CPlain k (v ++ [b])) done l
      | CPlainEscape k v => conninfo (CPlain k (v ++ [b])) done l
      | CQuoted k v =>
          if bool_decide (b = x27) then conninfo (CKey []) (done ++ [(k, v)]) l
          else if bool_decide (b = x5c) then conninfo (CQuotedEscape k v) done l
          else conninfo (CQuoted k (v ++ [b])) done l
      | CQuotedEscape k v => conninfo (CQuoted k (v ++ [b])) done l
      end
  end.

Definition conninfo_words (s : string) : option (list (list byte * list byte)) := conninfo (CKey []) [] (as_bytes s).

(** A byte that neither ends nor changes an unquoted value. *)
Definition plain_byte (b : byte) : Prop := is_blank b = false /\ b <> x3d /\ b <> x27 /\ b <> x5c.

Lemma illegal_at_plain b l : illegal_at (b :: l) = false -> plain_byte b.
Proof.
  unfold illegal_at, strip_ws, plain_byte, is_blank. destruct l as [|b1 [|b2 l]]; cbn [take map];
    repeat case_match; intros; try done; destruct_and?; (split; [lia|]);
    repeat split; intros ->; vm_compute in *; done.
Qed.

Lemma has_illegal_plain l : has_illegal l = false -> Forall plain_byte l.
Proof.
  induction l as [|b l IH]; simpl; [done|]. intros [H1 H2]%orb_false_iff.
  constructor; [by eapply illegal_at_plain|by apply IH].
Qed.

Lemma plain_value k done v rest b :
  Forall plain_byte v -> is_blank b = true ->
  forall acc, conninfo (CPlain k acc) done (v ++ b :: rest) = conninfo (CKey []) (done ++ [(k, acc ++ v)]) rest.
Proof.
  intros Hv Hb. induction Hv as [|x v (H1 & H2 & H3 & H4) _ IH]; intros acc; simpl.
  - by rewrite Hb, app_nil_r.
  - rewrite H1, bool_decide_false by done. by rewrite IH, <- (assoc_L (++)).
Qed.

Lemma plain_value_end k done v :
  Forall plain_byte v -> forall acc, conninfo (CPlain k acc) done v = Some (done ++ [(k, acc ++ v)]).
Proof.
  intros Hv. induction Hv as [|x v (H1 & H2 & H3 & H4) _ IH]; intros acc; simpl.
  - by rewrite app_nil_r.
  - rewrite H1, bool_decide_false by done. by rewrite IH, <- (assoc_L (++)).
Qed.

Lemma value_start k done b l : plain_byte b -> conninfo (CValue k) done (b :: l) = conninfo (CPlain k [b]) done l.
Proof. intros (H1 & H2 & H3 & H4). simpl. by rewrite H1, !bool_decide_false by done. Qed.

(** One word of clean text, followed by a blank or by the end. *)
Lemma clean_bytes s : clean s -> exists b l, as_bytes s = b :: l /\ plain_byte b /\ Forall plain_byte l.
Proof.
  intros [Hne Hc%has_illegal_plain]. destruct (as_bytes s) as [|b l] eqn:E.
  - destruct Hne. apply as_bytes_inj. done.
  - apply Forall_cons in Hc as []. eauto.
Qed.

Lemma conninfo_value k done s rest :
  clean s -> conninfo (CValue k) done (as_bytes s ++ x20 :: rest) = conninfo (CKey []) (done ++ [(k, as_bytes s)]) rest.
Proof.
  intros (b & l & -> & Hb & Hl)%clean_bytes. cbn [app]. rewrite value_start by done. by rewrite plain_value.
Qed.

Lemma conninfo_value_end k done s :
  clean s -> conninfo (CValue k) done (as_bytes s) = Some (done ++ [(k, as_bytes s)]).
Proof.
  intros (b & l & -> & Hb & Hl)%clean_bytes. rewrite value_start by done. by rewrite plain_value_end.
Qed.

(** A keyword of plain bytes up to its equals sign. *)
Definition keyword (k : list byte) : Prop := k <> [] /\ Forall plain_byte k.

Lemma plain_keyword s : clean s -> keyword (as_bytes s).
Proof. intros (b & l & -> & Hb & Hl)%clean_bytes. split; [done|by constructor]. Qed.

Lemma conninfo_key k done rest :
  keyword k -> conninfo (CKey []) done (k ++ x3d :: rest) = conninfo (CValue k) done rest.
Proof.
  intros [Hne Hk]. assert (forall acc, acc ++ k <> [] ->
    conninfo (CKey acc) done (k ++ x3d :: rest) = conninfo (CValue (acc ++ k)) done rest) as H.
  { clear Hne. induction Hk as [|x k (H1 & H2 & H3 & H4) _ IH]; intros acc Hacc; cbn [app conninfo].
    - rewrite app_nil_r in *. by destruct (decide (acc = [])).
    - rewrite H1, bool_decide_false by done. rewrite IH, <- (assoc_L (++)) by by destruct acc. done. }
  by apply (H []).
Qed.

Lemma as_bytes_app a b : as_bytes (a +:+ b) = as_bytes a ++ as_bytes b.
Proof. induction a as [|x a IH]; [done|]. exact (f_equal (cons (Ascii.byte_of_ascii x)) IH). Qed.

(** *** A port prints as digits *)
Lemma digits_clean l : Forall (fun b => is_digit b = true) l -> has_illegal l = false.
Proof.
  induction 1 as [|b l Hb _ IH]; [done|]. cbn [has_illegal]. rewrite IH, orb_false_r.
  clear IH. unfold is_digit in Hb. assert (strip_ws (b :: l) = None) as H.
  { unfold strip_ws. destruct l as [|b1 [|b2 l]]; cbn [take map]; repeat case_match; simplify_eq; done || lia. }
  unfold illegal_at. rewrite H. destruct l as [|b1 l]; cbn [take map]; lia.
Qed.

Lemma pretty_N_char_digit x : is_digit (Ascii.byte_of_ascii (pretty_N_char x)) = true.
Proof. unfold pretty_N_char. repeat case_match; vm_compute; done. Qed.

Lemma pretty_N_go_digits x : forall s,
  Forall (fun b => is_digit b = true) (as_bytes s) ->
  Forall (fun b => is_digit b = true) (as_bytes (pretty_N_go x s)) /\ (x <> 0%N \/ s <> EmptyString -> pretty_N_go x s <> EmptyString).
Proof.
  induction x as [x IH] using (well_founded_induction N.lt_wf_0). intros s Hs.
  destruct (decide (x = 0)%N) as [->|Hx]; [rewrite pretty_N_go_0; naive_solver|].
  rewrite pretty_N_go_step by lia.
  destruct (IH (x `div` 10)%N (ltac:(apply N.div_lt; lia)) (String (pretty_N_char (x `mod` 10)) s)) as [H1 H2].
  - match goal with |- Forall _ (as_bytes (String ?c s)) => change (as_bytes (String c s)) with (Ascii.byte_of_ascii c :: as_bytes s) end. constructor; [apply pretty_N_char_digit|done].
  - split; [done|]. intros _. apply H2. by right.
Qed.

Lemma pretty_clean z : 0 <= z -> clean (pretty z).
Proof.
  intros Hz. assert (exists n : N, pretty z = pretty n) as [n ->].
  { destruct z as [|p|p]; [by exists 0%N|by exists (N.pos p)|lia]. }
  unfold pretty, pretty_N. destruct (decide (n = 0)%N) as [->|Hn]; [split; [done|vm_compute; done]|].
  destruct (pretty_N_go_digits n EmptyString (Forall_nil_2 _)) as [H1 H2].
  split; [apply H2; by left|by apply digits_clean].
Qed.

(** Four clean fields make a connection string of exactly four words. *)
Lemma dsn_text_words host port database role :
  clean host -> 0 <= port -> clean database -> clean role ->
  conninfo_words (dsn_text host port database role) =
    Some [(as_bytes "host", as_bytes host); (as_bytes "port", as_bytes (pretty port));
          (as_bytes "dbname", as_bytes database); (as_bytes "user", as_bytes role)].
Proof.
  intros Hh Hp%pretty_clean Hd Hr. unfold conninfo_words, dsn_text. rewrite !as_bytes_app.
  change (as_bytes "host=") with (as_bytes "host" ++ [x3d]).
  change (as_bytes " port=") with (x20 :: as_bytes "port" ++ [x3d]).
  change (as_bytes " dbname=") with (x20 :: as_bytes "dbname" ++ [x3d]).
  change (as_bytes " user=") with (x20 :: as_bytes "user" ++ [x3d]).
  rewrite <- !(assoc_L (++)). cbn [app]. rewrite <- !(assoc_L (++)). cbn [app].
  rewrite conninfo_key by (apply plain_keyword; done). rewrite (conninfo_value _ _ _ _ Hh).
  rewrite conninfo_key by (apply plain_keyword; done). rewrite (conninfo_value _ _ _ _ Hp).
  rewrite conninfo_key by (apply plain_keyword; done). rewrite (conninfo_value _ _ _ _ Hd).
  rewrite conninfo_key by (apply plain_keyword; done). by rewrite (conninfo_value_end _ _ _ Hr).
Qed.

(** ** What resolution returns *)

(** A field's value and where it may come from: the override when it is set, the policy's
    target when it is not, and then the default, where there is one. *)
Definition layered {A} (override policy fallback : option A) (a : A) : Prop :=
  override = Some a \/ (override = None /\ policy = Some a) \/ (override = None /\ policy = None /\ fallback = Some a).

Lemma layered_none {A} (o p : option A) a : layered o p None a <-> or_else o p = Some a.
Proof. unfold layered. destruct o, p; simpl; naive_solver. Qed.

Lemma layered_default {A} (o p : option A) d a : layered o p (Some d) a <-> a = default d (or_else o p).
Proof. unfold layered. destruct o, p; simpl; naive_solver. Qed.

Lemma reject_resolved_ok_iff field value : reject_resolved_injection field value = Ok tt <-> clean value.
Proof.
  unfold reject_resolved_injection. rewrite <- (reject_ok_iff "resolved target" field).
  destruct (reject_dsn_injection _ _ _) as [[]|]; simpl; naive_solver.
Qed.

Lemma parse_unsigned_range max s p : parse_unsigned max s = Some p -> 0 <= p <= max.
Proof.
  unfold parse_unsigned. set (ds := match as_bytes s with x2b :: ds => ds | ds => ds end).
  assert (forall n, 0 <= n -> forallb is_digit ds = true -> 0 <= foldl (fun n d => 10 * n + (Z_of_byte d - 48)) n ds) as H.
  { induction ds as [|d ds IH]; intros n Hn; simpl; [done|]. unfold is_digit at 1. intros. apply IH; lia. }
  destruct ds as [|d ds']; [done|]. destruct (forallb is_digit _) eqn:E; [|done].
  specialize (H 0). repeat case_match; intros; simplify_eq. lia.
Qed.

Lemma bind_ok_iff {E A B} (x : result E A) (f : A -> result E B) (b : B) :
  (let? a := x in f a) = Ok b <-> exists a, x = Ok a /\ f a = Ok b.
Proof. destruct x; simpl; naive_solver. Qed.

Lemma ok_or_iff {E A} (e : E) (o : option A) a : ok_or e o = Ok a <-> o = Some a.
Proof. destruct o; simpl; naive_solver. Qed.

Lemma resolve_ok_iff r t :
  resolve r = Ok t <->
  or_else (host_override r) (option_map dsn_host (policy_target r)) = Some (r_host t) /\
  match port_override r with Some p => parse_u16 p | None => option_map dsn_port (policy_target r) end = Some (r_port t) /\
  r_database t = default (default_database r) (or_else (db_override r) (option_map dsn_database (policy_target r))) /\
  r_role t = default (default_role r) (or_else (role_override r) (option_map dsn_role (policy_target r))) /\
  clean (r_host t) /\ clean (r_database t) /\ clean (r_role t).
Proof.
  unfold resolve. setoid_rewrite bind_ok_iff. setoid_rewrite bind_ok_iff. cbv zeta. do 3 setoid_rewrite then_iff.
  repeat setoid_rewrite reject_resolved_ok_iff. setoid_rewrite ok_or_iff.
  set (db := default _ _). set (ro := default _ _).
  assert (forall m : TargetResolutionError, match port_override r with Some p => ok_or m (parse_u16 p)
            | None => ok_or m (option_map dsn_port (policy_target r)) end =
          ok_or m match port_override r with Some p => parse_u16 p | None => option_map dsn_port (policy_target r) end)
    as E by by intros; destruct (port_override r).
  setoid_rewrite E. setoid_rewrite ok_or_iff.
  destruct t as [h p d ro']; cbn. split.
  - intros (host & ? & port & ? & ? & ? & ? & [= -> -> <- <-]). done.
  - intros (? & ? & -> & -> & ? & ? & ?). eauto 10.
Qed.

(** A target is resolved exactly when the override, or failing that the policy, names a
    host and a port, and the host, database and role that result are clean; the override
    wins field by field, only database and role have a default, and an override is held to
    the same characters as the policy. *)
Theorem resolution_is_layered (r : TargetResolver) (t : ResolvedTarget) :
  resolve r = Ok t <->
  layered (host_override r) (option_map dsn_host (policy_target r)) None (r_host t) /\
  (port_override r = None /\ option_map dsn_port (policy_target r) = Some (r_port t) \/
   exists p, port_override r = Some p /\ parse_u16 p = Some (r_port t)) /\
  layered (db_override r) (option_map dsn_database (policy_target r)) (Some (default_database r)) (r_database t) /\
  layered (role_override r) (option_map dsn_role (policy_target r)) (Some (default_role r)) (r_role t) /\
  clean (r_host t) /\ clean (r_database t) /\ clean (r_role t).
Proof.
  rewrite resolve_ok_iff, layered_none, !layered_default. destruct (port_override r) as [p|]; [|naive_solver].
  assert (parse_u16 p = Some (r_port t) <->
    Some p = None /\ option_map dsn_port (policy_target r) = Some (r_port t) \/
    exists p', Some p = Some p' /\ parse_u16 p' = Some (r_port t)) as <- by naive_solver. done.
Qed.

(** The primary that the proxy and the preflight resolve, by the variables they read: the
    environment's value where it is set, else the policy's, the database and the role else
    their defaults; and nothing in it could end its field. *)
Definition primary_named (getenv : string -> option string) (policy : option DsnTarget) (t : ResolvedTarget) : Prop :=
  layered (getenv "PGB_BACKEND_HOST") (option_map dsn_host policy) None (r_host t) /\
  (getenv "PGB_BACKEND_PORT" = None /\ option_map dsn_port policy = Some (r_port t) \/
   exists p, getenv "PGB_BACKEND_PORT" = Some p /\ parse_unsigned 65535 p = Some (r_port t)) /\
  layered (getenv "PGB_BACKEND_DB") (option_map dsn_database policy) (Some "postgres"%string) (r_database t) /\
  layered (getenv "PGB_BACKEND_ROLE") (option_map dsn_role policy) (Some "pgb_agent"%string) (r_role t) /\
  clean (r_host t) /\ clean (r_database t) /\ clean (r_role t).

(** A resolved target is clean and its port is one. *)
Lemma resolve_clean r t :
  (forall p, policy_target r = Some p -> 0 <= dsn_port p <= 65535) ->
  resolve r = Ok t -> clean (r_host t) /\ clean (r_database t) /\ clean (r_role t) /\ 0 <= r_port t <= 65535.
Proof.
  intros Hp (_ & Hport & _ & _ & Hh & Hd & Hr)%resolve_ok_iff. do 3 (split; [done|]).
  destruct (port_override r); [by eapply parse_unsigned_range|].
  destruct (policy_target r); [|done]. injection Hport as <-. by apply Hp.
Qed.

(** A resolved target's connection string says what the target says and nothing else:
    read by the documented format it is exactly the four words host, port, dbname and user
    with the resolved values, so no value smuggles in a keyword. *)
Theorem resolved_dsn_is_exact (r : TargetResolver) (t : ResolvedTarget) :
  (forall p, policy_target r = Some p -> 0 <= dsn_port p <= 65535) ->
  resolve r = Ok t ->
  0 <= r_port t <= 65535 /\
  conninfo_words (resolved_dsn t) =
    Some [(as_bytes "host", as_bytes (r_host t)); (as_bytes "port", as_bytes (pretty (r_port t)));
          (as_bytes "dbname", as_bytes (r_database t)); (as_bytes "user", as_bytes (r_role t))].
Proof.
  intros Hp (Hh & Hd & Hr & Hport)%resolve_clean; [|done].
  split; [done|]. apply dsn_text_words; [done|lia|done..].
Qed.

Definition demo_target : DsnTarget := mkDsn "db.internal" 5432 "app" "pgb_agent" None.
Definition demo_resolver (db : option string) : TargetResolver :=
  mkResolver (Some demo_target) None (Some "6432"%string) db None "postgres" "pgb_agent"
    "PGB_BACKEND_HOST" "PGB_BACKEND_PORT" "primary:".

Lemma resolved_dsn_is_exact_witness :
  resolve (demo_resolver None) = Ok (mkResolved "db.internal" 6432 "app" "pgb_agent") /\
  conninfo_words "host=db.internal port=6432 dbname=app user=pgb_agent" =
    Some [(as_bytes "host", as_bytes "db.internal"); (as_bytes "port", as_bytes "6432");
          (as_bytes "dbname", as_bytes "app"); (as_bytes "user", as_bytes "pgb_agent")].
Proof.
  split; [vm_compute; done|].
  apply (resolved_dsn_is_exact (demo_resolver None) (mkResolved "db.internal" 6432 "app" "pgb_agent")).
  - intros p [= <-]. simpl. lia.
  - vm_compute; done.
Defined.

(** An override that needs a blank is refused, as the policy's own value would be. *)
Example exotic_override_is_refused :
  resolve (demo_resolver (Some "app sslmode=disable"%string)) =
    Err (Injection "database" (Invalid (FieldIllegal "resolved target" "database"))).
Proof. vm_compute. done. Qed.
End Config.
