(* ===== verification/Predicate.v ===== *)
(** * Predicate: the volatility gate and the self-determined-predicate gate

    Models [src/crates/clone-orchestrator/src/predicate.rs].  The SQL parser and its
    expression visitor are [sqlparser] (third-party): [parse_sql] and [visit_below] are
    parameters, and so is [str::to_lowercase], whose Unicode tables are not part of the
    repository.  The syntax tree has the variants the source matches on; variants that
    share one match arm share a constructor that carries which of them it is. *)

From S2P Require Import Prelude Text.

Set Warnings "-register-all".

Module Predicate.

(** ** The syntax tree *)

(** [Ident { value, quote_style }]. *)
Record Ident : Type := mkIdent { value : string; quoted : bool }.

(** [ObjectNamePart]: what [as_ident] and [to_string] return for it. *)
Record NamePart : Type := mkPart { as_ident : option string; shown : string }.

Inductive UnaryNode : Type :=
| UnaryOp | Nested | IsTrue | IsNotTrue | IsFalse | IsNotFalse | IsNull | IsNotNull | IsUnknown
| IsNotUnknown | Cast | Collate.

Inductive BinaryNode : Type :=
| BinaryOp | Like | ILike | SimilarTo | RLike | IsDistinctFrom | IsNotDistinctFrom.

Inductive SubqueryNode : Type := Subquery | Exists | InSubquery | AnyOp | AllOp | InUnnest.

Inductive Expr : Type :=
| Identifier (i : Ident)
| CompoundIdentifier (parts : list Ident)
| CompoundFieldAccess (root : Expr) (access_chain : list Expr)
| SubqueryForm (k : SubqueryNode) (inner : list Expr)
| Unary (k : UnaryNode) (e : Expr)
| Binary (k : BinaryNode) (l r : Expr)
| Between (e low high : Expr)
| InList (e : Expr) (l : list Expr)
| Case (operand : option Expr) (conditions : list (Expr * Expr)) (else_result : option Expr)
| Function (name : list NamePart) (args : list Expr)
| Value
| TypedString
| Interval (e : Expr)
| OtherExpr (children : list Expr).

Inductive TableFactor : Type := Table (name : list NamePart) | OtherFactor.
Record TableWithJoins : Type := mkTwj { relation : TableFactor; joins : nat }.

Inductive Statement : Type :=
| Update (table : TableWithJoins) (from : bool) (selection : option Expr)
| Delete (from : list TableWithJoins) (using_ : bool) (selection : option Expr)
| Insert | Truncate | Drop | AlterTable | CreateTable | SelectQuery | Merge | OtherStatement.

Definition list_of {A} (o : option A) : list A := match o with Some a => [a] | None => [] end.

(** The child expressions of a node, in source order. *)
Definition children (e : Expr) : list Expr :=
  match e with
  | Identifier _ | CompoundIdentifier _ | Value | TypedString => []
  | CompoundFieldAccess root chain => root :: chain
  | SubqueryForm _ l | Function _ l | OtherExpr l => l
  | Unary _ x | Interval x => [x]
  | Binary _ l r => [l; r]
  | Between x lo hi => [x; lo; hi]
  | InList x l => x :: l
  | Case op conds els => list_of op ++ flat_map (fun c => [c.1; c.2]) conds ++ list_of els
  end.

(** Every node of an expression, itself included. *)
Fixpoint nodes (e : Expr) : list Expr :=
  e :: match e with
       | Identifier _ | CompoundIdentifier _ | Value | TypedString => []
       | CompoundFieldAccess root chain => nodes root ++ flat_map nodes chain
       | SubqueryForm _ l | Function _ l | OtherExpr l => flat_map nodes l
       | Unary _ x | Interval x => nodes x
       | Binary _ l r => nodes l ++ nodes r
       | Between x lo hi => nodes x ++ nodes lo ++ nodes hi
       | InList x l => nodes x ++ flat_map nodes l
       | Case op conds els =>
           match op with Some x => nodes x | None => [] end ++
           flat_map (fun c => nodes c.1 ++ nodes c.2) conds ++
           match els with Some x => nodes x | None => [] end
       end.

(** The nodes strictly below one: what [visit_expressions] calls its closure on after
    the expression itself. *)
Definition below (e : Expr) : list Expr := flat_map nodes (children e).

(** ** Names *)

(** [dotted.rsplit('.').next()]: what follows the last dot. *)
Definition bare_bytes (l : list byte) : list byte :=
  foldl (fun acc b => if decide (b = "."%byte) then [] else acc ++ [b]) [] l.
Definition bare_name (dotted : string) : string := of_bytes (bare_bytes (as_bytes dotted)).

Definition has_dot (s : string) : bool := existsb (fun b => bool_decide (b = "."%byte)) (as_bytes s).

Definition NONDETERMINISTIC_KEYWORDS : list string :=
  ["now"; "current_timestamp"; "current_time"; "current_date"; "localtime"; "localtimestamp";
   "statement_timestamp"; "transaction_timestamp"; "txid_current"; "pg_current_xact_id";
   "pg_current_xact_id_if_assigned"]%string.

Definition KNOWN_DETERMINISTIC_SPECIAL_FORMS : list string :=
  ["coalesce"; "nullif"; "greatest"; "least"]%string.

Definition elem (s : string) (l : list string) : bool := bool_decide (s ∈ l).

Inductive Volatility : Type := Immutable | Stable | Volatile | Unknown.

#[global] Instance Volatility_eq_dec : EqDecision Volatility.
Proof. solve_decision. Defined.

(** The [FunctionVolatility] trait: the resolver after the lookup, and its answer. *)
Class FunctionVolatility (R : Type) : Type := {
  volatility_of : R -> string -> R * Volatility
}.

(** [NoFunctionVolatility]. *)
#[global] Instance NoFunctionVolatility : FunctionVolatility unit := {|
  volatility_of := fun r _ => (r, Unknown)
|}.

Inductive VolatileReason : Type :=
| NondeterministicKeyword (name : string)
| VolatileFunction (name : string)
| UnresolvableFunction (name : string)
| Unparseable.

Inductive NotSelfDetermined : Type :=
| NonPkColumn (pk_col referenced : string)
| HasSubquery
| JoinCorrelation
| NonImmutable (reason : VolatileReason)
| Unclassifiable.

Definition VolatileReason_fmt (r : VolatileReason) : string :=
  match r with
  | NondeterministicKeyword n =>
      "predicate references non-deterministic special value `" +:+ n +:+
      "` (value differs between dry-run and apply)"
  | VolatileFunction n =>
      "predicate references VOLATILE function `" +:+ n +:+ "` (pg_proc.provolatile = 'v')"
  | UnresolvableFunction n =>
      "predicate references function `" +:+ n +:+
      "` whose volatility could not be determined; cannot prove determinism (fail-closed)"
  | Unparseable => "statement could not be parsed; determinism cannot be proven (fail-closed)"
  end.

(** [Iterator::find_map]. *)
Definition find_map {A B} (f : A -> option B) : list A -> option B :=
  fix go l := match l with [] => None | x :: l => match f x with Some b => Some b | None => go l end end.

Definition or_else {A} (a b : option A) : option A := match a with Some _ => a | None => b end.

Definition predicate_of (s : Statement) : option (option Expr) :=
  match s with
  | Update _ _ selection | Delete _ _ selection => Some selection
  | _ => None
  end.

Definition join_correlation_reason (s : Statement) : option NotSelfDetermined :=
  match s with
  | Update table from _ =>
      if from then Some JoinCorrelation
      else if negb (Nat.eqb (joins table) 0) then Some JoinCorrelation
      else None
  | Delete from using_ _ =>
      if using_ then Some JoinCorrelation
      else if existsb (fun t => negb (Nat.eqb (joins t) 0)) from then Some JoinCorrelation
      else None
  | _ => None
  end.

Section gate.
Context (parse_sql : string -> result string (list Statement)).
Context (visit_below : Expr -> list Expr).
Context (to_lowercase : string -> string).

Definition object_name_lower (name : list NamePart) : string :=
  String.concat "."
    (map (fun p => match as_ident p with
                   | Some v => to_lowercase v
                   | None => to_lowercase (shown p)
                   end) name).

(** [visit_expressions]: the expression, then the nodes below it. *)
Definition visit (e : Expr) : list Expr := e :: visit_below e.

Definition function_names_in (e : Expr) : list string :=
  flat_map (fun x => match x with Function name _ => [object_name_lower name] | _ => [] end) (visit e).

(** The second loop of [predicate_volatile_reason]. *)
Fixpoint resolve_all {R} `{FunctionVolatility R} (names : list string) (resolver : R) :
    R * option VolatileReason :=
  match names with
  | [] => (resolver, None)
  | name :: names =>
      if negb (has_dot name) && elem (bare_name name) KNOWN_DETERMINISTIC_SPECIAL_FORMS
      then resolve_all names resolver
      else
        let '(resolver, v) := volatility_of resolver name in
        match v with
        | Volatile => (resolver, Some (VolatileFunction name))
        | Unknown => (resolver, Some (UnresolvableFunction name))
        | Immutable | Stable => resolve_all names resolver
        end
  end.

Definition predicate_volatile_reason {R} `{FunctionVolatility R} (sql : string) (resolver : R) :
    R * option VolatileReason :=
  match parse_sql sql with
  | Ok [s] =>
      match predicate_of s with
      | None => (resolver, Some Unparseable)
      | Some None => (resolver, None)
      | Some (Some predicate) =>
          let names := function_names_in predicate in
          match find_map (fun n => if elem (bare_name n) NONDETERMINISTIC_KEYWORDS
                                   then Some (NondeterministicKeyword n) else None) names with
          | Some reason => (resolver, Some reason)
          | None => resolve_all names resolver
          end
      end
  | _ => (resolver, Some Unparseable)
  end.

Definition non_pk_column (i : Ident) (pk_bare : string) : option NotSelfDetermined :=
  if decide (to_lowercase (value i) = pk_bare) then None
  else Some (NonPkColumn pk_bare (value i)).

Definition classify_atom_only (pk_bare : string) (e : Expr) : option NotSelfDetermined :=
  match e with
  | Identifier i => non_pk_column i pk_bare
  | CompoundIdentifier parts => last parts ≫= fun col => non_pk_column col pk_bare
  | SubqueryForm _ _ => Some HasSubquery
  | _ => None
  end.

Fixpoint classify_self_determined_expr (pk_bare : string) (e : Expr) : option NotSelfDetermined :=
  match e with
  | Identifier i => non_pk_column i pk_bare
  | CompoundIdentifier parts =>
      match last parts with
      | Some col => non_pk_column col pk_bare
      | None => Some Unclassifiable
      end
  | CompoundFieldAccess root _ =>
      or_else (classify_self_determined_expr pk_bare root)
              (find_map (classify_atom_only pk_bare) (visit_below e))
  | SubqueryForm _ _ => Some HasSubquery
  | Binary _ l r =>
      or_else (classify_self_determined_expr pk_bare l) (classify_self_determined_expr pk_bare r)
  | Unary _ x => classify_self_determined_expr pk_bare x
  | Between x low high =>
      or_else (or_else (classify_self_determined_expr pk_bare x)
                       (classify_self_determined_expr pk_bare low))
              (classify_self_determined_expr pk_bare high)
  | InList x l =>
      or_else (classify_self_determined_expr pk_bare x)
              (find_map (classify_self_determined_expr pk_bare) l)
  | Case operand conditions else_result =>
      or_else (match operand with Some op => classify_self_determined_expr pk_bare op | None => None end)
        (or_else
           (find_map (fun w => or_else (classify_self_determined_expr pk_bare w.1)
                                       (classify_self_determined_expr pk_bare w.2)) conditions)
           (match else_result with Some er => classify_self_determined_expr pk_bare er | None => None end))
  | Function _ _ => find_map (classify_atom_only pk_bare) (visit_below e)
  | Value | TypedString | Interval _ => None
  | OtherExpr _ =>
      match find_map (classify_atom_only pk_bare) (visit e) with
      | Some reason => Some reason
      | None => Some Unclassifiable
      end
  end.

Definition self_determined_predicate_structural_reason (sql pk_col : string) :
    option NotSelfDetermined :=
  match parse_sql sql with
  | Ok [s] =>
      match join_correlation_reason s with
      | Some reason => Some reason
      | None =>
          match predicate_of s with
          | Some None | None => Some Unclassifiable
          | Some (Some p) => classify_self_determined_expr (bare_name (to_lowercase pk_col)) p
          end
      end
  | _ => Some Unclassifiable
  end.

Definition self_determined_predicate_reason {R} `{FunctionVolatility R}
    (sql pk_col : string) (resolver : R) : R * option NotSelfDetermined :=
  match parse_sql sql with
  | Ok [s] =>
      match join_correlation_reason s with
      | Some reason => (resolver, Some reason)
      | None =>
          match predicate_of s with
          | Some None | None => (resolver, Some Unclassifiable)
          | Some (Some p) =>
              match classify_self_determined_expr (bare_name (to_lowercase pk_col)) p with
              | Some reason => (resolver, Some reason)
              | None =>
                  let '(resolver, reason) := predicate_volatile_reason sql resolver in
                  (resolver, option_map NonImmutable reason)
              end
          end
      end
  | _ => (resolver, Some Unclassifiable)
  end.
End gate.

(** ** Lemmas *)

(** [H] on each element, as a fixpoint the guard condition sees through. *)
Definition all_of {P : Expr -> Prop} (H : forall e, P e) : forall l, Forall P l :=
  fix go l := match l with [] => List.Forall_nil _ | x :: l => List.Forall_cons _ _ _ (H x) (go l) end.
Definition all_of_pairs {P : Expr -> Prop} (H : forall e, P e) :
    forall l : list (Expr * Expr), Forall P (flat_map (fun c => [c.1; c.2]) l) :=
  fix go l :=
    match l with
    | [] => List.Forall_nil _
    | (a, b) :: l => List.Forall_cons _ _ _ (H a) (List.Forall_cons _ _ _ (H b) (go l))
    end.

Lemma Expr_children_ind (P : Expr -> Prop) :
  (forall e, Forall P (children e) -> P e) -> forall e, P e.
Proof.
  intros H. fix IH 1. intros e. apply H.
  destruct e as [| |root chain|? l|? x|? l r|x lo hi|x l|op conds els|? l| | |x|l]; simpl;
    repeat first [apply List.Forall_nil | apply List.Forall_cons; [apply IH|]];
    try match goal with |- Forall _ ?l => is_var l; exact (all_of IH l) end.
  apply Forall_app; split; [destruct op; simpl; repeat constructor; apply IH|].
  apply Forall_app; split; [exact (all_of_pairs IH conds)|].
  destruct els; simpl; repeat constructor; apply IH.
Qed.

Lemma nodes_below e : nodes e = e :: below e.
Proof.
  unfold below. destruct e as [| | | | | | | |op conds els| | | | |]; simpl; rewrite ?app_nil_r; try done.
  f_equal. rewrite !flat_map_app. f_equal; [by destruct op; simpl; rewrite ?app_nil_r|].
  f_equal; [|by destruct els; simpl; rewrite ?app_nil_r].
  induction conds as [|c conds IH]; simpl; [done|]. by rewrite IH, <- app_assoc.
Qed.

Lemma in_nodes x e : In x (nodes e) <-> x = e \/ In x (below e).
Proof. rewrite nodes_below. simpl. naive_solver. Qed.

Lemma find_map_none {A B} (f : A -> option B) l : find_map f l = None <-> forall x, In x l -> f x = None.
Proof.
  induction l as [|x l IH]; simpl; [naive_solver|].
  destruct (f x) eqn:E; [|naive_solver]. split; [done|]. intros H. rewrite <- E. auto.
Qed.

Lemma or_else_none {A} (a b : option A) : or_else a b = None <-> a = None /\ b = None.
Proof. destruct a; naive_solver. Qed.

Create Rewrite HintDb predicate.
#[global] Hint Rewrite @find_map_none @or_else_none : predicate.

(** What the visitor's documentation says: its closure sees every node below. *)
Definition visits_below (visit_below : Expr -> list Expr) : Prop :=
  forall e x, In x (visit_below e) <-> In x (below e).

(** Interval operands are literals, as the grammar of the database has them. *)
Definition interval_literals (e : Expr) : Prop := forall x, In (Interval x) (nodes e) -> x = Value.

Lemma interval_literals_child e c : interval_literals e -> In c (children e) -> interval_literals c.
Proof.
  intros H Hc x Hx. apply H, in_nodes. right. apply in_flat_map. by exists c.
Qed.

(** Every node of a predicate the structural gate admits is a harmless atom. *)
Lemma classified_atoms visit_below to_lowercase pk e :
  visits_below visit_below -> interval_literals e ->
  classify_self_determined_expr visit_below to_lowercase pk e = None ->
  forall x, In x (nodes e) -> classify_atom_only to_lowercase pk x = None.
Proof.
  intros Hv. induction e as [e IH] using Expr_children_ind. intros Hi Hc.
  assert (forall c x, In c (children e) -> In x (nodes c) ->
            classify_self_determined_expr visit_below to_lowercase pk c = None ->
            classify_atom_only to_lowercase pk x = None) as Hrec.
  { intros c x Hin Hx Hcc. rewrite List.Forall_forall in IH.
    eapply IH; eauto using interval_literals_child. }
  enough (classify_atom_only to_lowercase pk e = None /\
          forall x, In x (below e) -> classify_atom_only to_lowercase pk x = None) as [He Hb].
  { intros x [->|Hx]%in_nodes; auto. }
  assert ((forall c, In c (children e) ->
             classify_self_determined_expr visit_below to_lowercase pk c = None) ->
          forall x, In x (below e) -> classify_atom_only to_lowercase pk x = None) as Hall.
  { intros H x (c & Hcin & Hx)%in_flat_map. eauto. }
  clear IH Hrec.
  destruct e as [i|parts|root chain|k l|k x|k l r|x lo hi|x l|op conds els|name l| | |x|l];
    cbn [classify_self_determined_expr] in Hc; cbn [classify_atom_only];
    autorewrite with predicate in Hc; (split; [try done|]); try done.
  - by destruct (last parts).
  - destruct Hc as [_ Hc]. intros y Hy. apply Hc, Hv, Hy.
  - apply Hall. simpl. naive_solver.
  - apply Hall. simpl. naive_solver.
  - apply Hall. simpl. naive_solver.
  - apply Hall. simpl. naive_solver.
  - destruct Hc as (Hop & Hco & Hel). apply Hall. simpl. intros c. rewrite !in_app_iff, in_flat_map.
    intros [Hin|[([a b] & Hw & Hin)|Hin]].
    + destruct op; simpl in Hin; naive_solver.
    + specialize (Hco _ Hw). autorewrite with predicate in Hco. simpl in *. naive_solver.
    + destruct els; simpl in Hin; naive_solver.
  - intros y Hy. apply Hc, Hv, Hy.
  - rewrite (Hi x) by (simpl; auto). simpl. naive_solver.
  - destruct (find_map _ _); done.
Qed.

(** ** Properties *)

(** A resolver that reads one catalog: lookups do not change what it answers. *)
Class CatalogResolver (R : Type) `{FunctionVolatility R} : Type := {
  answers : R -> string -> Volatility;
  answers_spec r n : (volatility_of r n).2 = answers r n;
  answers_stable r n m : answers (volatility_of r n).1 m = answers r m
}.

#[global, refine] Instance NoFunctionVolatility_catalog : CatalogResolver unit := {|
  answers := fun _ _ => Unknown
|}.
Proof. all: done. Defined.

(** A fixed catalog, as the production resolver reads one from the connection. *)
Definition Catalog : Type := list (string * Volatility).
Definition catalog_lookup (c : Catalog) (n : string) : Volatility :=
  match List.find (fun x => bool_decide (x.1 = n)) c with Some x => x.2 | None => Unknown end.
#[global] Instance Catalog_resolver : FunctionVolatility Catalog := {|
  volatility_of := fun c n => (c, catalog_lookup c n)
|}.
#[global, refine] Instance Catalog_catalog : CatalogResolver Catalog := {| answers := catalog_lookup |}.
Proof. all: done. Defined.

Definition special_form (n : string) : Prop :=
  has_dot n = false /\ bare_name n ∈ KNOWN_DETERMINISTIC_SPECIAL_FORMS.

(** What the catalog has to say of a function for the volatility gate to admit it. *)
Definition admitted {R} `{CatalogResolver R} (r : R) (n : string) : Prop :=
  special_form n \/ answers r n = Immutable \/ answers r n = Stable.

Lemma resolve_all_none {R} `{CatalogResolver R} names (r : R) :
  (resolve_all names r).2 = None <-> forall n, In n names -> admitted r n.
Proof.
  revert r. induction names as [|n names IH]; intros r; simpl; [naive_solver|].
  assert (negb (has_dot n) && elem (bare_name n) KNOWN_DETERMINISTIC_SPECIAL_FORMS = true <-> special_form n) as Hs.
  { unfold special_form, elem. rewrite andb_true_iff, negb_true_iff, bool_decide_eq_true. done. }
  destruct (negb _ && _).
  { rewrite IH. unfold admitted. naive_solver. }
  assert (~ special_form n) as Hn by (rewrite <- Hs; done). clear Hs.
  pose proof (answers_spec r n) as Ha. pose proof (answers_stable r n) as Hst.
  destruct (volatility_of r n) as [r' v]; simpl in *. subst v.
  assert ((resolve_all names r').2 = None <-> forall m, In m names -> admitted r m) as IH'.
  { rewrite IH. unfold admitted. by setoid_rewrite Hst. }
  unfold admitted in *. destruct (answers r n) eqn:E; simpl; try (rewrite IH'; naive_solver); split; try done;
    intros Hall; destruct (Hall n) as [?|[?|?]]; auto; congruence.
Qed.

Lemma in_function_names visit_below to_lowercase p n :
  visits_below visit_below ->
  In n (function_names_in visit_below to_lowercase p) <->
  exists name args, In (Function name args) (nodes p) /\ n = object_name_lower to_lowercase name.
Proof.
  intros Hv. unfold function_names_in, visit. rewrite in_flat_map. split.
  - intros (x & Hx & Hn). destruct x; try done. destruct Hn as [<-|[]]. exists name, args. split; [|done].
    apply in_nodes. destruct Hx as [->|Hx]; [by left|right; by apply Hv].
  - intros (name & args & Hx & ->). exists (Function name args). split; [|by left].
    apply in_nodes in Hx as [->|Hx]; [by left|right; by apply Hv].
Qed.

Section exact.
Context (parse_sql : string -> result string (list Statement)).
Context (visit_below : Expr -> list Expr) (Hvisit : visits_below visit_below).
Context (to_lowercase : string -> string).
Context {R : Type} `{CatalogResolver R}.

#[local] Abbreviation lower_name := (object_name_lower to_lowercase).
#[local] Abbreviation volatile_reason := (predicate_volatile_reason parse_sql visit_below to_lowercase).

Lemma volatile_gate_spec sql (r : R) s sel :
  parse_sql sql = Ok [s] -> predicate_of s = Some sel ->
  (volatile_reason sql r).2 = None <->
  forall p name args, sel = Some p -> In (Function name args) (nodes p) ->
    (bare_name (lower_name name) ∉ NONDETERMINISTIC_KEYWORDS) /\ admitted r (lower_name name).
Proof.
  intros Hs Hsel. unfold predicate_volatile_reason. rewrite Hs, Hsel.
  destruct sel as [p|]; [|naive_solver].
  set (names := function_names_in visit_below to_lowercase p).
  assert (forall n, In n names <-> exists name args, In (Function name args) (nodes p) /\ n = lower_name name)
    as Hnames by (intros; by apply in_function_names).
  trans ((forall n, In n names -> bare_name n ∉ NONDETERMINISTIC_KEYWORDS) /\
         (forall n, In n names -> admitted r n)).
  - destruct (find_map _ names) eqn:E.
    + split; [done|]. intros [Hk _]. enough (find_map (fun n => if elem (bare_name n) NONDETERMINISTIC_KEYWORDS
                                   then Some (NondeterministicKeyword n) else None) names = None) by congruence.
      apply find_map_none. intros n Hn. unfold elem. by rewrite bool_decide_eq_false_2 by auto.
    + rewrite resolve_all_none. split; [|naive_solver]. intros Ha. split; [|done]. intros n Hn.
      rewrite find_map_none in E. specialize (E n Hn). unfold elem in E. by case_bool_decide.
  - split.
    + intros [Hk Ha] q name args [= <-] Hin. split; [apply Hk|apply Ha]; apply Hnames; eauto.
    + intros Hq. split; intros n (name & args & Hin & ->)%Hnames; by eapply Hq.
Qed.
End exact.

(** The volatility gate is exact: a write is let through exactly when it parses as one
    UPDATE or DELETE in whose WHERE, at any depth, every function call is neither a
    boundary-unsafe special value nor anything the catalog does not call immutable or
    stable (the four special forms apart, when unqualified). *)
Theorem volatile_gate_exact (parse_sql : string -> result string (list Statement))
    (visit_below : Expr -> list Expr) (to_lowercase : string -> string) {R : Type} `{CatalogResolver R}
    (sql : string) (r : R) :
  visits_below visit_below ->
  (predicate_volatile_reason parse_sql visit_below to_lowercase sql r).2 = None <->
  exists s sel, parse_sql sql = Ok [s] /\ predicate_of s = Some sel /\
    forall p name args, sel = Some p -> In (Function name args) (nodes p) ->
      (bare_name (object_name_lower to_lowercase name) ∉ NONDETERMINISTIC_KEYWORDS) /\
      admitted r (object_name_lower to_lowercase name).
Proof.
  intros Hv. split.
  - intros Hn. destruct (parse_sql sql) as [[|s [|]]|] eqn:E;
      try (unfold predicate_volatile_reason in Hn; rewrite E in Hn; done).
    destruct (predicate_of s) as [sel|] eqn:Es;
      [|unfold predicate_volatile_reason in Hn; rewrite E, Es in Hn; done].
    exists s, sel. rewrite <- (volatile_gate_spec parse_sql visit_below Hv to_lowercase sql r s sel) by done.
    done.
  - intros (s & sel & E & Es & Ha).
    by rewrite (volatile_gate_spec parse_sql visit_below Hv to_lowercase sql r s sel).
Qed.

Lemma below_visits : visits_below below.
Proof. done. Qed.

Definition bare (s : string) : list NamePart := [mkPart (Some s) s].
Definition plain_table : TableWithJoins := mkTwj (Table (bare "t")) 0.
Definition column (s : string) : Expr := Identifier (mkIdent s false).
(** [UPDATE t SET .. WHERE abs(id) = 7]. *)
Definition sample_update : Statement :=
  Update plain_table false (Some (Binary BinaryOp (Function (bare "abs") [column "id"]) Value)).
Definition sample_catalog : Catalog := [("abs", Immutable); ("current_user", Stable)]%string.

Lemma volatile_gate_exact_witness :
  let parse := fun _ : string => Ok (E:=string) [sample_update] in
  (predicate_volatile_reason parse below Text.to_ascii_lowercase "u" sample_catalog).2 = None /\
  exists s sel, parse "u"%string = Ok [s] /\ predicate_of s = Some sel /\
    forall p name args, sel = Some p -> In (Function name args) (nodes p) ->
      (bare_name (object_name_lower Text.to_ascii_lowercase name) ∉ NONDETERMINISTIC_KEYWORDS) /\
      admitted sample_catalog (object_name_lower Text.to_ascii_lowercase name).
Proof.
  split; [vm_compute; reflexivity|].
  apply (volatile_gate_exact (fun _ => Ok [sample_update]) below Text.to_ascii_lowercase "u" sample_catalog below_visits).
  vm_compute. reflexivity.
Defined.

(** The column a reference resolves to: the database folds unquoted names. *)
Definition column_of (to_lowercase : string -> string) (i : Ident) : string :=
  if quoted i then value i else to_lowercase (value i).

Definition refers_to (e : Expr) (i : Ident) : Prop :=
  In (Identifier i) (nodes e) \/ exists parts, In (CompoundIdentifier parts) (nodes e) /\ last parts = Some i.

(** The node of an expression at a position: the indices of the children to go down. *)
Inductive node_at : Expr -> list nat -> Expr -> Prop :=
| at_root e : node_at e [] e
| at_child e k c path x : children e !! k = Some c -> node_at c path x -> node_at e (k :: path) x.

Lemma node_at_in e path x : node_at e path x -> In x (nodes e).
Proof.
  induction 1 as [e|e k c path x Hc _ IH]; apply in_nodes; [by left|right]. apply in_flat_map. exists c.
  split; [|done]. by apply list_elem_of_In, (list_elem_of_lookup_2 _ k).
Qed.

Section evaluation.
Context {V W : Type} (to_lowercase : string -> string).

(** What the node at each position computes in a world (other tables, settings, clocks)
    on a row, from the values of its children.  It may be anything: a literal is a constant
    or a clock ('now'), a subquery reads the world and the row. *)
Definition Operations : Type := list nat -> Expr -> W -> (string -> V) -> list V -> V.

(** SQL evaluation: a column reference reads the row, every other node applies its
    operation to the values of its children. *)
Fixpoint eval (fuel : nat) (ops : Operations) (row : string -> V) (w : W) (e : Expr) : V :=
  match e with
  | Identifier i => row (column_of to_lowercase i)
  | CompoundIdentifier parts =>
      match last parts with Some i => row (column_of to_lowercase i) | None => ops [] e w row [] end
  | _ =>
      ops [] e w row
        match fuel with
        | O => []
        | S fuel => imap (fun k c => eval fuel (fun path => ops (k :: path)) row w c) (children e)
        end
  end.

Definition evaluate (ops : Operations) (row : string -> V) (w : W) (e : Expr) : V := eval (length (nodes e)) ops row w e.

Lemma imap_eq {A B} (f g : nat -> A -> B) l : (forall k x, l !! k = Some x -> f k x = g k x) -> imap f l = imap g l.
Proof. apply imap_ext. Qed.

(** The fuel is enough: more of it changes nothing. *)
Lemma eval_enough fuel ops row w e : (length (nodes e) <= fuel)%nat -> eval fuel ops row w e = evaluate ops row w e.
Proof.
  unfold evaluate. enough (forall n m ops e, (length (nodes e) <= n)%nat -> (length (nodes e) <= m)%nat ->
    eval n ops row w e = eval m ops row w e) as H by (intros; by apply H). clear.
  induction n as [|n IH]; intros m ops e Hn Hm; rewrite nodes_below in Hn, Hm; simpl in Hn, Hm; [lia|].
  destruct m as [|m]; [lia|].
  assert (imap (fun k c => eval n (fun path => ops (k :: path)) row w c) (children e) =
          imap (fun k c => eval m (fun path => ops (k :: path)) row w c) (children e)) as Hc.
  { apply imap_eq. intros k c Hk. apply list_elem_of_lookup_2, list_elem_of_In in Hk.
    assert (length (nodes c) <= length (below e))%nat as Hl.
    { unfold below. clear -Hk. induction (children e) as [|x l IH]; simpl in *; [done|]. rewrite length_app.
      destruct Hk as [->|Hk]; [lia|]. specialize (IH Hk). lia. }
    apply IH; lia. }
  destruct e; simpl in *; try done; by rewrite Hc.
Qed.

(** What a node computes depends on its operands only. *)
Definition steady (ops : Operations) (path : list nat) (x : Expr) : Prop :=
  forall w1 w2 row1 row2 vs, ops path x w1 row1 vs = ops path x w2 row2 vs.

(** The nodes that are neither columns, nor subqueries, nor calls: operators, casts,
    literals, typed literals, collations, conditionals. *)
Definition operator (x : Expr) : bool :=
  match x with
  | Identifier _ | SubqueryForm _ _ | Function _ _ => false
  | CompoundIdentifier parts => bool_decide (last parts = None)
  | _ => true
  end.

Definition is_column (x : Expr) : bool :=
  match x with Identifier _ => true | CompoundIdentifier parts => negb (bool_decide (last parts = None)) | _ => false end.

(** Steady throughout, an expression is a function of the columns it refers to. *)
Lemma eval_steady fuel ops row1 row2 w1 w2 e :
  (forall i, refers_to e i -> row1 (column_of to_lowercase i) = row2 (column_of to_lowercase i)) ->
  (forall path x, node_at e path x -> is_column x = false -> steady ops path x) ->
  eval fuel ops row1 w1 e = eval fuel ops row2 w2 e.
Proof.
  revert ops e. induction fuel as [|fuel IH]; intros ops e Hrow Hst.
  - destruct e as [i|parts| | | | | | | | | | | |]; simpl; try (apply (Hst [] _ (at_root _)); done).
    + apply Hrow. left. by left.
    + destruct (last parts) as [i|] eqn:El; [|apply (Hst [] _ (at_root _)); simpl; by rewrite El].
      apply Hrow. right. exists parts. split; [by left|done].
  - assert (imap (fun k c => eval fuel (fun path => ops (k :: path)) row1 w1 c) (children e) =
            imap (fun k c => eval fuel (fun path => ops (k :: path)) row2 w2 c) (children e)) as Hc.
    { apply imap_eq. intros k c Hk. apply IH.
      - intros i Hi. apply Hrow. assert (forall x, In x (nodes c) -> In x (nodes e)) as Hsub.
        { intros x Hx. apply in_nodes. right. apply in_flat_map. exists c. split; [|done].
          by apply list_elem_of_In, (list_elem_of_lookup_2 _ k). }
        destruct Hi as [Hi|(parts & Hi & El)]; [left; auto|right; eauto].
      - intros path x Hx Hcol. intros v1 v2 r1 r2 vs. apply (Hst (k :: path) x); [by eapply at_child|done]. }
    destruct e as [i|parts| | | | | | | | | | | |]; cbn [eval]; try (rewrite Hc; apply (Hst [] _ (at_root _)); done).
    + apply Hrow. left. by left.
    + destruct (last parts) as [i|] eqn:El; [|apply (Hst [] _ (at_root _)); simpl; by rewrite El].
      apply Hrow. right. exists parts. split; [by left|done].
Qed.

(** The catalog tells the truth: a call of a function it calls immutable, or of a special
    form, depends on its arguments only. *)
Definition immutable_calls_steady {R} `{CatalogResolver R} (r : R) (ops : Operations) (p : Expr) : Prop :=
  forall path name args, node_at p path (Function name args) ->
    special_form (object_name_lower to_lowercase name) \/ answers r (object_name_lower to_lowercase name) = Immutable ->
    steady ops path (Function name args).

(** What the gate does not look at, and the statement must have by itself: quoted names
    written in lower case, interval operands that are literals, no function that is only
    stable, and operators, casts and literals that are immutable (no clock in a typed
    literal, no setting in a cast, no operator on a volatile function). *)
Definition plainly_written {R} `{CatalogResolver R} (r : R) (ops : Operations) (p : Expr) : Prop :=
  (forall i, refers_to p i -> quoted i = true -> to_lowercase (value i) = value i) /\
  interval_literals p /\
  (forall name args, In (Function name args) (nodes p) ->
     answers r (object_name_lower to_lowercase name) <> Stable) /\
  (forall path x, node_at p path x -> operator x = true -> steady ops path x).
End evaluation.

Lemma filter_pk_agrees {V} (sel1 sel2 : (string -> V) -> bool) pk t1 t2 :
  (forall a b, a pk = b pk -> sel1 a = sel2 b) ->
  map (fun r => r pk) t1 = map (fun r : string -> V => r pk) t2 ->
  map (fun r => r pk) (List.filter sel1 t1) = map (fun r => r pk) (List.filter sel2 t2).
Proof.
  intros Hs. revert t2. induction t1 as [|a t1 IH]; intros [|b t2]; simpl; try done.
  intros [= Hab Ht]. rewrite (Hs a b Hab). destruct (sel2 b); simpl; rewrite (IH _ Ht); congruence.
Qed.


(** A meaning for the witness: [abs] and [=] are what they are, the literal is 7, and a
    subquery reads the world. *)
Definition demo_ops : Operations (V:=Z) (W:=bool) := fun _ x w _ vs =>
  match x, vs with
  | Function _ _, [n] => Z.abs n
  | Binary _ _ _, [a; b] => Z.b2z (a =? b)
  | SubqueryForm _ _, _ => Z.b2z w
  | Value, _ => 7
  | _, _ => 0
  end.

Definition sample_predicate : Expr := Binary BinaryOp (Function (bare "abs") [column "id"]) Value.

Lemma demo_ops_steady path x : (forall k l, x <> SubqueryForm k l) -> steady demo_ops path x.
Proof. intros Hx w1 w2 row1 row2 vs. destruct x; try done. by destruct (Hx k inner). Qed.

Lemma sample_plainly_written : plainly_written Text.to_ascii_lowercase sample_catalog demo_ops sample_predicate.
Proof.
  split; [|split; [|split]].
  - intros i [Hi|(parts & Hi & _)] Hq; simpl in Hi; [|by decompose sum Hi].
    destruct Hi as [?|[?|[Hi|[?|?]]]]; try done. by injection Hi as <-.
  - intros x Hx. simpl in Hx. by decompose sum Hx.
  - intros name args Hn. simpl in Hn. destruct Hn as [?|[Hn|[?|[?|?]]]]; try done.
    injection Hn as <- <-. by vm_compute.
  - intros path x _ Hx. apply demo_ops_steady. by intros k l ->.
Qed.

(** Two states of a table with the keys 7, 3 and -7. *)
Definition demo_table (other : Z) : list (string -> Z) :=
  map (fun key col => if decide (col = "id"%string) then key else other) [7; 3; -7].


(** Where the gate stops short of its documentation.  It admits three predicates
    whose rows other data can steer: a quoted column that differs from the key only in
    letter case; a function the catalog calls stable (such as [current_user], which
    the documentation lists as refused); and any column or subquery under INTERVAL. *)
Theorem self_determined_blind_spots (parse_sql : string -> result string (list Statement))
    (visit_below : Expr -> list Expr) (to_lowercase : string -> string) {R : Type} `{CatalogResolver R}
    (sql : string) (r : R) (p : Expr) :
  visits_below visit_below -> to_lowercase "ID" = "id"%string -> to_lowercase "id" = "id"%string ->
  parse_sql sql = Ok [Update plain_table false (Some p)] ->
  (p = Binary BinaryOp (Identifier (mkIdent "ID" true)) Value \/
   (exists f, p = Binary BinaryOp (column "id") (Function f []) /\
      (bare_name (object_name_lower to_lowercase f) ∉ NONDETERMINISTIC_KEYWORDS) /\
      answers r (object_name_lower to_lowercase f) = Stable) \/
   (exists x, p = Binary BinaryOp (column "id") (Interval x) /\ forall name args, ~ In (Function name args) (nodes x))) ->
  (self_determined_predicate_reason parse_sql visit_below to_lowercase sql "id" r).2 = None.
Proof.
  intros Hv HID Hid Hs Hp. unfold self_determined_predicate_reason. rewrite Hs. simpl join_correlation_reason.
  cbv iota. cbn [predicate_of]. rewrite Hid. change (bare_name "id") with "id"%string.
  assert (classify_self_determined_expr visit_below to_lowercase "id" p = None) as ->.
  { destruct Hp as [->|[(f & -> & _)|(x & -> & _)]]; simpl; unfold non_pk_column, column; simpl;
      rewrite ?HID, ?Hid; simpl; try done.
    apply find_map_none. intros y Hy%Hv. done. }
  enough ((predicate_volatile_reason parse_sql visit_below to_lowercase sql r).2 = None) as E.
  { destruct (predicate_volatile_reason _ _ _ _ _) as [? o]. simpl in *. by subst o. }
  rewrite (volatile_gate_spec parse_sql visit_below Hv to_lowercase sql r _ (Some p)) by done.
  intros q name args [= <-] Hin. destruct Hp as [->|[(f & -> & Hk & Ha)|(x & -> & Hno)]]; simpl in Hin.
  - by decompose sum Hin.
  - destruct Hin as [?|[?|[Hin|?]]]; try done. injection Hin as <- <-. split; [done|]. by right; right.
  - destruct Hin as [?|[?|[?|Hin]]]; try done. by apply Hno in Hin.
Qed.

Lemma self_determined_blind_spots_witness :
  (self_determined_predicate_reason
     (fun _ => Ok [Update plain_table false
                     (Some (Binary BinaryOp (column "id") (Function (bare "current_user") [])))])
     below Text.to_ascii_lowercase "u" "id" sample_catalog).2 = None.
Proof.
  apply (self_determined_blind_spots
           (fun _ => Ok [Update plain_table false
                           (Some (Binary BinaryOp (column "id") (Function (bare "current_user") [])))])
           below Text.to_ascii_lowercase "u" sample_catalog
           (Binary BinaryOp (column "id") (Function (bare "current_user") []))).
  - exact below_visits.
  - vm_compute. reflexivity.
  - vm_compute. reflexivity.
  - reflexivity.
  - right. left. exists (bare "current_user"). split; [reflexivity|]. split; [by_decide|vm_compute; reflexivity].
Defined.

End Predicate.
