(* ===== verification/DryRun.v ===== *)
(** * DryRun: proposals and the dry-run blast-radius engine

    Models [src/crates/clone-orchestrator/src/proposal.rs] (Module [Proposal]) and
    [src/crates/clone-orchestrator/src/dry_run.rs] (Module [DryRun]).  The measurement
    backend is the [Rehearsal] trait as a class over the backend's state; [DryRun] owns
    the order of the gates and the fold of a measurement into the record. *)

From Stdlib Require Import ZifyBool.
From stdpp Require Import pretty.
From S2P Require Import Prelude Text Predicate PkChecksum Inverse Session BlastRadius.

Module Proposal.
Import Clock.

Definition DEFAULT_TTL_MILLIS : Z := 15 * 60 * 1000.

Record Proposal : Type := mkProposal {
  id : string;
  statement : string;
  expected_rows : option Z;
  created_unix_millis : Z;
  created_monotonic_millis : Z;
  ttl_millis : Z
}.

Definition is_expired {C} `{Clock C} (p : Proposal) (clock : C) : bool :=
  ttl_millis p <=? sat_sub (monotonic_millis clock) (created_monotonic_millis p).

Definition remaining_millis {C} `{Clock C} (p : Proposal) (clock : C) : Z :=
  let elapsed := sat_sub (monotonic_millis clock) (created_monotonic_millis p) in
  sat_sub (ttl_millis p) elapsed.

(** ** The proposal id: FNV-1a over the defining fields *)

Definition FNV_OFFSET : Z := 0xcbf29ce484222325.
Definition FNV_PRIME : Z := 0x100000001b3.

Definition fnv_byte (h : Z) (b : byte) : Z := wrap_u 64 (Z.lxor h (Z_of_byte b) * FNV_PRIME).
Definition mix (h : Z) (bytes : list byte) : Z := foldl fnv_byte h bytes.

Definition hex_digit (n : Z) : Ascii.ascii :=
  Ascii.ascii_of_nat (Z.to_nat (if n <? 10 then 48 + n else 87 + n)).

(** [{h:0<n>x}] of a value that fits [n] digits. *)
Fixpoint hex_digits (n : nat) (h : Z) : string :=
  match n with
  | O => EmptyString
  | S n => String (hex_digit (h / 16 ^ Z.of_nat n mod 16)) (hex_digits n h)
  end.

Definition id_hash (statement : string) (expected_rows : option Z) (created_millis seq : Z) : Z :=
  let h := mix FNV_OFFSET (as_bytes statement) in
  let h := mix h (le_bytes 8 (default u64_max expected_rows)) in
  let h := mix h (le_bytes 8 created_millis) in
  mix h (le_bytes 8 seq).

Definition make_id (statement : string) (expected_rows : option Z) (created_millis seq : Z) : string :=
  "p-" +:+ hex_digits 16 (id_hash statement expected_rows created_millis seq).

(** [propose_with_ttl]: the process-wide counter after the call, and the proposal. *)
Definition propose_with_ttl {C} `{Clock C} (seq_counter : Z) (statement : string)
    (expected_rows : option Z) (ttl : Z) (clock : C) : Z * Proposal :=
  let created_unix := now_unix_millis clock in
  let created_monotonic := monotonic_millis clock in
  (wrap_u 64 (seq_counter + 1),
   mkProposal (make_id statement expected_rows created_unix seq_counter) statement expected_rows
     created_unix created_monotonic ttl).

Definition propose {C} `{Clock C} (seq_counter : Z) (statement : string) (expected_rows : option Z)
    (clock : C) : Z * Proposal :=
  propose_with_ttl seq_counter statement expected_rows DEFAULT_TTL_MILLIS clock.

(** ** Lemmas *)

Lemma lxor_range a b : in_u 64 a -> in_u 64 b -> in_u 64 (Z.lxor a b).
Proof.
  unfold in_u. intros [Ha Ha'] [Hb Hb']. assert (0 <= Z.lxor a b) as Hn by (apply Z.lxor_nonneg; lia).
  split; [done|]. destruct (Z.eq_dec (Z.lxor a b) 0) as [->|Hz]; [lia|].
  apply Z.log2_lt_pow2; [lia|].
  pose proof (Z.log2_lxor a b Ha Hb). pose proof (Z.log2_le_mono a (2 ^ 64 - 1)).
  pose proof (Z.log2_le_mono b (2 ^ 64 - 1)). change (Z.log2 (2 ^ 64 - 1)) with 63 in *. lia.
Qed.

Lemma byte_in_u64 b : in_u 64 (Z_of_byte b).
Proof. pose proof (Z_of_byte_range b). unfold in_u. lia. Qed.

Lemma lxor_cancel a b c : Z.lxor a b = Z.lxor a c -> b = c.
Proof.
  intros E. apply (f_equal (Z.lxor a)) in E. by rewrite <- !Z.lxor_assoc, Z.lxor_nilpotent in E.
Qed.

(** The prime is odd, so multiplying by it loses nothing modulo [2^64]. *)
Lemma prime_cancel x y :
  in_u 64 x -> in_u 64 y -> wrap_u 64 (x * FNV_PRIME) = wrap_u 64 (y * FNV_PRIME) -> x = y.
Proof.
  unfold wrap_u. intros Hx Hy E.
  assert (forall z, in_u 64 z -> (z * FNV_PRIME) mod 2 ^ 64 * 0xce965057aff6957b mod 2 ^ 64 = z) as Hinv.
  { intros z Hz. rewrite Z.mul_mod_idemp_l, <- Z.mul_assoc by lia. rewrite <- Z.mul_mod_idemp_r by lia.
    change (FNV_PRIME * 0xce965057aff6957b mod 2 ^ 64) with 1. rewrite Z.mul_1_r. by apply Z.mod_small. }
  rewrite <- (Hinv x), <- (Hinv y) by done. by rewrite E.
Qed.

Lemma fnv_byte_range h b : in_u 64 (fnv_byte h b).
Proof. unfold in_u, fnv_byte, wrap_u. apply Z.mod_pos_bound. lia. Qed.

Lemma fnv_byte_inj h h' b : in_u 64 h -> in_u 64 h' -> fnv_byte h b = fnv_byte h' b -> h = h'.
Proof.
  intros Hh Hh' E%prime_cancel; auto using lxor_range, byte_in_u64.
  rewrite !(Z.lxor_comm _ (Z_of_byte b)) in E. by apply lxor_cancel in E.
Qed.

Lemma mix_range h l : in_u 64 h -> in_u 64 (mix h l).
Proof. revert h. induction l as [|b l IH]; intros h Hh; simpl; [done|]. apply IH, fnv_byte_range. Qed.

Lemma mix_inj h h' l : in_u 64 h -> in_u 64 h' -> mix h l = mix h' l -> h = h'.
Proof.
  revert h h'. induction l as [|b l IH]; intros h h' Hh Hh'; simpl; [done|].
  intros E%IH; auto using fnv_byte_range. by apply fnv_byte_inj in E.
Qed.

Lemma hex_digit_inj a b : 0 <= a < 16 -> 0 <= b < 16 -> hex_digit a = hex_digit b -> a = b.
Proof.
  intros Ha Hb E. apply (f_equal Ascii.nat_of_ascii) in E. unfold hex_digit in E.
  rewrite !Ascii.nat_ascii_embedding in E; destruct (Z.ltb_spec a 10), (Z.ltb_spec b 10); lia.
Qed.

Lemma hex_digits_inj n h h' : 0 <= h -> 0 <= h' ->
  hex_digits n h = hex_digits n h' -> h mod 16 ^ Z.of_nat n = h' mod 16 ^ Z.of_nat n.
Proof.
  intros Hh Hh'. induction n as [|n IH]; [by rewrite !Z.mod_1_r|].
  cbn [hex_digits]. intros [= Ed Er]. apply IH in Er.
  apply hex_digit_inj in Ed; [|apply Z.mod_pos_bound; lia..].
  rewrite Nat2Z.inj_succ, Z.pow_succ_r, (Z.mul_comm 16) by lia.
  assert (0 < 16 ^ Z.of_nat n) by (apply Z.pow_pos_nonneg; lia).
  rewrite !Z.rem_mul_r by lia. by rewrite Ed, Er.
Qed.

Lemma le_bytes_S n z : le_bytes (S n) z = byte_of_Z z :: le_bytes n (z / 256).
Proof. reflexivity. Qed.

Lemma mix_cons h b l : mix h (b :: l) = mix (fnv_byte h b) l.
Proof. reflexivity. Qed.

(** The hash separates two sequence numbers that differ in the first byte only. *)
Lemma mix_seq_inj h seq seq' :
  in_u 64 h -> seq / 256 = seq' / 256 -> mix h (le_bytes 8 seq) = mix h (le_bytes 8 seq') -> seq = seq'.
Proof.
  intros Hh Hblock. rewrite (le_bytes_S 7 seq), (le_bytes_S 7 seq'), Hblock, !mix_cons. intros E.
  apply mix_inj in E; [|apply fnv_byte_range..].
  unfold fnv_byte in E. apply prime_cancel in E; auto using lxor_range, byte_in_u64.
  apply lxor_cancel in E. rewrite !Z_of_byte_of_Z in E.
  rewrite (Z.div_mod seq 256), (Z.div_mod seq' 256) by lia. by rewrite Hblock, E.
Qed.

Lemma hex_16_inj h h' : in_u 64 h -> in_u 64 h' -> hex_digits 16 h = hex_digits 16 h' -> h = h'.
Proof.
  intros Hh Hh' E. apply hex_digits_inj in E; [|apply Hh|apply Hh'].
  change (16 ^ Z.of_nat 16) with (2 ^ 64) in E. by rewrite !Z.mod_small in E.
Qed.

(** What the hash has absorbed before the sequence number. *)
Lemma id_hash_prefix statement expected_rows created :
  exists h, in_u 64 h /\ forall seq, id_hash statement expected_rows created seq = mix h (le_bytes 8 seq).
Proof.
  eexists. split; [|intros seq; unfold id_hash; cbv zeta; reflexivity].
  apply mix_range, mix_range, mix_range. by_decide.
Qed.

#[local] Opaque mix hex_digits le_bytes.

(** Proposals made in the same millisecond for the same statement get different
    ids, as long as their sequence numbers lie in the same block of 256: the hash is
    injective in the byte that differs. *)
Theorem proposal_ids_distinct (statement : string) (expected_rows : option Z) (created seq seq' : Z) :
  seq / 256 = seq' / 256 -> seq <> seq' ->
  make_id statement expected_rows created seq <> make_id statement expected_rows created seq'.
Proof.
  intros Hblock Hne E. unfold make_id in E. apply (inj (String.append _)) in E.
  destruct (id_hash_prefix statement expected_rows created) as (h & Hh & Hid). rewrite !Hid in E.
  apply hex_16_inj in E; [|by apply mix_range..]. by apply mix_seq_inj in E.
Qed.

Lemma proposal_ids_distinct_witness :
  make_id "DELETE FROM t WHERE id = 1" None 1000 7 <> make_id "DELETE FROM t WHERE id = 1" None 1000 8.
Proof. apply (proposal_ids_distinct _ _ _ 7 8); [reflexivity|lia]. Defined.

#[local] Transparent mix hex_digits le_bytes.

End Proposal.

Module DryRun.
Import Clock Predicate PkChecksum Inverse BlastRadius.
Import Proposal(Proposal, id, statement, is_expired).

Inductive WriteKind : Type := WUpdate | WDelete.

#[global] Instance WriteKind_eq_dec : EqDecision WriteKind.
Proof. solve_decision. Defined.

Definition kind_inverse (k : WriteKind) : InverseKind :=
  match k with WUpdate => for_update | WDelete => for_delete end.

Definition op_counts (k : WriteKind) (n : Z) : OpCounts :=
  match k with WUpdate => mkOpCounts 0 n 0 | WDelete => mkOpCounts 0 0 n end.

Inductive DryRunError : Type :=
| DVolatile (reason : VolatileReason)
| NotRehearsable (what : string)
| DNotSelfDetermined (reason : NotSelfDetermined)
| PkLess (relation : string)
| DExpired (id : string)
| DBackend (what : string).

Record AffectedTable : Type := mkAffectedTable {
  at_relation : string;
  at_checksum : option string;
  at_rows : Z
}.

Record RelationEffect : Type := mkRelationEffect { e_relation : string; e_counts : OpCounts }.

Record Measurement : Type := mkMeasurement {
  m_target : AffectedTable;
  m_cascades : list AffectedTable;
  m_full_effect : list RelationEffect;
  m_triggers_fired : list TriggerFired;
  m_locks : list LockHeld;
  m_duration_ms : Z;
  m_wal_bytes : Z;
  m_constraint_violations : list ConstraintViolation;
  m_clone_lsn : string;
  m_staleness_lsn_bytes : Z
}.

(** The [Rehearsal] trait: each method takes the backend's state and returns it. *)
Class Rehearsal (R : Type) : Type := {
  rehearsal_volatility_of : R -> string -> R * Volatility;
  certify_apply_shape : R -> string -> WriteKind -> string -> R * option string;
  rehearsal_pk_column : R -> string -> R * option string;
  rehearse : R -> string -> WriteKind -> string -> R * result string Measurement
}.

(** [RehearsalVolatility], the adapter to the resolver trait. *)
#[global] Instance RehearsalVolatility R `{Rehearsal R} : FunctionVolatility R := {|
  volatility_of := rehearsal_volatility_of
|}.

Definition relation_of_table_factor (f : TableFactor) : option string :=
  match f with
  | Table name =>
      match map shown name with
      | [part] => Some ("public." +:+ part)
      | parts => Some (String.concat "." parts)
      end
  | OtherFactor => None
  end.

Definition stmt_label (s : Statement) : string :=
  match s with
  | Predicate.Insert => "INSERT"
  | Predicate.Truncate => "TRUNCATE"
  | Predicate.Drop => "DROP"
  | AlterTable => "ALTER"
  | CreateTable => "CREATE TABLE"
  | SelectQuery => "SELECT"
  | Merge => "MERGE"
  | _ => "unsupported"
  end.

(** [Iterator::max] over lock modes keeps the later of two equal elements. *)
Definition max_lock (l : list LockMode) : option LockMode :=
  foldl (fun acc m => match acc with
                      | None => Some m
                      | Some x => if lock_rank x <=? lock_rank m then Some m else Some x
                      end) None l.

(** The loop over the cascades: the two maps and the running total. *)
Fixpoint fold_cascades (cascades : list AffectedTable)
    (cascade_by_table : gmap string Z) (pk_set_checksum : gmap string string) (total_rows : Z) :
    result DryRunError (gmap string Z * gmap string string * Z) :=
  match cascades with
  | [] => Ok (cascade_by_table, pk_set_checksum, total_rows)
  | c :: cascades =>
      match at_checksum c with
      | None => Err (PkLess (at_relation c))
      | Some cs =>
          fold_cascades cascades (<[at_relation c := at_rows c]> cascade_by_table)
            (<[at_relation c := as_prefixed cs]> pk_set_checksum) (sat_add total_rows (at_rows c))
      end
  end.

Definition effect_footprint (kind : WriteKind) (m : Measurement) : gmap string OpCounts :=
  match m_full_effect m with
  | [] =>
      foldl (fun acc c => <[at_relation c := op_counts kind (at_rows c)]> acc)
        {[at_relation (m_target m) := op_counts kind (at_rows (m_target m))]} (m_cascades m)
  | effects => foldl (fun acc e => <[e_relation e := e_counts e]> acc) ∅ effects
  end.

Definition assemble (p : Proposal) (kind : WriteKind) (m : Measurement) : result DryRunError BlastRadius :=
  match at_checksum (m_target m) with
  | None => Err (PkLess (at_relation (m_target m)))
  | Some target_checksum =>
      let target := at_relation (m_target m) in
      let by_table := {[target := at_rows (m_target m)]} in
      let? (cascade_by_table, pk_set_checksum, total_rows) :=
        fold_cascades (m_cascades m) ∅ {[target := as_prefixed target_checksum]} (at_rows (m_target m)) in
      Ok (mkBlastRadius (id p) (m_clone_lsn m) (m_staleness_lsn_bytes m)
            (mkAffected by_table cascade_by_table pk_set_checksum (effect_footprint kind m) total_rows)
            (m_triggers_fired m) (m_locks m)
            (default RowExclusiveLock (max_lock (map lock_mode (m_locks m))))
            (m_duration_ms m) (m_wal_bytes m) (m_constraint_violations m)
            true (kind_inverse kind) false)
  end.

Section engine.
Context (parse_sql : string -> result string (list Statement)).
Context (visit_below : Expr -> list Expr).
Context (to_lowercase : string -> string).

Definition classify (sql : string) : result DryRunError (WriteKind * string) :=
  let? parsed := result_map_err (fun e => NotRehearsable ("parse error: " +:+ e)) (parse_sql sql) in
  match parsed with
  | [Predicate.Update table _ _] =>
      match relation_of_table_factor (Predicate.relation table) with
      | Some rel => Ok (WUpdate, rel)
      | None => Err (NotRehearsable "UPDATE target is not a plain table")
      end
  | [Predicate.Delete from _ _] =>
      match from with
      | [] => Err (NotRehearsable "DELETE has no target table")
      | first :: _ =>
          match relation_of_table_factor (Predicate.relation first) with
          | Some rel => Ok (WDelete, rel)
          | None => Err (NotRehearsable "DELETE target is not a plain table")
          end
      end
  | [other] =>
      Err (NotRehearsable ("statement kind `" +:+ stmt_label other +:+
                           "` is not a certified rehearsable write"))
  | _ => Err (NotRehearsable ("expected exactly one statement, got " +:+ pretty (length parsed)))
  end.

(** The gates in the order of the source, then the rehearsal. *)
Definition dry_run {R C} `{Rehearsal R, Clock C} (p : Proposal) (r : R) (clock : C) :
    R * result DryRunError BlastRadius :=
  if is_expired p clock then (r, Err (DExpired (id p)))
  else
    match classify (statement p) with
    | Err e => (r, Err e)
    | Ok (kind, target) =>
        let '(r, volatile) :=
          predicate_volatile_reason parse_sql visit_below to_lowercase (statement p) r in
        match volatile with
        | Some reason => (r, Err (DVolatile reason))
        | None =>
            let '(r, shape) := certify_apply_shape r (statement p) kind target in
            match shape with
            | Some reason => (r, Err (NotRehearsable reason))
            | None =>
                let '(r, pk) := rehearsal_pk_column r target in
                let '(r, steerable) :=
                  match pk with
                  | Some pk_col =>
                      self_determined_predicate_reason parse_sql visit_below to_lowercase
                        (statement p) pk_col r
                  | None => (r, None)
                  end in
                match steerable with
                | Some reason => (r, Err (DNotSelfDetermined reason))
                | None =>
                    let '(r, measured) := rehearse r (statement p) kind target in
                    (r, let? m := result_map_err DBackend measured in assemble p kind m)
                end
            end
        end
    end.
End engine.

(** ** Lemmas *)

(** A lawful backend: the catalog lookups are reads of one view of the database and run
    nothing; only [rehearse] executes the candidate. *)
Class RehearsalLaws (R : Type) `{Rehearsal R} : Type := {
  View : Type;
  view : R -> View;
  catalog : View -> string -> Volatility;
  shape_of : View -> string -> WriteKind -> string -> option string;
  pk_of : View -> string -> option string;
  executed : R -> list (string * WriteKind * string);
  volatility_reads r n :
    let '(r', v) := rehearsal_volatility_of r n in
    view r' = view r /\ executed r' = executed r /\ v = catalog (view r) n;
  shape_reads r s k t :
    let '(r', o) := certify_apply_shape r s k t in
    view r' = view r /\ executed r' = executed r /\ o = shape_of (view r) s k t;
  pk_reads r t :
    let '(r', o) := rehearsal_pk_column r t in
    view r' = view r /\ executed r' = executed r /\ o = pk_of (view r) t;
  rehearse_executes r s k t : executed (rehearse r s k t).1 = executed r ++ [(s, k, t)]
}.

#[global, refine] Instance rehearsal_catalog R `{RehearsalLaws R} : CatalogResolver R := {|
  answers := fun r => catalog (view r)
|}.
Proof.
  - intros r n. simpl. pose proof (volatility_reads r n) as Hr.
    destruct (rehearsal_volatility_of r n) as [r' v]. naive_solver.
  - intros r n m. simpl. pose proof (volatility_reads r n) as Hr.
    destruct (rehearsal_volatility_of r n) as [r' v]. simpl. by destruct Hr as [-> _].
Defined.

Section gates.
Context (parse_sql : string -> result string (list Statement)).
Context (visit_below : Expr -> list Expr).
Context (to_lowercase : string -> string).
Context {R : Type} `{RehearsalLaws R}.

#[local] Abbreviation volatile := (predicate_volatile_reason parse_sql visit_below to_lowercase).
#[local] Abbreviation steerable := (self_determined_predicate_reason parse_sql visit_below to_lowercase).

Definition reads (r r' : R) : Prop := view r' = view r /\ executed r' = executed r.

Lemma resolve_all_reads names r : reads r (resolve_all names r).1.
Proof.
  revert r. induction names as [|n names IH]; intros r; simpl; [done|].
  destruct (negb _ && _); [apply IH|].
  pose proof (volatility_reads r n) as Hr. destruct (rehearsal_volatility_of r n) as [r' v].
  destruct Hr as (Hv & He & _). specialize (IH r'). unfold reads in *.
  destruct v; simpl; rewrite ?Hv, ?He in *; done.
Qed.

Lemma volatile_reads sql r : reads r (volatile sql r).1.
Proof.
  unfold predicate_volatile_reason. destruct (parse_sql sql) as [[|s [|]]|]; try done.
  destruct (predicate_of s) as [[p|]|]; try done. destruct (find_map _ _); [done|]. apply resolve_all_reads.
Qed.

Lemma steerable_reads sql pk r : reads r (steerable sql pk r).1.
Proof.
  unfold self_determined_predicate_reason. destruct (parse_sql sql) as [[|s [|]]|]; try done.
  destruct (join_correlation_reason s); [done|]. destruct (predicate_of s) as [[p|]|]; try done.
  destruct (classify_self_determined_expr _ _ _ _); [done|].
  pose proof (volatile_reads sql r) as Hr. by destruct (volatile sql r).
Qed.

Lemma volatile_same_view sql r r' :
  view r' = view r -> (volatile sql r').2 = None -> (volatile sql r).2 = None.
Proof.
  intros Hv. unfold predicate_volatile_reason. destruct (parse_sql sql) as [[|s [|]]|]; try done.
  destruct (predicate_of s) as [[p|]|]; try done. destruct (find_map _ _); [done|].
  rewrite !resolve_all_none. unfold admitted. simpl. by rewrite Hv.
Qed.

Lemma steerable_same_view sql pk r r' :
  view r' = view r -> (steerable sql pk r').2 = None -> (steerable sql pk r).2 = None.
Proof.
  intros Hv. unfold self_determined_predicate_reason. destruct (parse_sql sql) as [[|s [|]]|]; try done.
  destruct (join_correlation_reason s); [done|]. destruct (predicate_of s) as [[p|]|]; try done.
  destruct (classify_self_determined_expr _ _ _ _); [done|].
  pose proof (volatile_same_view sql r r' Hv) as Hs.
  destruct (volatile sql r') as [? []]; [done|]. destruct (volatile sql r) as [? []]; [|done].
  by specialize (Hs eq_refl).
Qed.
End gates.

(** What every method of the backend preserves, a dry run preserves. *)
Section preserves.
Context (parse_sql : string -> result string (list Statement)).
Context (visit_below : Expr -> list Expr).
Context (to_lowercase : string -> string).
Context {R : Type} `{Rehearsal R} (P : R -> Prop).
Context (volatility_preserves : forall r n, P r -> P (rehearsal_volatility_of r n).1).
Context (shape_preserves : forall r s k t, P r -> P (certify_apply_shape r s k t).1).

Lemma resolve_all_preserves names r : P r -> P (resolve_all names r).1.
Proof.
  revert r. induction names as [|n names IH]; intros r Hr; simpl; [done|]. destruct (negb _ && _); [by apply IH|].
  pose proof (volatility_preserves r n Hr) as Hv. destruct (rehearsal_volatility_of r n) as [r' []]; simpl in *; auto.
Qed.

Lemma volatile_reason_preserves sql r : P r -> P (predicate_volatile_reason parse_sql visit_below to_lowercase sql r).1.
Proof.
  intros Hr. unfold predicate_volatile_reason. destruct (parse_sql sql) as [[|s [|]]|]; try done.
  destruct (predicate_of s) as [[p|]|]; try done. destruct (find_map _ _); [done|]. by apply resolve_all_preserves.
Qed.

(** Without a key column the predicate gate does not run. *)
Lemma dry_run_without_key {C} `{Clock C} (p : Proposal) (r : R) (clock : C) reason :
  (forall r t, P r -> (rehearsal_pk_column r t).2 = None) ->
  P r -> (dry_run parse_sql visit_below to_lowercase p r clock).2 <> Err (DNotSelfDetermined reason).
Proof.
  intros Hp Hr. unfold dry_run. destruct (is_expired p clock); [done|].
  destruct (classify parse_sql (statement p)) as [[kind target]|e] eqn:Ec.
  - pose proof (volatile_reason_preserves (statement p) r Hr) as H1.
    destruct (predicate_volatile_reason _ _ _ _ r) as [r1 [|]]; [done|]. simpl in H1.
    pose proof (shape_preserves r1 (statement p) kind target H1) as H2. destruct (certify_apply_shape _ _ _ _) as [r2 [|]]; [done|].
    pose proof (Hp r2 target H2) as H3. destruct (rehearsal_pk_column r2 target) as [r3 pk]. simpl in H3. subst pk.
    destruct (rehearse r3 _ _ _) as [r5 [m|]]; [|done]. unfold assemble. simpl. destruct (at_checksum _); [|done].
    assert (forall l g1 g2 z, fold_cascades l g1 g2 z <> Err (DNotSelfDetermined reason)) as Hf.
    { induction l as [|c l IH]; intros g1 g2 z; simpl; [done|]. destruct (at_checksum c); [apply IH|done]. }
    match goal with |- context [fold_cascades ?l ?g1 ?g2 ?z] => specialize (Hf l g1 g2 z); destruct (fold_cascades l g1 g2 z) as [[[]]|] end;
      simpl; congruence.
  - intros [= ->]. unfold classify in Ec. destruct (parse_sql (statement p)) as [l|]; simpl in Ec; [|done].
    repeat (case_match; try done).
Qed.

Context (pk_preserves : forall r t, P r -> P (rehearsal_pk_column r t).1).

Lemma steerable_reason_preserves sql pk r :
  P r -> P (self_determined_predicate_reason parse_sql visit_below to_lowercase sql pk r).1.
Proof.
  intros Hr. unfold self_determined_predicate_reason. destruct (parse_sql sql) as [[|s [|]]|]; try done.
  destruct (join_correlation_reason s); [done|]. destruct (predicate_of s) as [[p|]|]; try done.
  destruct (classify_self_determined_expr _ _ _ _); [done|].
  pose proof (volatile_reason_preserves sql r Hr) as Hv. by destruct (predicate_volatile_reason _ _ _ sql r).
Qed.

Lemma dry_run_preserves {C} `{Clock C} (p : Proposal) (r : R) (clock : C) :
  (forall r k t, classify parse_sql (statement p) = Ok (k, t) -> P r -> P (rehearse r (statement p) k t).1) ->
  P r -> P (dry_run parse_sql visit_below to_lowercase p r clock).1.
Proof.
  intros Hrehearse Hr. unfold dry_run. destruct (is_expired p clock); [done|].
  destruct (classify _ _) as [[kind target]|] eqn:Ec; [|done].
  pose proof (volatile_reason_preserves (statement p) r Hr) as H1. destruct (predicate_volatile_reason _ _ _ _ r) as [r1 [|]]; [done|].
  pose proof (shape_preserves r1 (statement p) kind target H1) as H2. destruct (certify_apply_shape _ _ _ _) as [r2 [|]]; [done|].
  pose proof (pk_preserves r2 target H2) as H3. destruct (rehearsal_pk_column r2 target) as [r3 pk]. simpl in *.
  assert (forall x, match pk with Some pk_col => self_determined_predicate_reason parse_sql visit_below to_lowercase (statement p) pk_col r3
                      | None => (r3, None) end = x -> P x.1) as H4.
  { intros x <-. destruct pk; [by apply steerable_reason_preserves|done]. }
  specialize (H4 _ eq_refl). destruct (match pk with Some _ => _ | None => _ end) as [r4 [|]]; [done|].
  pose proof (Hrehearse r4 kind target eq_refl H4) as H5. by destruct (rehearse r4 _ _ _) as [r5 measured].
Qed.
End preserves.

(** C39: the candidate is executed only after every gate.  A dry run that ran the
    statement ran it once, on the classified relation, and the proposal was live, the
    volatility gate had admitted it, the catalog certified its shape, and (when the key
    column is known) the predicate was self-determined; a run that a gate refused
    executed nothing. *)
Theorem rehearses_only_certified (parse_sql : string -> result string (list Statement))
    (visit_below : Expr -> list Expr) (to_lowercase : string -> string)
    {R C : Type} `{RehearsalLaws R, Clock C} (p : Proposal) (r : R) (clock : C) :
  let '(r', res) := dry_run parse_sql visit_below to_lowercase p r clock in
  let sql := statement p in
  (executed r' = executed r /\ exists e, res = Err e) \/
  exists kind target,
    executed r' = executed r ++ [(sql, kind, target)] /\
    is_expired p clock = false /\ classify parse_sql sql = Ok (kind, target) /\
    (predicate_volatile_reason parse_sql visit_below to_lowercase sql r).2 = None /\
    shape_of (view r) sql kind target = None /\
    forall pk, pk_of (view r) target = Some pk ->
      (self_determined_predicate_reason parse_sql visit_below to_lowercase sql pk r).2 = None.
Proof.
  unfold dry_run. destruct (is_expired p clock) eqn:Ex; [left; eauto|].
  destruct (classify parse_sql (statement p)) as [[kind target]|e] eqn:Ec; [|left; eauto].
  pose proof (volatile_reads parse_sql visit_below to_lowercase (statement p) r) as [Hv1 He1].
  destruct (predicate_volatile_reason _ _ _ _ _) as [r1 [|]]; simpl in *; [left; eauto|].
  pose proof (shape_reads r1 (statement p) kind target) as Hs.
  destruct (certify_apply_shape _ _ _ _) as [r2 shape]. destruct Hs as (Hv2 & He2 & Hshape).
  destruct shape; [left; rewrite He2, He1; eauto|].
  pose proof (pk_reads r2 target) as Hp.
  destruct (rehearsal_pk_column _ _) as [r3 pk]. destruct Hp as (Hv3 & He3 & Hpk).
  assert (view r3 = view r) as Hv by congruence.
  assert (exists r4 o, match pk with
           | Some pk_col => self_determined_predicate_reason parse_sql visit_below to_lowercase (statement p) pk_col r3
           | None => (r3, None) end = (r4, o) /\ executed r4 = executed r /\
           (o = None -> forall pk', pk = Some pk' ->
              (self_determined_predicate_reason parse_sql visit_below to_lowercase (statement p) pk' r).2 = None))
    as (r4 & o & -> & He4 & Hself).
  { destruct pk as [pk|]; [|exists r3, None; split; [done|]; split; [congruence|done]].
    pose proof (steerable_reads parse_sql visit_below to_lowercase (statement p) pk r3) as [_ Hr].
    pose proof (steerable_same_view parse_sql visit_below to_lowercase (statement p) pk r r3 Hv) as Hsame.
    destruct (self_determined_predicate_reason _ _ _ _ pk r3) as [r4 o]. exists r4, o. simpl in *.
    split; [done|]. split; [congruence|]. by intros -> pk' [= <-]; apply Hsame. }
  destruct o; [left; eauto|].
  pose proof (rehearse_executes r4 (statement p) kind target) as Hr.
  destruct (rehearse _ _ _ _) as [r5 measured]. simpl in *. right. exists kind, target.
  rewrite Hr, He4. split; [done|]. split; [done|]. split; [done|]. split; [done|].
  rewrite Hv1 in Hv2, Hshape. rewrite Hv2 in Hpk. split; [congruence|]. naive_solver.
Qed.

(** A backend that answers from a catalog and logs what it runs, as the mock backends of
    the engine's tests do. *)
Record ScriptedRehearsal : Type := mkScripted {
  scripted_catalog : Catalog;
  scripted_pk : option string;
  scripted_measurement : result string Measurement;
  scripted_log : list (string * WriteKind * string)
}.

#[global] Instance ScriptedRehearsal_rehearsal : Rehearsal ScriptedRehearsal := {|
  rehearsal_volatility_of := fun r n => (r, catalog_lookup (scripted_catalog r) n);
  certify_apply_shape := fun r _ _ _ => (r, None);
  rehearsal_pk_column := fun r _ => (r, scripted_pk r);
  rehearse := fun r s k t =>
    (mkScripted (scripted_catalog r) (scripted_pk r) (scripted_measurement r) (scripted_log r ++ [(s, k, t)]),
     scripted_measurement r)
|}.

#[global, refine] Instance ScriptedRehearsal_laws : RehearsalLaws ScriptedRehearsal := {|
  View := Catalog * option string;
  view := fun r => (scripted_catalog r, scripted_pk r);
  catalog := fun v => catalog_lookup v.1;
  shape_of := fun _ _ _ _ => None;
  pk_of := fun v _ => v.2;
  executed := scripted_log
|}.
Proof. all: by simpl. Defined.

Definition sample_measurement : Measurement :=
  mkMeasurement (mkAffectedTable "public.t" (Some "aa"%string) 1) [] [] [] [] 5 100 [] "0/1" 0.
Definition sample_backend : ScriptedRehearsal :=
  mkScripted sample_catalog (Some "id"%string) (Ok sample_measurement) [].
Definition sample_proposal : Proposal := Proposal.mkProposal "p-1" "u" None 0 0 1000.

Lemma rehearses_only_certified_witness :
  let '(r', res) := dry_run (fun _ => Ok [sample_update]) below Text.to_ascii_lowercase
                      sample_proposal sample_backend (starting_at 5) in
  is_ok res = true /\
  ((executed r' = [] /\ exists e, res = Err e) \/
   exists kind target, executed r' = [("u"%string, kind, target)] /\
     classify (fun _ => Ok [sample_update]) "u" = Ok (kind, target)).
Proof.
  pose proof (rehearses_only_certified (fun _ => Ok [sample_update]) below Text.to_ascii_lowercase
                sample_proposal sample_backend (starting_at 5)) as Hd.
  destruct (dry_run _ _ _ _ _ _) as [r' res] eqn:E. split.
  - change res with (r', res).2. rewrite <- E. vm_compute. reflexivity.
  - destruct Hd as [Hd|(kind & target & He & _ & Hc & _)]; [left; exact Hd|right].
    exists kind, target. split; [exact He|exact Hc].
Defined.

End DryRun.
