(* ===== verification/Apply.v ===== *)
(** * Apply: the guarded-apply engine

    Models [src/crates/clone-orchestrator/src/apply.rs].  The connection is the
    [ApplyConn] trait as a class over the connection's state [W]: each method takes the
    state and returns it with a [Result], so the engine's order of calls is explicit.
    SHA-256 and the [Debug] form of a string (whose escapes need Unicode tables) are
    parameters.  [predicted_total_tuples] can overflow on a record without a footprint,
    so the engine returns an [option]: [None] is that panic, raised before any call. *)

From Stdlib Require Import ZifyBool.
From stdpp Require Import pretty.
From S2P Require Import Prelude PkChecksum Inverse Session BlastRadius DryRun.

Module Apply.
Import Clock Barrier PkChecksum Inverse BlastRadius DryRun(WriteKind, WUpdate, WDelete, WriteKind_eq_dec).

Definition MIN_STATEMENT_TIMEOUT_MS : Z := 1000.
Definition STATEMENT_TIMEOUT_MULTIPLIER : Z := 3.

Definition sat_mul (a b : Z) : Z := Z.min (a * b) u64_max.

Definition statement_timeout_ms (dry_run_duration_ms : Z) : Z :=
  Z.max (sat_mul dry_run_duration_ms STATEMENT_TIMEOUT_MULTIPLIER) MIN_STATEMENT_TIMEOUT_MS.

Inductive CapKind : Type := CapRows | CapWalBytes.
Inductive Channel : Type := ChIns | ChUpd | ChDel.

#[global] Instance Channel_eq_dec : EqDecision Channel.
Proof. solve_decision. Defined.

Inductive ApplyError : Type :=
| ARefused (op : RefusedOp)
| CapExceeded (relation : string) (kind : CapKind) (cap actual : Z)
| UnpredictedRelationWrite (relation : string) (changed ins upd del : Z)
| RelationOverWrite (relation : string) (channel : Channel) (predicted actual : OpCounts)
| IrreversibleChange (relation detail : string)
| UncapturedColumn (relation pk : string) (missing : list string)
| MissingPreImage (relation pk : string)
| SerializationFailure
| Timeout (timeout_ms : Z)
| InvalidGrant (what : string)
| ABackend (what : string).

Record CapturedRow : Type := mkCaptured {
  c_pk : PkTuple;
  c_before_image : list (string * PkValue)
}.

Record ForwardResult : Type := mkForward {
  written : list CapturedRow;
  cascade_preimages : gmap string (list CapturedRow);
  written_columns : list string
}.

Definition forward_new (written : list CapturedRow) : ForwardResult := mkForward written ∅ [].
Definition with_written_columns (f : ForwardResult) (cols : list string) : ForwardResult :=
  mkForward (written f) (cascade_preimages f) cols.

Definition checksum_error_fmt (e : ChecksumError) : string :=
  match e with
  | Refused rel =>
      "refused: relation `" +:+ rel +:+ "` has no usable primary key / replica identity; writes to PK-less tables are refused (no ctid fallback)"
  | EmptyTuple => "a primary-key tuple must have at least one column"
  | InconsistentArity expected actual =>
      "inconsistent PK arity: expected " +:+ pretty expected +:+ " columns, got " +:+ pretty actual
  end.

(** Pushes every row into the builder, stopping at the first error. *)
Fixpoint push_rows (b : PkSetBuilder) (rows : list CapturedRow) : result ApplyError PkSetBuilder :=
  match rows with
  | [] => Ok b
  | row :: rows =>
      match push b (c_pk row) with
      | (b, Ok _) => push_rows b rows
      | (_, Err e) => Err (ABackend (checksum_error_fmt e))
      end
  end.

Record RelationChange : Type := mkChange {
  r_relation : string;
  r_ins : Z;
  r_upd : Z;
  r_del : Z
}.

Definition change_total (c : RelationChange) : Z := sat_add (sat_add (r_ins c) (r_upd c)) (r_del c).
Definition as_op_counts (c : RelationChange) : OpCounts := mkOpCounts (r_ins c) (r_upd c) (r_del c).

(** The [ApplyConn] trait. *)
Class ApplyConn (W : Type) : Type := {
  create_restore_point : W -> string -> W * result ApplyError string;
  begin : W -> Z -> W * result ApplyError unit;
  xact_wal_bytes : W -> W * result ApplyError Z;
  self_determined_pk_column : W -> string -> W * option string;
  apply_forward : W -> WriteKind -> string -> list string -> W * result ApplyError ForwardResult;
  xact_tuple_deltas : W -> W * result ApplyError (list RelationChange);
  commit : W -> W * result ApplyError unit;
  rollback : W -> W * result ApplyError unit
}.

(** [let@ x := call in k]: the [?] operator on a call that returns the new state. *)
Definition conn_bind {W A B} (m : W * result ApplyError A) (k : A -> W -> W * result ApplyError B) :
    W * result ApplyError B :=
  match m with
  | (w, Ok a) => k a w
  | (w, Err e) => (w, Err e)
  end.
Notation "'let@' x ',' w ':=' m 'in' k" := (conn_bind m (fun x w => k))
  (at level 10, x pattern, w name, m at level 100, k at level 200) : rust_scope.
(** [e?] on a pure result, in a state. *)
Definition lift {W A} (w : W) (r : result ApplyError A) : W * result ApplyError A := (w, r).

Record PitrConfig : Type := mkPitr { pitr_enabled : bool }.

Inductive RecoveryFence : Type :=
| PitrRestorePoint (label lsn : string)
| TypedInverseOnly.

Record AppliedWrite : Type := mkApplied {
  a_proposal_id : string;
  a_rows_written : Z;
  a_apply_checksum : string;
  a_inverse : InversePlan;
  a_fence : RecoveryFence;
  a_statement_timeout_ms : Z
}.

Definition operation_from_dry_run (kind : WriteKind) (dry_run : BlastRadius) : Operation :=
  let has_preimage := reversible dry_run in
  let has_pk := true in
  match kind with
  | WUpdate => Inverse.Update has_preimage has_pk
  | WDelete => Inverse.Delete has_preimage has_pk
  end.

(** ** The predicted blast radius *)

Record PredictedBlastRadius : Type := mkPredicted {
  p_cascades : list (string * string);
  p_effect_by_table : gmap string OpCounts
}.

(** The keys of a [BTreeMap<String, _>], in its iteration order. *)
Definition btree_keys {V} (m : gmap string V) : list string := rust_sort str_cmp (map_to_list m).*1.

Fixpoint collect_cascades (target : string) (checksums : gmap string string) (rels : list string) :
    result ApplyError (list (string * string)) :=
  match rels with
  | [] => Ok []
  | rel :: rels =>
      if decide (rel = target) then collect_cascades target checksums rels
      else
        match checksums !! rel with
        | None => Err (InvalidGrant ("blast-radius has no pk_set_checksum for cascade `" +:+ rel +:+ "`"))
        | Some cs => let? rest := collect_cascades target checksums rels in Ok ((rel, cs) :: rest)
        end
  end.

Definition from_grant (dry_run : BlastRadius) (target : string) : result ApplyError PredictedBlastRadius :=
  let a := affected dry_run in
  if bool_decide (pk_set_checksum a !! target = None) then
    Err (InvalidGrant ("blast-radius has no pk_set_checksum for target `" +:+ target +:+ "`"))
  else if bool_decide (effect_by_table a = ∅) then
    Err (InvalidGrant ("blast-radius for `" +:+ target +:+ "` has no measured effect_by_table footprint (stale/incomplete grant — cannot reconcile the apply's full effect, refusing)"))
  else if bool_decide (effect_by_table a !! target = None) then
    Err (InvalidGrant ("blast-radius effect_by_table is missing the target `" +:+ target +:+ "`"))
  else
    let? cascades := collect_cascades target (pk_set_checksum a) (btree_keys (cascade_by_table a)) in
    Ok (mkPredicted cascades (effect_by_table a)).

(** ** The guards *)

Definition primary_channel (kind : WriteKind) : Channel :=
  match kind with WUpdate => ChUpd | WDelete => ChDel end.

(** The first channel that exceeds its prediction, the target's primary one exempt. *)
Definition drifted_channel (is_target : bool) (primary : Channel) (p a : OpCounts) : option Channel :=
  let exempt ch := is_target && bool_decide (ch = primary) in
  if (ins p <? ins a) && negb (exempt ChIns) then Some ChIns
  else if (upd p <? upd a) && negb (exempt ChUpd) then Some ChUpd
  else if (del p <? del a) && negb (exempt ChDel) then Some ChDel
  else None.

Fixpoint reconcile_full_effect (predicted : PredictedBlastRadius) (target : string) (kind : WriteKind)
    (deltas : list RelationChange) : result ApplyError unit :=
  match deltas with
  | [] => Ok tt
  | change :: deltas =>
      if change_total change =? 0 then reconcile_full_effect predicted target kind deltas
      else
        match p_effect_by_table predicted !! r_relation change with
        | None =>
            Err (UnpredictedRelationWrite (r_relation change) (change_total change)
                   (r_ins change) (r_upd change) (r_del change))
        | Some p =>
            let a := as_op_counts change in
            match drifted_channel (bool_decide (r_relation change = target)) (primary_channel kind) p a with
            | Some channel => Err (RelationOverWrite (r_relation change) channel p a)
            | None => reconcile_full_effect predicted target kind deltas
            end
        end
  end.

(** How many pre-images the inverse holds for a relation. *)
Definition captured (target : string) (forward : ForwardResult) (rel : string) : Z :=
  if decide (rel = target) then Z.of_nat (length (written forward))
  else match cascade_preimages forward !! rel with
       | Some rows => Z.of_nat (length rows)
       | None => 0
       end.

Fixpoint assert_reversible_preimage_coverage (target : string) (deltas : list RelationChange)
    (forward : ForwardResult) : result ApplyError unit :=
  match deltas with
  | [] => Ok tt
  | change :: deltas =>
      if change_total change =? 0 then assert_reversible_preimage_coverage target deltas forward
      else
        let rel := r_relation change in
        let n := captured target forward rel in
        if (0 <? r_del change) && (n <? r_del change) then
          Err (IrreversibleChange rel
                 (rel +:+ " destroyed " +:+ pretty (r_del change) +:+ " row(s) but only " +:+ pretty n +:+
                  " pre-image(s) were captured — the typed-inverse cannot restore them (relation outside the captured target/direct-cascade set, e.g. a multi-level grandchild cascade; #48). Fail-closed: refusing to commit an unrevertable change"))
        else if negb (bool_decide (rel = target)) && (0 <? r_upd change) && (n <? r_upd change) then
          Err (IrreversibleChange rel
                 (rel +:+ " updated " +:+ pretty (r_upd change) +:+ " row(s) outside the target with only " +:+
                  pretty n +:+
                  " captured pre-image(s) — the typed-inverse cannot restore the prior values (relation outside the captured target/direct-cascade set; #48). Fail-closed: refusing to commit an unrevertable change"))
        else assert_reversible_preimage_coverage target deltas forward
  end.

(** [BTreeSet<&str>] collected from an iterator: sorted, without duplicates. *)
Definition btree_set (l : list string) : list string := rust_sort str_cmp (remove_dups l).

Definition non_id (l : list string) : list string := List.filter (fun c => negb (bool_decide (c = "id"%string))) l.

(** The column stamped onto a cascade row's pre-image to record its relation. *)
Definition RELATION_STAMP : string := "__relation".

Definition stamp (rel : string) (row : CapturedRow) : InverseRow :=
  mkInverseRow (c_pk row) (c_before_image row ++ [(RELATION_STAMP, Text rel)]).

Definition build_inverse (kind : WriteKind) (relation : string) (predicted : PredictedBlastRadius)
    (forward : ForwardResult) : InversePlan :=
  let inverse_kind := match kind with WUpdate => for_update | WDelete => for_delete end in
  let b := foldl (fun b row => push_row b (mkInverseRow (c_pk row) (c_before_image row)))
             (plan_builder_new relation inverse_kind) (written forward) in
  let '(b, fk_order) :=
    foldl (fun '(b, fk_order) '(cascade_rel, _) =>
             (match cascade_preimages forward !! cascade_rel with
              | Some rows => foldl (fun b row => push_row b (stamp cascade_rel row)) b rows
              | None => b
              end, fk_order ++ [cascade_rel]))
      (b, [relation]) (p_cascades predicted) in
  plan_build (set_fk_order b fk_order).

Definition restore_point_label {C} `{Clock C} (proposal_id : string) (clock : C) : string :=
  "pgb_" +:+ proposal_id +:+ "_" +:+ pretty (now_unix_millis clock).

Section engine.
Context (overflow_checks : bool).
Context (sha256_hex : list byte -> string).
Context (debug_str : string -> string).

Definition written_checksum (forward : ForwardResult) (relation : string) : result ApplyError string :=
  let? b := push_rows (for_relation relation) (written forward) in
  result_map_err (fun e => ABackend (checksum_error_fmt e)) (finalize sha256_hex b).

(** The [Debug] form of the key values, for the diagnostics. *)
Definition debug_value (v : PkValue) : string :=
  match v with
  | Int n => "Int(" +:+ pretty n +:+ ")"
  | Text s => "Text(" +:+ debug_str s +:+ ")"
  | Bytes l => "Bytes([" +:+ String.concat ", " (map (fun b => pretty (Z_of_byte b)) l) +:+ "])"
  | Null => "Null"
  end.
Definition debug_values (l : list PkValue) : string :=
  "[" +:+ String.concat ", " (map debug_value l) +:+ "]".

Fixpoint column_coverage (relation : string) (required : list string) (rows : list CapturedRow) :
    result ApplyError unit :=
  match rows with
  | [] => Ok tt
  | row :: rows =>
      let captured := non_id (c_before_image row).*1 in
      let pk := debug_values (tuple_values (c_pk row)) in
      match required with
      | [] =>
          match captured with
          | [] => Err (UncapturedColumn relation pk ["<any written column>"%string])
          | _ => column_coverage relation required rows
          end
      | _ =>
          match List.filter (fun c => negb (bool_decide (c ∈ captured))) required with
          | [] => column_coverage relation required rows
          | missing => Err (UncapturedColumn relation pk missing)
          end
      end
  end.

Definition assert_written_column_coverage (kind : WriteKind) (relation : string) (forward : ForwardResult) :
    result ApplyError unit :=
  match kind with
  | WDelete => Ok tt
  | WUpdate => column_coverage relation (btree_set (non_id (written_columns forward))) (written forward)
  end.

Definition live_rows (deltas : list RelationChange) : Z := foldl sat_add 0 (map change_total deltas).

Definition guarded_body {W B} `{ApplyConn W, ApplyBarrier B W} (kind : WriteKind) (relation : string)
    (predicted : PredictedBlastRadius) (cap : WriteCap) (w : W) (b : B) :
    B * (W * result ApplyError ForwardResult) :=
  let '(b, w) := pause_point b "between dry_run and apply" w in
  (b,
   let@ forward, w := apply_forward w kind relation (p_cascades predicted).*1 in
   let@ deltas, w := xact_tuple_deltas w in
   let@ _, w := lift w (reconcile_full_effect predicted relation kind deltas) in
   if max_rows cap <? live_rows deltas
   then (w, Err (CapExceeded relation CapRows (max_rows cap) (live_rows deltas)))
   else
     let@ live_wal, w := xact_wal_bytes w in
     if max_wal_bytes cap <? live_wal
     then (w, Err (CapExceeded relation CapWalBytes (max_wal_bytes cap) live_wal))
     else
       let@ _, w := lift w (assert_reversible_preimage_coverage relation deltas forward) in
       let@ _, w := lift w (assert_written_column_coverage kind relation forward) in
       (w, Ok forward)).

(** Steps (1) to (9), once the checks that need no connection have passed. *)
Definition apply_in_txn {W B C} `{ApplyConn W, ApplyBarrier B W, Clock C} (proposal_id : string)
    (kind : WriteKind) (relation : string) (dry_run : BlastRadius) (predicted : PredictedBlastRadius)
    (cap : WriteCap) (pitr : PitrConfig) (w : W) (b : B) (clock : C) :
    B * (W * result ApplyError AppliedWrite) :=
  let '(w, fence) :=
    if pitr_enabled pitr then
      let label := restore_point_label proposal_id clock in
      let@ lsn, w := create_restore_point w label in (w, Ok (PitrRestorePoint label lsn))
    else (w, Ok TypedInverseOnly) in
  match fence with
  | Err e => (b, (w, Err e))
  | Ok fence =>
      let timeout_ms := statement_timeout_ms (duration_ms dry_run) in
      match begin w timeout_ms with
      | (w, Err e) => (b, (w, Err e))
      | (w, Ok _) =>
          let '(b, (w, outcome)) := guarded_body kind relation predicted cap w b in
          (b,
           match outcome with
           | Ok forward =>
               let@ _, w := commit w in
               let inverse := build_inverse kind relation predicted forward in
               let@ apply_checksum, w := lift w (written_checksum forward relation) in
               (w, Ok (mkApplied proposal_id (Z.of_nat (length (written forward))) apply_checksum
                         inverse fence timeout_ms))
           | Err e => ((rollback w).1, Err e)
           end)
      end
  end.

(** The checks made before any call on the connection: the prediction, or the refusal.
    [None] is the overflow panic of the fallback total. *)
Definition precheck (proposal_id : string) (kind : WriteKind) (relation : string)
    (dry_run : BlastRadius) (cap : WriteCap) : option (result ApplyError PredictedBlastRadius) :=
  if negb (bool_decide (BlastRadius.proposal_id dry_run = proposal_id)) then
    Some (Err (InvalidGrant ("blast-radius proposal_id `" +:+ BlastRadius.proposal_id dry_run +:+
                             "` does not match proposal `" +:+ proposal_id +:+ "`")))
  else
    match from_grant dry_run relation with
    | Err e => Some (Err e)
    | Ok predicted =>
        predicted_rows ← predicted_total_tuples overflow_checks dry_run;
        Some
          (if max_rows cap <? predicted_rows
           then Err (CapExceeded relation CapRows (max_rows cap) predicted_rows)
           else if max_wal_bytes cap <? wal_bytes dry_run
           then Err (CapExceeded relation CapWalBytes (max_wal_bytes cap) (wal_bytes dry_run))
           else
             let? _ := result_map_err ARefused (certify (operation_from_dry_run kind dry_run)) in
             Ok predicted)
    end.

Definition guarded_apply {W B C} `{ApplyConn W, ApplyBarrier B W, Clock C} (proposal_id : string)
    (kind : WriteKind) (relation : string) (dry_run : BlastRadius) (cap : WriteCap) (pitr : PitrConfig)
    (w : W) (b : B) (clock : C) : option (B * (W * result ApplyError AppliedWrite)) :=
  checked ← precheck proposal_id kind relation dry_run cap;
  Some
    match checked with
    | Err e => (b, (w, Err e))
    | Ok predicted => apply_in_txn proposal_id kind relation dry_run predicted cap pitr w b clock
    end.
End engine.

(** ** Lemmas *)

(** What the connection promises: transactions.  [committed] is the log of committed
    transactions, each with the tuple changes and the WAL it produced; [pending] and
    [pending_wal] are those of the open one.  A connection is [ready] when no transaction
    is open on it, and [applying] while one that [begin] opened is sound.  Only [commit] publishes,
    all or nothing (a commit that reports failure may have published: the
    acknowledgement can be lost), the measurements are reads, and the other calls publish
    nothing. *)
Class ApplyConnLaws (W : Type) `{ApplyConn W} : Type := {
  committed : W -> list (list RelationChange * Z);
  pending : W -> list RelationChange;
  pending_wal : W -> Z;
  ready : W -> Prop;
  applying : W -> Prop;
  restore_point_keeps w l :
    committed (create_restore_point w l).1 = committed w /\ (ready w -> ready (create_restore_point w l).1);
  begin_opens w t w' r :
    ready w -> begin w t = (w', r) -> committed w' = committed w /\ (r = Ok tt -> applying w');
  pk_column_keeps w rel :
    committed (self_determined_pk_column w rel).1 = committed w /\ (ready w -> ready (self_determined_pk_column w rel).1);
  forward_keeps w k rel cs w' r :
    applying w -> apply_forward w k rel cs = (w', r) -> committed w' = committed w /\ (is_ok r = true -> applying w');
  deltas_read w w' r :
    applying w -> xact_tuple_deltas w = (w', r) ->
    committed w' = committed w /\ forall ds, r = Ok ds -> pending w' = pending w /\ applying w' /\ ds = pending w;
  wal_read w w' r :
    applying w -> xact_wal_bytes w = (w', r) ->
    committed w' = committed w /\ forall n, r = Ok n -> pending w' = pending w /\ applying w' /\ n = pending_wal w';
  commit_publishes w w' :
    applying w -> commit w = (w', Ok tt) -> committed w' = committed w ++ [(pending w, pending_wal w)];
  commit_atomic w w' e :
    applying w -> commit w = (w', Err e) ->
    committed w' = committed w \/ committed w' = committed w ++ [(pending w, pending_wal w)];
  rollback_keeps w : committed (rollback w).1 = committed w
}.

(** A barrier that injects nothing into the database, as the production one. *)
Definition quiet {W B} `{ApplyConnLaws W, ApplyBarrier B W} : Prop :=
  forall (b : B) l (w : W),
    committed (pause_point b l w).2 = committed w /\ (applying w -> applying (pause_point b l w).2).

Lemma conn_bind_ok {W A B} (m : W * result ApplyError A) (k : A -> W -> W * result ApplyError B) w' x :
  conn_bind m k = (w', Ok x) <-> exists w1 a, m = (w1, Ok a) /\ k a w1 = (w', Ok x).
Proof. destruct m as [w1 [a|e]]; simpl; naive_solver. Qed.

Lemma conn_bind_err {W A B} (m : W * result ApplyError A) (k : A -> W -> W * result ApplyError B) w' e :
  conn_bind m k = (w', Err e) <-> m = (w', Err e) \/ exists w1 a, m = (w1, Ok a) /\ k a w1 = (w', Err e).
Proof. destruct m as [w1 [a|e1]]; simpl; naive_solver. Qed.

(** What the reconciliation promises of one relation's changes. *)
Definition within_footprint (effect : gmap string OpCounts) (target : string) (kind : WriteKind)
    (c : RelationChange) : Prop :=
  change_total c = 0 \/
  exists p, effect !! r_relation c = Some p /\ r_ins c <= ins p /\
    (r_upd c <= upd p \/ r_relation c = target /\ kind = WUpdate) /\
    (r_del c <= del p \/ r_relation c = target /\ kind = WDelete).

(** What the coverage guard promises of one relation's changes. *)
Definition covered (target : string) (forward : ForwardResult) (c : RelationChange) : Prop :=
  change_total c = 0 \/
  r_del c <= captured target forward (r_relation c) /\
  (r_relation c <> target -> r_upd c <= captured target forward (r_relation c)).

(** Every written column of every written row has a captured old value, and a row of which
    no written column is known has at least one. *)
Definition columns_captured (forward : ForwardResult) : Prop :=
  forall row, In row (written forward) ->
    (forall col, In col (written_columns forward) -> col <> "id"%string -> In col (c_before_image row).*1) /\
    exists col, col <> "id"%string /\ In col (c_before_image row).*1.

Lemma reconcile_ok predicted target kind deltas :
  reconcile_full_effect predicted target kind deltas = Ok tt ->
  Forall (within_footprint (p_effect_by_table predicted) target kind) deltas.
Proof.
  induction deltas as [|c deltas IH]; simpl; [constructor|].
  destruct (Z.eqb_spec (change_total c) 0); [constructor; [by left|auto]|].
  destruct (p_effect_by_table predicted !! r_relation c) as [p|] eqn:Ep; [|done].
  destruct (drifted_channel _ _ _ _) eqn:Ed; [done|]. intros Hr. constructor; [|auto].
  right. exists p. split; [done|]. unfold drifted_channel in Ed. simpl in Ed.
  destruct (Z.ltb_spec (ins p) (r_ins c)), (Z.ltb_spec (upd p) (r_upd c)), (Z.ltb_spec (del p) (r_del c));
    simpl in Ed; destruct kind; simpl in Ed;
    rewrite ?bool_decide_eq_true_2, ?bool_decide_eq_false_2, ?andb_true_r, ?andb_false_r in Ed by done;
    simpl in Ed; try case_bool_decide; simpl in Ed; try done; split_and!; auto; lia.
Qed.

Lemma captured_nonneg target forward rel : 0 <= captured target forward rel.
Proof. unfold captured. case_decide; [lia|]. destruct (_ !! _); lia. Qed.

Lemma coverage_ok target deltas forward :
  assert_reversible_preimage_coverage target deltas forward = Ok tt -> Forall (covered target forward) deltas.
Proof.
  induction deltas as [|c deltas IH]; simpl; [constructor|].
  destruct (Z.eqb_spec (change_total c) 0); [constructor; [by left|auto]|].
  pose proof (captured_nonneg target forward (r_relation c)) as Hn.
  destruct ((0 <? r_del c) && _) eqn:E1; [done|].
  destruct (negb _ && _ && _) eqn:E2; [done|]. intros Hr. constructor; [|auto].
  right. split; [lia|]. intros Ht. rewrite bool_decide_eq_false_2 in E2 by done. simpl in E2. lia.
Qed.

Lemma filter_nil_iff {A} (f : A -> bool) l : List.filter f l = [] <-> forall x, In x l -> f x = false.
Proof.
  induction l as [|x l IH]; simpl; [naive_solver|]. destruct (f x) eqn:E; [|naive_solver].
  split; [done|]. intros H. specialize (H x). rewrite E in H. naive_solver.
Qed.

Lemma column_coverage_ok debug relation required rows :
  column_coverage debug relation required rows = Ok tt ->
  forall row, In row rows -> incl required (non_id (c_before_image row).*1) /\ non_id (c_before_image row).*1 <> [].
Proof.
  induction rows as [|r rows IH]; cbn [column_coverage]; [done|]. intros Hc row Hr.
  destruct required as [|c0 required].
  { destruct (non_id (c_before_image r).*1) eqn:En; [done|]. destruct Hr as [<-|Hr]; [|by apply IH].
    rewrite En. split; [apply incl_nil_l|done]. }
  destruct (List.filter _ (c0 :: required)) eqn:Ef; [|done].
  destruct Hr as [<-|Hr]; [|by apply IH]. rewrite filter_nil_iff in Ef.
  assert (incl (c0 :: required) (non_id (c_before_image r).*1)) as Hi.
  { intros col Hcol. specialize (Ef col Hcol). apply negb_false_iff, bool_decide_eq_true in Ef. by apply list_elem_of_In. }
  split; [done|]. intros E. rewrite E in Hi. by destruct (Hi c0 (or_introl eq_refl)).
Qed.

Lemma columns_ok debug relation forward :
  assert_written_column_coverage debug WUpdate relation forward = Ok tt -> columns_captured forward.
Proof.
  intros Hc row Hr. cbn [assert_written_column_coverage] in Hc.
  destruct (column_coverage_ok debug relation _ _ Hc row Hr) as [Hi Hne].
  assert (forall col, In col (non_id (c_before_image row).*1) -> col <> "id"%string /\ In col (c_before_image row).*1) as Hin.
  { intros col [Hcol Hid]%filter_In. split; [|done]. by apply negb_true_iff, bool_decide_eq_false in Hid. }
  split.
  - intros col Hcol Hid. apply Hin, Hi, list_elem_of_In. unfold btree_set. rewrite rust_sort_perm.
    apply elem_of_remove_dups, list_elem_of_In, filter_In. split; [done|]. by rewrite bool_decide_eq_false_2.
  - destruct (non_id (c_before_image row).*1) as [|col cols]; [done|]. exists col. apply Hin. by left.
Qed.

Lemma push_rows_same_arity n b rows :
  Forall (fun r => length (tuple_values (c_pk r)) = n) rows ->
  (arity b = None \/ arity b = Some n) -> pk_less b = false ->
  exists b', push_rows b rows = Ok b' /\ pk_less b' = false.
Proof.
  intros Hr. revert b. induction Hr as [|r rows Hr Hrs IH]; intros b Ha Hp; simpl; [by eauto|].
  unfold push. destruct Ha as [->| ->].
  - apply IH; simpl; [right; by rewrite Hr|done].
  - rewrite decide_True by done. apply IH; simpl; auto.
Qed.

(** The checksum of the written rows exists when their keys have one width. *)
Lemma written_checksum_same_arity sha256_hex forward relation n :
  Forall (fun r => length (tuple_values (c_pk r)) = n) (written forward) ->
  exists cs, written_checksum sha256_hex forward relation = Ok cs.
Proof.
  intros Hr. unfold written_checksum.
  destruct (push_rows_same_arity n (for_relation relation) (written forward) Hr) as (b & -> & Hb); auto.
  simpl. unfold finalize. rewrite Hb. eauto.
Qed.

Section conn.
Context (debug_str : string -> string).
Context {W B : Type} `{ApplyConnLaws W, ApplyBarrier B W}.

(** What the guards established when the body of the transaction succeeds. *)
Definition guards_passed (kind : WriteKind) (relation : string) (predicted : PredictedBlastRadius)
    (cap : WriteCap) (w : W) (forward : ForwardResult) : Prop :=
  live_rows (pending w) <= max_rows cap /\ pending_wal w <= max_wal_bytes cap /\
  Forall (within_footprint (p_effect_by_table predicted) relation kind) (pending w) /\
  Forall (covered relation forward) (pending w) /\
  (kind = WUpdate -> columns_captured forward).

(** The forward write of a transaction just opened, with the connection as it leaves it. *)
Definition forward_from (kind : WriteKind) (relation : string) (predicted : PredictedBlastRadius) (w : W) (b : B) :
    W * result ApplyError ForwardResult :=
  apply_forward (pause_point b "between dry_run and apply" w).2 kind relation (p_cascades predicted).*1.

Lemma guarded_body_spec kind relation predicted cap (w w' : W) (b b' : B) r :
  quiet (W:=W) (B:=B) -> applying w ->
  guarded_body debug_str kind relation predicted cap w b = (b', (w', r)) ->
  committed w' = committed w /\
  forall forward, r = Ok forward -> applying w' /\ guards_passed kind relation predicted cap w' forward /\
    (forward_from kind relation predicted w b).2 = Ok forward /\
    pending w' = pending (forward_from kind relation predicted w b).1.
Proof.
  intros Hq Ha. unfold guarded_body, forward_from. destruct (Hq b "between dry_run and apply"%string w) as [Hq1 Hq2]. clear Hq.
  destruct (pause_point _ _ w) as [b1 w1]. intros [= _ E]. simpl in Hq1, Hq2. specialize (Hq2 Ha).
  simpl. destruct (apply_forward w1 kind relation (p_cascades predicted).*1) as [w2 rf] eqn:Ef.
  apply (forward_keeps _ _ _ _ _ _ Hq2) in Ef as [Hf Ha2].
  destruct rf as [forward|e]; simpl in *; [|simplify_eq; split; [congruence|done]]. specialize (Ha2 eq_refl).
  destruct (xact_tuple_deltas w2) as [w3 rd] eqn:Ed. apply (deltas_read _ _ _ Ha2) in Ed as (Hd1 & Hd).
  destruct rd as [deltas|e]; simpl in *; [|simplify_eq; split; [congruence|done]].
  destruct (Hd deltas eq_refl) as (Hd2 & Ha3 & ->).
  destruct (reconcile_full_effect _ _ _ _) as [[]|e] eqn:Er; simpl in *; [|simplify_eq; split; [congruence|done]].
  apply reconcile_ok in Er.
  destruct (Z.ltb_spec (max_rows cap) (live_rows (pending w2))); [simplify_eq; split; [congruence|done]|].
  destruct (xact_wal_bytes w3) as [w4 rw] eqn:Ew. apply (wal_read _ _ _ Ha3) in Ew as (Hw1 & Hw).
  destruct rw as [wal|e]; simpl in *; [|simplify_eq; split; [congruence|done]].
  destruct (Hw wal eq_refl) as (Hw2 & Ha4 & ->).
  destruct (Z.ltb_spec (max_wal_bytes cap) (pending_wal w4)); [simplify_eq; split; [congruence|done]|].
  destruct (assert_reversible_preimage_coverage _ _ _) as [[]|e] eqn:Ec; simpl in *;
    [|simplify_eq; split; [congruence|done]].
  apply coverage_ok in Ec.
  destruct (assert_written_column_coverage _ _ _ _) as [[]|e] eqn:Ea; simpl in *;
    simplify_eq; (split; [congruence|]); [|done].
  intros f [= <-]. split; [done|]. unfold guards_passed. rewrite Hw2, Hd2. split_and!; auto.
  intros ->. by apply columns_ok in Ea.
Qed.
End conn.

(** ** Properties *)

Section txn.
Context (sha256_hex : list byte -> string) (debug_str : string -> string).
Context {W B C : Type} `{ApplyConnLaws W, ApplyBarrier B W, Clock C}.

(** The forward write of an apply: after the restore point, if there is to be one, and
    [BEGIN] with the statement timeout. *)
Definition forward_run (proposal_id : string) (kind : WriteKind) (relation : string) (dry_run : BlastRadius)
    (predicted : PredictedBlastRadius) (pitr : PitrConfig) (w : W) (b : B) (clock : C) : W * result ApplyError ForwardResult :=
  let w := if pitr_enabled pitr then (create_restore_point w (restore_point_label proposal_id clock)).1 else w in
  forward_from kind relation predicted (begin w (statement_timeout_ms (duration_ms dry_run))).1 b.

Lemma apply_in_txn_spec proposal_id kind relation dry_run predicted cap pitr (w w' : W) (b b' : B) (clock : C) r :
  quiet (W:=W) (B:=B) -> ready w ->
  apply_in_txn sha256_hex debug_str proposal_id kind relation dry_run predicted cap pitr w b clock = (b', (w', r)) ->
  (committed w' = committed w /\ exists e, r = Err e) \/
  exists w1 forward, guards_passed kind relation predicted cap w1 forward /\ committed w1 = committed w /\ applying w1 /\
    (forward_run proposal_id kind relation dry_run predicted pitr w b clock).2 = Ok forward /\
    pending w1 = pending (forward_run proposal_id kind relation dry_run predicted pitr w b clock).1 /\
    ((exists e, commit w1 = (w', Err e) /\ r = Err e) \/
     committed w' = committed w ++ [(pending w1, pending_wal w1)] /\
     ((exists e, written_checksum sha256_hex forward relation = Err e /\ r = Err e) \/
      exists applied, r = Ok applied /\ a_inverse applied = build_inverse kind relation predicted forward /\
        a_rows_written applied = Z.of_nat (length (written forward)) /\
        written_checksum sha256_hex forward relation = Ok (a_apply_checksum applied))).
Proof.
  intros Hq Hrdy. unfold apply_in_txn.
  assert (exists w0 f, (if pitr_enabled pitr
     then let@ lsn, w := create_restore_point w (restore_point_label proposal_id clock)
          in (w, Ok (PitrRestorePoint (restore_point_label proposal_id clock) lsn))
     else (w, Ok TypedInverseOnly)) = (w0, f) /\ committed w0 = committed w /\ ready w0 /\
     w0 = (if pitr_enabled pitr then (create_restore_point w (restore_point_label proposal_id clock)).1 else w))
    as (w0 & f & -> & Hw0 & Hr0 & E0).
  { destruct (pitr_enabled pitr); [|by exists w, (Ok TypedInverseOnly)].
    pose proof (restore_point_keeps w (restore_point_label proposal_id clock)) as [Hk Hk'].
    destruct (create_restore_point _ _) as [w0 [lsn|e]]; simpl in *; (do 2 eexists; split_and!; [done|done|by apply Hk'|done]). }
  destruct f as [fence|e]; [|intros; simplify_eq; left; eauto].
  unfold forward_run. rewrite <- E0.
  destruct (begin w0 (statement_timeout_ms (duration_ms dry_run))) as [w1 r1] eqn:Eb.
  apply (begin_opens _ _ _ _ Hr0) in Eb as [Hb Hopen].
  destruct r1 as [[]|e]; [|intros; simplify_eq; left; split; [congruence|eauto]].
  destruct (guarded_body _ _ _ _ _ _ _) as [b1 [w2 outcome]] eqn:Eg.
  apply (guarded_body_spec debug_str) in Eg as (Hc & Hg); [|done|by apply Hopen]. destruct outcome as [forward|e].
  - destruct (Hg forward eq_refl) as (Ha & Hg' & Hfw & Hpend). intros [= _ E]. right. exists w2, forward.
    split; [done|]. split; [congruence|]. do 3 (split; [done|]).
    destruct (commit w2) as [w3 [[]|e]] eqn:Ec; simpl in E; [|left; simplify_eq; eauto].
    right. apply commit_publishes in Ec; [|done].
    destruct (written_checksum _ _ _) as [cs|e]; simpl in E; simplify_eq; (split; [congruence|]); eauto 10.
  - intros; simplify_eq. left. rewrite rollback_keeps. split; [congruence|eauto].
Qed.
End txn.

Lemma precheck_ok oc proposal_id kind relation dry_run cap predicted :
  precheck oc proposal_id kind relation dry_run cap = Some (Ok predicted) ->
  from_grant dry_run relation = Ok predicted /\ BlastRadius.proposal_id dry_run = proposal_id /\
  reversible dry_run = true.
Proof.
  unfold precheck. destruct (bool_decide _) eqn:Eid; [|done]. simpl. apply bool_decide_eq_true in Eid.
  destruct (from_grant dry_run relation) as [p|]; [|done].
  destruct (predicted_total_tuples oc dry_run); [|done]. simpl.
  destruct (_ <? _); [done|]. destruct (_ <? _); [done|].
  unfold operation_from_dry_run. destruct kind, (reversible dry_run); simpl; naive_solver.
Qed.

Lemma from_grant_effect dry_run relation predicted :
  from_grant dry_run relation = Ok predicted -> p_effect_by_table predicted = effect_by_table (affected dry_run).
Proof.
  unfold from_grant. do 3 (destruct (bool_decide _); [done|]).
  intros (cs & _ & [= <-])%result_bind_ok. done.
Qed.

(** What the log holds of a guarded apply, whatever it returns. *)
Lemma guarded_apply_log oc sha256_hex debug_str {W B C : Type} `{ApplyConnLaws W, ApplyBarrier B W, Clock C}
    proposal_id kind relation dry_run cap pitr (w w' : W) (b b' : B) (clock : C) r :
  quiet (W:=W) (B:=B) -> ready w ->
  guarded_apply oc sha256_hex debug_str proposal_id kind relation dry_run cap pitr w b clock = Some (b', (w', r)) ->
  committed w' = committed w \/
  exists changes wal, committed w' = committed w ++ [(changes, wal)] /\
    live_rows changes <= max_rows cap /\ wal <= max_wal_bytes cap /\
    Forall (within_footprint (effect_by_table (affected dry_run)) relation kind) changes.
Proof.
  intros Hq Hrdy. unfold guarded_apply. destruct (precheck _ _ _ _ _ _) as [[predicted|e']|] eqn:Ep; try done;
    simpl; intros [= E]; [|left; congruence].
  apply precheck_ok in Ep as (Hf & _ & _).
  destruct (apply_in_txn_spec sha256_hex debug_str _ _ _ _ _ _ _ _ _ _ _ _ _ Hq Hrdy E)
    as [[? _]|(w1 & forward & (G1 & G2 & G3 & _ & _) & Hc & Ha & _ & _ & Hr)]; [by left|].
  rewrite (from_grant_effect _ _ _ Hf) in G3.
  destruct Hr as [(e & Hcom & _)|[Hlog _]].
  - apply (commit_atomic _ _ _ Ha) in Hcom. rewrite Hc in Hcom. destruct Hcom; [by left|right; eauto 10].
  - right. eauto 10.
Qed.


(** C36: a failed guarded apply on a ready connection commits nothing, with two exceptions the error does not
    tell: the commit itself reported the failure, or the forward statement returned keys
    of differing widths, whose checksum is only taken after the commit. *)
Theorem failed_apply_commits_nothing (oc : bool) (sha256_hex : list byte -> string) (debug_str : string -> string)
    {W B C : Type} `{ApplyConnLaws W, ApplyBarrier B W, Clock C}
    (proposal_id : string) (kind : WriteKind) (relation : string) (dry_run : BlastRadius) (cap : WriteCap)
    (pitr : PitrConfig) (w w' : W) (b b' : B) (clock : C) (e : ApplyError) :
  quiet (W:=W) (B:=B) -> ready w ->
  guarded_apply oc sha256_hex debug_str proposal_id kind relation dry_run cap pitr w b clock =
    Some (b', (w', Err e)) ->
  committed w' = committed w \/
  (exists w1, committed w1 = committed w /\ commit w1 = (w', Err e)) \/
  (exists forward, written_checksum sha256_hex forward relation = Err e /\
     forall n, ~ Forall (fun r => length (tuple_values (c_pk r)) = n) (written forward)).
Proof.
  intros Hq Hrdy. unfold guarded_apply. destruct (precheck _ _ _ _ _ _) as [[predicted|e']|] eqn:Ep; try done.
  - simpl. intros [= E].
    destruct (apply_in_txn_spec sha256_hex debug_str _ _ _ _ _ _ _ _ _ _ _ _ _ Hq Hrdy E)
      as [[? _]|(w1 & forward & _ & Hc & _ & _ & _ & Hr)]; [by left|].
    right. destruct Hr as [(e' & ? & [= <-])|[_ [(e' & Hs & [= <-])|(? & ? & _)]]]; [by eauto| |done].
    right. exists forward. split; [done|]. intros n Hn.
    destruct (written_checksum_same_arity sha256_hex forward relation n Hn) as [cs ?]. congruence.
  - simpl. intros [= <- <- <-]. by left.
Qed.

(** A scripted connection, as the engine's tests have one: it answers each call from a
    script and logs its commits. *)
Record ScriptedConn : Type := mkScriptedConn {
  sc_forward : result ApplyError ForwardResult;
  sc_deltas : list RelationChange;
  sc_wal : Z;
  sc_pk : option string;
  sc_log : list (list RelationChange * Z)
}.

#[global] Instance ScriptedConn_conn : ApplyConn ScriptedConn := {|
  create_restore_point := fun w _ => (w, Ok "0/1"%string);
  begin := fun w _ => (w, Ok tt);
  xact_wal_bytes := fun w => (w, Ok (sc_wal w));
  self_determined_pk_column := fun w _ => (w, sc_pk w);
  apply_forward := fun w _ _ _ => (w, sc_forward w);
  xact_tuple_deltas := fun w => (w, Ok (sc_deltas w));
  commit := fun w => (mkScriptedConn (sc_forward w) (sc_deltas w) (sc_wal w) (sc_pk w)
                        (sc_log w ++ [(sc_deltas w, sc_wal w)]), Ok tt);
  rollback := fun w => (w, Ok tt)
|}.

#[global, refine] Instance ScriptedConn_laws : ApplyConnLaws ScriptedConn := {|
  committed := sc_log;
  pending := sc_deltas;
  pending_wal := sc_wal;
  ready := fun _ => True;
  applying := fun _ => True
|}.
Proof. all: simpl; naive_solver. Defined.

Lemma scripted_quiet : quiet (W:=ScriptedConn) (B:=NoopBarrier).
Proof. done. Qed.

Definition row_of (n : Z) : CapturedRow := mkCaptured (tuple_single (Int n)) [("id"%string, Int n); ("v"%string, Null)].

(** A dry run that predicted one updated (or deleted) row of [public.t]. *)
Definition one_row_record (effect : OpCounts) : BlastRadius :=
  mkBlastRadius "p-1" "0/1" 0
    (mkAffected {["public.t" := 1]} ∅ {["public.t" := "sha256:aa"%string]} {["public.t" := effect]} 1)
    [] [] RowExclusiveLock 1 100 [] true PreimageUpsert false.

Definition demo_apply (kind : WriteKind) (w : ScriptedConn) (cap : WriteCap) :=
  guarded_apply true (fun _ => "aa"%string) (fun s => s) "p-1" kind "public.t"
    (one_row_record (match kind with WUpdate => mkOpCounts 0 1 0 | WDelete => mkOpCounts 0 0 1 end))
    cap (mkPitr true) w mkNoopBarrier (starting_at 5).

Definition one_delete : ScriptedConn :=
  mkScriptedConn (Ok (forward_new [row_of 7])) [mkChange "public.t" 0 0 1] 80 None [].


(** Two rows deleted where the cap admits one. *)
Definition two_deletes : ScriptedConn :=
  mkScriptedConn (Ok (forward_new [row_of 7; row_of 8])) [mkChange "public.t" 0 0 2] 80 None [].

Lemma failed_apply_commits_nothing_witness :
  exists w' e, demo_apply WDelete two_deletes (mkWriteCap 1 4096) = Some (mkNoopBarrier, (w', Err e)) /\
    (committed w' = [] \/
     (exists w1, committed w1 = [] /\ commit w1 = (w', Err e)) \/
     (exists forward, written_checksum (fun _ => "aa"%string) forward "public.t" = Err e /\
        forall n, ~ Forall (fun r => length (tuple_values (c_pk r)) = n) (written forward))).
Proof.
  destruct (demo_apply WDelete two_deletes (mkWriteCap 1 4096)) as [[[] [w' [applied|e]]]|] eqn:E;
    [vm_compute in E; discriminate| |vm_compute in E; discriminate].
  exists w', e. split; [reflexivity|].
  exact (failed_apply_commits_nothing true (fun _ => "aa"%string) (fun s => s) "p-1" WDelete "public.t"
           (one_row_record (mkOpCounts 0 0 1)) (mkWriteCap 1 4096) (mkPitr true) two_deletes w' mkNoopBarrier
           mkNoopBarrier (starting_at 5) e scripted_quiet I E).
Defined.

(** Updates of the target beyond the captured rows are committed.  The
    reconciliation leaves the target's update channel to the cap and the coverage guard
    does not look at it, so an UPDATE predicted to change one row, whose statement
    returned one pre-image, commits with any number [n] of updated target rows (a
    trigger's, say) up to the cap, and returns an inverse that restores one. *)
Theorem extra_target_updates_commit (n : Z) (cap : WriteCap) :
  1 <= n <= max_rows cap -> n <= u64_max -> 100 <= max_wal_bytes cap ->
  exists w' applied,
    demo_apply WUpdate (mkScriptedConn (Ok (forward_new [row_of 7])) [mkChange "public.t" 0 n 0] 80 None []) cap =
      Some (mkNoopBarrier, (w', Ok applied)) /\
    committed w' = [([mkChange "public.t" 0 n 0], 80)] /\
    length (plan_rows (a_inverse applied)) = 1%nat.
Proof.
  intros Hn Hu Hw. set (w := mkScriptedConn _ _ _ _ _).
  assert (change_total (mkChange "public.t" 0 n 0) = n) as Ht
    by (unfold change_total, sat_add; simpl; lia).
  unfold demo_apply, guarded_apply, precheck.
  change (from_grant (one_row_record (mkOpCounts 0 1 0)) "public.t")
    with (Ok (E:=ApplyError) (mkPredicted [] {["public.t" := mkOpCounts 0 1 0]})).
  change (predicted_total_tuples true (one_row_record (mkOpCounts 0 1 0))) with (Some 1).
  cbn [mbind option_bind BlastRadius.proposal_id one_row_record wal_bytes].
  rewrite bool_decide_eq_true_2 by done. cbn [negb].
  rewrite (proj2 (Z.ltb_ge (max_rows cap) 1)) by lia. rewrite (proj2 (Z.ltb_ge (max_wal_bytes cap) 100)) by lia.
  cbn. rewrite Ht. destruct (Z.eqb_spec n 0); [lia|]. rewrite lookup_singleton_eq.
  unfold drifted_channel. cbn. rewrite !andb_false_r. cbn.
  assert (sat_add 0 n = n) as -> by (unfold sat_add; lia).
  destruct (Z.ltb_spec (max_rows cap) n); [lia|]. destruct (Z.ltb_spec (max_wal_bytes cap) 80); [lia|].
  rewrite !bool_decide_eq_true_2 by done. cbn. eauto.
Qed.

Lemma extra_target_updates_commit_witness :
  exists w' applied,
    demo_apply WUpdate (mkScriptedConn (Ok (forward_new [row_of 7])) [mkChange "public.t" 0 50 0] 80 None [])
      (mkWriteCap 100 4096) = Some (mkNoopBarrier, (w', Ok applied)) /\
    committed w' = [([mkChange "public.t" 0 50 0], 80)] /\
    length (plan_rows (a_inverse applied)) = 1%nat.
Proof. apply (extra_target_updates_commit 50 (mkWriteCap 100 4096)); simpl; unfold u64_max; lia. Defined.

(** An error after the commit: keys of differing widths. *)
Theorem error_after_commit :
  exists w' e,
    demo_apply WUpdate
      (mkScriptedConn (Ok (forward_new [row_of 7; mkCaptured (mkPkTuple [Int 1; Int 2]) [("v"%string, Null)]]))
         [mkChange "public.t" 0 1 0] 80 None []) (mkWriteCap 2 4096) = Some (mkNoopBarrier, (w', Err e)) /\
    committed w' = [([mkChange "public.t" 0 1 0], 80)].
Proof. vm_compute. eauto. Qed.

(** ** The dry run's record is one the engine accepts *)

Lemma fold_cascades_keys cs m1 m2 t c k n :
  DryRun.fold_cascades cs m1 m2 t = Ok (c, k, n) ->
  (forall rel, is_Some (m1 !! rel) -> is_Some (m2 !! rel)) ->
  (forall rel, is_Some (c !! rel) -> is_Some (k !! rel)) /\ (forall rel, is_Some (m2 !! rel) -> is_Some (k !! rel)).
Proof.
  revert m1 m2 t. induction cs as [|x cs IH]; intros m1 m2 t; cbn [DryRun.fold_cascades].
  - by intros [= <- <- <-].
  - destruct (DryRun.at_checksum x) as [cs'|]; [|done]. intros E Hsub.
    apply IH in E as [H1 H2].
    + split; [done|]. intros rel Hr. apply H2. rewrite lookup_insert_is_Some'. by right.
    + intros rel. rewrite !lookup_insert_is_Some'. naive_solver.
Qed.

Lemma collect_cascades_ok target checksums rels :
  (forall rel, In rel rels -> is_Some (checksums !! rel)) ->
  exists cs, collect_cascades target checksums rels = Ok cs /\
    cs.*1 = List.filter (fun rel => negb (bool_decide (rel = target))) rels.
Proof.
  induction rels as [|rel rels IH]; intros Hr; simpl; [by exists []|].
  destruct IH as (cs & Ec & Ef); [naive_solver|].
  case_decide as Hd; [by rewrite bool_decide_eq_true_2 by done; exists cs|].
  rewrite bool_decide_eq_false_2 by done. destruct (Hr rel) as [x ->]; [by left|]. rewrite Ec. simpl.
  exists ((rel, x) :: cs). split; [done|]. by rewrite fmap_cons, Ef.
Qed.

Lemma insert_all_lookup {A V} (f : A -> string) (g : A -> V) l (m : gmap string V) rel :
  is_Some (m !! rel) \/ (exists x, In x l /\ f x = rel) ->
  is_Some (foldl (fun acc x => <[f x := g x]> acc) m l !! rel).
Proof.
  revert m. induction l as [|x l IH]; intros m Hr; simpl.
  - by destruct Hr as [?|(x & [] & _)].
  - apply IH. rewrite lookup_insert_is_Some'. naive_solver.
Qed.

Lemma in_btree_keys {V} (m : gmap string V) rel : In rel (btree_keys m) <-> is_Some (m !! rel).
Proof.
  unfold btree_keys. rewrite <- list_elem_of_In, rust_sort_perm, list_elem_of_fmap. split.
  - intros ([k v] & -> & Hk%elem_of_map_to_list). by exists v.
  - intros [v Hv]. exists (rel, v). split; [done|]. by apply elem_of_map_to_list.
Qed.

(** An approved dry run can be applied.  For every record the dry run assembles
    (whose measured footprint, if any, names the target) and whatever the headroom, the
    suggested cap passes every check made before the transaction, and the cascade
    relations whose pre-images will be captured are the predicted ones in key order. *)
Theorem dry_run_record_passes_precheck (oc : bool) (p : Proposal.Proposal) (kind : WriteKind)
    (m : DryRun.Measurement) (br : BlastRadius) (headroom : f64) (cap : WriteCap) :
  let target := DryRun.at_relation (DryRun.m_target m) in
  DryRun.assemble p kind m = Ok br -> record_in_range br ->
  (DryRun.m_full_effect m = [] \/ exists e, In e (DryRun.m_full_effect m) /\ DryRun.e_relation e = target) ->
  suggested_cap oc br headroom = Some cap ->
  exists predicted, precheck oc (Proposal.id p) kind target br cap = Some (Ok predicted) /\
    (p_cascades predicted).*1 =
      List.filter (fun rel => negb (bool_decide (rel = target))) (btree_keys (cascade_by_table (affected br))).
Proof.
  intros target Ha Hr Hfull Hcap. unfold DryRun.assemble in Ha.
  destruct (DryRun.at_checksum (DryRun.m_target m)) as [cs|]; [|done]. fold target in Ha.
  apply result_bind_ok in Ha as ([[cascades checksums] total] & Hfold & [= <-]).
  apply fold_cascades_keys in Hfold as [Hsub Hk]; [|intros rel [? Hx]; by rewrite lookup_empty in Hx].
  unfold suggested_cap in Hcap. destruct (predicted_in_range oc _ Hr) as (n & En & Hn). rewrite En in Hcap.
  injection Hcap as <-. destruct Hr as [Hw _]. simpl in Hw.
  set (br := mkBlastRadius _ _ _ _ _ _ _ _ _ _ _ _ _) in *.
  assert (is_Some (DryRun.effect_footprint kind m !! target)) as [eff Heff].
  { unfold DryRun.effect_footprint. fold target. destruct (DryRun.m_full_effect m) as [|e l].
    - apply (insert_all_lookup DryRun.at_relation (fun c => DryRun.op_counts kind (DryRun.at_rows c))).
      left. by rewrite lookup_singleton_eq.
    - apply (insert_all_lookup DryRun.e_relation DryRun.e_counts). right. by destruct Hfull. }
  destruct (collect_cascades_ok target checksums (btree_keys cascades)) as (rels & Ec & Ef).
  { intros rel Hrel. by apply Hsub, in_btree_keys. }
  exists (mkPredicted rels (DryRun.effect_footprint kind m)). split; [|done].
  unfold precheck. simpl BlastRadius.proposal_id. rewrite bool_decide_eq_true_2 by done. simpl negb. cbv iota.
  assert (from_grant br target = Ok (mkPredicted rels (DryRun.effect_footprint kind m))) as ->.
  { unfold from_grant. simpl. rewrite !bool_decide_eq_false_2; [by rewrite Ec|..].
    - by rewrite Heff.
    - intros E. rewrite E in Heff. done.
    - destruct (Hk target) as [x Hx]; [by rewrite lookup_singleton_eq|]. by rewrite Hx. }
  rewrite En. simpl.
  pose proof (with_headroom_bounds (effective_headroom headroom) (Z.max n 1)) as Hb1.
  pose proof (with_headroom_bounds (effective_headroom headroom) (DryRun.m_wal_bytes m) Hw) as Hb2.
  assert ((with_headroom (effective_headroom headroom) (Z.max n 1) <? n) = false) as -> by (unfold in_u in *; lia).
  assert ((with_headroom (effective_headroom headroom) (DryRun.m_wal_bytes m) <? DryRun.m_wal_bytes m) = false)
    as -> by lia.
  by destruct kind.
Qed.

Definition sample_cascade : DryRun.Measurement :=
  DryRun.mkMeasurement (DryRun.mkAffectedTable "public.t" (Some "aa"%string) 1)
    [DryRun.mkAffectedTable "public.child" (Some "bb"%string) 2] [] [] [] 5 100 [] "0/1" 0.

Lemma dry_run_record_passes_precheck_witness :
  exists br cap predicted,
    DryRun.assemble DryRun.sample_proposal WDelete sample_cascade = Ok br /\
    suggested_cap true br f64_zero = Some cap /\
    precheck true "p-1" WDelete "public.t" br cap = Some (Ok predicted) /\
    (p_cascades predicted).*1 = ["public.child"%string].
Proof.
  destruct (DryRun.assemble DryRun.sample_proposal WDelete sample_cascade) as [br|] eqn:E;
    [|vm_compute in E; discriminate].
  destruct (suggested_cap true br f64_zero) as [cap|] eqn:Ec;
    [|vm_compute in E; injection E as <-; vm_compute in Ec; discriminate].
  destruct (dry_run_record_passes_precheck true DryRun.sample_proposal WDelete sample_cascade br f64_zero cap)
    as (predicted & Hp & Hf).
  - exact E.
  - injection E as <-. by_decide.
  - left. reflexivity.
  - exact Ec.
  - exists br, cap, predicted. split; [reflexivity|]. split; [exact Ec|]. split; [exact Hp|].
    rewrite Hf. injection E as <-. vm_compute. reflexivity.
Defined.

End Apply.
