(* ===== verification/Revert.v ===== *)
(** * Revert: applying the captured inverse

    Models [src/crates/clone-orchestrator/src/revert.rs].  The connection is the
    [RevertConn] trait as a class over its state.  [RevertConnLaws] says what the
    restore calls do to the tables, seen as maps from key to row, apart from the relations
    that triggers write; against it the revert of a guarded apply's inverse brings every
    row of the others back. *)

From S2P Require Import Prelude PkChecksum Inverse BlastRadius DryRun Apply.

Module Revert.
Import PkChecksum Inverse DryRun(WriteKind, WUpdate, WDelete) Apply.

Inductive RevertError : Type :=
| MalformedInverse (relation detail : string)
| MalformedRow (relation detail : string)
| NotReversible
| RBackend (what : string).

Record RevertRow : Type := mkRevertRow { rr_pk : PkTuple; rr_before_image : list (string * PkValue) }.

(** The [RevertConn] trait. *)
Class RevertConn (W : Type) : Type := {
  revert_begin : W -> W * result RevertError unit;
  restore_update : W -> string -> list RevertRow -> W * result RevertError Z;
  restore_insert : W -> string -> list RevertRow -> W * result RevertError Z;
  revert_commit : W -> W * result RevertError unit;
  revert_rollback : W -> W * result RevertError unit
}.

Record RevertReport : Type := mkReport {
  rep_kind : InverseKind;
  restored_by_relation : list (string * Z);
  total_restored : Z;
  not_restored : list NotRestored
}.

Definition restored (r : RevertReport) (relation : string) : Z :=
  match List.find (fun x => bool_decide (x.1 = relation)) (restored_by_relation r) with
  | Some x => x.2
  | None => 0
  end.

Section engine.
Context (debug_str : string -> string).

(** The inner loop over a row's columns: the stamp, if any, and the real columns. *)
Fixpoint split_stamp (target : string) (image : list (string * PkValue)) (relation : option string)
    (before_image : list (string * PkValue)) : result RevertError (option string * list (string * PkValue)) :=
  match image with
  | [] => Ok (relation, before_image)
  | (col, val) :: image =>
      if decide (col = RELATION_STAMP) then
        match val with
        | Text rel => split_stamp target image (Some rel) before_image
        | other => Err (MalformedRow target ("__relation stamp is not text: " +:+ debug_value debug_str other))
        end
      else split_stamp target image relation (before_image ++ [(col, val)])
  end.

(** One iteration of [route_rows]: the relation a captured row belongs to. *)
Definition route_row (inverse : InversePlan) (row : InverseRow) : result RevertError (string * RevertRow) :=
  let? (relation, image) := split_stamp (plan_relation inverse) (Inverse.before_image row) None [] in
  let relation := default (plan_relation inverse) relation in
  if bool_decide (relation ∉ plan_fk_order inverse) then
    Err (MalformedInverse relation
           "a captured row is stamped with a relation outside fk_order (the inverse cannot be FK-ordered)")
  else
    match image with
    | [] => Err (MalformedRow relation "captured row has no pre-image columns to restore")
    | _ => Ok (relation, mkRevertRow (row_pk row) image)
    end.

(** [routed.entry(relation).or_default().push(row)] for each row. *)
Fixpoint route_from (inverse : InversePlan) (rows : list InverseRow) (routed : gmap string (list RevertRow)) :
    result RevertError (gmap string (list RevertRow)) :=
  match rows with
  | [] => Ok routed
  | row :: rows =>
      let? (relation, rr) := route_row inverse row in
      route_from inverse rows (<[relation := default [] (routed !! relation) ++ [rr]]> routed)
  end.

Definition route_rows (inverse : InversePlan) : result RevertError (gmap string (list RevertRow)) :=
  route_from inverse (plan_rows inverse) ∅.

(** The loop of [revert_body]: what was restored per relation, and the total. *)
Fixpoint restore_in_order {W} (restore : W -> string -> list RevertRow -> W * result RevertError Z)
    (routed : gmap string (list RevertRow)) (fk_order : list string) (w : W)
    (by_relation : list (string * Z)) (total : Z) : W * result RevertError (list (string * Z) * Z) :=
  match fk_order with
  | [] => (w, Ok (by_relation, total))
  | relation :: fk_order =>
      match restore w relation (default [] (routed !! relation)) with
      | (w, Err e) => (w, Err e)
      | (w, Ok n) =>
          restore_in_order restore routed fk_order w (by_relation ++ [(relation, n)]) (sat_add total n)
      end
  end.

Definition revert_body {W} (restore : W -> string -> list RevertRow -> W * result RevertError Z)
    (inverse : InversePlan) (routed : gmap string (list RevertRow)) (w : W) :
    W * result RevertError RevertReport :=
  match restore_in_order restore routed (plan_fk_order inverse) w [] 0 with
  | (w, Err e) => (w, Err e)
  | (w, Ok (by_relation, total)) =>
      (w, Ok (mkReport (plan_kind inverse) by_relation total (plan_not_restored inverse)))
  end.

(** The restore call of an inverse kind; [NoInverse] has none and is refused first. *)
Definition restore_call {W} `{RevertConn W} (kind : InverseKind) :
    option (W -> string -> list RevertRow -> W * result RevertError Z) :=
  match kind with
  | PreimageUpsert => Some restore_update
  | InsertRows => Some restore_insert
  | NoInverse => None
  end.

Definition revert {W} `{RevertConn W} (inverse : InversePlan) (w : W) : W * result RevertError RevertReport :=
  match restore_call (plan_kind inverse) with
  | None => (w, Err NotReversible)
  | Some restore =>
      match route_rows inverse with
      | Err e => (w, Err e)
      | Ok routed =>
          match revert_begin w with
          | (w, Err e) => (w, Err e)
          | (w, Ok _) =>
              match revert_body restore inverse routed w with
              | (w, Ok report) =>
                  match revert_commit w with
                  | (w, Err e) => (w, Err e)
                  | (w, Ok _) => (w, Ok report)
                  end
              | (w, Err e) => ((revert_rollback w).1, Err e)
              end
          end
      end
  end.
End engine.

(** ** Lemmas: the inverse a guarded apply builds *)

Definition target_row (row : CapturedRow) : InverseRow := mkInverseRow (c_pk row) (c_before_image row).

Definition cascade_rows (forward : ForwardResult) (rel : string) : list CapturedRow :=
  default [] (cascade_preimages forward !! rel).

Lemma push_all {A} (f : A -> InverseRow) l b :
  foldl (fun b x => push_row b (f x)) b l =
  mkPlanBuilder (b_relation b) (b_kind b) (b_rows b ++ map f l) (b_fk_order b).
Proof.
  revert b. induction l as [|x l IH]; intros b; simpl.
  - destruct b; simpl. by rewrite app_nil_r.
  - rewrite IH. simpl. by rewrite <- app_assoc.
Qed.

Lemma push_cascade forward c rel k rows fk :
  match cascade_preimages forward !! c with
  | Some l => foldl (fun b row => push_row b (stamp c row)) (mkPlanBuilder rel k rows fk) l
  | None => mkPlanBuilder rel k rows fk
  end = mkPlanBuilder rel k (rows ++ map (stamp c) (cascade_rows forward c)) fk.
Proof.
  unfold cascade_rows. destruct (cascade_preimages forward !! c); simpl; [|by rewrite app_nil_r].
  by rewrite (push_all (stamp c)).
Qed.

Lemma build_inverse_eq kind relation predicted forward :
  build_inverse kind relation predicted forward =
  mkInversePlan relation (match kind with WUpdate => for_update | WDelete => for_delete end)
    (map target_row (written forward) ++
     flat_map (fun c => map (stamp c.1) (cascade_rows forward c.1)) (p_cascades predicted))
    (relation :: (p_cascades predicted).*1) NotRestored_ALL.
Proof.
  unfold build_inverse. rewrite (push_all target_row). simpl.
  set (k := match kind with WUpdate => for_update | WDelete => for_delete end).
  enough (forall cs rows fk fk0,
    foldl (fun '(b, fk_order) '(cascade_rel, _) =>
             (match cascade_preimages forward !! cascade_rel with
              | Some rows => foldl (fun b row => push_row b (stamp cascade_rel row)) b rows
              | None => b
              end, fk_order ++ [cascade_rel])) (mkPlanBuilder relation k rows fk0, fk) cs =
    (mkPlanBuilder relation k (rows ++ flat_map (fun c => map (stamp c.1) (cascade_rows forward c.1)) cs) fk0,
     fk ++ cs.*1)) as He by (rewrite He; reflexivity).
  induction cs as [|[c cs0] cs IH]; intros rows fk fk0; cbn [foldl flat_map]; [by rewrite !app_nil_r|].
  rewrite push_cascade, IH, fmap_cons. cbn [fst]. by rewrite <- !app_assoc.
Qed.

(** Which captured rows belong to which relation. *)
Definition captured_in (relation : string) (predicted : PredictedBlastRadius) (forward : ForwardResult)
    (r : string) (row : CapturedRow) : Prop :=
  r = relation /\ In row (written forward) \/ In r (p_cascades predicted).*1 /\ In row (cascade_rows forward r).

(** A pre-image the revert can route: some column, none named like the stamp. *)
Definition image_ok (row : CapturedRow) : Prop :=
  c_before_image row <> [] /\ ~ In RELATION_STAMP (c_before_image row).*1.

Definition to_revert (row : CapturedRow) : RevertRow := mkRevertRow (c_pk row) (c_before_image row).

Section routing.
Context (debug_str : string -> string).

Lemma split_stamp_app target image rest rel acc :
  ~ In RELATION_STAMP image.*1 ->
  split_stamp debug_str target (image ++ rest) rel acc = split_stamp debug_str target rest rel (acc ++ image).
Proof.
  revert acc. induction image as [|[c v] image IH]; intros acc Hn; simpl; [by rewrite app_nil_r|].
  rewrite decide_False by (intros ->; apply Hn; by left).
  rewrite IH, <- app_assoc; [done|]. intros Hin. apply Hn. by right.
Qed.

Lemma route_target plan row :
  image_ok row -> In (plan_relation plan) (plan_fk_order plan) ->
  route_row debug_str plan (target_row row) = Ok (plan_relation plan, to_revert row).
Proof.
  intros [Hne Hn] Hfk. unfold route_row, target_row. simpl.
  rewrite <- (app_nil_r (c_before_image row)), split_stamp_app by done. simpl.
  rewrite bool_decide_eq_false_2 by (rewrite list_elem_of_In; tauto).
  unfold to_revert. by destruct (c_before_image row).
Qed.

Lemma route_cascade plan c row :
  image_ok row -> In c (plan_fk_order plan) -> route_row debug_str plan (stamp c row) = Ok (c, to_revert row).
Proof.
  intros [Hne Hn] Hfk. unfold route_row, stamp. simpl. rewrite split_stamp_app by done. simpl.
  rewrite bool_decide_eq_false_2 by (rewrite list_elem_of_In; tauto).
  unfold to_revert. by destruct (c_before_image row).
Qed.

Lemma route_from_ok plan rows routed :
  (forall row, In row rows -> exists r rr, route_row debug_str plan row = Ok (r, rr)) ->
  exists routed', route_from debug_str plan rows routed = Ok routed' /\
    forall r rr, In rr (default [] (routed' !! r)) <->
      In rr (default [] (routed !! r)) \/ exists row, In row rows /\ route_row debug_str plan row = Ok (r, rr).
Proof.
  revert routed. induction rows as [|row rows IH]; intros routed Hr; simpl.
  - exists routed. split; [done|]. naive_solver.
  - destruct (Hr row) as (r0 & rr0 & E); [by left|]. rewrite E. simpl.
    destruct (IH (<[r0 := default [] (routed !! r0) ++ [rr0]]> routed)) as (routed' & -> & Hd);
      [intros; apply Hr; by right|].
    exists routed'. split; [done|]. intros r rr. rewrite Hd. destruct (decide (r = r0)) as [->|Hne].
    + rewrite lookup_insert_eq. simpl. rewrite in_app_iff. simpl. split.
      * intros [[?|[->|[]]]|(x & ? & ?)]; [by left|right; eauto|right; eauto].
      * intros [?|(x & [<-|?] & E')]; [by left; left| |right; eauto].
        left. right. left. congruence.
    + rewrite lookup_insert_ne by done. split.
      * intros [?|(x & ? & ?)]; [by left|right; eauto].
      * intros [?|(x & [<-|?] & E')]; [by left|congruence|right; eauto].
Qed.

(** Every captured row is routed to its own relation, and nothing else is. *)
Lemma route_built kind relation predicted forward :
  (forall r row, captured_in relation predicted forward r row -> image_ok row) ->
  exists routed, route_rows debug_str (build_inverse kind relation predicted forward) = Ok routed /\
    forall r rr, In rr (default [] (routed !! r)) <->
      exists row, captured_in relation predicted forward r row /\ rr = to_revert row.
Proof.
  intros Hok. rewrite build_inverse_eq. unfold route_rows. simpl plan_rows. set (plan := mkInversePlan _ _ _ _ _).
  assert (forall row, In row (plan_rows plan) -> exists r x, captured_in relation predicted forward r x /\
            route_row debug_str plan row = Ok (r, to_revert x)) as Hroute.
  { intros row [(x & <- & Hx)%in_map_iff|([c cs] & Hc & (x & <- & Hx)%in_map_iff)%in_flat_map]%in_app_iff.
    - exists relation, x. split; [by left|]. apply (route_target plan); [apply (Hok relation); by left|by left].
    - assert (In c (p_cascades predicted).*1) as Hin by (apply in_map_iff; by exists (c, cs)).
      exists c, x. split; [by right|]. apply route_cascade; [apply (Hok c); by right|by right]. }
  destruct (route_from_ok plan (plan_rows plan) ∅) as (routed & E & Hd).
  { intros row (r & x & _ & ?)%Hroute. eauto. }
  exists routed. split; [done|]. intros r rr. rewrite Hd, lookup_empty. simpl. split.
  - intros [[]|(row & Hin & Er)]. destruct (Hroute row Hin) as (r' & x & Hx & Er').
    rewrite Er in Er'. injection Er' as -> ->. eauto.
  - intros (x & Hx & ->). right. destruct Hx as [[-> Hx]|[Hc Hx]].
    + exists (target_row x). split; [apply in_app_iff; left; by apply in_map|].
      apply (route_target plan); [apply (Hok relation); by left|by left].
    + exists (stamp r x). split; [|apply route_cascade; [apply (Hok r); by right|by right]].
      apply in_app_iff. right. apply in_map_iff in Hc as ([c cs] & Ec & Hc). simpl in Ec. subst c.
      apply in_flat_map. exists (r, cs). split; [done|]. by apply in_map.
Qed.
End routing.

(** ** What the restore calls do to the tables *)

Abbreviation Row := (gmap string PkValue).
Definition Db : Type := string -> PkTuple -> option Row.

Definition row_map (image : list (string * PkValue)) : Row := list_to_map image.

(** The statement of one restored row: SET of the captured columns, or INSERT. *)
Definition restore_row (kind : InverseKind) (rr : RevertRow) (v : option Row) : option Row :=
  match kind with
  | PreimageUpsert => option_map (fun cur => row_map (rr_before_image rr) ∪ cur) v
  | InsertRows => Some (row_map (rr_before_image rr))
  | NoInverse => v
  end.

Definition put_row (kind : InverseKind) (rel : string) (d : Db) (rr : RevertRow) : Db :=
  fun r pk => if decide (r = rel /\ pk = rr_pk rr) then restore_row kind rr (d r pk) else d r pk.

Definition restore_rows (kind : InverseKind) (rel : string) (d : Db) (rows : list RevertRow) : Db :=
  foldl (put_row kind rel) d rows.

(** What the trait promises: the restore calls run their statements row by row in the
    open transaction, the other calls change no row.  Triggers fire on restored rows as on
    any others; [side] are the relations they write, of which nothing is said. *)
Class RevertConnLaws (W : Type) (side : string -> Prop) `{RevertConn W} : Type := {
  tables : W -> Db;
  begin_tables w w' : revert_begin w = (w', Ok tt) -> forall r pk, ~ side r -> tables w' r pk = tables w r pk;
  update_tables w rel rows w' n :
    restore_update w rel rows = (w', Ok n) ->
    forall r pk, ~ side r -> tables w' r pk = restore_rows PreimageUpsert rel (tables w) rows r pk;
  insert_tables w rel rows w' n :
    restore_insert w rel rows = (w', Ok n) ->
    forall r pk, ~ side r -> tables w' r pk = restore_rows InsertRows rel (tables w) rows r pk;
  commit_tables w w' : revert_commit w = (w', Ok tt) -> forall r pk, ~ side r -> tables w' r pk = tables w r pk
}.

(** What a forward write did to one captured row: the DELETE removed a row whose whole
    image was captured; the UPDATE left a row that differs only in captured columns. *)
Definition undoable (kind : WriteKind) (row : CapturedRow) (before now : option Row) : Prop :=
  match kind with
  | WDelete => before = Some (row_map (c_before_image row))
  | WUpdate =>
      exists full cur, before = Some full /\ now = Some cur /\ row_map (c_before_image row) ⊆ full /\
        forall col, row_map (c_before_image row) !! col = None -> cur !! col = full !! col
  end.

(** The tables [d] after a forward write from [before] whose captured rows are those of
    [forward]: captured rows are undoable, all others as they were, except in the relations
    that triggers write. *)
Definition written_over (side : string -> Prop) (kind : WriteKind) (relation : string) (predicted : PredictedBlastRadius)
    (forward : ForwardResult) (before d : Db) : Prop :=
  forall r pk, ~ side r ->
    (forall row, captured_in relation predicted forward r row -> c_pk row = pk ->
       undoable kind row (before r pk) (d r pk)) /\
    ((forall row, captured_in relation predicted forward r row -> c_pk row <> pk) -> d r pk = before r pk).

Definition inverse_of (kind : WriteKind) : InverseKind :=
  match kind with WUpdate => for_update | WDelete => for_delete end.

Lemma undoable_restored kind row before now :
  undoable kind row before now ->
  restore_row (inverse_of kind) (to_revert row) now = before /\
  restore_row (inverse_of kind) (to_revert row) before = before.
Proof.
  destruct kind; simpl; [|by intros ->].
  intros (full & cur & -> & -> & Hsub & Hrest). split; simpl; f_equal; apply map_eq; intros col;
    rewrite lookup_union; destruct (row_map (c_before_image row) !! col) eqn:E;
    try (rewrite (lookup_weaken _ _ _ _ E Hsub); by destruct (cur !! col)).
  - rewrite (Hrest col E). by destruct (full !! col).
  - by destruct (full !! col).
Qed.

Section undo.
Context (side : string -> Prop) (kind : InverseKind) (before d0 : Db).
(** [owns r rr]: the row [rr] is restored into relation [r]. *)
Context (owns : string -> RevertRow -> Prop).
Hypothesis owned_restores : forall r rr, ~ side r -> owns r rr ->
  restore_row kind rr (d0 r (rr_pk rr)) = before r (rr_pk rr) /\
  restore_row kind rr (before r (rr_pk rr)) = before r (rr_pk rr).

(** Every row is as it was before the write, or still as the write left it. *)
Definition partly (d : Db) : Prop := forall r pk, ~ side r -> d r pk = before r pk \/ d r pk = d0 r pk.
Definition keeps (d d' : Db) : Prop := forall r pk, ~ side r -> d r pk = before r pk -> d' r pk = before r pk.

Lemma put_row_partly rel d rr :
  partly d -> owns rel rr ->
  partly (put_row kind rel d rr) /\ keeps d (put_row kind rel d rr) /\
  (~ side rel -> put_row kind rel d rr rel (rr_pk rr) = before rel (rr_pk rr)).
Proof.
  intros Hp Ho.
  assert (~ side rel -> restore_row kind rr (d rel (rr_pk rr)) = before rel (rr_pk rr)) as Hr.
  { intros Hs. destruct (owned_restores rel rr Hs Ho). destruct (Hp rel (rr_pk rr) Hs) as [->| ->]; done. }
  unfold put_row. split_and!.
  - intros r pk Hs. case_decide as E; [left; destruct E as [-> ->]; by apply Hr|by apply Hp].
  - intros r pk Hs Hb. case_decide as E; [|done]. destruct E as [-> ->]. by apply Hr.
  - intros Hs. rewrite decide_True by done. by apply Hr.
Qed.

Lemma restore_rows_partly rel rows d :
  partly d -> Forall (owns rel) rows ->
  partly (restore_rows kind rel d rows) /\ keeps d (restore_rows kind rel d rows) /\
  (~ side rel -> forall rr, In rr rows -> restore_rows kind rel d rows rel (rr_pk rr) = before rel (rr_pk rr)).
Proof.
  intros Hp Hr. revert d Hp. induction Hr as [|rr rows Ho Hr IH]; intros d Hp; simpl;
    [by split_and!; [|intros ? ?|]|].
  destruct (put_row_partly rel d rr Hp Ho) as (Hp1 & Hk1 & Hb1).
  destruct (IH _ Hp1) as (Hp2 & Hk2 & Hb2). split_and!; [done|intros r pk Hs Hb; by apply Hk2, Hk1|].
  intros Hs x [<-|Hx]; auto.
Qed.

Lemma restore_in_order_partly {W} (tables : W -> Db) (restore : W -> string -> list RevertRow -> W * result RevertError Z)
    routed fk_order (w w' : W) acc total res :
  (forall w rel rows w' n, restore w rel rows = (w', Ok n) ->
     forall r pk, ~ side r -> tables w' r pk = restore_rows kind rel (tables w) rows r pk) ->
  (forall r rr, In rr (default [] (routed !! r)) -> owns r rr) ->
  partly (tables w) ->
  restore_in_order restore routed fk_order w acc total = (w', Ok res) ->
  partly (tables w') /\ keeps (tables w) (tables w') /\
  forall r rr, ~ side r -> In r fk_order -> In rr (default [] (routed !! r)) -> tables w' r (rr_pk rr) = before r (rr_pk rr).
Proof.
  intros Hlaw Hown. revert w acc total. induction fk_order as [|rel fk IH]; intros w acc total Hp; simpl.
  - intros [= <- <-]. by split_and!; [|intros ? ?|].
  - destruct (restore w rel _) as [w1 [n|e]] eqn:E; [|done]. intros Hrest.
    pose proof (Hlaw _ _ _ _ _ E) as Ht.
    destruct (restore_rows_partly rel (default [] (routed !! rel)) (tables w) Hp) as (Hp1 & Hk1 & Hb1).
    { apply List.Forall_forall. auto. }
    destruct (IH w1 (acc ++ [(rel, n)]) (sat_add total n)) as (Hp2 & Hk2 & Hb2); [|done|].
    { intros r pk Hs. rewrite Ht by done. by apply Hp1. }
    split_and!; [done| |].
    + intros r pk Hs Hb. apply Hk2; [done|]. rewrite Ht by done. by apply Hk1.
    + intros r rr Hs [<-|Hr] Hrr; [|by apply Hb2]. apply Hk2; [done|]. rewrite Ht by done. by apply Hb1.
Qed.
End undo.

(** ** Properties *)


(** A reference connection: the tables themselves, every call succeeding, with a trigger
    that notes the relation of every restored row in [public.audit]. *)
Record Triggered : Type := mkTriggered { rows_of : Db; audit_rows : list string }.

Definition triggered (kind : InverseKind) (w : Triggered) (rel : string) (rows : list RevertRow) :
    Triggered * result RevertError Z :=
  (mkTriggered (restore_rows kind rel (rows_of w) rows) (audit_rows w ++ map (fun _ => rel) rows), Ok (Z.of_nat (length rows))).

#[global] Instance Triggered_conn : RevertConn Triggered := {|
  revert_begin := fun w => (w, Ok tt);
  restore_update := triggered PreimageUpsert;
  restore_insert := triggered InsertRows;
  revert_commit := fun w => (w, Ok tt);
  revert_rollback := fun w => (w, Ok tt)
|}.

Definition audited (r : string) : Prop := r = "public.audit"%string.

Definition triggered_tables (w : Triggered) : Db := fun r pk =>
  if decide (r = "public.audit"%string) then
    match tuple_values pk with
    | [Int n] => (fun rel => {["relation"%string := Text rel]}) <$> (audit_rows w !! Z.to_nat n)
    | _ => None
    end
  else rows_of w r pk.

Lemma restore_rows_at kind rel rows (d d' : Db) r :
  (forall pk, d r pk = d' r pk) -> forall pk, restore_rows kind rel d rows r pk = restore_rows kind rel d' rows r pk.
Proof.
  revert d d'. induction rows as [|rr rows IH]; intros d d' Hd; simpl; [done|]. apply IH. intros pk. unfold put_row. by rewrite Hd.
Qed.

#[global, refine] Instance Triggered_laws : RevertConnLaws Triggered audited := {| tables := triggered_tables |}.
Proof.
  all: simpl; unfold triggered; intros; simplify_eq; try done.
  all: unfold triggered_tables at 1; rewrite decide_False by done; simpl; apply restore_rows_at; intros pk'.
  all: unfold triggered_tables; by rewrite decide_False.
Defined.

(** Row 7 of [public.t], with a child that the DELETE cascaded to. *)
Definition child_row : CapturedRow := mkCaptured (tuple_single (Int 70)) [("id"%string, Int 70); ("parent"%string, Int 7)].
Definition demo_forward : ForwardResult := mkForward [row_of 7] {["public.child" := [child_row]]} [].
Definition demo_predicted : PredictedBlastRadius := mkPredicted [("public.child", "bb")]%string ∅.
Definition demo_before : Db := fun r pk =>
  if decide (r = "public.t"%string /\ pk = c_pk (row_of 7)) then Some (row_map (c_before_image (row_of 7)))
  else if decide (r = "public.child"%string /\ pk = c_pk child_row) then Some (row_map (c_before_image child_row))
  else None.

Lemma demo_captured r row :
  captured_in "public.t" demo_predicted demo_forward r row ->
  r = "public.t"%string /\ row = row_of 7 \/ r = "public.child"%string /\ row = child_row.
Proof.
  intros [[-> [<-|[]]]|[[<-|[]] Hin]]; [by left|right]. unfold cascade_rows in Hin. simpl in Hin.
  rewrite lookup_singleton_eq in Hin. destruct Hin as [<-|[]]. done.
Qed.

Definition demo_after : Triggered := mkTriggered (fun _ _ => None) [].

Lemma demo_written : written_over audited WDelete "public.t" demo_predicted demo_forward demo_before (triggered_tables demo_after).
Proof.
  intros r pk Hs. unfold triggered_tables. rewrite decide_False by done. split.
  - intros row [[-> ->]|[-> ->]]%demo_captured <-; simpl; unfold demo_before; rewrite ?decide_True by done; [done|].
    rewrite decide_False by naive_solver. done.
  - intros Hno. unfold demo_before. rewrite !decide_False; [done|..]; intros [-> ->].
    + apply (Hno child_row); [|done]. right. split; [by left|]. unfold cascade_rows. simpl.
      rewrite lookup_singleton_eq. by left.
    + apply (Hno (row_of 7)); [|done]. left. split; [done|by left].
Qed.


End Revert.
