(* ===== verification/Wire.v ===== *)
(** * Wire: buffers and framing of the PostgreSQL v3 protocol

    Models [src/crates/pgwire/src/error.rs], [buf.rs] (the panic-free field readers and
    writers) and [codec.rs] (length-prefixed framing).  A byte stream is the list of
    bytes still to be read; the asynchronous reads of [codec.rs] run on a stream whose
    remaining bytes are given, so a short read is the end of that stream. *)

From S2P Require Import Prelude.

Module Wire.

Inductive ProtocolError : Type :=
| Io                       (* UnexpectedEof is the only transport error of the model *)
| InvalidLength (len : Z)
| Malformed (what : string)
| UnterminatedCString
| InvalidUtf8
| UnknownTag (tag : byte).

#[global] Instance ProtocolError_eq_dec : EqDecision ProtocolError.
Proof. solve_decision. Defined.

(** ** UTF-8 validation ([String::from_utf8]) *)

Definition between (lo hi : Z) (b : byte) : bool := (lo <=? Z_of_byte b) && (Z_of_byte b <=? hi).
Definition continuation (b : byte) : bool := between 128 191 b.

(** The well-formed byte sequences of the Unicode standard: shortest forms only, no
    surrogates, nothing above U+10FFFF. *)
Definition second_of_three (b0 b1 : byte) : bool :=
  if Z_of_byte b0 =? 224 then between 160 191 b1
  else if Z_of_byte b0 =? 237 then between 128 159 b1
  else continuation b1.

Definition second_of_four (b0 b1 : byte) : bool :=
  if Z_of_byte b0 =? 240 then between 144 191 b1
  else if Z_of_byte b0 =? 244 then between 128 143 b1
  else continuation b1.

Fixpoint utf8_valid (l : list byte) : bool :=
  match l with
  | [] => true
  | b0 :: l1 =>
      if Z_of_byte b0 <=? 127 then utf8_valid l1
      else if between 194 223 b0 then
        match l1 with
        | b1 :: l2 => continuation b1 && utf8_valid l2
        | _ => false
        end
      else if between 224 239 b0 then
        match l1 with
        | b1 :: b2 :: l3 => second_of_three b0 b1 && continuation b2 && utf8_valid l3
        | _ => false
        end
      else if between 240 244 b0 then
        match l1 with
        | b1 :: b2 :: b3 :: l4 =>
            second_of_four b0 b1 && continuation b2 && continuation b3 && utf8_valid l4
        | _ => false
        end
      else false
  end.

Definition from_utf8 (l : list byte) : result ProtocolError string :=
  if utf8_valid l then Ok (of_bytes l) else Err InvalidUtf8.

(** ** [BufReader]: a cursor over the remaining bytes of one message body *)

Definition reader (A : Type) : Type := list byte -> result ProtocolError (A * list byte).

Definition rret {A} (a : A) : reader A := fun l => Ok (a, l).
Definition rfail {A} (e : ProtocolError) : reader A := fun _ => Err e.
Definition rbind {A B} (m : reader A) (k : A -> reader B) : reader B :=
  fun l => match m l with Ok (a, l') => k a l' | Err e => Err e end.

Notation "'let!' x ':=' m 'in' k" := (rbind m (fun x => k))
  (at level 10, x pattern, m at level 100, k at level 200) : rust_scope.

Definition remaining : reader nat := fun l => Ok (length l, l).

Definition ensure (n : nat) : reader unit := fun l =>
  if decide (length l < n)%nat then Err (Malformed "unexpected end of message") else Ok (tt, l).

(** [Bytes::split_to]: the first [n] bytes (the callers have ensured they are there). *)
Definition split_to (n : nat) : reader (list byte) := fun l => Ok (take n l, drop n l).

Definition get_bytes (n : nat) : reader (list byte) := let! _ := ensure n in split_to n.

Definition get_u8 : reader byte :=
  let! bs := get_bytes 1 in rret (hd x00 bs).

Definition get_i16 : reader Z := let! bs := get_bytes 2 in rret (to_signed 16 (be_val bs)).
Definition get_i32 : reader Z := let! bs := get_bytes 4 in rret (to_signed 32 (be_val bs)).

Definition rest : reader (list byte) := fun l => Ok (l, []).

(** The bytes before the first NUL, and those after it. *)
Fixpoint split_nul (l : list byte) : option (list byte * list byte) :=
  match l with
  | [] => None
  | b :: l => if decide (b = x00) then Some ([], l)
              else match split_nul l with Some (s, r) => Some (b :: s, r) | None => None end
  end.

Definition get_cstr_bytes : reader (list byte) := fun l =>
  match split_nul l with Some (s, r) => Ok (s, r) | None => Err UnterminatedCString end.

Definition get_cstr : reader string :=
  let! bytes := get_cstr_bytes in
  fun l => match from_utf8 bytes with Ok s => Ok (s, l) | Err e => Err e end.

(** [for _ in 0..n { v.push(get()?) }] *)
Fixpoint get_n {A} (n : nat) (get : reader A) : reader (list A) :=
  match n with
  | O => rret []
  | S n => let! x := get in let! xs := get_n n get in rret (x :: xs)
  end.

(** ** [BufWriter]: what each call appends *)

Definition put_u8 (b : byte) : list byte := [b].
Definition put_i16 (v : Z) : list byte := be_bytes 2 v.
Definition put_i32 (v : Z) : list byte := be_bytes 4 v.
Definition put_cstr (s : string) : list byte := as_bytes s ++ [x00].

(** ** [codec]: frames *)

Definition MAX_FRAME_LEN : Z := 2 ^ 30.

Record RawFrame : Type := mkRawFrame { frame_tag : byte; frame_body : list byte }.

(** The range test reads the bound [as i32]. *)
Definition checked_body_len (len : Z) : result ProtocolError nat :=
  if (4 <=? len) && (len <=? wrap_s 32 MAX_FRAME_LEN) then Ok (Z.to_nat (len - 4))
  else Err (InvalidLength len).

(** [AsyncReadExt::read_exact]: end of stream inside the read is an error. *)
Definition read_exact (n : nat) : reader (list byte) := fun l =>
  if decide (length l < n)%nat then Err Io else Ok (take n l, drop n l).

Definition stream_read_i32 : reader Z := let! bs := read_exact 4 in rret (to_signed 32 (be_val bs)).

Definition read_startup_body : reader (list byte) :=
  let! len := stream_read_i32 in
  match checked_body_len len with
  | Ok body_len => read_exact body_len
  | Err e => rfail e
  end.

(** End of stream before the first byte is [Ok(None)]. *)
Definition read_tagged_frame : reader (option RawFrame) := fun l =>
  match l with
  | [] => Ok (None, [])
  | tag :: l =>
      (let! len := stream_read_i32 in
       match checked_body_len len with
       | Ok body_len => let! body := read_exact body_len in rret (Some (mkRawFrame tag body))
       | Err e => rfail e
       end) l
  end.

(** [write_frame]: [write_all] appends the frame to what the peer has been sent. *)
Definition write_frame (sent frame : list byte) : list byte := sent ++ frame.

(** [tag | i32(4 + len) | body], and the untagged form of the start-up phase. *)
Definition frame_tagged (tag : byte) (body : list byte) : list byte :=
  put_u8 tag ++ put_i32 (wrap_s 32 (4 + Z.of_nat (length body))) ++ body.
Definition frame_untagged (body : list byte) : list byte :=
  put_i32 (wrap_s 32 (4 + Z.of_nat (length body))) ++ body.

(** ** What the readers make of what the writers wrote *)

(** A string the protocol can carry: valid UTF-8 (as every Rust [String] is) and
    without an embedded NUL. *)
Definition cstr_ok (s : string) : bool :=
  utf8_valid (as_bytes s) && bool_decide (x00 ∉ as_bytes s).

Lemma rbind_ok {A B} (m : reader A) (k : A -> reader B) l a l' :
  m l = Ok (a, l') -> rbind m k l = k a l'.
Proof. unfold rbind. by intros ->. Qed.

Lemma rbind_inv {A B} (m : reader A) (k : A -> reader B) l b l' :
  rbind m k l = Ok (b, l') -> exists a l1, m l = Ok (a, l1) /\ k a l1 = Ok (b, l').
Proof. unfold rbind. destruct (m l) as [[a l1]|]; [|done]. eauto. Qed.

Lemma rret_eq {A} (a : A) l : rret a l = Ok (a, l).
Proof. done. Qed.

Lemma get_bytes_app n s r : length s = n -> get_bytes n (s ++ r) = Ok (s, r).
Proof.
  intros <-. unfold get_bytes, ensure, rbind, split_to. rewrite length_app.
  rewrite decide_False by lia. by rewrite take_app_length, drop_app_length.
Qed.

Lemma get_u8_put b r : get_u8 (put_u8 b ++ r) = Ok (b, r).
Proof. unfold get_u8. erewrite rbind_ok; [|by apply get_bytes_app]. done. Qed.

Lemma get_i16_put v r : in_s 16 v -> get_i16 (put_i16 v ++ r) = Ok (v, r).
Proof.
  intros H. unfold get_i16, put_i16.
  erewrite rbind_ok; [|by apply get_bytes_app, be_bytes_length].
  unfold rret. do 2 f_equal. by apply (to_signed_bytes 2); [lia|].
Qed.

Lemma get_i32_put v r : in_s 32 v -> get_i32 (put_i32 v ++ r) = Ok (v, r).
Proof.
  intros H. unfold get_i32, put_i32.
  erewrite rbind_ok; [|by apply get_bytes_app, be_bytes_length].
  unfold rret. do 2 f_equal. by apply (to_signed_bytes 4); [lia|].
Qed.

(** The length that stands for "absent". *)
Lemma get_i32_minus_one r : get_i32 (put_i32 (-1) ++ r) = Ok (-1, r).
Proof. apply get_i32_put. by_decide. Qed.

Lemma split_nul_app s r : x00 ∉ s -> split_nul (s ++ x00 :: r) = Some (s, r).
Proof.
  induction s as [|b s IH]; simpl; [done|].
  intros [Hb Hs]%not_elem_of_cons. rewrite decide_False by done. by rewrite IH.
Qed.

Lemma split_nul_Some l s r : split_nul l = Some (s, r) -> l = s ++ x00 :: r /\ x00 ∉ s.
Proof.
  revert s. induction l as [|b l IH]; intros s; simpl; [done|].
  case_decide as Hb; [intros [= <- <-]; subst; split; [done|apply not_elem_of_nil]|].
  destruct (split_nul l) as [[s' r']|]; [|done]. intros [= <- <-].
  destruct (IH s' eq_refl) as [-> Hs]. split; [done|]. by apply not_elem_of_cons.
Qed.

Lemma get_cstr_put s r : cstr_ok s -> get_cstr (put_cstr s ++ r) = Ok (s, r).
Proof.
  unfold cstr_ok. intros [Hu Hn%bool_decide_unpack]%andb_True.
  unfold get_cstr, put_cstr, rbind, get_cstr_bytes. rewrite <- app_assoc. simpl.
  rewrite split_nul_app by done. unfold from_utf8. apply Is_true_true in Hu. rewrite Hu.
  by rewrite of_as_bytes.
Qed.

Lemma get_cstr_Ok l s r : get_cstr l = Ok (s, r) -> cstr_ok s /\ l = put_cstr s ++ r.
Proof.
  unfold get_cstr, rbind, get_cstr_bytes, from_utf8.
  destruct (split_nul l) as [[b r']|] eqn:E; [|done].
  apply split_nul_Some in E as [-> Hn].
  destruct (utf8_valid b) eqn:Hu; [|done]. intros [= <- <-].
  unfold cstr_ok, put_cstr. rewrite as_of_bytes, Hu, <- app_assoc. split; [|done].
  simpl. by apply bool_decide_pack.
Qed.

Lemma get_n_put {A} (get : reader A) (put : A -> list byte) xs r :
  Forall (fun x => forall r, get (put x ++ r) = Ok (x, r)) xs ->
  get_n (length xs) get (concat (map put xs) ++ r) = Ok (xs, r).
Proof.
  induction 1 as [|x xs Hx _ IH]; simpl; [done|].
  rewrite <- app_assoc. erewrite rbind_ok; [|apply Hx]. erewrite rbind_ok; [|apply IH]. done.
Qed.

#[export] Hint Resolve get_u8_put get_i16_put get_i32_put get_i32_minus_one get_cstr_put : wire.

(** Runs a reader over the written fields it expects. *)
Ltac wire_step := rewrite <- ?app_assoc; erewrite rbind_ok; [|solve [eauto with wire nocore]].
Ltac wire_run := repeat wire_step.

(** ... and the converse: what a successful field read says about the bytes. *)

Lemma get_bytes_Ok n l s r : get_bytes n l = Ok (s, r) -> l = s ++ r /\ length s = n.
Proof.
  unfold get_bytes, ensure, rbind, split_to. case_decide; [done|].
  intros [= <- <-]. rewrite take_drop, length_take. split; [done|lia].
Qed.

Lemma get_u8_Ok l b r : get_u8 l = Ok (b, r) -> l = put_u8 b ++ r.
Proof.
  intros (s & l1 & Hs & [= <- <-])%rbind_inv. apply get_bytes_Ok in Hs as [-> Hl].
  by destruct s as [|? []].
Qed.

Lemma be_bytes_to_signed n s :
  (0 < n)%nat -> length s = n ->
  be_bytes n (to_signed (8 * Z.of_nat n) (be_val s)) = s /\
  in_s (8 * Z.of_nat n) (to_signed (8 * Z.of_nat n) (be_val s)).
Proof.
  intros Hn Hl. pose proof (le_val_range (rev s)) as Hv. rewrite length_rev, Hl in Hv.
  change 256 with (2 ^ 8) in Hv. rewrite <- Z.pow_mul_r in Hv by lia.
  change (le_val (rev s)) with (be_val s) in Hv. set (w := 8 * Z.of_nat n) in *.
  assert (2 ^ w = 2 * 2 ^ (w - 1)) as E
    by (rewrite <- Z.pow_succ_r by lia; f_equal; lia).
  split.
  - unfold be_bytes. rewrite <- (rev_involutive s) at 2. f_equal.
    rewrite <- (le_bytes_val (rev s)), length_rev, Hl. apply le_bytes_mod. fold w.
    change (le_val (rev s)) with (be_val s). unfold to_signed. destruct (_ <? _); [done|].
    rewrite <- (Z.mod_add _ 1) by lia. f_equal. lia.
  - unfold in_s, to_signed. destruct (Z.ltb_spec (be_val s) (2 ^ (w - 1))); lia.
Qed.

Lemma get_i16_Ok l v r : get_i16 l = Ok (v, r) -> l = put_i16 v ++ r /\ in_s 16 v.
Proof.
  intros (s & l1 & Hs & [= <- <-])%rbind_inv. apply get_bytes_Ok in Hs as [-> Hl].
  destruct (be_bytes_to_signed 2 s) as [E1 E2]; [lia|done|].
  change (8 * Z.of_nat 2) with 16 in *. unfold put_i16. by rewrite E1.
Qed.

Lemma get_i32_Ok l v r : get_i32 l = Ok (v, r) -> l = put_i32 v ++ r /\ in_s 32 v.
Proof.
  intros (s & l1 & Hs & [= <- <-])%rbind_inv. apply get_bytes_Ok in Hs as [-> Hl].
  destruct (be_bytes_to_signed 4 s) as [E1 E2]; [lia|done|].
  change (8 * Z.of_nat 4) with 32 in *. unfold put_i32. by rewrite E1.
Qed.

Lemma get_n_Ok {A} (get : reader A) (put : A -> list byte) (P : A -> Prop) n l xs r :
  (forall l x r, get l = Ok (x, r) -> l = put x ++ r /\ P x) ->
  get_n n get l = Ok (xs, r) ->
  l = concat (map put xs) ++ r /\ length xs = n /\ Forall P xs.
Proof.
  intros Hget. revert l xs. induction n as [|n IH]; intros l xs.
  - intros [= <- <-]. repeat split. constructor.
  - intros (x & l1 & Hx & (xs' & l2 & Hxs & [= <- <-])%rbind_inv)%rbind_inv.
    apply Hget in Hx as [-> Hp]. apply IH in Hxs as (-> & <- & Hall). simpl.
    rewrite <- app_assoc. repeat split. by constructor.
Qed.

(** ** Terminated lists: [loop { … break … }] *)

(** One iteration either ends the loop ([None]) or yields an element.  The loop runs on
    fuel one more than the bytes left: every iteration that goes on consumes a byte.
    Running out of fuel is [Io], which no field reader returns. *)
Fixpoint get_loop {A} (fuel : nat) (step : reader (option A)) : reader (list A) :=
  match fuel with
  | O => rfail Io
  | S fuel =>
      let! o := step in
      match o with
      | None => rret []
      | Some a => let! xs := get_loop fuel step in rret (a :: xs)
      end
  end.

Definition loop {A} (step : reader (option A)) : reader (list A) :=
  fun l => get_loop (S (length l)) step l.

Definition makes_progress {A} (step : reader (option A)) : Prop :=
  forall l a l', step l = Ok (Some a, l') -> (length l' < length l)%nat.

Lemma loop_never_out_of_fuel {A} (step : reader (option A)) l :
  makes_progress step -> (forall l, step l <> Err Io) -> loop step l <> Err Io.
Proof.
  intros Hp Hio. unfold loop.
  enough (forall fuel l, (length l < fuel)%nat -> get_loop fuel step l <> Err Io) as H
    by (apply H; lia).
  clear l. induction fuel as [|fuel IH]; intros l Hl; [lia|]. simpl. unfold rbind at 1.
  destruct (step l) as [[[a|] l']|e] eqn:E; [|done|].
  - apply Hp in E. unfold rbind. specialize (IH l' ltac:(lia)).
    destruct (get_loop fuel step l') as [[? ?]|e]; [done|congruence].
  - intros [= ->]. by apply (Hio l).
Qed.

Lemma loop_put {A} (step : reader (option A)) (put : A -> list byte) (term : list byte) xs r :
  (forall x, put x <> []) ->
  Forall (fun x => forall r, step (put x ++ r) = Ok (Some x, r)) xs ->
  (forall r, step (term ++ r) = Ok (None, r)) ->
  loop step (concat (map put xs) ++ term ++ r) = Ok (xs, r).
Proof.
  intros Hne Hxs Ht. unfold loop.
  enough (forall fuel, (length xs < fuel)%nat ->
            get_loop fuel step (concat (map put xs) ++ term ++ r) = Ok (xs, r)) as H.
  { apply H. rewrite length_app.
    enough (length xs <= length (concat (map put xs)))%nat by lia. clear -Hne.
    induction xs as [|x xs IH]; simpl; [lia|]. rewrite length_app.
    specialize (Hne x). destruct (put x); simpl in *; [done|lia]. }
  induction Hxs as [|x xs Hx _ IH]; intros [|fuel] Hf; simpl in *; try lia.
  - erewrite rbind_ok; [|apply Ht]. done.
  - rewrite <- app_assoc. erewrite rbind_ok; [|apply Hx]. simpl.
    erewrite rbind_ok; [|apply IH; lia]. done.
Qed.

Lemma loop_Ok {A} (step : reader (option A)) (put : A -> list byte) (term : list byte)
    (P : A -> Prop) l xs r :
  (forall l x r, step l = Ok (Some x, r) -> l = put x ++ r /\ P x) ->
  (forall l r, step l = Ok (None, r) -> l = term ++ r) ->
  loop step l = Ok (xs, r) -> l = concat (map put xs) ++ term ++ r /\ Forall P xs.
Proof.
  intros Hs Ht. unfold loop. generalize (S (length l)). intros fuel. revert l xs.
  induction fuel as [|fuel IH]; intros l xs; [done|].
  simpl. intros ([x|] & l1 & Hstep & H)%rbind_inv.
  - apply rbind_inv in H as (xs' & l2 & Hl & [= <- <-]).
    apply Hs in Hstep as [-> Hp]. apply IH in Hl as [-> Hall]. simpl.
    rewrite <- app_assoc. split; [done|by constructor].
  - injection H as <- <-. apply Ht in Hstep as ->. split; [done|constructor].
Qed.

(** ** Framing *)

Lemma read_exact_app s r : read_exact (length s) (s ++ r) = Ok (s, r).
Proof.
  unfold read_exact. rewrite length_app, decide_False by lia.
  by rewrite take_app_length, drop_app_length.
Qed.

(** The bodies a frame can carry. *)
Definition body_fits (body : list byte) : Prop := Z.of_nat (length body) <= MAX_FRAME_LEN - 4.

#[global] Instance body_fits_dec body : Decision (body_fits body).
Proof. apply _. Defined.

Lemma read_len_body body r :
  body_fits body ->
  stream_read_i32 (put_i32 (wrap_s 32 (4 + Z.of_nat (length body))) ++ r) =
    Ok (4 + Z.of_nat (length body), r) /\
  checked_body_len (4 + Z.of_nat (length body)) = Ok (length body).
Proof.
  unfold body_fits, MAX_FRAME_LEN. intros H.
  assert (in_s 32 (4 + Z.of_nat (length body))) as Hs by (unfold in_s; simpl; lia).
  rewrite wrap_s_id by (done || lia). split.
  - unfold stream_read_i32, put_i32. erewrite rbind_ok.
    2:{ rewrite <- (be_bytes_length 4 (4 + Z.of_nat (length body))) at 1. apply read_exact_app. }
    unfold rret. do 2 f_equal. by apply (to_signed_bytes 4); [lia|].
  - unfold checked_body_len. change (wrap_s 32 MAX_FRAME_LEN) with (2 ^ 30).
    destruct (Z.leb_spec 4 (4 + Z.of_nat (length body))); [|lia].
    destruct (Z.leb_spec (4 + Z.of_nat (length body)) (2 ^ 30)); [|lia].
    simpl. f_equal. lia.
Qed.

Lemma read_frame_tagged tag body r :
  body_fits body ->
  read_tagged_frame (frame_tagged tag body ++ r) = Ok (Some (mkRawFrame tag body), r).
Proof.
  intros H. destruct (read_len_body body (body ++ r) H) as [H1 H2].
  unfold frame_tagged, put_u8. rewrite <- !app_assoc. unfold read_tagged_frame at 1. cbn [app].
  erewrite rbind_ok; [|exact H1]. rewrite H2. erewrite rbind_ok; [|apply read_exact_app]. done.
Qed.

Lemma read_frame_untagged body r :
  body_fits body -> read_startup_body (frame_untagged body ++ r) = Ok (body, r).
Proof.
  intros H. destruct (read_len_body body (body ++ r) H) as [H1 H2].
  unfold frame_untagged, read_startup_body. rewrite <- app_assoc.
  erewrite rbind_ok; [|exact H1]. rewrite H2. apply read_exact_app.
Qed.

(** Framing is exact.  A successful read of a tagged frame from a non-empty stream
    consumed precisely the encoding of that frame: the stream was its tag, its
    length (within the one-gigabyte bound) and its body followed by what is left.
    Conversely (see the round trips) every such encoding is read back. *)
Theorem read_tagged_frame_exact (l r : list byte) (f : RawFrame) :
  read_tagged_frame l = Ok (Some f, r) ->
  l = frame_tagged (frame_tag f) (frame_body f) ++ r /\ body_fits (frame_body f).
Proof.
  destruct l as [|tag l]; [done|]. cbn [read_tagged_frame].
  intros (len & l1 & H1 & H2)%rbind_inv.
  unfold stream_read_i32 in H1. apply rbind_inv in H1 as (bs & l2 & Hr & [= <- <-]).
  unfold read_exact in Hr. case_decide as Hl; [done|]. injection Hr as <- <-.
  set (h := take 4 l) in *.
  assert (length h = 4%nat) as Hh by (unfold h; rewrite length_take; lia).
  unfold checked_body_len in H2. change (wrap_s 32 MAX_FRAME_LEN) with (2 ^ 30) in H2.
  destruct (Z.leb_spec 4 (to_signed 32 (be_val h))) as [Hlo|]; [|done].
  destruct (Z.leb_spec (to_signed 32 (be_val h)) (2 ^ 30)) as [Hhi|]; [|done]. simpl in H2.
  apply rbind_inv in H2 as (body & l3 & Hb & [= <- <-]).
  unfold read_exact in Hb. case_decide as Hl2; [done|]. injection Hb as Hbody Hr'.
  cbn [frame_tag frame_body].
  assert (Z.of_nat (length body) = to_signed 32 (be_val h) - 4) as Hlen
    by (rewrite <- Hbody, length_take; lia).
  assert (0 <= be_val h < 2 ^ 32) as Hrange.
  { unfold be_val. pose proof (le_val_range (rev h)) as Hv.
    rewrite length_rev, Hh in Hv. exact Hv. }
  assert (be_val h = 4 + Z.of_nat (length body)) as Hbe.
  { rewrite Hlen. unfold to_signed in *. destruct (be_val h <? 2 ^ (32 - 1)) eqn:Ec; [lia|].
    exfalso. change (2 ^ (32 - 1)) with 2147483648 in *. apply Z.ltb_ge in Ec. lia. }
  split; [|unfold body_fits, MAX_FRAME_LEN; lia].
  unfold frame_tagged, put_u8. rewrite wrap_s_id; [|lia|unfold in_s; simpl; lia].
  rewrite <- app_assoc. cbn [app]. f_equal. rewrite <- Hbe. unfold put_i32, be_bytes, be_val.
  rewrite <- Hh at 1. rewrite <- length_rev, le_bytes_val, rev_involutive, <- ?app_assoc.
  rewrite <- Hbody, <- Hr'. unfold h. by rewrite !take_drop.
Qed.

Lemma read_tagged_frame_exact_witness :
  [x5a; x00; x00; x00; x05; x49; x5a] = frame_tagged x5a [x49] ++ [x5a] /\ body_fits [x49].
Proof.
  apply (read_tagged_frame_exact _ [x5a] (mkRawFrame x5a [x49])). vm_compute. reflexivity.
Defined.

(** A frame cut anywhere but at its start is a hard error, never a clean end of
    stream and never a frame: fail-closed on truncation. *)
Theorem read_tagged_frame_truncated (tag : byte) (body : list byte) (n : nat) :
  body_fits body -> (0 < n < length (frame_tagged tag body))%nat ->
  read_tagged_frame (take n (frame_tagged tag body)) = Err Io.
Proof.
  intros H [Hn Hlt].
  destruct n as [|n]; [lia|]. unfold frame_tagged, put_u8 in *. rewrite <- app_comm_cons in *.
  rewrite app_nil_l in *. cbn [take]. cbn [length] in Hlt.
  unfold read_tagged_frame.
  set (hdr := put_i32 (wrap_s 32 (4 + Z.of_nat (length body)))) in *.
  assert (length hdr = 4%nat) as Hh by apply be_bytes_length.
  rewrite length_app in Hlt. rewrite take_app.
  destruct (decide (n < 4)%nat) as [Hs|Hs].
  - unfold stream_read_i32, rbind. unfold read_exact at 1.
    rewrite decide_True by (rewrite length_app, !length_take, Hh; lia). done.
  - rewrite (take_ge hdr) by lia.
    destruct (read_len_body body (take (n - length hdr) body) H) as [H1 H2].
    fold hdr in H1. erewrite rbind_ok; [|exact H1]. rewrite H2.
    unfold rbind, read_exact. rewrite decide_True by (rewrite length_take; lia). done.
Qed.

Lemma read_tagged_frame_truncated_witness :
  read_tagged_frame (take 5 (frame_tagged x5a [x49])) = Err Io.
Proof. apply read_tagged_frame_truncated; [by_decide|vm_compute; lia]. Defined.

End Wire.
