(* ===== verification/Frontend.v ===== *)
(** * Frontend: client messages, SASL bodies and the frame-rejection detector

    Models [src/crates/pgwire/src/frontend.rs] (start-up, SSL and tagged frontend
    messages), the frontend half of [scram.rs] ([SASLInitialResponse], [SASLResponse])
    and [detector.rs].  Strings are byte strings; a Rust [String] is valid UTF-8, which
    the round trips take as the hypothesis [cstr_ok] together with the absence of NUL. *)

From S2P Require Import Prelude Wire.

Module Frontend.
Import Wire.

Definition PROTOCOL_VERSION_3 : Z := 196608.
Definition SSL_REQUEST_CODE : Z := 80877103.
Definition CANCEL_REQUEST_CODE : Z := 80877102.

(** ** Start-up phase *)

Record StartupMessage : Type := mkStartup {
  protocol_version : Z;
  parameters : list (string * string)
}.

Definition put_param (p : string * string) : list byte := put_cstr p.1 ++ put_cstr p.2.

Definition startup_encode (m : StartupMessage) : list byte :=
  frame_untagged
    (put_i32 (protocol_version m) ++ concat (map put_param (parameters m)) ++ put_u8 x00).

Definition param_step : reader (option (string * string)) :=
  let! bytes_left := remaining in
  if decide (bytes_left = 0)%nat then rfail (Malformed "StartupMessage: missing list terminator")
  else
    let! key := get_cstr in
    if decide (key = EmptyString) then rret None
    else let! value := get_cstr in rret (Some (key, value)).

Definition startup_decode_body (body : list byte) : result ProtocolError StartupMessage :=
  let? (m, _) :=
    (let! version := get_i32 in
     let! params := loop param_step in
     rret (mkStartup version params)) body in
  Ok m.

Definition ssl_encode : list byte := be_bytes 4 8 ++ be_bytes 4 SSL_REQUEST_CODE.

Definition ssl_decode_body (body : list byte) : result ProtocolError unit :=
  let? (code, _) := get_i32 body in
  if code =? SSL_REQUEST_CODE then Ok tt else Err (Malformed "SSLRequest: bad magic code").

(** ** SASL bodies of the 'p' frame *)

Record SaslInitialResponse : Type := mkSaslInitial {
  mechanism : string;
  initial_response : option (list byte)
}.

(** [data.len() as i32] *)
Definition put_len_i32 (data : list byte) : list byte := put_i32 (wrap_s 32 (Z.of_nat (length data))).

Definition sasl_initial_encode_body (m : SaslInitialResponse) : list byte :=
  put_cstr (mechanism m) ++
  match initial_response m with
  | Some data => put_len_i32 data ++ data
  | None => put_i32 (-1)
  end.

Definition sasl_initial_decode : reader SaslInitialResponse :=
  let! mech := get_cstr in
  let! len := get_i32 in
  if len <? 0 then rret (mkSaslInitial mech None)
  else let! data := get_bytes (Z.to_nat len) in rret (mkSaslInitial mech (Some data)).

Definition sasl_initial_decode_body_from (body : list byte) : result ProtocolError SaslInitialResponse :=
  let? (m, _) := sasl_initial_decode body in Ok m.

Record SaslResponse : Type := mkSaslResponse { sasl_data : list byte }.

Definition sasl_response_encode_body (m : SaslResponse) : list byte := sasl_data m.
Definition sasl_response_decode_body_from (body : list byte) : result ProtocolError SaslResponse :=
  let? (data, _) := rest body in Ok (mkSaslResponse data).

(** ** Tagged messages *)

Inductive TargetKind : Type := Statement | Portal.

Definition target_tag (k : TargetKind) : byte :=
  match k with Statement => "S"%byte | Portal => "P"%byte end.

Definition target_from_tag (b : byte) : reader TargetKind :=
  match b with
  | "S"%byte => rret Statement
  | "P"%byte => rret Portal
  | _ => rfail (Malformed "bad Describe/Close target kind")
  end.

Inductive FrontendMessage : Type :=
| Query (sql : string)
| Parse (statement sql : string) (param_types : list Z)
| Bind (portal statement : string) (rest : list byte)
| Describe (kind : TargetKind) (name : string)
| Execute (portal : string) (max_rows : Z)
| Sync
| Flush
| Close (kind : TargetKind) (name : string)
| Terminate
| SaslInitial (m : SaslInitialResponse)
| SaslResp (m : SaslResponse)
| PasswordMessage (password : string)
| CopyData (data : list byte)
| CopyDone
| CopyFail (message : string).

Definition tag (m : FrontendMessage) : byte :=
  match m with
  | Query _ => "Q"%byte
  | Parse _ _ _ => "P"%byte
  | Bind _ _ _ => "B"%byte
  | Describe _ _ => "D"%byte
  | Execute _ _ => "E"%byte
  | Sync => "S"%byte
  | Flush => "H"%byte
  | Close _ _ => "C"%byte
  | Terminate => "X"%byte
  | SaslInitial _ | SaslResp _ | PasswordMessage _ => "p"%byte
  | CopyData _ => "d"%byte
  | CopyDone => "c"%byte
  | CopyFail _ => "f"%byte
  end.

(** [v.len() as i16] *)
Definition put_len_i16 {A} (l : list A) : list byte := put_i16 (wrap_s 16 (Z.of_nat (length l))).

Definition encode_body (m : FrontendMessage) : list byte :=
  match m with
  | Query sql => put_cstr sql
  | Parse statement sql param_types =>
      put_cstr statement ++ put_cstr sql ++ put_len_i16 param_types ++
      concat (map put_i32 param_types)
  | Bind portal statement rest => put_cstr portal ++ put_cstr statement ++ rest
  | Describe kind name => put_u8 (target_tag kind) ++ put_cstr name
  | Execute portal max_rows => put_cstr portal ++ put_i32 max_rows
  | Sync | Flush | Terminate => []
  | Close kind name => put_u8 (target_tag kind) ++ put_cstr name
  | SaslInitial m => sasl_initial_encode_body m
  | SaslResp m => sasl_response_encode_body m
  | PasswordMessage password => put_cstr password
  | CopyData data => data
  | CopyDone => []
  | CopyFail message => put_cstr message
  end.

Definition encode (m : FrontendMessage) : list byte := frame_tagged (tag m) (encode_body m).

Definition decode_reader (t : byte) : reader FrontendMessage :=
  match t with
  | "Q"%byte => let! sql := get_cstr in rret (Query sql)
  | "P"%byte =>
      let! statement := get_cstr in
      let! sql := get_cstr in
      let! n := get_i16 in
      if n <? 0 then rfail (Malformed "Parse: negative param count")
      else let! param_types := get_n (Z.to_nat n) get_i32 in
           rret (Parse statement sql param_types)
  | "B"%byte =>
      let! portal := get_cstr in
      let! statement := get_cstr in
      let! r := rest in
      rret (Bind portal statement r)
  | "D"%byte =>
      let! b := get_u8 in
      let! kind := target_from_tag b in
      let! name := get_cstr in
      rret (Describe kind name)
  | "E"%byte =>
      let! portal := get_cstr in
      let! max_rows := get_i32 in
      rret (Execute portal max_rows)
  | "S"%byte => rret Sync
  | "H"%byte => rret Flush
  | "C"%byte =>
      let! b := get_u8 in
      let! kind := target_from_tag b in
      let! name := get_cstr in
      rret (Close kind name)
  | "X"%byte => rret Terminate
  | "p"%byte => let! password := get_cstr in rret (PasswordMessage password)
  | "d"%byte => let! data := rest in rret (CopyData data)
  | "c"%byte => rret CopyDone
  | "f"%byte => let! message := get_cstr in rret (CopyFail message)
  | other => rfail (UnknownTag other)
  end.

(** The bytes the reader leaves over are dropped, as in the source. *)
Definition decode (t : byte) (body : list byte) : result ProtocolError FrontendMessage :=
  let? (m, _) := decode_reader t body in Ok m.

(** ** The detector *)

Inductive RejectReason : Type := SimpleQuery | Copy.

Definition classify_frontend_tag (t : byte) : result RejectReason unit :=
  match t with
  | "Q"%byte => Err SimpleQuery
  | "d"%byte | "c"%byte | "f"%byte => Err Copy
  | _ => Ok tt
  end.

Definition classify_frontend_frame (f : RawFrame) : result RejectReason unit :=
  classify_frontend_tag (frame_tag f).

Definition backend_starts_copy (f : RawFrame) : bool :=
  match frame_tag f with
  | "G"%byte | "H"%byte | "W"%byte => true
  | _ => false
  end.

(** ** Well-formed messages: what the wire can carry *)

Definition sasl_initial_ok (m : SaslInitialResponse) : bool :=
  cstr_ok (mechanism m) &&
  match initial_response m with
  | Some data => bool_decide (in_s 32 (Z.of_nat (length data)))
  | None => true
  end.

Definition message_ok (m : FrontendMessage) : bool :=
  match m with
  | Query s | PasswordMessage s | CopyFail s | Describe _ s | Close _ s => cstr_ok s
  | Parse a b ts => cstr_ok a && cstr_ok b && bool_decide (in_s 16 (Z.of_nat (length ts))) &&
                    forallb (fun t => bool_decide (in_s 32 t)) ts
  | Bind a b _ => cstr_ok a && cstr_ok b
  | Execute a n => cstr_ok a && bool_decide (in_s 32 n)
  | SaslInitial m => sasl_initial_ok m
  | Sync | Flush | Terminate | SaslResp _ | CopyData _ | CopyDone => true
  end.

Definition is_sasl (m : FrontendMessage) : bool :=
  match m with SaslInitial _ | SaslResp _ => true | _ => false end.

Definition startup_ok (m : StartupMessage) : bool :=
  bool_decide (in_s 32 (protocol_version m)) &&
  forallb (fun p => cstr_ok p.1 && cstr_ok p.2 && negb (bool_decide (p.1 = EmptyString)))
    (parameters m).

(** ** Lemmas *)

Lemma target_from_tag_put k r : target_from_tag (target_tag k) r = Ok (k, r).
Proof. by destruct k. Qed.

Lemma target_from_tag_Ok b l k r : target_from_tag b l = Ok (k, r) -> b = target_tag k /\ r = l.
Proof. destruct b; simpl; try done; by intros [= <- <-]. Qed.

Lemma rest_eq l : rest l = Ok (l, []).
Proof. done. Qed.

Lemma get_param_count (ts : list Z) r :
  in_s 16 (Z.of_nat (length ts)) ->
  get_i16 (put_len_i16 ts ++ r) = Ok (Z.of_nat (length ts), r).
Proof. intros H. unfold put_len_i16. rewrite wrap_s_id by (done || lia). by apply get_i16_put. Qed.

Lemma get_types_put ts r :
  forallb (fun t => bool_decide (in_s 32 t)) ts ->
  get_n (Z.to_nat (Z.of_nat (length ts))) get_i32 (concat (map put_i32 ts) ++ r) = Ok (ts, r).
Proof.
  intros H. rewrite Nat2Z.id. apply get_n_put. apply List.Forall_forall. intros t Ht r'.
  apply get_i32_put. apply Is_true_true in H. rewrite forallb_forall in H.
  by apply (bool_decide_eq_true_1 (in_s 32 t)), H.
Qed.

#[export] Hint Resolve target_from_tag_put rest_eq get_param_count get_types_put : wire.

Ltac split_ok := repeat match goal with
  | H : Is_true (_ && _) |- _ => apply andb_True in H as [? ?]
  | H : Is_true (bool_decide _) |- _ => apply bool_decide_unpack in H
  end.

Lemma decode_reader_encode m r :
  message_ok m -> is_sasl m = false ->
  (match m with Bind _ _ _ | CopyData _ => r = [] | _ => True end) ->
  decode_reader (tag m) (encode_body m ++ r) = Ok (m, r).
Proof.
  intros Hok Hs Hr. destruct m; try done; cbn [message_ok] in Hok; split_ok;
    cbn [tag encode_body decode_reader]; subst; rewrite ?app_nil_r; wire_run; try done.
  destruct (Z.ltb_spec (Z.of_nat (length param_types)) 0); [lia|]. by wire_run.
Qed.

(** The SASL bodies, decoded by the authentication state. *)
Lemma sasl_roundtrip m :
  sasl_initial_ok m -> sasl_initial_decode_body_from (sasl_initial_encode_body m) = Ok m.
Proof.
  unfold sasl_initial_ok, sasl_initial_decode_body_from, sasl_initial_encode_body.
  intros Hok. destruct m as [mech [data|]]; simpl in Hok; split_ok; cbn [mechanism initial_response];
    unfold sasl_initial_decode; wire_step.
  - unfold put_len_i32. rewrite wrap_s_id by (done || lia). wire_step.
    destruct (Z.ltb_spec (Z.of_nat (length data)) 0); [lia|].
    rewrite <- (app_nil_r data) at 2.
    erewrite rbind_ok; [|apply get_bytes_app; lia]. done.
  - rewrite <- (app_nil_r (put_i32 (-1))). by wire_step.
Qed.

(** C40: frontend round trip.  Any well-formed client message that fits a frame is read back
    from a stream: the framing layer returns its frame and leaves the rest of the stream
    untouched, and the frame decodes to the message.  A ['p'] tag alone does not tell a SASL
    body from a password, so the two SASL messages decode by the decoders the authentication
    uses, [SaslInitialResponse] and [SaslResponse]; every other by the decoder of tags. *)
Theorem frontend_roundtrip (m : FrontendMessage) (r : list byte) :
  message_ok m -> body_fits (encode_body m) ->
  read_tagged_frame (encode m ++ r) = Ok (Some (mkRawFrame (tag m) (encode_body m)), r) /\
  match m with
  | SaslInitial i => sasl_initial_decode_body_from (encode_body m) = Ok i
  | SaslResp p => sasl_response_decode_body_from (encode_body m) = Ok p
  | _ => decode (tag m) (encode_body m) = Ok m
  end.
Proof.
  intros Hok Hf. split; [by apply read_frame_tagged|].
  assert (is_sasl m = false -> decode (tag m) (encode_body m) = Ok m) as Hd.
  { intros Hs. unfold decode. rewrite <- (app_nil_r (encode_body m)).
    rewrite decode_reader_encode by (done || by destruct m). done. }
  destruct m as [| | | | | | | | |i|p| | | |]; try by apply Hd.
  - by apply sasl_roundtrip.
  - by destruct p.
Qed.

Definition sample_parse : FrontendMessage := Parse "s1" "SELECT $1" [23; -1].

Lemma frontend_roundtrip_witness :
  read_tagged_frame (encode sample_parse ++ [x53]) =
    Ok (Some (mkRawFrame (tag sample_parse) (encode_body sample_parse)), [x53]) /\
  decode (tag sample_parse) (encode_body sample_parse) = Ok sample_parse /\
  sasl_initial_decode_body_from (encode_body (SaslInitial (mkSaslInitial "SCRAM-SHA-256" None))) =
    Ok (mkSaslInitial "SCRAM-SHA-256" None).
Proof.
  destruct (frontend_roundtrip sample_parse [x53]) as [Hr Hd]; [vm_compute; exact I|by_decide|].
  destruct (frontend_roundtrip (SaslInitial (mkSaslInitial "SCRAM-SHA-256" None)) []) as [_ Hs]; [vm_compute; exact I|by_decide|].
  split; [exact Hr|]. split; [exact Hd|exact Hs].
Defined.

Lemma param_step_put p r :
  cstr_ok p.1 && cstr_ok p.2 && negb (bool_decide (p.1 = EmptyString)) ->
  param_step (put_param p ++ r) = Ok (Some p, r).
Proof.
  intros Hok. split_ok. destruct p as [k v]; simpl in *. unfold param_step, put_param; simpl.
  erewrite rbind_ok; [|done].
  rewrite decide_False by (unfold put_cstr; rewrite !length_app; simpl; lia).
  wire_step. rewrite decide_False.
  - by wire_step.
  - intros ->. match goal with H : Is_true (negb _) |- _ => by vm_compute in H end.
Qed.

Lemma param_step_end r : param_step (put_u8 x00 ++ r) = Ok (None, r).
Proof. done. Qed.

(** Start-up round trip: an untagged start-up packet with any list of named
    parameters is framed, read back and decoded to itself. *)
Theorem startup_roundtrip (m : StartupMessage) (r : list byte) :
  startup_ok m ->
  let body := put_i32 (protocol_version m) ++ concat (map put_param (parameters m)) ++ put_u8 x00 in
  body_fits body ->
  read_startup_body (startup_encode m ++ r) = Ok (body, r) /\ startup_decode_body body = Ok m.
Proof.
  intros Hok body Hf. split; [by apply read_frame_untagged|].
  unfold startup_ok in Hok. split_ok. unfold startup_decode_body, body.
  wire_step. rewrite <- (app_nil_r (put_u8 x00)).
  erewrite rbind_ok.
  2:{ apply (loop_put param_step put_param).
      - intros [k v]. unfold put_param, put_cstr; simpl. by destruct (as_bytes k).
      - match goal with H : Is_true (forallb _ _) |- _ =>
          apply Is_true_true in H; rewrite forallb_forall in H; rename H into Hall end.
        apply List.Forall_forall. intros p Hp r'. by apply param_step_put, Is_true_true, Hall.
      - apply param_step_end. }
  by destruct m.
Qed.

Definition sample_startup : StartupMessage :=
  mkStartup PROTOCOL_VERSION_3 [("user", "pgb_agent"); ("database", "")].

Lemma startup_roundtrip_witness :
  read_startup_body (startup_encode sample_startup ++ [x00]) =
    Ok (put_i32 PROTOCOL_VERSION_3 ++ concat (map put_param (parameters sample_startup)) ++ put_u8 x00, [x00])
  /\ startup_decode_body
       (put_i32 PROTOCOL_VERSION_3 ++ concat (map put_param (parameters sample_startup)) ++ put_u8 x00) =
     Ok sample_startup.
Proof. apply startup_roundtrip; [vm_compute; exact I|by_decide]. Defined.

(** ** What an accepted frame was *)

Lemma get_types_Ok n l ts r :
  get_n n get_i32 l = Ok (ts, r) ->
  l = concat (map put_i32 ts) ++ r /\ length ts = n /\ forallb (fun t => bool_decide (in_s 32 t)) ts.
Proof.
  intros H. apply (get_n_Ok get_i32 put_i32 (in_s 32)) in H as (-> & <- & Hall).
  - repeat split. apply forallb_True. eapply Forall_impl; [exact Hall|].
    intros x Hx. by apply bool_decide_pack.
  - apply get_i32_Ok.
Qed.

(** Turns the successful reads of the context into the bytes they consumed. *)
Ltac reads := repeat match goal with
  | H : rbind _ _ _ = Ok _ |- _ => apply rbind_inv in H as (? & ? & ? & ?)
  | H : get_cstr _ = Ok _ |- _ => apply get_cstr_Ok in H as [? ->]
  | H : get_u8 _ = Ok _ |- _ => apply get_u8_Ok in H as ->
  | H : get_i16 _ = Ok _ |- _ => apply get_i16_Ok in H as [-> ?]
  | H : get_i32 _ = Ok _ |- _ => apply get_i32_Ok in H as [-> ?]
  | H : get_n _ get_i32 _ = Ok _ |- _ => apply get_types_Ok in H as (-> & ? & ?)
  | H : target_from_tag _ _ = Ok _ |- _ => apply target_from_tag_Ok in H as [-> <-]
  | H : rest _ = Ok _ |- _ => injection H as <- <-
  | H : rret _ _ = Ok _ |- _ => injection H as <- <-
  | H : rfail _ _ = Ok _ |- _ => discriminate H
  | H : (if ?n <? 0 then _ else _) _ = Ok _ |- _ => destruct (Z.ltb_spec n 0)
  end.

Lemma decode_reader_sound t body m junk :
  decode_reader t body = Ok (m, junk) ->
  tag m = t /\ is_sasl m = false /\ message_ok m /\ body = encode_body m ++ junk.
Proof.
  intros H. destruct t; cbn [decode_reader] in H; try discriminate H; reads;
    repeat match goal with
    | H : length ?l = Z.to_nat ?n |- _ => assert (n = Z.of_nat (length l)) by lia; subst n; clear H
    end;
    (split; [done|]); (split; [done|]); cbn [message_ok encode_body];
    rewrite <- ?app_assoc, ?app_nil_r; try done;
    (split; [rewrite ?andb_True; repeat split; first [done|by apply bool_decide_pack]|]); try done.
  unfold put_len_i16. by rewrite wrap_s_id by (done || lia).
Qed.

Lemma frontend_decode_tag t body m :
  decode t body = Ok m -> tag m = t /\ is_sasl m = false /\ message_ok m.
Proof.
  unfold decode. destruct (decode_reader t body) as [[m' junk]|e] eqn:E; [|done]. intros [= ->].
  by apply decode_reader_sound in E as (? & ? & ? & ?).
Qed.

(** A decoded client frame is what the bytes say: the message has the frame's tag,
    its strings are NUL-free UTF-8 and its integers in width, and the body is the
    message's own encoding, followed at most by bytes the decoder ignored.  The 'p'
    tag alone never yields a SASL message. *)
Theorem frontend_decode_sound (t : byte) (body : list byte) (m : FrontendMessage) :
  decode t body = Ok m ->
  tag m = t /\ is_sasl m = false /\ message_ok m /\ exists junk, body = encode_body m ++ junk.
Proof.
  unfold decode. destruct (decode_reader t body) as [[m' junk]|e] eqn:E; [|done]. intros [= ->].
  apply decode_reader_sound in E as (? & ? & ? & ?). eauto.
Qed.

Lemma frontend_decode_sound_witness :
  tag (Query "x") = "Q"%byte /\ is_sasl (Query "x") = false /\ message_ok (Query "x") /\
  exists junk, [x78; x00; xff] = encode_body (Query "x") ++ junk.
Proof. apply frontend_decode_sound. vm_compute. reflexivity. Defined.

Definition is_query (m : FrontendMessage) : bool := match m with Query _ => true | _ => false end.
Definition is_copy (m : FrontendMessage) : bool :=
  match m with CopyData _ | CopyDone | CopyFail _ => true | _ => false end.

(** The tag-only detector decides before decoding what the decoder would find: a
    frame that decodes is rejected as a simple query exactly when it is one, as COPY
    traffic exactly when it is, and otherwise allowed. *)
Theorem detector_agrees_with_decoder (f : RawFrame) (m : FrontendMessage) :
  decode (frame_tag f) (frame_body f) = Ok m ->
  (classify_frontend_frame f = Err SimpleQuery <-> is_query m = true) /\
  (classify_frontend_frame f = Err Copy <-> is_copy m = true) /\
  (classify_frontend_frame f = Ok tt <-> is_query m = false /\ is_copy m = false).
Proof.
  intros (Ht & Hs & _)%frontend_decode_tag. unfold classify_frontend_frame. rewrite <- Ht.
  destruct m; simpl in *; try done; naive_solver.
Qed.

Lemma detector_agrees_with_decoder_witness :
  decode "Q"%byte [x00] = Ok (Query EmptyString) /\
  (classify_frontend_frame (mkRawFrame "Q"%byte [x00]) = Err SimpleQuery <->
   is_query (Query EmptyString) = true).
Proof.
  split; [reflexivity|]. apply (detector_agrees_with_decoder (mkRawFrame "Q"%byte [x00])). reflexivity.
Defined.

(** The detector's default is to allow: a tag the codec does not know, such as the
    function-call tag 'F', passes the detector although no body decodes under it. *)
Theorem detector_allows_unknown_tags :
  exists t, classify_frontend_tag t = Ok tt /\ forall body, decode t body = Err (UnknownTag t).
Proof. exists "F"%byte. by split. Qed.

End Frontend.
