(* ===== verification/Backend.v ===== *)
(** * Backend: server messages

    Models [src/crates/pgwire/src/backend.rs] and the backend half of [scram.rs] (the
    SASL authentication bodies), with the round trip of every message and the soundness
    of the decoder. *)

From S2P Require Import Prelude Wire.

Module Backend.
Import Wire.

Module auth_type.
Definition OK : Z := 0.
Definition CLEARTEXT_PASSWORD : Z := 3.
Definition MD5_PASSWORD : Z := 5.
Definition SASL : Z := 10.
Definition SASL_CONTINUE : Z := 11.
Definition SASL_FINAL : Z := 12.
End auth_type.

Inductive TransactionStatus : Type := Idle | InTransaction | Failed.

Definition status_tag (s : TransactionStatus) : byte :=
  match s with Idle => "I"%byte | InTransaction => "T"%byte | Failed => "E"%byte end.

Definition status_from_tag (b : byte) : reader TransactionStatus :=
  match b with
  | "I"%byte => rret Idle
  | "T"%byte => rret InTransaction
  | "E"%byte => rret Failed
  | _ => rfail (Malformed "ReadyForQuery: bad status")
  end.

Record FieldDescription : Type := mkField {
  field_name : string;
  table_oid : Z;
  column_attr : Z;
  type_oid : Z;
  type_size : Z;
  type_modifier : Z;
  format : Z
}.

Inductive BackendMessage : Type :=
| AuthenticationOk
| AuthenticationCleartextPassword
| AuthenticationMd5Password (salt : list byte)       (* [u8; 4] *)
| AuthenticationSasl (mechanisms : list string)
| AuthenticationSaslContinue (data : list byte)
| AuthenticationSaslFinal (data : list byte)
| ParameterStatus (name value : string)
| BackendKeyData (process_id secret_key : Z)
| ReadyForQuery (status : TransactionStatus)
| ErrorResponse (fields : list (byte * string))
| NoticeResponse (fields : list (byte * string))
| RowDescription (fields : list FieldDescription)
| DataRow (columns : list (option (list byte)))
| CommandComplete (command_tag : string)
| PortalSuspended
| ParseComplete
| BindComplete
| CloseComplete
| NoData
| EmptyQueryResponse
| CopyInResponse (fmt : byte) (column_formats : list Z)
| CopyOutResponse (fmt : byte) (column_formats : list Z)
| CopyData (data : list byte)
| CopyDone.

Definition tag (m : BackendMessage) : byte :=
  match m with
  | AuthenticationOk | AuthenticationCleartextPassword | AuthenticationMd5Password _
  | AuthenticationSasl _ | AuthenticationSaslContinue _ | AuthenticationSaslFinal _ => "R"%byte
  | ParameterStatus _ _ => "S"%byte
  | BackendKeyData _ _ => "K"%byte
  | ReadyForQuery _ => "Z"%byte
  | ErrorResponse _ => "E"%byte
  | NoticeResponse _ => "N"%byte
  | RowDescription _ => "T"%byte
  | DataRow _ => "D"%byte
  | CommandComplete _ => "C"%byte
  | PortalSuspended => "s"%byte
  | ParseComplete => "1"%byte
  | BindComplete => "2"%byte
  | CloseComplete => "3"%byte
  | NoData => "n"%byte
  | EmptyQueryResponse => "I"%byte
  | CopyInResponse _ _ => "G"%byte
  | CopyOutResponse _ _ => "H"%byte
  | CopyData _ => "d"%byte
  | CopyDone => "c"%byte
  end.

(** ** Encoding *)

Definition put_count {A} (l : list A) : list byte := put_i16 (wrap_s 16 (Z.of_nat (length l))).

Definition put_diagnostic (f : byte * string) : list byte := put_u8 f.1 ++ put_cstr f.2.

Definition put_field (f : FieldDescription) : list byte :=
  put_cstr (field_name f) ++ put_i32 (table_oid f) ++ put_i16 (column_attr f) ++
  put_i32 (type_oid f) ++ put_i16 (type_size f) ++ put_i32 (type_modifier f) ++ put_i16 (format f).

Definition put_column (c : option (list byte)) : list byte :=
  match c with
  | None => put_i32 (-1)
  | Some bytes => put_i32 (wrap_s 32 (Z.of_nat (length bytes))) ++ bytes
  end.

Definition sasl_encode_body (mechanisms : list string) : list byte :=
  put_i32 auth_type.SASL ++ concat (map put_cstr mechanisms) ++ put_u8 x00.
Definition sasl_continue_encode_body (data : list byte) : list byte :=
  put_i32 auth_type.SASL_CONTINUE ++ data.
Definition sasl_final_encode_body (data : list byte) : list byte :=
  put_i32 auth_type.SASL_FINAL ++ data.

Definition encode_body (m : BackendMessage) : list byte :=
  match m with
  | AuthenticationOk => put_i32 auth_type.OK
  | AuthenticationCleartextPassword => put_i32 auth_type.CLEARTEXT_PASSWORD
  | AuthenticationMd5Password salt => put_i32 auth_type.MD5_PASSWORD ++ salt
  | AuthenticationSasl mechanisms => sasl_encode_body mechanisms
  | AuthenticationSaslContinue data => sasl_continue_encode_body data
  | AuthenticationSaslFinal data => sasl_final_encode_body data
  | ParameterStatus name value => put_cstr name ++ put_cstr value
  | BackendKeyData process_id secret_key => put_i32 process_id ++ put_i32 secret_key
  | ReadyForQuery status => put_u8 (status_tag status)
  | ErrorResponse fields | NoticeResponse fields => concat (map put_diagnostic fields) ++ put_u8 x00
  | RowDescription fields => put_count fields ++ concat (map put_field fields)
  | DataRow columns => put_count columns ++ concat (map put_column columns)
  | CommandComplete t => put_cstr t
  | PortalSuspended | ParseComplete | BindComplete | CloseComplete | NoData
  | EmptyQueryResponse | CopyDone => []
  | CopyInResponse fmt cfs | CopyOutResponse fmt cfs =>
      put_u8 fmt ++ put_count cfs ++ concat (map put_i16 cfs)
  | CopyData data => data
  end.

Definition encode (m : BackendMessage) : list byte := frame_tagged (tag m) (encode_body m).

(** ** Decoding *)

Definition mechanism_step : reader (option string) :=
  let! bytes_left := remaining in
  if decide (bytes_left = 0)%nat then rfail (Malformed "AuthenticationSASL: missing list terminator")
  else let! m := get_cstr in
       if decide (m = EmptyString) then rret None else rret (Some m).

Definition sasl_decode_body : reader (list string) := loop mechanism_step.

Definition decode_authentication : reader BackendMessage :=
  let! kind := get_i32 in
  if kind =? auth_type.OK then rret AuthenticationOk
  else if kind =? auth_type.CLEARTEXT_PASSWORD then rret AuthenticationCleartextPassword
  else if kind =? auth_type.MD5_PASSWORD then
    let! raw := get_bytes 4 in rret (AuthenticationMd5Password raw)
  else if kind =? auth_type.SASL then
    let! ms := sasl_decode_body in rret (AuthenticationSasl ms)
  else if kind =? auth_type.SASL_CONTINUE then
    let! data := rest in rret (AuthenticationSaslContinue data)
  else if kind =? auth_type.SASL_FINAL then
    let! data := rest in rret (AuthenticationSaslFinal data)
  else rfail (Malformed "Authentication: unsupported type").

Definition diagnostic_step : reader (option (byte * string)) :=
  let! code := get_u8 in
  if decide (code = x00) then rret None
  else let! value := get_cstr in rret (Some (code, value)).

Definition decode_diagnostics : reader (list (byte * string)) := loop diagnostic_step.

Definition get_field : reader FieldDescription :=
  let! name := get_cstr in
  let! table_oid := get_i32 in
  let! column_attr := get_i16 in
  let! type_oid := get_i32 in
  let! type_size := get_i16 in
  let! type_modifier := get_i32 in
  let! fmt := get_i16 in
  rret (mkField name table_oid column_attr type_oid type_size type_modifier fmt).

Definition get_column : reader (option (list byte)) :=
  let! len := get_i32 in
  if len <? 0 then rret None else let! b := get_bytes (Z.to_nat len) in rret (Some b).

(** A negative count is refused; otherwise that many elements are read. *)
Definition get_counted {A} (err : string) (get : reader A) : reader (list A) :=
  let! n := get_i16 in
  if n <? 0 then rfail (Malformed err) else get_n (Z.to_nat n) get.

Definition decode_copy_response : reader (byte * list Z) :=
  let! fmt := get_u8 in
  let! cfs := get_counted "Copy*Response: negative count" get_i16 in
  rret (fmt, cfs).

Definition decode_reader (t : byte) : reader BackendMessage :=
  match t with
  | "R"%byte => decode_authentication
  | "S"%byte => let! name := get_cstr in let! value := get_cstr in rret (ParameterStatus name value)
  | "K"%byte => let! pid := get_i32 in let! key := get_i32 in rret (BackendKeyData pid key)
  | "Z"%byte => let! b := get_u8 in let! st := status_from_tag b in rret (ReadyForQuery st)
  | "E"%byte => let! fields := decode_diagnostics in rret (ErrorResponse fields)
  | "N"%byte => let! fields := decode_diagnostics in rret (NoticeResponse fields)
  | "T"%byte =>
      let! fields := get_counted "RowDescription: negative count" get_field in
      rret (RowDescription fields)
  | "D"%byte =>
      let! columns := get_counted "DataRow: negative count" get_column in
      rret (DataRow columns)
  | "C"%byte => let! t := get_cstr in rret (CommandComplete t)
  | "s"%byte => rret PortalSuspended
  | "1"%byte => rret ParseComplete
  | "2"%byte => rret BindComplete
  | "3"%byte => rret CloseComplete
  | "n"%byte => rret NoData
  | "I"%byte => rret EmptyQueryResponse
  | "G"%byte => let! (fmt, cfs) := decode_copy_response in rret (CopyInResponse fmt cfs)
  | "H"%byte => let! (fmt, cfs) := decode_copy_response in rret (CopyOutResponse fmt cfs)
  | "d"%byte => let! data := rest in rret (CopyData data)
  | "c"%byte => rret CopyDone
  | other => rfail (UnknownTag other)
  end.

Definition decode (t : byte) (body : list byte) : result ProtocolError BackendMessage :=
  let? (m, _) := decode_reader t body in Ok m.

(** ** What the wire can carry *)

Definition i16_ok (z : Z) : bool := bool_decide (in_s 16 z).
Definition i32_ok (z : Z) : bool := bool_decide (in_s 32 z).
Definition len_ok {A} (l : list A) : bool := i16_ok (Z.of_nat (length l)).

Definition diagnostic_ok (f : byte * string) : bool := negb (bool_decide (f.1 = x00)) && cstr_ok f.2.

Definition field_ok (f : FieldDescription) : bool :=
  cstr_ok (field_name f) && i32_ok (table_oid f) && i16_ok (column_attr f) && i32_ok (type_oid f) &&
  i16_ok (type_size f) && i32_ok (type_modifier f) && i16_ok (format f).

Definition column_ok (c : option (list byte)) : bool :=
  match c with None => true | Some b => i32_ok (Z.of_nat (length b)) end.

Definition mechanism_ok (m : string) : bool := cstr_ok m && negb (bool_decide (m = EmptyString)).

Definition message_ok (m : BackendMessage) : bool :=
  match m with
  | AuthenticationMd5Password salt => bool_decide (length salt = 4%nat)
  | AuthenticationSasl ms => forallb mechanism_ok ms
  | ParameterStatus a b => cstr_ok a && cstr_ok b
  | BackendKeyData a b => i32_ok a && i32_ok b
  | ErrorResponse fs | NoticeResponse fs => forallb diagnostic_ok fs
  | RowDescription fs => len_ok fs && forallb field_ok fs
  | DataRow cs => len_ok cs && forallb column_ok cs
  | CommandComplete t => cstr_ok t
  | CopyInResponse _ cfs | CopyOutResponse _ cfs => len_ok cfs && forallb i16_ok cfs
  | _ => true
  end.

(** ** Field-level round trips *)

Ltac split_ok := repeat match goal with
  | H : Is_true (_ && _) |- _ => apply andb_True in H as [? ?]
  | H : Is_true (i16_ok _) |- _ => apply bool_decide_unpack in H
  | H : Is_true (i32_ok _) |- _ => apply bool_decide_unpack in H
  | H : Is_true (len_ok _) |- _ => apply bool_decide_unpack in H
  | H : Is_true (bool_decide _) |- _ => apply bool_decide_unpack in H
  | H : Is_true (negb (bool_decide _)) |- _ => apply negb_True in H; rewrite bool_decide_spec in H
  end.

Lemma forallb_Forall_put {A} (ok : A -> bool) (get : reader A) (put : A -> list byte) xs :
  (forall x r, ok x -> get (put x ++ r) = Ok (x, r)) -> forallb ok xs ->
  Forall (fun x => forall r, get (put x ++ r) = Ok (x, r)) xs.
Proof. intros H Hall%forallb_True. eapply Forall_impl; [exact Hall|]. naive_solver. Qed.

Lemma get_counted_put {A} err (ok : A -> bool) (get : reader A) (put : A -> list byte) xs r :
  (forall x r, ok x -> get (put x ++ r) = Ok (x, r)) -> in_s 16 (Z.of_nat (length xs)) -> forallb ok xs ->
  get_counted err get (put_count xs ++ concat (map put xs) ++ r) = Ok (xs, r).
Proof.
  intros Hget Hl Hall. unfold get_counted, put_count. rewrite wrap_s_id by (done || lia).
  wire_step. destruct (Z.ltb_spec (Z.of_nat (length xs)) 0); [lia|].
  rewrite Nat2Z.id. by apply get_n_put, (forallb_Forall_put ok).
Qed.

Lemma get_field_put f r : field_ok f -> get_field (put_field f ++ r) = Ok (f, r).
Proof.
  unfold field_ok. intros. split_ok. unfold get_field, put_field. wire_run. by destruct f.
Qed.

Lemma get_column_put c r : column_ok c -> get_column (put_column c ++ r) = Ok (c, r).
Proof.
  unfold get_column. destruct c as [b|]; cbn [column_ok put_column]; intros; split_ok.
  - rewrite wrap_s_id by (done || lia). wire_step.
    destruct (Z.ltb_spec (Z.of_nat (length b)) 0); [lia|].
    erewrite rbind_ok; [|apply get_bytes_app; lia]. done.
  - by wire_step.
Qed.

Lemma get_i16_ok v r : i16_ok v -> get_i16 (put_i16 v ++ r) = Ok (v, r).
Proof. intros. split_ok. by apply get_i16_put. Qed.

Lemma get_fields_put err fs r :
  in_s 16 (Z.of_nat (length fs)) -> forallb field_ok fs ->
  get_counted err get_field (put_count fs ++ concat (map put_field fs) ++ r) = Ok (fs, r).
Proof. apply get_counted_put, get_field_put. Qed.

Lemma get_columns_put err cs r :
  in_s 16 (Z.of_nat (length cs)) -> forallb column_ok cs ->
  get_counted err get_column (put_count cs ++ concat (map put_column cs) ++ r) = Ok (cs, r).
Proof. apply get_counted_put, get_column_put. Qed.

Lemma decode_copy_put fmt cfs r :
  in_s 16 (Z.of_nat (length cfs)) -> forallb i16_ok cfs ->
  decode_copy_response (put_u8 fmt ++ put_count cfs ++ concat (map put_i16 cfs) ++ r) = Ok ((fmt, cfs), r).
Proof.
  intros Hl Hall. unfold decode_copy_response. wire_step.
  erewrite rbind_ok; [|by apply (get_counted_put _ i16_ok), Hall; [apply get_i16_ok|]]. done.
Qed.

Lemma diagnostics_put fs r :
  forallb diagnostic_ok fs ->
  decode_diagnostics (concat (map put_diagnostic fs) ++ put_u8 x00 ++ r) = Ok (fs, r).
Proof.
  intros Hall%forallb_True. apply loop_put; [by intros []; unfold put_diagnostic| |done].
  eapply Forall_impl; [exact Hall|]. intros [c v] Hok r'. unfold diagnostic_ok in Hok. simpl in Hok.
  split_ok. unfold diagnostic_step, put_diagnostic. simpl fst. simpl snd. wire_step.
  rewrite decide_False by done. by wire_step.
Qed.

Lemma sasl_put ms r :
  forallb mechanism_ok ms ->
  sasl_decode_body (concat (map put_cstr ms) ++ put_u8 x00 ++ r) = Ok (ms, r).
Proof.
  intros Hall%forallb_True. apply loop_put; [|  |done].
  - intros s. unfold put_cstr. by destruct (as_bytes s).
  - eapply Forall_impl; [exact Hall|]. intros m Hok r'. unfold mechanism_ok in Hok. split_ok.
    unfold mechanism_step. erewrite rbind_ok; [|done].
    rewrite decide_False by (unfold put_cstr; rewrite !length_app; simpl; lia).
    wire_step. by rewrite decide_False.
Qed.

Lemma status_from_tag_put s r : status_from_tag (status_tag s) r = Ok (s, r).
Proof. by destruct s. Qed.

#[export] Hint Resolve get_fields_put get_columns_put decode_copy_put diagnostics_put sasl_put
  status_from_tag_put : wire.

Lemma decode_authentication_put kind r :
  in_s 32 kind ->
  decode_authentication (put_i32 kind ++ r) =
  (if kind =? auth_type.OK then rret AuthenticationOk
   else if kind =? auth_type.CLEARTEXT_PASSWORD then rret AuthenticationCleartextPassword
   else if kind =? auth_type.MD5_PASSWORD then
     let! raw := get_bytes 4 in rret (AuthenticationMd5Password raw)
   else if kind =? auth_type.SASL then
     let! ms := sasl_decode_body in rret (AuthenticationSasl ms)
   else if kind =? auth_type.SASL_CONTINUE then
     let! data := rest in rret (AuthenticationSaslContinue data)
   else if kind =? auth_type.SASL_FINAL then
     let! data := rest in rret (AuthenticationSaslFinal data)
   else rfail (Malformed "Authentication: unsupported type")) r.
Proof. intros H. unfold decode_authentication. by wire_step. Qed.

Definition takes_rest (m : BackendMessage) : bool :=
  match m with AuthenticationSaslContinue _ | AuthenticationSaslFinal _ | CopyData _ => true | _ => false end.

Lemma decode_auth_encode m r :
  message_ok m -> tag m = "R"%byte -> (takes_rest m = true -> r = []) ->
  decode_authentication (encode_body m ++ r) = Ok (m, r).
Proof.
  intros Hok Ht Hr. destruct m; try discriminate Ht; cbn [message_ok] in Hok; split_ok;
    cbn [encode_body]; unfold sasl_encode_body, sasl_continue_encode_body, sasl_final_encode_body;
    rewrite <- ?app_assoc; rewrite decode_authentication_put by by_decide;
    cbn [auth_type.OK auth_type.CLEARTEXT_PASSWORD auth_type.MD5_PASSWORD auth_type.SASL
         auth_type.SASL_CONTINUE auth_type.SASL_FINAL Z.eqb Pos.eqb]; try done.
  - erewrite rbind_ok; [|by apply get_bytes_app]. done.
  - by wire_step.
  - rewrite Hr by done. by rewrite app_nil_r.
  - rewrite Hr by done. by rewrite app_nil_r.
Qed.

Lemma backend_decode_reader_encode m r :
  message_ok m -> (takes_rest m = true -> r = []) ->
  decode_reader (tag m) (encode_body m ++ r) = Ok (m, r).
Proof.
  intros Hok Hr. destruct (decide (tag m = "R"%byte)) as [Ht|Ht].
  - rewrite Ht. by apply decode_auth_encode.
  - destruct m; try done; cbn [message_ok] in Hok; split_ok;
      cbn [tag encode_body decode_reader]; rewrite <- ?app_assoc; try by wire_run.
    rewrite Hr by done. by rewrite app_nil_r.
Qed.

(** Backend round trip.  Any well-formed server message that fits a frame is read
    back from a stream, leaves the rest of the stream untouched, and decodes to itself. *)
Theorem backend_roundtrip (m : BackendMessage) (r : list byte) :
  message_ok m -> body_fits (encode_body m) ->
  read_tagged_frame (encode m ++ r) = Ok (Some (mkRawFrame (tag m) (encode_body m)), r) /\
  decode (tag m) (encode_body m) = Ok m.
Proof.
  intros Hok Hf. split; [by apply read_frame_tagged|].
  unfold decode. rewrite <- (app_nil_r (encode_body m)). by rewrite backend_decode_reader_encode.
Qed.

Definition sample_row : BackendMessage := DataRow [Some [x31]; None; Some []].

Lemma backend_roundtrip_witness :
  read_tagged_frame (encode sample_row ++ [x5a]) =
    Ok (Some (mkRawFrame (tag sample_row) (encode_body sample_row)), [x5a]) /\
  decode (tag sample_row) (encode_body sample_row) = Ok sample_row.
Proof. apply backend_roundtrip; [vm_compute; exact I|by_decide]. Defined.

(** ** The decoding loops end on their own *)

Lemma get_cstr_progress l s r : get_cstr l = Ok (s, r) -> (length r < length l)%nat.
Proof.
  intros [_ ->]%get_cstr_Ok. unfold put_cstr. rewrite !length_app. simpl. lia.
Qed.

Lemma get_cstr_no_io l : get_cstr l <> Err Io.
Proof.
  unfold get_cstr, rbind, get_cstr_bytes, from_utf8.
  destruct (split_nul l) as [[b r]|]; [|done]. by destruct (utf8_valid b).
Qed.

Lemma mechanism_step_progress : makes_progress mechanism_step.
Proof.
  intros l a l' H. unfold mechanism_step in H.
  apply rbind_inv in H as (n & l1 & [= <- <-] & H). case_decide; [done|].
  apply rbind_inv in H as (m & l2 & Hm%get_cstr_progress & H). case_decide; [done|].
  by injection H as <- <-.
Qed.

Lemma diagnostic_step_progress : makes_progress diagnostic_step.
Proof.
  intros l a l' (c & l1 & ->%get_u8_Ok & H)%rbind_inv. case_decide; [done|].
  apply rbind_inv in H as (m & l2 & Hm%get_cstr_progress & [= <- <-]).
  rewrite length_app. simpl. lia.
Qed.

Lemma mechanism_step_no_io l : mechanism_step l <> Err Io.
Proof.
  unfold mechanism_step. simpl. unfold rbind at 1. simpl. case_decide; [done|].
  unfold rbind. pose proof (get_cstr_no_io l).
  destruct (get_cstr l) as [[s r]|e]; [|congruence]. by case_decide.
Qed.

Lemma diagnostic_step_no_io l : diagnostic_step l <> Err Io.
Proof.
  unfold diagnostic_step, get_u8, get_bytes, ensure, split_to, rbind. case_decide; [done|].
  unfold rret. case_decide; [done|]. pose proof (get_cstr_no_io (drop 1 l)).
  destruct (get_cstr (drop 1 l)) as [[s r]|e]; [done|congruence].
Qed.

(** Termination of the decoding loops: on every input, the loops over the SASL
    mechanism list and over the diagnostic fields of an [ErrorResponse] end by
    themselves (terminator, malformed field or missing terminator), never because the
    model's fuel, one unit per remaining byte, ran out. *)
Theorem decoding_loops_terminate (l : list byte) :
  sasl_decode_body l <> Err Io /\ decode_diagnostics l <> Err Io.
Proof.
  split; apply loop_never_out_of_fuel;
    auto using mechanism_step_progress, diagnostic_step_progress, mechanism_step_no_io, diagnostic_step_no_io.
Qed.

End Backend.
