(* ===== verification/Classifier.v ===== *)
(** * Classifier: the fail-closed read-only statement classifier

    Models [src/crates/pgwire/src/classifier.rs].  The SQL parser and the expression
    visitor are [sqlparser] (third-party): [parse_sql] and [visit_expressions] are
    parameters.  The abstract syntax has the constructors the source matches on; every
    other node of a kind is one catch-all constructor that keeps its child expressions
    and subqueries.  [stmt_exprs] lists the expression nodes of a statement: what
    [sqlparser]'s documentation says the visitor calls its closure on. *)

From S2P Require Import Prelude Text.

Set Warnings "-register-all".

Module Classifier.

(** ** The syntax tree *)

Inductive NamePart : Type := Ident (value : string) | NotIdent.
Definition ObjectName : Type := list NamePart.

Inductive BinaryOperator : Type :=
| PGCustomBinaryOperator (parts : list string)
| CustomOperator (token : string)
| BuiltinOperator (token : string).

Inductive DataType : Type :=
| DT_Custom (name : ObjectName)
| DT_Array (elem : ArrayElemTypeDef)
| DT_Nullable (inner : DataType)
| DT_LowCardinality (inner : DataType)
| DT_Map (k v : DataType)
| DT_Struct | DT_Union | DT_Tuple | DT_Nested | DT_NamedTable
| DT_Other (name : string)
with ArrayElemTypeDef : Type :=
| AE_None
| AE_AngleBracket (inner : DataType)
| AE_SquareBracket (inner : DataType)
| AE_Parenthesis (inner : DataType).

Inductive Expr : Type :=
| E_Function (name : ObjectName) (args : list Expr) (subqueries : list Query)
| E_BinaryOp (op : BinaryOperator) (l r : Expr)
| E_UnaryOp (e : Expr)
| E_Cast (e : Expr) (data_type : DataType)
| E_Convert (e : Expr) (data_type : option DataType)
| E_TypedString (data_type : DataType)
| E_Other (children : list Expr) (subqueries : list Query)
with Query : Type :=
| mkQuery (cte_tables : list Query) (body : SetExpr) (locks : nat) (exprs : list Expr)
with SetExpr : Type :=
| SE_Select (into : bool) (from : list TableWithJoins) (exprs : list Expr)
| SE_Query (q : Query)
| SE_SetOperation (left right : SetExpr)
| SE_Values (exprs : list Expr)
| SE_Table
| SE_Insert (exprs : list Expr) | SE_Update (exprs : list Expr) | SE_Delete (exprs : list Expr)
| SE_Merge (exprs : list Expr)
with TableWithJoins : Type :=
| mkTwj (relation : TableFactor) (joins : list Join)
with Join : Type :=
| mkJoin (relation : TableFactor) (constraint : list Expr)
with TableFactor : Type :=
| TF_Table (name : ObjectName) (args : option (list Expr))
| TF_Function (name : ObjectName) (args : list Expr)
| TF_TableFunction (e : Expr)
| TF_Derived (subquery : Query)
| TF_NestedJoin (table_with_joins : TableWithJoins)
| TF_Other (exprs : list Expr).

Inductive Statement : Type :=
| S_Query (q : Query)
| S_Explain (analyze : bool) (options : option (list string)) (statement : Statement)
| S_ExplainTable
| S_Copy | S_Insert | S_Update | S_Delete | S_Truncate | S_Merge | S_CreateTable | S_CreateView
| S_CreateSchema | S_CreateIndex | S_AlterTable | S_Drop
| S_Other.

(** Every expression node below a node of the tree, the node itself included. *)
Fixpoint expr_nodes (e : Expr) : list Expr :=
  e :: match e with
       | E_Function _ args qs | E_Other args qs => flat_map expr_nodes args ++ flat_map query_exprs qs
       | E_BinaryOp _ l r => expr_nodes l ++ expr_nodes r
       | E_UnaryOp x | E_Cast x _ | E_Convert x _ => expr_nodes x
       | E_TypedString _ => []
       end
with query_exprs (q : Query) : list Expr :=
  let 'mkQuery ctes body _ es := q in
  flat_map query_exprs ctes ++ set_exprs body ++ flat_map expr_nodes es
with set_exprs (b : SetExpr) : list Expr :=
  match b with
  | SE_Select _ from es => flat_map twj_exprs from ++ flat_map expr_nodes es
  | SE_Query q => query_exprs q
  | SE_SetOperation l r => set_exprs l ++ set_exprs r
  | SE_Values es | SE_Insert es | SE_Update es | SE_Delete es | SE_Merge es => flat_map expr_nodes es
  | SE_Table => []
  end
with twj_exprs (t : TableWithJoins) : list Expr :=
  let 'mkTwj r js := t in
  factor_exprs r ++ flat_map join_exprs js
with join_exprs (j : Join) : list Expr :=
  let 'mkJoin r on := j in factor_exprs r ++ flat_map expr_nodes on
with factor_exprs (f : TableFactor) : list Expr :=
  match f with
  | TF_Table _ None => []
  | TF_Table _ (Some args) => flat_map expr_nodes args
  | TF_Function _ args => flat_map expr_nodes args
  | TF_TableFunction e => expr_nodes e
  | TF_Derived q => query_exprs q
  | TF_NestedJoin t => twj_exprs t
  | TF_Other es => flat_map expr_nodes es
  end.

Fixpoint stmt_exprs (s : Statement) : list Expr :=
  match s with
  | S_Query q => query_exprs q
  | S_Explain _ _ s => stmt_exprs s
  | _ => []
  end.

(** ** The allowlists *)

(** [str::eq_ignore_ascii_case]. *)
Definition eq_ignore_ascii_case (a b : string) : bool :=
  bool_decide (Text.to_ascii_lowercase a = Text.to_ascii_lowercase b).

Definition EXPLAIN_PLAN_ONLY_OPTIONS : list string :=
  ["FORMAT"; "VERBOSE"; "COSTS"; "SETTINGS"; "GENERIC_PLAN"; "SUMMARY"; "MEMORY"; "BUFFERS"]%string.

Definition explain_options_plan_only (options : option (list string)) : bool :=
  match options with
  | None => true
  | Some opts => forallb (fun o => existsb (eq_ignore_ascii_case o) EXPLAIN_PLAN_ONLY_OPTIONS) opts
  end.

Definition READ_SAFE_FUNCTIONS : list string :=
  [
    "count"; "sum"; "avg"; "min"; "max"; "array_agg"; "string_agg"; "jsonb_agg"; "json_agg";
    "jsonb_object_agg"; "json_object_agg"; "bool_and"; "bool_or"; "every"; "bit_and"; "bit_or";
    "stddev"; "stddev_pop"; "stddev_samp"; "variance"; "var_pop"; "var_samp"; "corr"; "covar_pop";
    "covar_samp"; "mode"; "percentile_cont"; "percentile_disc"; "row_number"; "rank";
    "dense_rank"; "percent_rank"; "cume_dist"; "ntile"; "lag"; "lead"; "first_value";
    "last_value"; "nth_value"; "abs"; "ceil"; "ceiling"; "floor"; "round"; "trunc"; "sign";
    "sqrt"; "cbrt"; "power"; "pow"; "exp"; "ln"; "log"; "log10"; "mod"; "div"; "gcd"; "lcm"; "pi";
    "degrees"; "radians"; "sin"; "cos"; "tan"; "asin"; "acos"; "atan"; "atan2"; "sinh"; "cosh";
    "tanh"; "width_bucket"; "lower"; "upper"; "initcap"; "length"; "char_length";
    "character_length"; "bit_length"; "octet_length"; "substr"; "substring"; "left"; "right";
    "trim"; "btrim"; "ltrim"; "rtrim"; "lpad"; "rpad"; "concat"; "concat_ws"; "replace";
    "translate"; "reverse"; "repeat"; "split_part"; "strpos"; "position"; "starts_with"; "format";
    "to_hex"; "ascii"; "chr"; "md5"; "encode"; "decode"; "regexp_replace"; "regexp_match";
    "regexp_matches"; "regexp_split_to_array"; "regexp_split_to_table"; "regexp_count";
    "regexp_instr"; "regexp_substr"; "like"; "similar_to"; "coalesce"; "nullif"; "greatest";
    "least"; "num_nonnulls"; "num_nulls"; "cast"; "to_char"; "to_number"; "to_date";
    "to_timestamp"; "now"; "statement_timestamp"; "transaction_timestamp"; "clock_timestamp";
    "timeofday"; "current_timestamp"; "current_date"; "current_time"; "localtime";
    "localtimestamp"; "date_trunc"; "date_part"; "date_bin"; "extract"; "age"; "make_date";
    "make_time"; "make_timestamp"; "make_timestamptz"; "make_interval"; "justify_days";
    "justify_hours"; "justify_interval"; "isfinite"; "to_json"; "to_jsonb"; "json_build_object";
    "jsonb_build_object"; "json_build_array"; "jsonb_build_array"; "json_object"; "jsonb_object";
    "json_array_length"; "jsonb_array_length"; "json_extract_path"; "jsonb_extract_path";
    "json_extract_path_text"; "jsonb_extract_path_text"; "json_typeof"; "jsonb_typeof";
    "json_strip_nulls"; "jsonb_strip_nulls"; "jsonb_pretty"; "json_array_elements";
    "jsonb_array_elements"; "json_array_elements_text"; "jsonb_array_elements_text"; "json_each";
    "jsonb_each"; "json_each_text"; "jsonb_each_text"; "json_object_keys"; "jsonb_object_keys";
    "jsonb_path_query"; "jsonb_path_query_array"; "jsonb_path_query_first"; "jsonb_path_exists";
    "jsonb_path_match"; "row_to_json"; "json_populate_record"; "jsonb_populate_record";
    "json_to_record"; "jsonb_to_record"; "json_to_recordset"; "jsonb_to_recordset";
    "array_length"; "array_dims"; "array_ndims"; "array_upper"; "array_lower"; "cardinality";
    "array_position"; "array_positions"; "array_to_string"; "string_to_array"; "array_append";
    "array_prepend"; "array_cat"; "array_remove"; "array_replace"; "unnest"; "generate_series";
    "generate_subscripts"; "current_setting"; "pg_typeof"; "format_type"; "current_database";
    "current_schema"; "current_catalog"; "current_user"; "session_user"; "user"; "version";
    "pg_backend_pid"; "row"
  ]%string.

Definition function_name_is_read_safe (name : ObjectName) : bool :=
  match name with
  | [Ident ident] => existsb (eq_ignore_ascii_case ident) READ_SAFE_FUNCTIONS
  | _ => false
  end.

Definition binary_operator_is_read_safe (op : BinaryOperator) : bool :=
  match op with PGCustomBinaryOperator _ | CustomOperator _ => false | BuiltinOperator _ => true end.

Fixpoint cast_target_type_is_read_safe (data_type : DataType) : bool :=
  match data_type with
  | DT_Custom name => Nat.eqb (length name) 1
  | DT_Array elem => array_elem_is_read_safe elem
  | DT_Nullable inner | DT_LowCardinality inner => cast_target_type_is_read_safe inner
  | DT_Map k v => cast_target_type_is_read_safe k && cast_target_type_is_read_safe v
  | DT_Struct | DT_Union | DT_Tuple | DT_Nested | DT_NamedTable => false
  | DT_Other _ => true
  end
with array_elem_is_read_safe (elem : ArrayElemTypeDef) : bool :=
  match elem with
  | AE_None => true
  | AE_AngleBracket inner | AE_SquareBracket inner | AE_Parenthesis inner => cast_target_type_is_read_safe inner
  end.

(** The closure given to [visit_expressions]. *)
Definition expr_is_read_safe (e : Expr) : bool :=
  match e with
  | E_Function name _ _ => function_name_is_read_safe name
  | E_BinaryOp op _ _ => binary_operator_is_read_safe op
  | E_UnaryOp _ => true
  | E_Cast _ dt => cast_target_type_is_read_safe dt
  | E_Convert _ (Some dt) => cast_target_type_is_read_safe dt
  | E_Convert _ None => true
  | E_TypedString dt => cast_target_type_is_read_safe dt
  | E_Other _ _ => true
  end.

(** ** The table-function sweep *)

Fixpoint query_table_functions_all_read_safe (q : Query) : bool :=
  let 'mkQuery ctes body _ _ := q in
  forallb query_table_functions_all_read_safe ctes && set_expr_table_functions_all_read_safe body
with set_expr_table_functions_all_read_safe (body : SetExpr) : bool :=
  match body with
  | SE_Select _ from _ => forallb twj_table_functions_all_read_safe from
  | SE_Query q => query_table_functions_all_read_safe q
  | SE_SetOperation l r => set_expr_table_functions_all_read_safe l && set_expr_table_functions_all_read_safe r
  | _ => true
  end
with twj_table_functions_all_read_safe (t : TableWithJoins) : bool :=
  let 'mkTwj relation joins := t in
  table_factor_functions_all_read_safe relation && forallb join_table_functions_all_read_safe joins
with join_table_functions_all_read_safe (j : Join) : bool :=
  let 'mkJoin relation _ := j in table_factor_functions_all_read_safe relation
with table_factor_functions_all_read_safe (f : TableFactor) : bool :=
  match f with
  | TF_Table name (Some _) => function_name_is_read_safe name
  | TF_Table _ None => true
  | TF_Function name _ => function_name_is_read_safe name
  | TF_TableFunction _ => false
  | TF_Derived q => query_table_functions_all_read_safe q
  | TF_NestedJoin t => twj_table_functions_all_read_safe t
  | TF_Other _ => true
  end.

Fixpoint statement_table_functions_all_read_safe (s : Statement) : bool :=
  match s with
  | S_Query q => query_table_functions_all_read_safe q
  | S_Explain _ _ s => statement_table_functions_all_read_safe s
  | _ => true
  end.

(** ** The structural check *)

Fixpoint query_is_read_only (q : Query) : bool :=
  let 'mkQuery ctes body locks _ := q in
  Nat.eqb locks 0 && forallb query_is_read_only ctes && set_expr_is_read_only body
with set_expr_is_read_only (body : SetExpr) : bool :=
  match body with
  | SE_Select into from _ => negb into && forallb twj_is_read_only from
  | SE_Query q => query_is_read_only q
  | SE_SetOperation l r => set_expr_is_read_only l && set_expr_is_read_only r
  | SE_Values _ | SE_Table => true
  | SE_Insert _ | SE_Update _ | SE_Delete _ | SE_Merge _ => false
  end
with twj_is_read_only (t : TableWithJoins) : bool :=
  let 'mkTwj relation joins := t in
  table_factor_is_read_only relation && forallb join_is_read_only joins
with join_is_read_only (j : Join) : bool :=
  let 'mkJoin relation _ := j in table_factor_is_read_only relation
with table_factor_is_read_only (f : TableFactor) : bool :=
  match f with
  | TF_Derived q => query_is_read_only q
  | TF_NestedJoin t => twj_is_read_only t
  | _ => true
  end.

Inductive Classification : Type := Read | NotRead.
Definition is_read (c : Classification) : bool := match c with Read => true | NotRead => false end.

Inductive NotReadReason : Type := ParseError | Empty | MultipleStatements | NotAReadStatement.

Section classifier.
Context (parse_sql : string -> option (list Statement)).
Context (visit_expressions : Statement -> list Expr).

Definition statement_functions_all_read_safe (s : Statement) : bool :=
  forallb expr_is_read_safe (visit_expressions s) && statement_table_functions_all_read_safe s.

Fixpoint is_read_statement (s : Statement) : bool :=
  match s with
  | S_Query q => statement_functions_all_read_safe s && query_is_read_only q
  | S_Explain analyze options statement =>
      statement_functions_all_read_safe s &&
      (negb analyze && explain_options_plan_only options && is_read_statement statement)
  | S_ExplainTable | S_Copy | S_Insert | S_Update | S_Delete | S_Truncate | S_Merge | S_CreateTable
  | S_CreateView | S_CreateSchema | S_CreateIndex | S_AlterTable | S_Drop | S_Other => false
  end.

Definition classify_with_reason (sql : string) : Classification * option NotReadReason :=
  match parse_sql sql with
  | None => (NotRead, Some ParseError)
  | Some [] => (NotRead, Some Empty)
  | Some [s] => if is_read_statement s then (Read, None) else (NotRead, Some NotAReadStatement)
  | Some (_ :: _ :: _) => (NotRead, Some MultipleStatements)
  end.

Definition classify (sql : string) : Classification := (classify_with_reason sql).1.

Definition is_explain (sql : string) : bool :=
  match parse_sql sql with
  | Some [S_Explain _ _ _] | Some [S_ExplainTable] => true
  | _ => false
  end.
End classifier.

(** ** Specification: the parts of a query that run, and what each must satisfy *)

Inductive Node : Type :=
| NQuery (q : Query)
| NSet (b : SetExpr)
| NTwj (t : TableWithJoins)
| NJoin (j : Join)
| NFactor (f : TableFactor).

(** The parts directly below a part: CTE bodies, set-operation arms, FROM items, joined
    relations, derived subqueries, nested joins. *)
Definition children (n : Node) : list Node :=
  match n with
  | NQuery (mkQuery ctes body _ _) => NSet body :: map NQuery ctes
  | NSet (SE_Select _ from _) => map NTwj from
  | NSet (SE_Query q) => [NQuery q]
  | NSet (SE_SetOperation l r) => [NSet l; NSet r]
  | NTwj (mkTwj r js) => NFactor r :: map NJoin js
  | NJoin (mkJoin r _) => [NFactor r]
  | NFactor (TF_Derived q) => [NQuery q]
  | NFactor (TF_NestedJoin t) => [NTwj t]
  | _ => []
  end.

Definition part_of : Node -> Node -> Prop := rtc (fun n m => In m (children n)).

(** No row locks, no INTO, no writing body, no table function off the allowlist. *)
Definition local_ok (n : Node) : bool :=
  match n with
  | NQuery (mkQuery _ _ locks _) => Nat.eqb locks 0
  | NSet (SE_Select into _ _) => negb into
  | NSet (SE_Insert _ | SE_Update _ | SE_Delete _ | SE_Merge _) => false
  | NFactor (TF_Table name (Some _) | TF_Function name _) => function_name_is_read_safe name
  | NFactor (TF_TableFunction _) => false
  | _ => true
  end.

Inductive plans : Statement -> Query -> Prop :=
| plans_query q : plans (S_Query q) q
| plans_explain options s q :
    explain_options_plan_only options = true -> plans s q -> plans (S_Explain false options s) q.

(** ** The two sweeps decide the specification *)

Definition node_ok (n : Node) : bool :=
  match n with
  | NQuery q => query_is_read_only q && query_table_functions_all_read_safe q
  | NSet b => set_expr_is_read_only b && set_expr_table_functions_all_read_safe b
  | NTwj t => twj_is_read_only t && twj_table_functions_all_read_safe t
  | NJoin j => join_is_read_only j && join_table_functions_all_read_safe j
  | NFactor f => table_factor_is_read_only f && table_factor_functions_all_read_safe f
  end.

Lemma forallb_map_and {A} (c : A -> Node) (f g : A -> bool) l :
  (forall x, node_ok (c x) = f x && g x) -> forallb node_ok (map c l) = forallb f l && forallb g l.
Proof.
  intros H. induction l as [|x l IH]; [done|]. simpl. rewrite IH, H.
  by destruct (f x), (g x), (forallb f l), (forallb g l).
Qed.

Lemma node_ok_unfold n : node_ok n = local_ok n && forallb node_ok (children n).
Proof.
  assert (forall a b c d : bool, a && b && (c && d) = (a && c) && (b && d)) as Hswap by (by intros [] [] [] []).
  destruct n as [[ctes body locks es]|[into from es|q|l r|es| |es|es|es|es]|[r js]|[r on]|[name [args|]|name args|e|q|t|es]];
    simpl; rewrite ?andb_true_r, ?andb_false_r; try done.
  - rewrite (forallb_map_and NQuery query_is_read_only query_table_functions_all_read_safe) by done.
    by destruct (Nat.eqb locks 0), (forallb query_is_read_only ctes), (forallb query_table_functions_all_read_safe ctes),
      (set_expr_is_read_only body), (set_expr_table_functions_all_read_safe body).
  - rewrite (forallb_map_and NTwj twj_is_read_only twj_table_functions_all_read_safe) by done. by rewrite andb_assoc.
  - rewrite (forallb_map_and NJoin join_is_read_only join_table_functions_all_read_safe) by done. apply Hswap.
Qed.

(** The tree is finite: a part is smaller than what it is part of. *)
Fixpoint query_size (q : Query) : nat :=
  let 'mkQuery ctes body _ _ := q in S (set_size body + list_sum (map query_size ctes))
with set_size (b : SetExpr) : nat :=
  S match b with
    | SE_Select _ from _ => list_sum (map twj_size from)
    | SE_Query q => query_size q
    | SE_SetOperation l r => set_size l + set_size r
    | _ => 0
    end
with twj_size (t : TableWithJoins) : nat :=
  let 'mkTwj r js := t in S (factor_size r + list_sum (map join_size js))
with join_size (j : Join) : nat := let 'mkJoin r _ := j in S (factor_size r)
with factor_size (f : TableFactor) : nat :=
  S match f with TF_Derived q => query_size q | TF_NestedJoin t => twj_size t | _ => 0 end.

Definition node_size (n : Node) : nat :=
  match n with
  | NQuery q => query_size q | NSet b => set_size b | NTwj t => twj_size t | NJoin j => join_size j
  | NFactor f => factor_size f
  end.

Lemma map_size_lt {A} (c : A -> Node) (size : A -> nat) l m :
  (forall x, node_size (c x) = size x) -> In m (map c l) -> (node_size m <= list_sum (map size l))%nat.
Proof.
  intros H. induction l as [|x l IH]; simpl; [done|]. intros [<-|Hm]; [rewrite H; lia|]. specialize (IH Hm). lia.
Qed.

Lemma child_smaller n m : In m (children n) -> (node_size m < node_size n)%nat.
Proof.
  destruct n as [[ctes body locks es]|[into from es|q|l r|es| |es|es|es|es]|[r js]|[r on]|[name [args|]|name args|e|q|t|es]];
    simpl; try done.
  - intros [<-|H%(map_size_lt _ query_size)]; simpl; [lia|lia|done].
  - intros H%(map_size_lt _ twj_size); [lia|done].
  - intros [<-|[]]. simpl. lia.
  - intros [<-|[<-|[]]]; simpl; lia.
  - intros [<-|H%(map_size_lt _ join_size)]; simpl; [lia|lia|done].
  - intros [<-|[]]. simpl. lia.
  - intros [<-|[]]. simpl. lia.
  - intros [<-|[]]. simpl. lia.
Qed.

Lemma node_ok_spec n : node_ok n = true <-> forall m, part_of n m -> local_ok m = true.
Proof.
  split.
  - intros Hn m Hm. induction Hm as [n|n x m Hx _ IH]; rewrite node_ok_unfold, andb_true_iff in Hn.
    + tauto.
    + apply IH. destruct Hn as [_ Hc]. rewrite forallb_forall in Hc. auto.
  - remember (node_size n) as k eqn:Hk. revert n Hk. induction (lt_wf k) as [k _ IH]. intros n -> H.
    rewrite node_ok_unfold, andb_true_iff. split; [apply H, rtc_refl|].
    apply forallb_forall. intros m Hm. apply (IH (node_size m)); [by apply child_smaller|done|].
    intros m' Hm'. apply H. by eapply rtc_l.
Qed.

(** [visit_expressions] calls its closure on exactly the expression nodes of a query,
    explained or not. *)
Fixpoint is_query_statement (s : Statement) : bool :=
  match s with S_Query _ => true | S_Explain _ _ s => is_query_statement s | _ => false end.
Definition visits_every_expression (visit : Statement -> list Expr) : Prop :=
  forall s, is_query_statement s = true -> forall e, In e (visit s) <-> In e (stmt_exprs s).

Lemma plans_is_query s q : plans s q -> is_query_statement s = true.
Proof. by induction 1. Qed.

Lemma functions_all_read_safe_spec visit s :
  visits_every_expression visit -> is_query_statement s = true ->
  statement_functions_all_read_safe visit s = true <->
  (forall e, In e (stmt_exprs s) -> expr_is_read_safe e = true) /\
  statement_table_functions_all_read_safe s = true.
Proof.
  intros Hv Hq. unfold statement_functions_all_read_safe. rewrite andb_true_iff, forallb_forall.
  setoid_rewrite (Hv s Hq). done.
Qed.

Lemma is_read_statement_spec visit s :
  visits_every_expression visit ->
  is_read_statement visit s = true <->
  exists q, plans s q /\ (forall e, In e (stmt_exprs s) -> expr_is_read_safe e = true) /\ node_ok (NQuery q) = true.
Proof.
  intros Hv. induction s as [q|analyze options s IH| | | | | | | | | | | | | |];
    try (split; [done|intros (q & Hp & _); inversion Hp]).
  - cbn [is_read_statement]. rewrite andb_true_iff, functions_all_read_safe_spec by done.
    cbn [statement_table_functions_all_read_safe node_ok]. split.
    + intros [[He Ht] Hr]. exists q. split; [constructor|]. split; [done|]. by rewrite Hr, Ht.
    + intros (q' & Hp & He & [Hr Ht]%andb_true_iff). inversion Hp; subst. done.
  - cbn [is_read_statement]. split.
    + intros [Hf [[Ha Ho]%andb_true_iff (q & Hp & He & Hn)%IH]%andb_true_iff]%andb_true_iff.
      exists q. split; [|done]. destruct analyze; [done|]. by constructor.
    + intros (q & Hp & He & Hn). inversion Hp as [|o' s' q' Ho Hp' E1 E2]; subst.
      assert (is_read_statement visit s = true) as Hs by (apply IH; by exists q).
      rewrite Hs, Ho. simpl. rewrite andb_true_r.
      apply functions_all_read_safe_spec; [done|by eapply plans_is_query|]. split; [done|].
      clear -Hp' Hn. simpl. induction Hp' as [q|o s q _ _ IH]; [by apply andb_true_iff in Hn as [_ Hn]|by apply IH].
Qed.

Lemma stmt_exprs_visits : visits_every_expression stmt_exprs.
Proof. done. Qed.

(** What is visited does not matter, as long as it is every expression. *)
Lemma read_any_visit visit s :
  visits_every_expression visit -> is_read_statement visit s = is_read_statement stmt_exprs s.
Proof.
  intros Hv. apply eq_true_iff_eq.
  rewrite (is_read_statement_spec visit s Hv), (is_read_statement_spec _ s stmt_exprs_visits). done.
Qed.

(** ** Properties *)

(** C10: the classifier decides its specification.  SQL text is a read exactly when it
    parses as one statement that is a query, or plan-only EXPLAINs of a query; every
    expression node anywhere in it passes the function, operator and cast allowlists;
    and no part of the query (CTE, set-operation arm, FROM item, derived table, nested
    join, at any depth) takes a lock, writes, or calls a table function off the list. *)
Theorem read_iff_safe (parse_sql : string -> option (list Statement)) (visit : Statement -> list Expr)
    (sql : string) :
  visits_every_expression visit ->
  classify parse_sql visit sql = Read <->
  exists s q, parse_sql sql = Some [s] /\ plans s q /\
    (forall e, In e (stmt_exprs s) -> expr_is_read_safe e = true) /\
    (forall m, part_of (NQuery q) m -> local_ok m = true).
Proof.
  intros Hv. unfold classify, classify_with_reason. split.
  - destruct (parse_sql sql) as [[|s [|]]|]; try done.
    destruct (is_read_statement visit s) eqn:E; [|done]. intros _.
    apply is_read_statement_spec in E as (q & Hp & He & Hn); [|done].
    exists s, q. by rewrite <- node_ok_spec.
  - intros (s & q & -> & Hp & He & Hn). rewrite <- node_ok_spec in Hn.
    assert (is_read_statement visit s = true) as ->; [|done]. apply is_read_statement_spec; eauto.
Qed.

(** [SELECT lower(x) FROM generate_series(..)]. *)
Definition sample_query : Query :=
  mkQuery [] (SE_Select false [mkTwj (TF_Table [Ident "generate_series"] (Some [])) []]
                [E_Function [Ident "LOWER"] [] []]) 0 [].

Lemma read_iff_safe_witness :
  let parse := fun _ : string => Some [S_Explain false (Some ["costs"%string]) (S_Query sample_query)] in
  classify parse stmt_exprs "explain" = Read /\
  exists s q, parse "explain"%string = Some [s] /\ plans s q /\
    (forall e, In e (stmt_exprs s) -> expr_is_read_safe e = true) /\
    (forall m, part_of (NQuery q) m -> local_ok m = true).
Proof.
  split; [vm_compute; reflexivity|].
  apply (read_iff_safe (fun _ => Some [S_Explain false (Some ["costs"%string]) (S_Query sample_query)]) stmt_exprs
           "explain" stmt_exprs_visits).
  vm_compute. reflexivity.
Defined.

(** [SELECT (sub)]: a subquery in an expression position. *)
Definition select_subquery (sub : Query) : Statement :=
  S_Query (mkQuery [] (SE_Select false [] [E_Other [] [sub]]) 0 []).

(** [SELECT * FROM lo_import('/etc/passwd')] and [SELECT id FROM t FOR UPDATE]. *)
Definition import_query : Query :=
  mkQuery [] (SE_Select false [mkTwj (TF_Table [Ident "lo_import"] (Some [E_Other [] []])) []] [E_Other [] []]) 0 [].
Definition locking_query : Query :=
  mkQuery [] (SE_Select false [mkTwj (TF_Table [Ident "t"] None) []] [E_Other [] []]) 1 [].

(** C35: a subquery in an expression position is only swept for its expressions.
    Whatever [sub] is, [SELECT (sub)] is classified by [sub]'s expression nodes alone, so
    a writing table function in its FROM and a row lock on it, both refused at top level,
    are classified as reads there. *)
Theorem expression_subqueries_escape (visit : Statement -> list Expr) :
  visits_every_expression visit ->
  (forall sub, is_read_statement visit (select_subquery sub) = true <->
               forall e, In e (query_exprs sub) -> expr_is_read_safe e = true) /\
  (is_read_statement visit (S_Query import_query) = false /\
   is_read_statement visit (select_subquery import_query) = true) /\
  (is_read_statement visit (S_Query locking_query) = false /\
   is_read_statement visit (select_subquery locking_query) = true).
Proof.
  intros Hv.
  assert (forall sub, is_read_statement visit (select_subquery sub) = true <->
               forall e, In e (query_exprs sub) -> expr_is_read_safe e = true) as Hsub.
  { intros sub. rewrite is_read_statement_spec by done. simpl. rewrite !app_nil_r. split.
    - intros (q & _ & He & _) e Hin. apply He. by right.
    - intros He. eexists. split; [constructor|]. split; [|done]. intros e [<-|Hin]; auto. }
  assert (forall q, node_ok (NQuery q) = false -> is_read_statement visit (S_Query q) = false) as Hno.
  { intros q Hn. apply not_true_is_false. intros (q' & Hp & _ & Hok)%is_read_statement_spec; [|done].
    inversion Hp; subst. congruence. }
  split; [done|]. split; (split; [apply Hno; vm_compute; reflexivity|]); apply Hsub; simpl;
    intros e; repeat (intros [<-|H]; [done|revert H]); done.
Qed.

Lemma expression_subqueries_escape_witness :
  is_read_statement stmt_exprs (select_subquery import_query) = true.
Proof. apply (expression_subqueries_escape stmt_exprs stmt_exprs_visits). Defined.

(** The functions documented as excluded from the allowlist. *)
Definition documented_exclusions : list string :=
  ["lo_create"; "lo_creat"; "lowrite"; "lo_from_bytea"; "lo_put"; "lo_get"; "lo_truncate"; "lo_truncate64";
   "lo_unlink"; "lo_import"; "lo_export"; "setval"; "nextval"; "currval"; "lastval"; "pg_read_file";
   "pg_read_binary_file"; "pg_stat_file"; "pg_ls_dir"; "dblink"; "dblink_exec"; "pg_sleep"; "pg_sleep_for";
   "pg_terminate_backend"; "pg_cancel_backend"; "pg_logical_emit_message"; "set_config"]%string.

(** The allowlist keeps its promises: a schema-qualified name is never read-safe,
    and none of the functions documented as excluded (large objects, sequences, server
    files, dblink, sleeping, signalling, settings) is on it, in any letter case. *)
Theorem excluded_functions_refused (name : ObjectName) (ident : string) :
  (length name <> 1%nat -> function_name_is_read_safe name = false) /\
  (Text.to_ascii_lowercase ident ∈ documented_exclusions -> function_name_is_read_safe [Ident ident] = false).
Proof.
  split.
  - intros Hl. by destruct name as [|[] [|]].
  - intros Hin. unfold function_name_is_read_safe. apply not_true_is_false. intros He.
    apply existsb_exists in He as (a & Ha & E%bool_decide_eq_true). rewrite E in Hin.
    assert (Forall (fun a => Text.to_ascii_lowercase a ∉ documented_exclusions) READ_SAFE_FUNCTIONS) as Hall
      by by_decide.
    rewrite List.Forall_forall in Hall. by apply (Hall a).
Qed.

Lemma excluded_functions_refused_witness :
  function_name_is_read_safe [Ident "public"; Ident "count"] = false /\
  function_name_is_read_safe [Ident "LO_Import"] = false.
Proof.
  split.
  - apply (proj1 (excluded_functions_refused [Ident "public"; Ident "count"] "")). simpl. lia.
  - apply (proj2 (excluded_functions_refused [] "LO_Import")). by_decide.
Defined.

End Classifier.
