(* ===== verification/Fuzz.v ===== *)
(** * Fuzz: the oracle of the classifier's fuzz target

    Models [src/fuzz/fuzz_targets/classifier.rs].  The target is a function of the
    classifier it drives, so that what it would notice can be stated; [None] is a failed
    assertion.  How [sqlparser] reads the fixed statements is a table of trees, taken as a
    hypothesis on the parser; a statement it does not read at all is refused anyway. *)

From S2P Require Import Prelude Wire Classifier.

Module Fuzz.
Import Wire Classifier.

Definition UNSAFE_TAILS : list string :=
  ["DROP TABLE users"; "DELETE FROM accounts"; "UPDATE accounts SET balance = 0"; "INSERT INTO logs VALUES (1)";
   "TRUNCATE audit"; "CREATE TABLE t (id int)"; "ALTER TABLE t ADD COLUMN c int"; "GRANT ALL ON t TO public";
   "COPY t FROM PROGRAM 'sh'"]%string.

Definition SIDE_EFFECTING_SELECTS : list string :=
  ["SELECT a OPERATOR(public.writeop) b FROM t";
   "SELECT * FROM t WHERE a OPERATOR(public.wop) b";
   "SELECT a FROM t GROUP BY a HAVING count(*) OPERATOR(public.wop) 0";
   "SELECT a FROM t ORDER BY a OPERATOR(public.wop) b";
   "WITH w AS (SELECT a OPERATOR(public.wop) b AS c FROM t) SELECT * FROM w";
   "SELECT (SELECT a OPERATOR(public.wop) b FROM t)";
   "SELECT * FROM t FOR UPDATE";
   "SELECT * FROM t FOR SHARE";
   "SELECT * FROM t FOR UPDATE NOWAIT";
   "SELECT * FROM (SELECT id FROM t FOR UPDATE) sub";
   "WITH w AS (SELECT id FROM t FOR SHARE) SELECT * FROM w";
   "SELECT x::public.evil";
   "SELECT x::public.evil[]";
   "WITH w AS (SELECT x::public.evil AS y FROM t) SELECT * FROM w";
   "SELECT CONVERT(x, public.evil)";
   "SELECT * FROM t WHERE x::public.evil = 1"]%string.

(** The suffix is chosen by the first byte of the input. *)
Definition tail_for (data : list byte) : string :=
  nth (Z.to_nat (from_option Z_of_byte 0 (head data) mod Z.of_nat (length UNSAFE_TAILS))) UNSAFE_TAILS EmptyString.

Definition stacked (base tail : string) : string := base +:+ String (Ascii.ascii_of_nat 10) ("; " +:+ tail).

Section target.
Context (classify_with_reason : string -> Classification * option NotReadReason).

Definition reads (sql : string) : bool := is_read (classify_with_reason sql).1.

(** [assert!]: a false condition ends the run. *)
Definition check (b : bool) (k : option unit) : option unit := if b then k else None.

Definition fuzz_target (data : list byte) : option unit :=
  match from_utf8 data with
  | Err _ => Some tt
  | Ok base =>
      let '(cls, reason) := classify_with_reason base in
      check (negb (is_read cls) || bool_decide (reason = None) && reads base)
        (check (negb (is_read cls) || negb (reads (stacked base (tail_for data))))
           (check (negb (reads (tail_for data)))
              (check (forallb (fun poison => negb (reads poison)) SIDE_EFFECTING_SELECTS) (Some tt))))
  end.

Lemma check_some b k : check b k = Some tt <-> b = true /\ k = Some tt.
Proof. unfold check. destruct b; naive_solver. Qed.

Lemma target_unfold data :
  utf8_valid data = true ->
  fuzz_target data = Some tt <->
    (reads (of_bytes data) = true ->
       (classify_with_reason (of_bytes data)).2 = None /\ reads (stacked (of_bytes data) (tail_for data)) = false) /\
    reads (tail_for data) = false /\
    (forall poison, In poison SIDE_EFFECTING_SELECTS -> reads poison = false).
Proof.
  intros Hu. unfold fuzz_target, from_utf8. rewrite Hu.
  destruct (classify_with_reason (of_bytes data)) as [cls reason] eqn:E.
  assert (reads (of_bytes data) = is_read cls) as -> by (unfold reads; by rewrite E).
  rewrite !check_some, forallb_forall. setoid_rewrite negb_true_iff.
  generalize SIDE_EFFECTING_SELECTS as poisons. intros poisons. cbn [snd].
  destruct (is_read cls); cbn [negb orb]; rewrite ?andb_true_r, ?bool_decide_eq_true, ?negb_true_iff; intuition done.
Qed.
End target.

Lemma tail_for_listed data : In (tail_for data) UNSAFE_TAILS.
Proof.
  unfold tail_for. apply nth_In. simpl.
  pose proof (Z.mod_pos_bound (from_option Z_of_byte 0 (head data)) 9). lia.
Qed.

(** ** What the oracle asks of a classifier *)

(** The bytes that may stand first select every suffix. *)
Lemma every_tail_is_chosen tail : In tail UNSAFE_TAILS -> exists data, utf8_valid data = true /\ tail_for data = tail.
Proof.
  intros H. assert (exists b, utf8_valid [b] = true /\ tail_for [b] = tail) as (b & Hb).
  { simpl in H. destruct_or! H; try done; subst tail.
    - by exists x24. - by exists x25. - by exists x26. - by exists x27. - by exists x28. - by exists x20.
    - by exists x21. - by exists x22. - by exists x23. }
  by exists [b].
Qed.

(** The target is silent on every input exactly when the classifier gives no reason with a
    read, reads none of the writes and none of the side-effecting selects, and reads no
    read with the one write that its own first byte selects stacked on it. *)
Theorem fuzz_target_silent_iff (classify_with_reason : string -> Classification * option NotReadReason) :
  let reads := reads classify_with_reason in
  (forall data, fuzz_target classify_with_reason data = Some tt) <->
  (forall base, utf8_valid (as_bytes base) = true -> reads base = true ->
     (classify_with_reason base).2 = None /\ reads (stacked base (tail_for (as_bytes base))) = false) /\
  (forall tail, In tail UNSAFE_TAILS -> reads tail = false) /\
  (forall poison, In poison SIDE_EFFECTING_SELECTS -> reads poison = false).
Proof.
  intros rd. split.
  - intros H. split; [|split].
    + intros base Hu Hr. specialize (H (as_bytes base)). apply target_unfold in H as (H & _ & _); [|done].
      rewrite of_as_bytes in H. by apply H.
    + intros tail (data & Hu & <-)%every_tail_is_chosen. specialize (H data). by apply target_unfold in H as (_ & H & _).
    + intros poison Hp. specialize (H []). apply target_unfold in H as (_ & _ & H); [|done]. by apply H.
  - intros (Hb & Ht & Hp) data. destruct (utf8_valid data) eqn:Hu.
    + apply target_unfold; [done|]. split; [|split; [apply Ht, tail_for_listed|done]].
      intros Hr. rewrite <- (as_of_bytes data) in Hu. specialize (Hb _ Hu Hr). by rewrite as_of_bytes in Hb.
    + unfold fuzz_target, from_utf8. by rewrite Hu.
Qed.
(** ** The target on the classifier *)

(** How the parser reads the fixed statements. *)
Definition wop (l r : Expr) : Expr := E_BinaryOp (PGCustomBinaryOperator ["public"; "wop"]%string) l r.
Definition ident : Expr := E_Other [] [].
Definition evil : DataType := DT_Custom [Ident "public"; Ident "evil"].
Definition from_t : list TableWithJoins := [mkTwj (TF_Table [Ident "t"] None) []].
Definition from_w : list TableWithJoins := [mkTwj (TF_Table [Ident "w"] None) []].
Definition select_of (from : list TableWithJoins) (es : list Expr) (locks : nat) : Query :=
  mkQuery [] (SE_Select false from es) locks [].
Definition with_w (cte : Query) : Query := mkQuery [cte] (SE_Select false from_w [ident]) 0 [].

Definition tail_trees : list Statement :=
  [S_Drop; S_Delete; S_Update; S_Insert; S_Truncate; S_CreateTable; S_AlterTable; S_Other; S_Copy].

Definition poison_trees : list Query :=
  [select_of from_t [E_BinaryOp (PGCustomBinaryOperator ["public"; "writeop"]%string) ident ident] 0;
   select_of from_t [ident; wop ident ident] 0;
   select_of from_t [ident; ident; wop (E_Function [Ident "count"] [ident] []) ident] 0;
   mkQuery [] (SE_Select false from_t [ident]) 0 [wop ident ident];
   with_w (select_of from_t [wop ident ident] 0);
   select_of [] [E_Other [] [select_of from_t [wop ident ident] 0]] 0;
   select_of from_t [ident] 1;
   select_of from_t [ident] 1;
   select_of from_t [ident] 1;
   select_of [mkTwj (TF_Derived (select_of from_t [ident] 1)) []] [ident] 0;
   with_w (select_of from_t [ident] 1);
   select_of [] [E_Cast ident evil] 0;
   select_of [] [E_Cast ident (DT_Array (AE_SquareBracket evil))] 0;
   with_w (select_of from_t [E_Cast ident evil] 0);
   select_of [] [E_Convert ident (Some evil)] 0;
   select_of from_t [ident; E_BinaryOp (BuiltinOperator "=") (E_Cast ident evil) ident] 0].

Definition known_trees : list (string * Statement) :=
  zip UNSAFE_TAILS tail_trees ++ zip SIDE_EFFECTING_SELECTS (map S_Query poison_trees).

Section oracle.
Context (parse_sql : string -> option (list Statement)) (visit_expressions : Statement -> list Expr).

(** What is relied on of [sqlparser]: the visitor reaches every expression; the fixed
    statements are read as their trees, if at all; a statement on a line of its own after a
    semicolon is one more statement. *)
Record Parses : Prop := {
  visits : visits_every_expression visit_expressions;
  fixed : forall sql s ss, In (sql, s) known_trees -> parse_sql sql = Some ss -> ss = [s];
  appended : forall base s tail ss, In tail UNSAFE_TAILS -> parse_sql base = Some [s] ->
    parse_sql (stacked base tail) = Some ss -> (2 <= length ss)%nat
}.

Lemma known_tree_refused sql :
  Parses -> In sql (map fst known_trees) -> reads (classify_with_reason parse_sql visit_expressions) sql = false.
Proof.
  intros Hp ([sql' s] & <- & Hin)%in_map_iff. unfold reads, classify_with_reason. simpl.
  destruct (parse_sql sql') as [ss|] eqn:E; [|done]. rewrite (fixed Hp _ _ _ Hin E), (read_any_visit _ s (visits Hp)).
  assert (forallb (fun p => negb (is_read_statement stmt_exprs p.2)) known_trees = true) as Hall by by vm_compute.
  rewrite forallb_forall in Hall. specialize (Hall _ Hin). simpl in Hall. by apply negb_true_iff in Hall as ->.
Qed.

Lemma stacked_refused base tail :
  Parses -> In tail UNSAFE_TAILS -> reads (classify_with_reason parse_sql visit_expressions) base = true ->
  (classify_with_reason parse_sql visit_expressions base).2 = None /\
  reads (classify_with_reason parse_sql visit_expressions) (stacked base tail) = false.
Proof.
  intros Hp Ht. unfold reads, classify_with_reason. destruct (parse_sql base) as [[|s [|]]|] eqn:E; try done.
  destruct (is_read_statement _ s); [|done]. split; [done|].
  destruct (parse_sql (stacked base tail)) as [ss|] eqn:Es; [|done].
  pose proof (appended Hp _ _ _ _ Ht E Es). destruct ss as [|? [|]]; simpl in *; [lia..|done].
Qed.

Lemma known_statements : map fst known_trees = UNSAFE_TAILS ++ SIDE_EFFECTING_SELECTS.
Proof. reflexivity. Qed.
End oracle.

(** The oracle holds of the classifier.  Over any such parser no input makes the target
    fail: no read comes with a reason, and neither a write, alone or stacked on a read, nor
    a select with a qualified operator, a qualified cast or a row lock in its CTEs, its
    FROM or at its top is a read. *)
Theorem fuzz_target_is_silent (parse_sql : string -> option (list Statement)) (visit_expressions : Statement -> list Expr)
    (data : list byte) :
  Parses parse_sql visit_expressions -> fuzz_target (classify_with_reason parse_sql visit_expressions) data = Some tt.
Proof.
  intros Hp. revert data. apply fuzz_target_silent_iff. split; [|split].
  - intros base _ Hr. apply stacked_refused; [done|apply tail_for_listed|done].
  - intros tail Ht. apply known_tree_refused; [done|]. rewrite known_statements, in_app_iff. by left.
  - intros poison Ht. apply known_tree_refused; [done|]. rewrite known_statements, in_app_iff. by right.
Qed.

(** A base that starts as [SELECT] does is only ever tried with the update: a classifier
    that reads such a base with any other write stacked on it is not noticed there. *)
Lemma select_meets_one_tail rest : tail_for (x53 :: rest) = "UPDATE accounts SET balance = 0"%string.
Proof. reflexivity. Qed.

(** A parser with those properties that reads a select, alone and with a write after it. *)
Definition one : Statement := S_Query (select_of [] [ident] 0).
Definition demo_parse (sql : string) : option (list Statement) :=
  if bool_decide (sql = "SELECT 1"%string) then Some [one]
  else if bool_decide (sql = stacked "SELECT 1" "UPDATE accounts SET balance = 0") then Some [one; S_Update]
  else (fun p => [p.2]) <$> List.find (fun p => bool_decide (p.1 = sql)) known_trees.

Definition one_line (sql : string) : bool := negb (existsb (fun b => bool_decide (b = x0a)) (as_bytes sql)).

Lemma stacked_two_lines base tail : one_line (stacked base tail) = false.
Proof.
  unfold one_line, stacked. apply negb_false_iff. apply existsb_exists. exists x0a. split; [|done].
  induction base as [|c base IH]; [by left|]. by right.
Qed.

Lemma demo_parses : Parses demo_parse stmt_exprs.
Proof.
  split; [exact stmt_exprs_visits| |].
  - assert (Forall (fun p => demo_parse p.1 = Some [p.2]) known_trees) as H by (repeat constructor).
    intros sql s ss Hin E. rewrite Forall_forall in H. apply list_elem_of_In, H in Hin. simpl in Hin. congruence.
  - intros base s tail ss _ _. unfold demo_parse. pose proof (stacked_two_lines base tail) as H.
    case_bool_decide as E1; [by rewrite E1 in H|]. case_bool_decide; [intros [= <-]; simpl; lia|].
    destruct (List.find _ _) as [p|] eqn:Ef; [|done]. apply List.find_some in Ef as [Hin Hp%bool_decide_eq_true].
    assert (forallb (fun p => one_line p.1) known_trees = true) as Hall by by vm_compute.
    rewrite forallb_forall in Hall. apply Hall in Hin. congruence.
Qed.

Lemma demo_is_silent data : fuzz_target (classify_with_reason demo_parse stmt_exprs) data = Some tt.
Proof. apply fuzz_target_is_silent, demo_parses. Qed.

(** On that parser the target runs through; on a classifier that reads one of the writes it
    fails. *)
Example fuzz_target_runs :
  fuzz_target (classify_with_reason demo_parse stmt_exprs) (as_bytes "SELECT 1") = Some tt /\
  classify demo_parse stmt_exprs "SELECT 1" = Read /\
  fuzz_target (fun sql => (if bool_decide (sql = "TRUNCATE audit"%string) then Read else NotRead, None)) (as_bytes "(") = None.
Proof. vm_compute. done. Qed.
End Fuzz.
