(* ===== verification/Grant.v ===== *)
(** * Grant: the signed, single-use, time-boxed, proposal-bound grant token

    Models [src/crates/policy/src/grant.rs].  The cryptographic primitives are section
    parameters: [sha256] for the binding hash, [sign] / [verify_strict] for Ed25519 and
    [hex_encode] / [hex_decode].  Nothing is assumed of the hash; the round trip of the
    signature is the documented contract of Ed25519 and of the hex codec, stated as
    named hypotheses where a theorem needs it. *)

From S2P Require Import Prelude PkChecksum Inverse BlastRadius Session.

Module Grant.
Import BlastRadius Clock.

Record GrantBinding : Type := mkBinding {
  statement_text : string;
  normalized_params : list string;
  role : string;
  session_id : string;
  proposal_id : string;
  dry_run_lsn : string;
  cap : WriteCap;
  nonce : string;
  expiry_unix_millis : Z
}.

#[global] Instance GrantBinding_eq_dec : EqDecision GrantBinding.
Proof. solve_decision. Defined.

Definition BINDING_DOMAIN : list byte := as_bytes "pg_brakes.grant.binding.v2".

(** [(s.len() as u64).to_be_bytes() ∥ s.as_bytes()] *)
Definition absorb_str (s : string) : list byte :=
  be_bytes 8 (Z.of_nat (length (as_bytes s))) ++ as_bytes s.

(** The bytes absorbed by the hasher, in the order of the [update] calls. *)
Definition binding_preimage (b : GrantBinding) : list byte :=
  BINDING_DOMAIN ++
  absorb_str (statement_text b) ++
  be_bytes 8 (Z.of_nat (length (normalized_params b))) ++
  concat (map absorb_str (normalized_params b)) ++
  absorb_str (role b) ++
  absorb_str (session_id b) ++
  absorb_str (proposal_id b) ++
  absorb_str (dry_run_lsn b) ++
  be_bytes 8 (max_rows (cap b)) ++
  be_bytes 8 (max_wal_bytes (cap b)) ++
  absorb_str (nonce b) ++
  be_bytes 8 (expiry_unix_millis b).

Record GrantToken : Type := mkToken { binding : GrantBinding; signature_hex : string }.

Inductive GrantError : Type :=
| MalformedSignature
| BadSignature
| BindingMismatch
| ReplayedNonce
| Expired (now_unix_millis expiry : Z).

#[global] Instance GrantError_eq_dec : EqDecision GrantError.
Proof. solve_decision. Defined.

(** ** The single-use nonce store *)

(** The [NonceStore] trait: [consume] returns whether the nonce was unused.  The laws
    are what the trait's documentation promises its callers: a nonce is consumed
    exactly once, and consuming one leaves the others alone. *)
Class NonceStore (N : Type) : Type := {
  consume : N -> string -> bool * N;
  used : N -> string -> bool;
  consume_fresh n x : (consume n x).1 = negb (used n x);
  consume_marks n x : used (consume n x).2 x = true;
  consume_keeps n x y : used n y = true -> used (consume n x).2 y = true
}.

Definition InMemoryNonceStore : Type := gset string.

(** [HashSet::insert] returns whether the value was new. *)
Definition mem_consume (n : gset string) (x : string) : bool * gset string :=
  (negb (bool_decide (x ∈ n)), {[x]} ∪ n).

#[global, refine] Instance InMemoryNonceStore_store : NonceStore (gset string) := {|
  consume := mem_consume;
  used := fun n x => bool_decide (x ∈ n)
|}.
Proof.
  - done.
  - intros n x. apply bool_decide_eq_true. set_solver.
  - intros n x y Hy%bool_decide_eq_true. apply bool_decide_eq_true. simpl. set_solver.
Defined.

Section grant.
Context (sha256 : list byte -> list byte).
Context {SigningKey VerifyingKey Signature : Type}.
Context (key_sign : SigningKey -> list byte -> Signature).
Context (verify_strict : VerifyingKey -> list byte -> Signature -> bool).
Context (signature_to_bytes : Signature -> list byte) (signature_from_bytes : list byte -> Signature).
Context (hex_encode : list byte -> string) (hex_decode : string -> option (list byte)).

Definition binding_hash (b : GrantBinding) : list byte := sha256 (binding_preimage b).

Definition binding_hash_hex (b : GrantBinding) : string :=
  String.append "sha256:" (hex_encode (binding_hash b)).

Definition sign (b : GrantBinding) (k : SigningKey) : GrantToken :=
  mkToken b (hex_encode (signature_to_bytes (key_sign k (binding_hash b)))).

Definition verify_signature (t : GrantToken) (vk : VerifyingKey) : result GrantError unit :=
  match hex_decode (signature_hex t) with
  | None => Err MalformedSignature
  | Some sig_bytes =>
      if decide (length sig_bytes = 64%nat) then
        if verify_strict vk (binding_hash (binding t)) (signature_from_bytes sig_bytes)
        then Ok tt else Err BadSignature
      else Err MalformedSignature
  end.

(** The nonce store after the call and the call's result; the checks in the order of
    the source, the nonce consumed last. *)
Definition verify_for_apply {N C} `{NonceStore N, Clock C}
    (t : GrantToken) (live : GrantBinding) (vk : VerifyingKey) (nonces : N) (clock : C) :
    N * result GrantError unit :=
  match verify_signature t vk with
  | Err e => (nonces, Err e)
  | Ok _ =>
      if decide (binding_hash live = binding_hash (binding t)) then
        let now := now_unix_millis clock in
        if expiry_unix_millis (binding t) <=? now then
          (nonces, Err (Expired now (expiry_unix_millis (binding t))))
        else
          let '(fresh, nonces) := consume nonces (nonce (binding t)) in
          (nonces, if fresh then Ok tt else Err ReplayedNonce)
      else (nonces, Err BindingMismatch)
  end.
End grant.

(** ** The binding hash commits to every field *)

(** Field sizes a [u64] length prefix carries; integers are [u64]s. *)
Definition str_fits (s : string) : Prop := in_u 64 (Z.of_nat (length (as_bytes s))).

Definition binding_fits (b : GrantBinding) : Prop :=
  str_fits (statement_text b) /\ in_u 64 (Z.of_nat (length (normalized_params b))) /\
  Forall str_fits (normalized_params b) /\
  str_fits (role b) /\ str_fits (session_id b) /\ str_fits (proposal_id b) /\ str_fits (dry_run_lsn b) /\
  in_u 64 (max_rows (cap b)) /\ in_u 64 (max_wal_bytes (cap b)) /\
  str_fits (nonce b) /\ in_u 64 (expiry_unix_millis b).

#[global] Instance str_fits_dec s : Decision (str_fits s).
Proof. apply _. Defined.
#[global] Instance binding_fits_dec b : Decision (binding_fits b).
Proof. apply _. Defined.

Lemma be8_prefix_free : prefix_free (in_u 64) (be_bytes 8).
Proof.
  intros x y r1 r2 Hx Hy E. apply app_inj_1 in E as [E ->]; [|by rewrite !be_bytes_length].
  split; [|done]. unfold be_bytes in E.
  apply (f_equal (@rev byte)) in E. rewrite !rev_involutive in E. by apply (le_bytes_inj 8) in E.
Qed.

Lemma absorb_str_prefix_free : prefix_free str_fits absorb_str.
Proof.
  intros s t r1 r2 Hs Ht E. unfold absorb_str in E. rewrite <- !app_assoc in E.
  apply be8_prefix_free in E as [El E]; [|done..].
  apply app_inj_1 in E as [E ->]; [|lia]. split; [by apply as_bytes_inj|done].
Qed.

Lemma binding_preimage_inj a b :
  binding_fits a -> binding_fits b -> binding_preimage a = binding_preimage b -> a = b.
Proof.
  intros (A1 & A2 & A3 & A4 & A5 & A6 & A7 & A8 & A9 & A10 & A11)
         (B1 & B2 & B3 & B4 & B5 & B6 & B7 & B8 & B9 & B10 & B11) E.
  unfold binding_preimage in E. apply app_inv_head in E.
  apply absorb_str_prefix_free in E as [E1 E]; [|done..].
  apply be8_prefix_free in E as [E2 E]; [|done..].
  apply (prefix_free_flat_map str_fits) in E as [E3 E]; auto using absorb_str_prefix_free; [|lia].
  do 4 (apply absorb_str_prefix_free in E as [? E]; [|done..]).
  do 2 (apply be8_prefix_free in E as [? E]; [|done..]).
  apply absorb_str_prefix_free in E as [? E]; [|done..].
  rewrite <- (app_nil_r (be_bytes 8 (expiry_unix_millis a))),
          <- (app_nil_r (be_bytes 8 (expiry_unix_millis b))) in E.
  apply be8_prefix_free in E as [? _]; [|done..].
  destruct a as [? ? ? ? ? ? [] ? ?], b as [? ? ? ? ? ? [] ? ?]; simpl in *. by subst.
Qed.

Section properties.
Context (sha256 : list byte -> list byte).
Context {SigningKey VerifyingKey Signature : Type}.
Context (verify_strict : VerifyingKey -> list byte -> Signature -> bool).
Context (signature_from_bytes : list byte -> Signature).
Context (hex_decode : string -> option (list byte)).
Context {N C : Type} `{NonceStore N, Clock C}.

#[local] Abbreviation verify := (verify_for_apply sha256 verify_strict signature_from_bytes hex_decode).
#[local] Abbreviation sig_ok := (verify_signature sha256 verify_strict signature_from_bytes hex_decode).

Lemma verify_ok_iff t live vk nonces clock nonces' :
  verify t live vk nonces clock = (nonces', Ok tt) <->
  sig_ok t vk = Ok tt /\ binding_hash sha256 live = binding_hash sha256 (binding t) /\
  now_unix_millis clock < expiry_unix_millis (binding t) /\
  used nonces (nonce (binding t)) = false /\ nonces' = (consume nonces (nonce (binding t))).2.
Proof.
  unfold verify_for_apply. destruct (sig_ok t vk) as [[]|e]; [|naive_solver].
  case_decide; [|naive_solver].
  destruct (Z.leb_spec (expiry_unix_millis (binding t)) (now_unix_millis clock)); [naive_solver lia|].
  pose proof (consume_fresh nonces (nonce (binding t))) as Hf.
  destruct (consume nonces (nonce (binding t))) as [fresh n']; simpl in *. subst.
  destruct (used nonces (nonce (binding t))); naive_solver.
Qed.
End properties.

(** What an accepted grant proves.  When [verify_for_apply] accepts, the signature
    over the signed binding verified, the grant had not expired on the injected clock,
    its nonce was unused and is now used, and the live request is the approved one in
    every bound field (statement, parameters, role, session, proposal, LSN, both cap
    ceilings, nonce, expiry); otherwise the two binding pre-images are a collision of
    the hash. *)
Theorem accepted_grant_binds_request (sha256 : list byte -> list byte) {VerifyingKey Signature : Type}
    (verify_strict : VerifyingKey -> list byte -> Signature -> bool)
    (signature_from_bytes : list byte -> Signature) (hex_decode : string -> option (list byte))
    {N C : Type} `{NonceStore N, Clock C}
    (t : GrantToken) (live : GrantBinding) (vk : VerifyingKey) (nonces nonces' : N) (clock : C) :
  binding_fits live -> binding_fits (binding t) ->
  verify_for_apply sha256 verify_strict signature_from_bytes hex_decode t live vk nonces clock =
    (nonces', Ok tt) ->
  verify_signature sha256 verify_strict signature_from_bytes hex_decode t vk = Ok tt /\
  now_unix_millis clock < expiry_unix_millis (binding t) /\
  used nonces (nonce (binding t)) = false /\ used nonces' (nonce (binding t)) = true /\
  (live = binding t \/ exists x y, x <> y /\ sha256 x = sha256 y).
Proof.
  intros Hl Hb (Hs & Hh & He & Hu & ->)%verify_ok_iff.
  do 3 (split; [done|]). split; [apply consume_marks|].
  destruct (decide (binding_preimage live = binding_preimage (binding t))) as [E|E].
  - left. by apply binding_preimage_inj.
  - right. by exists (binding_preimage live), (binding_preimage (binding t)).
Qed.

Definition sample_binding : GrantBinding :=
  mkBinding "DELETE FROM app.t WHERE id = 7" ["7"] "pgb_applier" "sess-1" "p-1" "3A/7F00C8"
    (mkWriteCap 1 4096) "n-1" 1000.

(** Stand-ins for the primitives: the hash is the identity, and a signature is 64 copies
    of the message's length byte. *)
Definition toy_sign (_ : unit) (m : list byte) : list byte :=
  replicate 64 (byte_of_Z (Z.of_nat (length m))).
Definition toy_verify (_ : unit) (m s : list byte) : bool := bool_decide (s = toy_sign tt m).
Definition sample_token : GrantToken :=
  sign (fun l => l) toy_sign (fun s => s) of_bytes sample_binding tt.

Lemma accepted_grant_binds_request_witness :
  used (N:=gset string) ∅ "n-1" = false /\
  (sample_binding = binding sample_token \/ exists x y : list byte, x <> y /\ x = y).
Proof.
  split; [reflexivity|].
  refine (proj2 (proj2 (proj2 (proj2
    (accepted_grant_binds_request (fun l => l) toy_verify (fun s => s) (fun s => Some (as_bytes s))
       sample_token sample_binding tt (∅ : gset string) (mem_consume ∅ "n-1").2 (starting_at 5)
       _ _ _))))).
  - by_decide.
  - by_decide.
  - vm_compute. reflexivity.
Defined.

(** Single use.  Once a grant has been accepted, no later verification of a token
    with the same nonce is accepted, whatever nonces were consumed in between, whatever
    the live request, key and clock. *)
Theorem grant_is_single_use (sha256 : list byte -> list byte) {VerifyingKey Signature : Type}
    (verify_strict : VerifyingKey -> list byte -> Signature -> bool)
    (signature_from_bytes : list byte -> Signature) (hex_decode : string -> option (list byte))
    {N C : Type} `{NonceStore N, Clock C}
    (t t' : GrantToken) (live live' : GrantBinding) (vk vk' : VerifyingKey)
    (nonces nonces' : N) (between : list string) (clock clock' : C) :
  verify_for_apply sha256 verify_strict signature_from_bytes hex_decode t live vk nonces clock =
    (nonces', Ok tt) ->
  nonce (binding t') = nonce (binding t) ->
  let later := foldl (fun n x => (consume n x).2) nonces' between in
  (verify_for_apply sha256 verify_strict signature_from_bytes hex_decode t' live' vk' later clock').2
    <> Ok tt.
Proof.
  intros (_ & _ & _ & _ & ->)%verify_ok_iff Hn later Hok.
  assert (used later (nonce (binding t)) = true) as Hu.
  { unfold later. clear Hok later. pose proof (consume_marks nonces (nonce (binding t))) as Hm. revert Hm.
    generalize (consume nonces (nonce (binding t))).2. intros n.
    revert n. induction between as [|x xs IH]; intros n Hm; simpl; [done|]. by apply IH, consume_keeps. }
  destruct (verify_for_apply _ _ _ _ t' live' vk' later clock') as [n r] eqn:E. simpl in Hok. subst r.
  apply verify_ok_iff in E as (_ & _ & _ & Hf & _). congruence.
Qed.

Lemma grant_is_single_use_witness :
  (verify_for_apply (fun l => l) toy_verify (fun s => s) (fun s => Some (as_bytes s))
     sample_token sample_binding tt
     (foldl (fun (n : gset string) x => (consume n x).2) (mem_consume ∅ "n-1").2 ["other"]) (starting_at 5)).2
    <> Ok tt.
Proof.
  apply (grant_is_single_use (fun l => l) toy_verify (fun s => s) (fun s => Some (as_bytes s))
           sample_token sample_token sample_binding sample_binding tt tt
           (∅ : gset string) (mem_consume ∅ "n-1").2 ["other"] (starting_at 5) (starting_at 5)).
  - vm_compute. reflexivity.
  - reflexivity.
Defined.

(** A rejected verification never burns the nonce of the token, and the rejection
    names the first check that failed: signature, binding, expiry, replay. *)
Theorem rejected_grant_keeps_nonce (sha256 : list byte -> list byte) {VerifyingKey Signature : Type}
    (verify_strict : VerifyingKey -> list byte -> Signature -> bool)
    (signature_from_bytes : list byte -> Signature) (hex_decode : string -> option (list byte))
    {C : Type} `{Clock C}
    (t : GrantToken) (live : GrantBinding) (vk : VerifyingKey) (nonces nonces' : gset string) (clock : C)
    (e : GrantError) :
  verify_for_apply sha256 verify_strict signature_from_bytes hex_decode t live vk nonces clock =
    (nonces', Err e) ->
  nonces' = nonces /\
  match e with
  | MalformedSignature | BadSignature =>
      verify_signature sha256 verify_strict signature_from_bytes hex_decode t vk = Err e
  | BindingMismatch => binding_hash sha256 live <> binding_hash sha256 (binding t)
  | Expired now expiry => now = now_unix_millis clock /\ expiry = expiry_unix_millis (binding t) /\ expiry <= now
  | ReplayedNonce => nonce (binding t) ∈ nonces
  end.
Proof.
  unfold verify_for_apply, verify_signature.
  destruct (hex_decode (signature_hex t)); [|naive_solver].
  case_decide; [|naive_solver]. destruct (verify_strict _ _ _); [|naive_solver].
  case_decide; [|naive_solver].
  destruct (Z.leb_spec (expiry_unix_millis (binding t)) (now_unix_millis clock)); [naive_solver|].
  cbn [consume InMemoryNonceStore_store mem_consume].
  destruct (bool_decide (nonce (binding t) ∈ nonces)) eqn:Hin; simpl; [|naive_solver].
  apply bool_decide_eq_true in Hin. intros [= <- <-]. split; [set_solver|done].
Qed.

Lemma rejected_grant_keeps_nonce_witness :
  ({["n-1"]} : gset string) = {["n-1"]} /\ "n-1" ∈ ({["n-1"]} : gset string).
Proof.
  apply (rejected_grant_keeps_nonce (fun l => l) toy_verify (fun s => s) (fun s => Some (as_bytes s))
           sample_token sample_binding tt {["n-1"]} {["n-1"]} (starting_at 5) ReplayedNonce).
  vm_compute. reflexivity.
Defined.

(** A grant signed by the approver's key verifies for the request it was signed for,
    before its expiry, with a fresh nonce: the accepting path exists for every binding. *)
Lemma signed_grant_accepted (sha256 : list byte -> list byte) {SigningKey VerifyingKey Signature : Type}
    (key_sign : SigningKey -> list byte -> Signature)
    (verify_strict : VerifyingKey -> list byte -> Signature -> bool)
    (to_bytes : Signature -> list byte) (from_bytes : list byte -> Signature)
    (hex_encode : list byte -> string) (hex_decode : string -> option (list byte))
    {N C : Type} `{NonceStore N, Clock C} (k : SigningKey) (vk : VerifyingKey)
    (b : GrantBinding) (nonces : N) (clock : C) :
  (forall l, hex_decode (hex_encode l) = Some l) ->
  (forall s, length (to_bytes s) = 64%nat /\ from_bytes (to_bytes s) = s) ->
  (forall m, verify_strict vk m (key_sign k m) = true) ->
  now_unix_millis clock < expiry_unix_millis b -> used nonces (nonce b) = false ->
  (verify_for_apply sha256 verify_strict from_bytes hex_decode
     (sign sha256 key_sign to_bytes hex_encode b k) b vk nonces clock).2 = Ok tt.
Proof.
  intros Hhex Hsig Hv He Hu.
  rewrite (surjective_pairing (verify_for_apply _ _ _ _ _ _ _ _ _)). cbn [snd].
  assert (verify_for_apply sha256 verify_strict from_bytes hex_decode
     (sign sha256 key_sign to_bytes hex_encode b k) b vk nonces clock =
     ((consume nonces (nonce b)).2, Ok tt)) as ->; [|done].
  apply verify_ok_iff. cbn [sign binding]. split; [|done].
  unfold verify_signature. cbn [sign signature_hex binding]. rewrite Hhex.
  destruct (Hsig (key_sign k (binding_hash sha256 b))) as [Hlen Hfrom].
  rewrite decide_True by done. by rewrite Hfrom, Hv.
Qed.

End Grant.
