(* ===== verification/GrantedApply.v ===== *)
(** * GrantedApply: the grant-gated apply path

    Models [src/crates/clone-orchestrator/src/apply_grant.rs] and the provider kinds of
    [provider.rs]: the one production caller of the guarded apply, which re-derives the
    live binding from the request, re-verifies the signed grant and only then opens the
    transaction.  Parameters are those of the components it composes: the SQL parser
    ([Predicate]), the hash and the signature scheme ([Grant]), SHA-256 ([Apply]). *)

From stdpp Require Import pretty.
From S2P Require Import Prelude Text PkChecksum Inverse Session BlastRadius Config Predicate DryRun Apply Grant.

Module GrantedApply.
Import Config(CloneProvider, CP_None, CP_Dblab, PolicyConfig, provider, clone, pitr, pitr_is_enabled).
Import Clock Barrier BlastRadius DryRun(WriteKind, WUpdate, WDelete) Apply.
Import Grant(GrantToken, GrantBinding, GrantError, mkBinding, mkToken, binding, NonceStore, used, consume, nonce, cap,
             expiry_unix_millis, binding_fits, verify_for_apply, verify_signature).

(** ** The policy knobs of the apply path *)

Inductive ProviderKind : Type := PK_None | PK_Local | PK_Dblab.

Definition provider_is_isolated (k : ProviderKind) : bool :=
  match k with PK_Local | PK_Dblab => true | PK_None => false end.

Definition provider_from (p : CloneProvider) : ProviderKind :=
  match p with CP_None => PK_None | CP_Dblab => PK_Dblab end.

Record BridgedApplyConfig : Type := mkBridged { bridged_provider : ProviderKind; bridged_pitr : PitrConfig }.

Definition pitr_from (enabled : bool) : PitrConfig := if enabled then mkPitr true else mkPitr false.

Definition from_policy (p : PolicyConfig) : BridgedApplyConfig :=
  mkBridged (provider_from (provider (clone p))) (pitr_from (pitr_is_enabled (pitr p))).

Record LiveRequest : Type := mkLive {
  statement_text : string;
  normalized_params : list string;
  role : string;
  session_id : string;
  proposal_id : string
}.

Inductive GrantedApplyError : Type :=
| GGrant (e : GrantError)
| GApply (e : ApplyError)
| Inconsistent (what : string)
| GNotSelfDetermined (reason : Predicate.NotSelfDetermined).

(** The live binding: the request, the record's LSN, and the grant's own cap, nonce and
    expiry. *)
Definition live_binding (grant : GrantToken) (live : LiveRequest) (br : BlastRadius) : GrantBinding :=
  mkBinding (statement_text live) (normalized_params live) (role live) (session_id live) (proposal_id live)
    (clone_lsn br) (cap (binding grant)) (nonce (binding grant)) (expiry_unix_millis (binding grant)).

Section path.
Context (parse_sql : string -> result string (list Predicate.Statement)).
Context (visit_below : Predicate.Expr -> list Predicate.Expr) (to_lowercase : string -> string).
Context (sha256 : list byte -> list byte) {VerifyingKey Signature : Type}.
Context (verify_strict : VerifyingKey -> list byte -> Signature -> bool).
Context (signature_from_bytes : list byte -> Signature) (hex_decode : string -> option (list byte)).
Context (overflow_checks : bool) (sha256_hex : list byte -> string) (debug_str : string -> string).

(** Step (a0): the structural predicate gate, when the connection knows the key. *)
Definition predicate_gate {W} `{ApplyConn W} (live : LiveRequest) (relation : string) (w : W) :
    W * option Predicate.NotSelfDetermined :=
  let '(w, pk) := self_determined_pk_column w relation in
  (w, pk ≫= fun pk_col =>
        Predicate.self_determined_predicate_structural_reason parse_sql visit_below to_lowercase
          (statement_text live) pk_col).

(** Steps (a) and (b): the record is for this request, keyable, and within the cap.
    [None] is the overflow panic of the fallback total. *)
Definition consistency (grant : GrantToken) (live : LiveRequest) (relation : string) (br : BlastRadius) :
    option (result GrantedApplyError unit) :=
  if negb (bool_decide (BlastRadius.proposal_id br = proposal_id live)) then
    Some (Err (Inconsistent ("blast-radius proposal_id `" +:+ BlastRadius.proposal_id br +:+
                             "` != live proposal_id `" +:+ proposal_id live +:+ "`")))
  else if bool_decide (pk_set_checksum (affected br) !! relation = None) then
    Some (Err (Inconsistent ("blast-radius has no pk_set_checksum for target `" +:+ relation +:+
                             "` (un-keyable write)")))
  else
    let cap := cap (binding grant) in
    predicted_rows ← predicted_total_tuples overflow_checks br;
    Some
      (if max_rows cap <? predicted_rows then
         Err (Inconsistent ("grant cap max_rows=" +:+ pretty (max_rows cap) +:+
                            " cannot admit the dry-run's measured footprint of " +:+ pretty predicted_rows +:+
                            " rows (the approved cap is smaller than the write it authorizes)"))
       else if max_wal_bytes cap <? wal_bytes br then
         Err (Inconsistent ("grant cap max_wal_bytes=" +:+ pretty (max_wal_bytes cap) +:+
                            " cannot admit the dry-run's measured " +:+ pretty (wal_bytes br) +:+ " WAL bytes"))
       else Ok tt).

Definition guarded_apply_with_grant {N W B C} `{NonceStore N, ApplyConn W, ApplyBarrier B W, Clock C}
    (policy : PolicyConfig) (grant : GrantToken) (live : LiveRequest) (verifying_key : VerifyingKey)
    (nonces : N) (kind : WriteKind) (relation : string) (br : BlastRadius) (w : W) (b : B) (clock : C) :
    option (N * (B * (W * result GrantedApplyError (AppliedWrite * BridgedApplyConfig)))) :=
  let bridged := from_policy policy in
  let '(w, steerable) := predicate_gate live relation w in
  match steerable with
  | Some reason => Some (nonces, (b, (w, Err (GNotSelfDetermined reason))))
  | None =>
      checked ← consistency grant live relation br;
      match checked with
      | Err e => Some (nonces, (b, (w, Err e)))
      | Ok _ =>
          let '(nonces, verified) :=
            verify_for_apply sha256 verify_strict signature_from_bytes hex_decode
              grant (live_binding grant live br) verifying_key nonces clock in
          match verified with
          | Err e => Some (nonces, (b, (w, Err (GGrant e))))
          | Ok _ =>
              '(b, (w, applied)) ←
                guarded_apply overflow_checks sha256_hex debug_str (proposal_id live) kind relation br
                  (cap (binding grant)) (bridged_pitr bridged) w b clock;
              Some (nonces, (b, (w, let? a := result_map_err GApply applied in Ok (a, bridged))))
          end
      end
  end.
End path.

(** ** Properties *)

Section spec.
Context (parse_sql : string -> result string (list Predicate.Statement)).
Context (visit_below : Predicate.Expr -> list Predicate.Expr) (to_lowercase : string -> string).
Context (sha256 : list byte -> list byte) {VerifyingKey Signature : Type}.
Context (verify_strict : VerifyingKey -> list byte -> Signature -> bool).
Context (signature_from_bytes : list byte -> Signature) (hex_decode : string -> option (list byte)).
Context (overflow_checks : bool) (sha256_hex : list byte -> string) (debug_str : string -> string).
Context {N W B C : Type} `{NonceStore N, ApplyConnLaws W, ApplyBarrier B W, Clock C}.

#[local] Abbreviation attempt := (guarded_apply_with_grant parse_sql visit_below to_lowercase sha256 verify_strict
  signature_from_bytes hex_decode overflow_checks sha256_hex debug_str).

(** A run that changed the log: the gate admitted the predicate, the grant verified
    against the live binding, and one transaction within the signed cap was published. *)
Lemma attempt_log policy grant live vk (nonces nonces' : N) kind relation br (w w' : W) (b b' : B) (clock : C) r :
  quiet (W:=W) (B:=B) -> ready w ->
  attempt policy grant live vk nonces kind relation br w b clock = Some (nonces', (b', (w', r))) ->
  committed w' = committed w \/
  exists changes wal,
    committed w' = committed w ++ [(changes, wal)] /\
    live_rows changes <= max_rows (cap (binding grant)) /\ wal <= max_wal_bytes (cap (binding grant)) /\
    Forall (within_footprint (effect_by_table (affected br)) relation kind) changes /\
    (forall pk, (self_determined_pk_column w relation).2 = Some pk ->
       Predicate.self_determined_predicate_structural_reason parse_sql visit_below to_lowercase
         (statement_text live) pk = None) /\
    verify_for_apply sha256 verify_strict signature_from_bytes hex_decode grant (live_binding grant live br)
      vk nonces clock = (nonces', Ok tt).
Proof.
  intros Hq Hrdy. unfold guarded_apply_with_grant, predicate_gate.
  pose proof (pk_column_keeps w relation) as [Hpk Hpk'].
  destruct (self_determined_pk_column w relation) as [w1 pk]. simpl in Hpk, Hpk'. specialize (Hpk' Hrdy).
  destruct (pk ≫= _) eqn:Egate; [intros; simplify_eq; by left|].
  destruct (consistency _ _ _ _ _) as [[[]|e]|]; simpl; try done; [|intros; simplify_eq; by left].
  destruct (verify_for_apply _ _ _ _ _ _ _ _ _) as [n1 [[]|e]] eqn:Ev; [|intros; simplify_eq; by left].
  destruct (guarded_apply _ _ _ _ _ _ _ _ _ _ _ _) as [[b1 [w2 applied]]|] eqn:Ea; simpl; [|done].
  apply (guarded_apply_log _ _ _ _ _ _ _ _ _ _ _ _ _ _ _ Hq Hpk') in Ea. intros; simplify_eq.
  destruct Ea as [Ea|(changes & wal & Ea & Hr & Hw & Hf)]; [left; congruence|right].
  exists changes, wal. split_and!; auto; [congruence|]. intros pk' ->. done.
Qed.

(** Whatever the outcome, a consumed nonce stays consumed. *)
Lemma attempt_nonces policy grant live vk (nonces nonces' : N) kind relation br (w w' : W) (b b' : B) (clock : C) r x :
  attempt policy grant live vk nonces kind relation br w b clock = Some (nonces', (b', (w', r))) ->
  used nonces x = true -> used nonces' x = true.
Proof.
  unfold guarded_apply_with_grant. destruct (predicate_gate _ _ _ _ _ _) as [w1 [reason|]]; [by intros [= <- _]|].
  destruct (consistency _ _ _ _ _) as [[[]|e]|]; simpl; [|by intros [= <- _]|done].
  assert (forall n1 v, verify_for_apply sha256 verify_strict signature_from_bytes hex_decode grant
            (live_binding grant live br) vk nonces clock = (n1, v) -> used nonces x = true -> used n1 x = true) as Hmono.
  { intros n1 v. unfold verify_for_apply. destruct (verify_signature _ _ _ _ _ _) as [[]|e]; [|by intros [= <- _]].
    case_decide; [|by intros [= <- _]]. destruct (_ <=? _); [by intros [= <- _]|].
    pose proof (Grant.consume_keeps nonces (nonce (binding grant)) x) as Hk.
    destruct (consume _ _) as [fresh n2]. intros [= <- _]. done. }
  destruct (verify_for_apply _ _ _ _ _ _ _ _ _) as [n1 [[]|e]]; [|intros [= <- _]; by eapply Hmono].
  destruct (guarded_apply _ _ _ _ _ _ _ _ _ _ _ _) as [[b1 [w2 applied]]|]; simpl; [|done].
  intros [= <- _]. by eapply Hmono.
Qed.
End spec.

(** C5: nothing is committed without an approval.  If a grant-gated apply, on a connection
    with no open transaction, changed the
    database at all, then the approver's signature over the grant verified, the grant
    had not expired, its nonce was unused and is now used, the live request is the
    approved one in every bound field (or the hash has a collision), the predicate
    passed the structural gate when the key is known, and what was committed is one
    transaction within the signed caps that touched only predicted relations. *)
Theorem commits_only_approved (parse_sql : string -> result string (list Predicate.Statement))
    (visit_below : Predicate.Expr -> list Predicate.Expr) (to_lowercase : string -> string)
    (sha256 : list byte -> list byte) {VerifyingKey Signature : Type}
    (verify_strict : VerifyingKey -> list byte -> Signature -> bool)
    (signature_from_bytes : list byte -> Signature) (hex_decode : string -> option (list byte))
    (overflow_checks : bool) (sha256_hex : list byte -> string) (debug_str : string -> string)
    {N W B C : Type} `{NonceStore N, ApplyConnLaws W, ApplyBarrier B W, Clock C}
    (policy : PolicyConfig) (grant : GrantToken) (live : LiveRequest) (vk : VerifyingKey) (nonces nonces' : N)
    (kind : WriteKind) (relation : string) (br : BlastRadius) (w w' : W) (b b' : B) (clock : C)
    (r : result GrantedApplyError (AppliedWrite * BridgedApplyConfig)) :
  quiet (W:=W) (B:=B) -> ready w -> binding_fits (live_binding grant live br) -> binding_fits (binding grant) ->
  guarded_apply_with_grant parse_sql visit_below to_lowercase sha256 verify_strict signature_from_bytes hex_decode
    overflow_checks sha256_hex debug_str policy grant live vk nonces kind relation br w b clock =
    Some (nonces', (b', (w', r))) ->
  committed w' <> committed w ->
  verify_signature sha256 verify_strict signature_from_bytes hex_decode grant vk = Ok tt /\
  now_unix_millis clock < expiry_unix_millis (binding grant) /\
  used nonces (nonce (binding grant)) = false /\ used nonces' (nonce (binding grant)) = true /\
  (live_binding grant live br = binding grant \/ exists x y, x <> y /\ sha256 x = sha256 y) /\
  (forall pk, (self_determined_pk_column w relation).2 = Some pk ->
     Predicate.self_determined_predicate_structural_reason parse_sql visit_below to_lowercase
       (statement_text live) pk = None) /\
  exists changes wal, committed w' = committed w ++ [(changes, wal)] /\
    live_rows changes <= max_rows (cap (binding grant)) /\ wal <= max_wal_bytes (cap (binding grant)) /\
    Forall (within_footprint (effect_by_table (affected br)) relation kind) changes.
Proof.
  intros Hq Hrdy Hl Hg Ha Hne.
  destruct (attempt_log _ _ _ _ _ _ _ _ _ _ _ _ _ _ _ _ _ _ _ _ _ _ _ _ _ Hq Hrdy Ha)
    as [?|(changes & wal & Hc & Hr & Hw & Hf & Hpred & Hv)]; [done|].
  apply Grant.verify_ok_iff in Hv as (Hs & Hh & He & Hu & ->).
  do 3 (split; [done|]). split; [apply Grant.consume_marks|]. split; [|split; [done|by exists changes, wal]].
  destruct (decide (Grant.binding_preimage (live_binding grant live br) = Grant.binding_preimage (binding grant)))
    as [E|E].
  - left. by apply Grant.binding_preimage_inj.
  - right. by exists (Grant.binding_preimage (live_binding grant live br)), (Grant.binding_preimage (binding grant)).
Qed.

(** A request, its record and a grant signed for it. *)
Definition demo_live : LiveRequest := mkLive "DELETE FROM t WHERE id = 7" [] "pgb_applier" "sess-1" "p-1".
Definition demo_record : BlastRadius := one_row_record (mkOpCounts 0 0 1).
Definition demo_grant : GrantToken :=
  Grant.sign (fun l => l) Grant.toy_sign (fun s => s) of_bytes
    (mkBinding "DELETE FROM t WHERE id = 7" [] "pgb_applier" "sess-1" "p-1" "0/1" (mkWriteCap 1 4096) "n-1" 1000) tt.
Definition demo_policy : PolicyConfig :=
  Config.mkPolicy 1 [] None (Config.mkReplica None None) (Config.mkClone CP_None) (Config.mkPolicyPitr true)
    (Config.mkApprovers None) (Config.mkAuditConfig None None).
Definition demo_conn : ScriptedConn :=
  mkScriptedConn (Ok (forward_new [row_of 7])) [mkChange "public.t" 0 0 1] 80 (Some "id"%string) [].
Definition demo_parse (_ : string) : result string (list Predicate.Statement) :=
  Ok [Predicate.Delete [Predicate.plain_table] false
        (Some (Predicate.Binary Predicate.BinaryOp (Predicate.column "id") Predicate.Value))].
Definition demo_attempt (nonces : gset string) (w : ScriptedConn) :=
  guarded_apply_with_grant demo_parse Predicate.below Text.to_ascii_lowercase (fun l => l) Grant.toy_verify
    (fun s => s) (fun s => Some (as_bytes s)) true (fun _ => "aa"%string) (fun s => s)
    demo_policy demo_grant demo_live tt nonces WDelete "public.t" demo_record w mkNoopBarrier (starting_at 5).
Definition demo_conn_after : ScriptedConn :=
  mkScriptedConn (Ok (forward_new [row_of 7])) [mkChange "public.t" 0 0 1] 80 (Some "id"%string)
    [([mkChange "public.t" 0 0 1], 80)].

Lemma demo_attempt_commits :
  exists r, demo_attempt ∅ demo_conn = Some ({["n-1"%string]}, (mkNoopBarrier, (demo_conn_after, r))) /\ is_ok r = true.
Proof. vm_compute. eexists. split; reflexivity. Qed.

Lemma commits_only_approved_witness :
  exists r, demo_attempt ∅ demo_conn = Some ({["n-1"%string]}, (mkNoopBarrier, (demo_conn_after, r))) /\
    verify_signature (fun l => l) Grant.toy_verify (fun s => s) (fun s => Some (as_bytes s)) demo_grant tt = Ok tt.
Proof.
  destruct demo_attempt_commits as (r & E & _). exists r. split; [exact E|].
  refine (proj1 (commits_only_approved demo_parse Predicate.below Text.to_ascii_lowercase (fun l => l) Grant.toy_verify
    (fun s => s) (fun s => Some (as_bytes s)) true (fun _ => "aa"%string) (fun s => s)
    demo_policy demo_grant demo_live tt (∅ : gset string) {["n-1"%string]} WDelete "public.t" demo_record
    demo_conn demo_conn_after mkNoopBarrier mkNoopBarrier (starting_at 5) r scripted_quiet I _ _ E _)).
  - by_decide.
  - by_decide.
  - discriminate.
Defined.

(** C12: one commit per grant.  Once an attempt with a grant changed the database, no
    later attempt with a grant of the same nonce changes it, whatever the request, the
    key, the record and the connection, and whatever nonces were consumed in between. *)
Theorem one_commit_per_grant (parse_sql : string -> result string (list Predicate.Statement))
    (visit_below : Predicate.Expr -> list Predicate.Expr) (to_lowercase : string -> string)
    (sha256 : list byte -> list byte) {VerifyingKey Signature : Type}
    (verify_strict : VerifyingKey -> list byte -> Signature -> bool)
    (signature_from_bytes : list byte -> Signature) (hex_decode : string -> option (list byte))
    (overflow_checks : bool) (sha256_hex : list byte -> string) (debug_str : string -> string)
    {N W B C : Type} `{NonceStore N, ApplyConnLaws W, ApplyBarrier B W, Clock C}
    (policy policy2 : PolicyConfig) (grant grant2 : GrantToken) (live live2 : LiveRequest) (vk vk2 : VerifyingKey)
    (nonces nonces' : N) (between : list string) (kind kind2 : WriteKind) (relation relation2 : string)
    (br br2 : BlastRadius) (w w' w2 : W) (b b' b2 : B) (clock clock2 : C)
    (r : result GrantedApplyError (AppliedWrite * BridgedApplyConfig)) :
  quiet (W:=W) (B:=B) -> ready w -> ready w2 ->
  guarded_apply_with_grant parse_sql visit_below to_lowercase sha256 verify_strict signature_from_bytes hex_decode
    overflow_checks sha256_hex debug_str policy grant live vk nonces kind relation br w b clock =
    Some (nonces', (b', (w', r))) ->
  committed w' <> committed w ->
  nonce (binding grant2) = nonce (binding grant) ->
  forall n2 b2' w2' r2,
  guarded_apply_with_grant parse_sql visit_below to_lowercase sha256 verify_strict signature_from_bytes hex_decode
    overflow_checks sha256_hex debug_str policy2 grant2 live2 vk2
    (foldl (fun n x => (consume n x).2) nonces' between) kind2 relation2 br2 w2 b2 clock2 =
    Some (n2, (b2', (w2', r2))) ->
  committed w2' = committed w2.
Proof.
  intros Hq Hrdy Hrdy2 Ha Hne Hn n2 b2' w2' r2 Ha2.
  destruct (attempt_log _ _ _ _ _ _ _ _ _ _ _ _ _ _ _ _ _ _ _ _ _ _ _ _ _ Hq Hrdy Ha)
    as [?|(_ & _ & _ & _ & _ & _ & _ & Hv)]; [done|].
  destruct (attempt_log _ _ _ _ _ _ _ _ _ _ _ _ _ _ _ _ _ _ _ _ _ _ _ _ _ Hq Hrdy2 Ha2)
    as [?|(_ & _ & _ & _ & _ & _ & _ & Hv2)]; [done|].
  apply Grant.verify_ok_iff in Hv as (_ & _ & _ & _ & ->).
  apply Grant.verify_ok_iff in Hv2 as (_ & _ & _ & Hu & _). rewrite Hn in Hu. exfalso.
  enough (used (foldl (fun n x => (consume n x).2) (consume nonces (nonce (binding grant))).2 between)
            (nonce (binding grant)) = true) by congruence.
  clear. pose proof (Grant.consume_marks nonces (nonce (binding grant))) as Hm. revert Hm.
  generalize (consume nonces (nonce (binding grant))).2. intros n. revert n.
  induction between as [|x xs IH]; intros n Hm; simpl; [done|]. by apply IH, Grant.consume_keeps.
Qed.

Lemma one_commit_per_grant_witness :
  exists n2 b2 w2 r2, demo_attempt {["n-1"%string]} demo_conn_after = Some (n2, (b2, (w2, r2))) /\
    committed w2 = committed demo_conn_after.
Proof.
  destruct demo_attempt_commits as (r & E & _).
  destruct (demo_attempt {["n-1"%string]} demo_conn_after) as [[n2 [b2 [w2 r2]]]|] eqn:E2;
    [|vm_compute in E2; discriminate].
  exists n2, b2, w2, r2. split; [reflexivity|].
  refine (one_commit_per_grant demo_parse Predicate.below Text.to_ascii_lowercase (fun l => l) Grant.toy_verify
    (fun s => s) (fun s => Some (as_bytes s)) true (fun _ => "aa"%string) (fun s => s)
    demo_policy demo_policy demo_grant demo_grant demo_live demo_live tt tt
    (∅ : gset string) {["n-1"%string]} [] WDelete WDelete "public.t" "public.t" demo_record demo_record
    demo_conn demo_conn_after demo_conn_after mkNoopBarrier mkNoopBarrier mkNoopBarrier (starting_at 5) (starting_at 5)
    r scripted_quiet I I E _ _ n2 b2 w2 r2 E2).
  - discriminate.
  - reflexivity.
Defined.

End GrantedApply.
