(* ===== verification/Policy.v ===== *)
(** * Policy: intent tiers, the verdict ladder and the risk-engine seam

    Models the data of [src/crates/policy/src/intent.rs] (tiers T0 to T2, captured and
    logged), [verdict.rs] (the totally ordered verdicts) and [risk.rs] (the engine
    trait, its stub, and the clamp that makes any engine tighten-only). *)

From Stdlib Require Import SpecFloat.
From S2P Require Import Prelude PkChecksum Inverse BlastRadius.

Module Policy.
Import BlastRadius.

(** ** Captured intent *)

Record TierT0 : Type := mkT0 { t0_role : string; t0_purpose : option string }.

Record IntentAnnotation : Type := mkAnnotation {
  ann_intent : option string;
  ann_ticket : option string;
  ann_actor : option string
}.

Definition annotation_default : IntentAnnotation := mkAnnotation None None None.

Definition annotation_is_empty (a : IntentAnnotation) : bool :=
  match ann_intent a, ann_ticket a, ann_actor a with None, None, None => true | _, _, _ => false end.

Record TierT1 : Type := mkT1 {
  t1_statement_text : string;
  t1_statement_class : option string;
  t1_application_name : option string;
  t1_gucs : gmap string string;
  t1_annotation : IntentAnnotation
}.

Record ObservedStep : Type := mkStep {
  step_class : string;
  step_tables : list string;
  step_at_monotonic_millis : Z
}.

Record TierT2 : Type := mkT2 {
  t2_query_sequence : list ObservedStep;
  t2_reads_before_write : bool;
  t2_rate_per_min : option f64;
  t2_tables : list string
}.

Record IntentTiers : Type := mkIntentTiers { t0 : TierT0; t1 : TierT1; t2 : TierT2 }.

Definition intent_default : IntentTiers :=
  mkIntentTiers (mkT0 EmptyString None) (mkT1 EmptyString None None ∅ annotation_default)
    (mkT2 [] false None []).

(** ** Verdicts *)

Inductive Verdict : Type := Allow | Escalate | Hold | Block.

#[global] Instance Verdict_eq_dec : EqDecision Verdict.
Proof. solve_decision. Defined.

Definition verdict_rank (v : Verdict) : Z :=
  match v with Allow => 0 | Escalate => 1 | Hold => 2 | Block => 3 end.

Definition verdict_leb (a b : Verdict) : bool := verdict_rank a <=? verdict_rank b.
Definition verdict_le (a b : Verdict) : Prop := verdict_leb a b = true.

Definition FLOOR_DEFAULT : Verdict := Allow.

(** [core::cmp::max]: the second argument when they compare equal. *)
Definition tighter (a b : Verdict) : Verdict := if verdict_leb a b then b else a.

Definition is_at_least_as_tight_as (v floor : Verdict) : bool := verdict_leb floor v.

(** ** The risk engine *)

Record MeasuredStats : Type := mkStats {
  rows_affected : option Z;
  stat_bytes : option Z;
  estimated_cost : option f64;
  stat_wal_bytes : option Z
}.

Record RiskInput : Type := mkRiskInput {
  ri_sql : string;
  ri_schema : string;
  ri_measured_stats : MeasuredStats;
  ri_intent_tiers : IntentTiers
}.

Record RiskVerdict : Type := mkRiskVerdict {
  rv_verdict : Verdict;
  rv_reason : string;
  rv_confidence : f64
}.

Definition f64_one : f64 := S754_finite false 4503599627370496 (-52).

Definition risk_allow (reason : string) : RiskVerdict := mkRiskVerdict Allow reason f64_one.

Definition verdict_debug (v : Verdict) : string :=
  match v with Allow => "Allow" | Escalate => "Escalate" | Hold => "Hold" | Block => "Block" end.

Definition clamp_to_floor (r : RiskVerdict) (floor : Verdict) : RiskVerdict :=
  if verdict_leb floor (rv_verdict r) then r
  else mkRiskVerdict floor
         (String.append "risk engine attempted to loosen below floor ("
           (String.append (verdict_debug (rv_verdict r))
             (String.append " < "
               (String.append (verdict_debug floor) "); clamped to floor"))))
         (rv_confidence r).

Class RiskEngine (E : Type) : Type := { assess : E -> RiskInput -> RiskVerdict }.

Inductive AllowStub : Type := allow_stub.

#[global] Instance AllowStub_engine : RiskEngine AllowStub := {|
  assess := fun _ _ =>
    risk_allow "MVP stub: risk engine returns Allow; the deterministic floor enforces safety (SPEC §11.5)"
|}.

Definition stub_evaluate (_ : AllowStub) : Verdict := Allow.

(** ** The ladder is a lattice *)

#[global] Instance verdict_le_po : PartialOrder verdict_le.
Proof.
  split; [split|].
  - by intros [].
  - by intros [] [] [].
  - by intros [] [].
Qed.

Lemma tighter_lub a b c : verdict_le (tighter a b) c <-> verdict_le a c /\ verdict_le b c.
Proof. destruct a, b, c; unfold verdict_le; simpl; naive_solver. Qed.

(** The clamp makes every engine tighten-only.  For any engine, buggy or hostile,
    any input and any floor, the clamped verdict is exactly the tighter of the floor
    and the engine's verdict, so it never falls below the floor; with the stub engine it
    is the floor. *)
Theorem clamped_engine_tightens {E : Type} `{RiskEngine E} (e : E) (input : RiskInput) (floor : Verdict) :
  rv_verdict (clamp_to_floor (assess e input) floor) = tighter floor (rv_verdict (assess e input)) /\
  verdict_le floor (rv_verdict (clamp_to_floor (assess e input) floor)) /\
  rv_verdict (clamp_to_floor (assess allow_stub input) floor) = floor.
Proof.
  unfold clamp_to_floor, tighter, verdict_le.
  split; [|split].
  - by destruct (verdict_leb floor (rv_verdict (assess e input))).
  - destruct (verdict_leb floor (rv_verdict (assess e input))) eqn:E1; [done|]. by destruct floor.
  - by destruct floor.
Qed.

End Policy.
