(* ===== verification/Intent.v ===== *)
(** * Intent: capture of the declared intent from a statement's text

    Models the functions of [src/crates/policy/src/intent.rs]; its data are in [Policy].
    Text is its UTF-8 bytes; every position the code slices at is next to an ASCII byte,
    so no slice falls inside a character. *)

From S2P Require Import Prelude Text Policy.

Module Intent.
Import Text Policy.

(** [str::find]: the byte offset of the first occurrence. *)
Fixpoint find (p l : list byte) : option nat :=
  if starts_with p l then Some O
  else match l with [] => None | _ :: l => option_map S (find p l) end.

(** [str::strip_prefix]. *)
Definition strip_prefix (p l : list byte) : option (list byte) :=
  if starts_with p l then Some (drop (length p) l) else None.

Definition OPEN : list byte := as_bytes "/*".
Definition CLOSE : list byte := as_bytes "*/".

Definition ascii_alphabetic (b : byte) : bool :=
  let z := Z_of_byte b in ((65 <=? z) && (z <=? 90)) || ((97 <=? z) && (z <=? 122)).
Definition ascii_upper (b : byte) : byte :=
  let z := Z_of_byte b in if (97 <=? z) && (z <=? 122) then byte_of_Z (z - 32) else b.

Fixpoint take_while (f : byte -> bool) (l : list byte) : list byte :=
  match l with
  | b :: l => if f b then b :: take_while f l else []
  | [] => []
  end.

(** The [while] loop of [strip_leading_comments]; each round drops a comment. *)
Fixpoint strip_comments (fuel : nat) (rest : list byte) : list byte :=
  match fuel with
  | O => rest
  | S fuel =>
      match strip_prefix OPEN rest with
      | Some after_open =>
          match find CLOSE after_open with
          | Some e => strip_comments fuel (trim_start (drop (e + 2) after_open))
          | None => []
          end
      | None => rest
      end
  end.

Definition strip_leading_comments (sql : list byte) : list byte :=
  strip_comments (length sql) (trim_start sql).

Definition statement_class (sql : string) : option string :=
  let trimmed := trim_start (strip_leading_comments (as_bytes sql)) in
  match take_while ascii_alphabetic trimmed with
  | [] => None
  | word => Some (of_bytes (map ascii_upper word))
  end.

Inductive Key : Type := KIntent | KTicket | KActor.

#[global] Instance Key_eq_dec : EqDecision Key.
Proof. solve_decision. Defined.

Definition ANNOTATION_KEYS : list Key := [KIntent; KTicket; KActor].
Definition key_pattern (k : Key) : list byte :=
  as_bytes (match k with KIntent => "intent:" | KTicket => "ticket:" | KActor => "actor:" end).

(** A hit: the key's position, the key, the position its value starts at. *)
Record Hit : Type := mkHit { key_pos : nat; hit_key : Key; value_start : nat }.

(** The inner [while] loop: the occurrences of one key from [search_from] on. *)
Fixpoint key_hits (fuel : nat) (lower : list byte) (k : Key) (search_from : nat) : list Hit :=
  match fuel with
  | O => []
  | S fuel =>
      match find (key_pattern k) (drop search_from lower) with
      | Some rel =>
          let pos := (search_from + rel)%nat in
          let start := (pos + length (key_pattern k))%nat in
          mkHit pos k start :: key_hits fuel lower k start
      | None => []
      end
  end.

(** [sort_by_key] on the position: a stable sort. *)
Fixpoint insert_hit (h : Hit) (l : list Hit) : list Hit :=
  match l with
  | [] => [h]
  | h' :: l' => if (key_pos h <=? key_pos h')%nat then h :: l else h' :: insert_hit h l'
  end.
Definition sort_hits (l : list Hit) : list Hit := foldr insert_hit [] l.

(** [trim_end_matches([',', ';'])]. *)
Fixpoint drop_separators (l : list byte) : list byte :=
  match l with
  | x2c :: l' | x3b :: l' => drop_separators l'
  | _ => l
  end.
Definition trim_separators (l : list byte) : list byte := rev (drop_separators (rev l)).

Definition hit_value (body : list byte) (value_start value_end : nat) : list byte :=
  trim_bytes (trim_separators (trim_bytes (take (value_end - value_start) (drop value_start body)))).

(** A field already set keeps its first value. *)
Definition set_field (a : IntentAnnotation) (k : Key) (v : string) : IntentAnnotation :=
  match k with
  | KIntent => if ann_intent a is Some _ then a else mkAnnotation (Some v) (ann_ticket a) (ann_actor a)
  | KTicket => if ann_ticket a is Some _ then a else mkAnnotation (ann_intent a) (Some v) (ann_actor a)
  | KActor => if ann_actor a is Some _ then a else mkAnnotation (ann_intent a) (ann_ticket a) (Some v)
  end.

(** The loop over the sorted hits: a value runs to the next hit or the end of the body. *)
Fixpoint collect_fields (body : list byte) (hits : list Hit) (out : IntentAnnotation) : IntentAnnotation :=
  match hits with
  | [] => out
  | h :: hits =>
      let value_end := match hits with next :: _ => key_pos next | [] => length body end in
      if (value_end <? value_start h)%nat then collect_fields body hits out
      else
        match hit_value body (value_start h) value_end with
        | [] => collect_fields body hits out
        | v => collect_fields body hits (set_field out (hit_key h) (of_bytes v))
        end
  end.

Definition body_hits (body : list byte) : list Hit :=
  let lower := map ascii_lower body in
  sort_hits (flat_map (fun k => key_hits (length body) lower k 0) ANNOTATION_KEYS).

Definition parse_annotation_body (body : list byte) : IntentAnnotation :=
  collect_fields body (body_hits body) annotation_default.

(** The scan over the block comments of the text. *)
Fixpoint scan_comments (fuel : nat) (haystack : list byte) : IntentAnnotation :=
  match fuel with
  | O => annotation_default
  | S fuel =>
      match find OPEN haystack with
      | None => annotation_default
      | Some open =>
          let after_open := drop (open + 2) haystack in
          match find CLOSE after_open with
          | None => annotation_default
          | Some close =>
              let parsed := parse_annotation_body (take close after_open) in
              if annotation_is_empty parsed then scan_comments fuel (drop (close + 2) after_open)
              else parsed
          end
      end
  end.

Definition parse_intent_annotation (sql : string) : IntentAnnotation :=
  let l := as_bytes sql in scan_comments (length l) l.

Definition from_statement (role statement_text : string) (application_name : option string) : IntentTiers :=
  mkIntentTiers (mkT0 role None)
    (mkT1 statement_text (statement_class statement_text) application_name ∅
       (parse_intent_annotation statement_text))
    (mkT2 [] false None []).

(** ** Occurrences *)

Lemma starts_with_app p l r : starts_with p l = true -> starts_with p (l ++ r) = true.
Proof. rewrite !starts_with_spec. intros [r' ->]. exists (r' ++ r). by rewrite app_assoc. Qed.

(** [find] returns an occurrence, and there is none before it. *)
Lemma find_some p l n :
  find p l = Some n ->
  starts_with p (drop n l) = true /\ forall i, (i < n)%nat -> starts_with p (drop i l) = false.
Proof.
  revert n. induction l as [|b l IH]; intros n; simpl.
  - destruct (starts_with p []) eqn:E; [|done]. intros [= <-]. split; [done|lia].
  - destruct (starts_with p (b :: l)) eqn:E; [intros [= <-]; split; [done|lia]|].
    destruct (find p l) as [m|]; [|done]. intros [= <-]. destruct (IH m eq_refl) as [H1 H2].
    split; [done|]. intros [|i] Hi; [done|]. apply H2. lia.
Qed.

Lemma find_none p l : find p l = None -> forall i, starts_with p (drop i l) = false.
Proof.
  induction l as [|b l IH]; simpl.
  - destruct (starts_with p []) eqn:E; [done|]. intros _ [|i]; done.
  - destruct (starts_with p (b :: l)) eqn:E; [done|]. destruct (find p l); [done|].
    intros _ [|i]; [done|]. by apply IH.
Qed.

Lemma find_first p l n :
  starts_with p (drop n l) = true -> (n <= length l)%nat ->
  (forall i, (i < n)%nat -> starts_with p (drop i l) = false) -> find p l = Some n.
Proof.
  intros H1 Hn H2. destruct (find p l) as [m|] eqn:E.
  - destruct (find_some _ _ _ E) as [H3 H4]. f_equal.
    destruct (decide (m < n)%nat) as [H|H]; [by rewrite (H2 m H) in H3|].
    destruct (decide (n < m)%nat) as [H'|H']; [by rewrite (H4 n H') in H1|lia].
  - by rewrite (find_none _ _ E n) in H1.
Qed.

Lemma starts_with_length p l : starts_with p l = true -> (length p <= length l)%nat.
Proof. rewrite starts_with_spec. intros [r ->]. rewrite length_app. lia. Qed.

(** A comment body holds no closer. *)
Definition comment_body (c : list byte) : Prop := find CLOSE c = None.

Lemma drop_cons_lookup {A} (l : list A) i x r : drop i l = x :: r -> l !! i = Some x /\ drop (S i) l = r.
Proof.
  intros H. split.
  - rewrite <- (Nat.add_0_r i), <- lookup_drop, H. done.
  - replace (S i) with (i + 1)%nat by lia. by rewrite <- drop_drop, H.
Qed.

(** The closer of a comment is found at its end, whatever follows. *)
Lemma find_close c r : comment_body c -> find CLOSE (c ++ CLOSE ++ r) = Some (length c).
Proof.
  intros Hc. apply find_first.
  - rewrite drop_app_length. reflexivity.
  - rewrite length_app. lia.
  - intros i Hi. rewrite drop_app_le by lia. pose proof (find_none _ _ Hc i) as H.
    destruct (drop i c) as [|a [|b d]] eqn:E.
    + apply (f_equal length) in E. rewrite length_drop in E. simpl in E. lia.
    + unfold CLOSE, as_bytes. simpl. by destruct (bool_decide (x2a = a)).
    + unfold CLOSE, as_bytes in *. simpl in *.
      destruct (bool_decide (x2a = a)), (bool_decide (x2f = b)); done.
Qed.

(** ** Fuel: the loops finish within the length of the text *)

Lemma trim_start_length l : (length (trim_start l) <= length l)%nat.
Proof.
  unfold trim_start. generalize (length l) at 1. intros n. revert l.
  induction n as [|n IH]; intros l; simpl; [lia|].
  destruct (strip_ws l) as [l'|] eqn:E; [|lia]. apply strip_ws_shorter in E. specialize (IH l'). lia.
Qed.

Lemma strip_prefix_open l r : strip_prefix OPEN l = Some r -> (length r + 2 <= length l)%nat.
Proof.
  unfold strip_prefix. destruct (starts_with OPEN l) eqn:E; [|done]. intros [= <-].
  apply starts_with_length in E. change (length OPEN) with 2%nat in *. rewrite length_drop. lia.
Qed.

Lemma strip_comments_fuel n m l :
  (length l <= n)%nat -> (n <= m)%nat -> strip_comments m l = strip_comments n l.
Proof.
  revert m l. induction n as [|n IH]; intros m l Hl Hm.
  - destruct l; [|simpl in Hl; lia]. by destruct m.
  - destruct m as [|m]; [lia|]. simpl. destruct (strip_prefix OPEN l) as [a|] eqn:E; [|done].
    apply strip_prefix_open in E. destruct (find CLOSE a) as [e|]; [|done].
    pose proof (trim_start_length (drop (e + 2) a)) as Ht. rewrite length_drop in Ht. apply IH; lia.
Qed.

Lemma find_bound p l n : find p l = Some n -> (n + length p <= length l)%nat.
Proof.
  intros H. destruct (find_some _ _ _ H) as [H1 _]. apply starts_with_length in H1.
  rewrite length_drop in H1. destruct p; [|simpl in *; lia].
  revert n H H1. induction l; simpl; intros n [= <-] ?; simpl; lia.
Qed.

Lemma scan_comments_fuel n m l :
  (length l <= n)%nat -> (n <= m)%nat -> scan_comments m l = scan_comments n l.
Proof.
  revert m l. induction n as [|n IH]; intros m l Hl Hm.
  - destruct l; [|simpl in Hl; lia]. by destruct m.
  - destruct m as [|m]; [lia|]. cbn [scan_comments]. destruct (find OPEN l) as [o|] eqn:E; [|done].
    apply find_bound in E. change (length OPEN) with 2%nat in E.
    destruct (find CLOSE (drop (o + 2) l)) as [c|]; [|done].
    destruct (annotation_is_empty _); [|done]. apply IH; [|lia]. rewrite !length_drop. lia.
Qed.

Lemma key_hits_fuel n m lower k from :
  (length lower - from <= n)%nat -> (n <= m)%nat -> key_hits m lower k from = key_hits n lower k from.
Proof.
  assert (forall r, find (key_pattern k) (drop from lower) = Some r -> (1 <= length lower - from)%nat) as Hpos.
  { intros r H%find_bound. rewrite length_drop in H. destruct k; simpl in H; lia. }
  revert m from Hpos. induction n as [|n IH]; intros m from Hpos Hl Hm.
  - destruct m as [|m]; [done|]. simpl. destruct (find _ _) as [r|] eqn:E; [|done]. specialize (Hpos r eq_refl). lia.
  - destruct m as [|m]; [lia|]. simpl. destruct (find _ (drop from lower)) as [r|] eqn:E; [|done].
    f_equal. apply find_bound in E. rewrite length_drop in E. apply IH; [|destruct k; simpl in *; lia|lia].
    intros r' H%find_bound. rewrite length_drop in H. destruct k; simpl in *; lia.
Qed.

Lemma trim_start_open l : trim_start (OPEN ++ l) = OPEN ++ l.
Proof. by destruct l. Qed.

Lemma strip_comments_step n c s :
  comment_body c -> strip_comments (S n) (OPEN ++ c ++ CLOSE ++ s) = strip_comments n (trim_start s).
Proof.
  intros Hc. cbn [strip_comments].
  change (strip_prefix OPEN (OPEN ++ c ++ CLOSE ++ s)) with (Some (drop 0 (c ++ CLOSE ++ s))).
  rewrite drop_0, (find_close _ _ Hc), drop_app_add. reflexivity.
Qed.

(** The class recorded for a statement is that of the statement itself: a leading block
    comment, whatever it says, does not change it. *)
Theorem statement_class_skips_comment (c : list byte) (sql : string) :
  comment_body c -> statement_class (of_bytes (OPEN ++ c ++ CLOSE ++ as_bytes sql)) = statement_class sql.
Proof.
  intros Hc. unfold statement_class, strip_leading_comments. rewrite as_of_bytes, trim_start_open.
  change (length (OPEN ++ c ++ CLOSE ++ as_bytes sql)) with (S (S (length (c ++ CLOSE ++ as_bytes sql)))).
  rewrite (strip_comments_step _ _ _ Hc), (strip_comments_fuel (length (as_bytes sql))); [done|apply trim_start_length|].
  rewrite !length_app. lia.
Qed.

Lemma statement_class_skips_comment_witness :
  statement_class (of_bytes (OPEN ++ as_bytes " intent: drop **" ++ CLOSE ++ as_bytes " delete from t")) =
  statement_class " delete from t".
Proof. by apply statement_class_skips_comment. Defined.

Example annotated :
  from_statement "app" "/* intent: fix dup; ticket: J-1, Actor: bot */ UPDATE t SET x = 1" None =
  mkIntentTiers (mkT0 "app" None)
    (mkT1 "/* intent: fix dup; ticket: J-1, Actor: bot */ UPDATE t SET x = 1" (Some "UPDATE"%string) None ∅
       (mkAnnotation (Some "fix dup"%string) (Some "J-1"%string) (Some "bot"%string)))
    (mkT2 [] false None []).
Proof. vm_compute. reflexivity. Qed.

(** A key is matched as text, not as a word: a field of another name that ends in one is
    read as it. *)
Example factor_is_an_actor :
  parse_intent_annotation "/* factor: 3 */ SELECT 1" = mkAnnotation None None (Some "3"%string).
Proof. vm_compute. reflexivity. Qed.

End Intent.
