(* ===== verification/AuditChain.v ===== *)
(** * AuditChain: audit records and the hash chain

    Models [src/crates/audit/src/record.rs] and [chain.rs].  The canonical encoding of a
    payload ([serde_json::to_vec], third-party) and the hash ([sha2] and [hex]) are the
    section parameters [canonical] and [sha256_hex]; nothing is assumed of them.  Where
    detecting tampering depends on the hash, the theorem's conclusion offers the
    colliding payloads, or the payload that hashes to the all-zero genesis value.  The
    successor of a [u64] sequence number is written with its wrap-around. *)

From Stdlib Require Import SpecFloat.
From S2P Require Import Prelude PkChecksum Inverse BlastRadius Policy.

Module AuditChain.
Import Policy.

(** ** Records *)

Definition GENESIS_PREV_HASH : string :=
  "0000000000000000000000000000000000000000000000000000000000000000".

Inductive Decision : Type := DAllow | DBlock | DReject.

Definition is_rejecting (d : Decision) : bool := match d with DAllow => false | _ => true end.

Record Principal : Type := mkPrincipal {
  p_role : string;
  p_session_id : option string;
  p_principal : option string
}.

Record WriteSafetyRefs : Type := mkRefs { dry_run_id : option string; blast_radius_ref : option string }.

Definition refs_default : WriteSafetyRefs := mkRefs None None.
Definition refs_is_empty (r : WriteSafetyRefs) : bool :=
  match dry_run_id r, blast_radius_ref r with None, None => true | _, _ => false end.

Record AuditPayload : Type := mkPayload {
  seq : Z;
  statement_text : string;
  decision : Decision;
  reason_code : string;
  reason : option string;
  principal : Principal;
  intent : IntentTiers;
  write_safety : WriteSafetyRefs;
  timestamp_unix_millis : Z;
  prev_hash : string
}.

Record AuditRecord : Type := mkRecord { payload : AuditPayload; record_hash : string }.

#[global] Instance spec_float_eq_dec : EqDecision spec_float.
Proof. solve_decision. Defined.
#[global] Instance IntentTiers_eq_dec : EqDecision IntentTiers.
Proof.
  assert (EqDecision TierT0) by solve_decision.
  assert (EqDecision IntentAnnotation) by solve_decision.
  assert (EqDecision TierT1) by solve_decision.
  assert (EqDecision ObservedStep) by solve_decision.
  assert (EqDecision TierT2) by (unfold BlastRadius.f64; solve_decision).
  solve_decision.
Defined.
#[global] Instance AuditPayload_eq_dec : EqDecision AuditPayload.
Proof.
  assert (EqDecision Decision) by solve_decision.
  assert (EqDecision Principal) by solve_decision.
  assert (EqDecision WriteSafetyRefs) by solve_decision.
  solve_decision.
Defined.
#[global] Instance AuditRecord_eq_dec : EqDecision AuditRecord.
Proof. solve_decision. Defined.

Record NewEntry : Type := mkEntry {
  e_statement_text : string;
  e_decision : Decision;
  e_reason_code : string;
  e_reason : option string;
  e_principal : Principal;
  e_intent : IntentTiers;
  e_write_safety : WriteSafetyRefs
}.

Inductive ChainBreak : Type :=
| BadGenesis (index : nat) (found_prev_hash : string)
| HashMismatch (index : nat) (at_seq : Z) (stored_hash recomputed_hash : string)
| BrokenLink (index : nat) (at_seq : Z) (expected_prev_hash actual_prev_hash : string)
| SeqGap (index : nat) (expected_seq found_seq : Z).

Definition break_index (b : ChainBreak) : nat :=
  match b with BadGenesis i _ | HashMismatch i _ _ _ | BrokenLink i _ _ _ | SeqGap i _ _ => i end.

Section chain.
Context (canonical : AuditPayload -> list byte) (sha256_hex : list byte -> string).

Definition compute_hash (p : AuditPayload) : string :=
  sha256_hex (as_bytes (prev_hash p) ++ canonical p).

Definition seal (p : AuditPayload) : AuditRecord := mkRecord p (compute_hash p).

Definition hash_is_intact (r : AuditRecord) : bool :=
  bool_decide (compute_hash (payload r) = record_hash r).

(** ** Verification *)

Definition succ_seq (s : Z) : Z := wrap_u 64 (s + 1).

(** The loop body and its [prev] variable. *)
Fixpoint verify_from (index : nat) (prev : option AuditRecord) (records : list AuditRecord) :
    result ChainBreak unit :=
  match records with
  | [] => Ok tt
  | record :: records =>
      let recomputed := compute_hash (payload record) in
      if decide (recomputed = record_hash record) then
        match prev with
        | None =>
            if decide (prev_hash (payload record) = GENESIS_PREV_HASH)
            then verify_from (S index) (Some record) records
            else Err (BadGenesis index (prev_hash (payload record)))
        | Some previous =>
            let expected_seq := succ_seq (seq (payload previous)) in
            if decide (seq (payload record) = expected_seq) then
              if decide (prev_hash (payload record) = record_hash previous)
              then verify_from (S index) (Some record) records
              else Err (BrokenLink index (seq (payload record)) (prev_hash (payload record))
                          (record_hash previous))
            else Err (SeqGap index expected_seq (seq (payload record)))
        end
      else Err (HashMismatch index (seq (payload record)) (record_hash record) recomputed)
  end.

Definition verify_chain (records : list AuditRecord) : result ChainBreak unit :=
  verify_from 0 None records.

(** ** The in-memory chain *)

Definition AuditChain : Type := list AuditRecord.

Definition chain_new : AuditChain := [].

Definition head_hash (c : AuditChain) : string :=
  match last c with Some r => record_hash r | None => GENESIS_PREV_HASH end.

Definition next_seq (c : AuditChain) : Z := wrap_u 64 (Z.of_nat (length c)).

Definition append (c : AuditChain) (e : NewEntry) (timestamp_ms : Z) : AuditChain * AuditRecord :=
  let p := mkPayload (next_seq c) (e_statement_text e) (e_decision e) (e_reason_code e) (e_reason e)
             (e_principal e) (e_intent e) (e_write_safety e) timestamp_ms (head_hash c) in
  let record := seal p in
  (c ++ [record], record).

Definition verify (c : AuditChain) : result ChainBreak unit := verify_chain c.

(** ** Specification: what a well-formed chain is *)

(** [r] may follow the records [before]. *)
Definition follows (before : list AuditRecord) (r : AuditRecord) : Prop :=
  record_hash r = compute_hash (payload r) /\
  prev_hash (payload r) = head_hash before /\
  (forall q, last before = Some q -> seq (payload r) = succ_seq (seq (payload q))).

Inductive chain_ok : list AuditRecord -> Prop :=
| chain_ok_nil : chain_ok []
| chain_ok_snoc before r : chain_ok before -> follows before r -> chain_ok (before ++ [r]).

Lemma verify_from_app index prev a b :
  verify_from index prev (a ++ b) =
  match verify_from index prev a with
  | Ok _ => verify_from (index + length a) (match last a with Some r => Some r | None => prev end) b
  | Err e => Err e
  end.
Proof.
  revert index prev. induction a as [|r a IH]; intros index prev; simpl.
  - by rewrite Nat.add_0_r.
  - case_decide; [|done].
    assert (forall k, match last (r :: a) with Some x => Some x | None => k end =
                      match last a with Some x => Some x | None => Some r end) as Hl.
    { intros k. rewrite last_cons. by destruct (last a). }
    rewrite Hl, <- Nat.add_succ_comm.
    destruct prev as [q|]; repeat case_decide; done || apply IH.
Qed.

Lemma verify_one index before r :
  verify_from index (last before) [r] = Ok tt <-> follows before r.
Proof.
  unfold follows, head_hash. simpl. destruct (last before) as [q|]; repeat case_decide; naive_solver.
Qed.

Lemma last_or_none (l : list AuditRecord) : match last l with Some r => Some r | None => None end = last l.
Proof. by destruct (last l). Qed.

Lemma verify_chain_snoc before r :
  verify_chain (before ++ [r]) = Ok tt <-> verify_chain before = Ok tt /\ follows before r.
Proof.
  unfold verify_chain. rewrite verify_from_app, last_or_none.
  destruct (verify_from 0 None before) as [[]|e]; [|naive_solver].
  rewrite verify_one. naive_solver.
Qed.

Lemma verify_chain_ok records : verify_chain records = Ok tt <-> chain_ok records.
Proof.
  induction records as [|r records IH] using rev_ind.
  - split; [constructor|done].
  - rewrite verify_chain_snoc, IH. split.
    + intros [? ?]. by constructor.
    + inversion 1 as [E|before r' H1 H2 E]; [by destruct records|].
      apply app_inj_tail in E as [-> ->]. done.
Qed.

(** One iteration as a test: the break it reports, if any. *)
Definition check_record (index : nat) (prev : option AuditRecord) (r : AuditRecord) : option ChainBreak :=
  match verify_from index prev [r] with Ok _ => None | Err b => Some b end.

Lemma verify_from_cons index prev r rs :
  verify_from index prev (r :: rs) =
  match check_record index prev r with
  | None => verify_from (S index) (Some r) rs
  | Some b => Err b
  end.
Proof. unfold check_record. simpl. destruct prev; repeat case_decide; done. Qed.

Lemma check_record_index index prev r b : check_record index prev r = Some b -> break_index b = index.
Proof. unfold check_record. simpl. destruct prev; repeat case_decide; naive_solver. Qed.

Lemma verify_from_index index prev a e :
  verify_from index prev a = Err e ->
  exists i r, break_index e = (index + i)%nat /\ a !! i = Some r /\
    verify_from index prev (take i a) = Ok tt /\ verify_from index prev (take (S i) a) = Err e.
Proof.
  revert index prev. induction a as [|r a IH]; intros index prev; [done|].
  rewrite verify_from_cons. destruct (check_record index prev r) as [b|] eqn:E; intros H.
  - injection H as <-. exists 0%nat, r. split; [rewrite Nat.add_0_r; by eapply check_record_index|].
    do 2 (split; [done|]). cbn [take]. by rewrite verify_from_cons, E.
  - apply IH in H as (i & r' & -> & Hl & Ht & Hs). exists (S i), r'. split; [lia|]. split; [done|].
    cbn [take]. by rewrite !verify_from_cons, E.
Qed.

Lemma chain_ok_app_inv a b : chain_ok (a ++ b) -> chain_ok a.
Proof.
  induction b as [|r b IH] using rev_ind; [by rewrite app_nil_r|].
  rewrite app_assoc. inversion 1 as [E|before r' H1 H2 E]; [by destruct (a ++ b)|].
  apply app_inj_tail in E as [-> ->]. by apply IH.
Qed.

Lemma chain_ok_lookup a r b : chain_ok (a ++ r :: b) -> follows a r.
Proof.
  intros H. replace (a ++ r :: b) with ((a ++ [r]) ++ b) in H by by rewrite <- app_assoc.
  apply chain_ok_app_inv in H. inversion H as [E|before r' H1 H2 E]; [by destruct a|].
  apply app_inj_tail in E as [-> ->]. done.
Qed.

Lemma append_ok c e ts :
  chain_ok c -> (forall q, last c = Some q -> seq (payload q) = wrap_u 64 (Z.of_nat (length c) - 1)) ->
  chain_ok (append c e ts).1.
Proof.
  intros Hc Hs. simpl. constructor; [done|]. unfold follows; simpl. split; [done|]. split; [done|].
  intros q Hq. rewrite (Hs q Hq). unfold next_seq, succ_seq, wrap_u.
  rewrite Zplus_mod_idemp_l. f_equal. lia.
Qed.

Definition append_all (c : AuditChain) (es : list (NewEntry * Z)) : AuditChain :=
  foldl (fun c e => (append c e.1 e.2).1) c es.

(** Every record of a built chain sits at the position its [seq] claims. *)
Definition seqs_ok (c : AuditChain) : Prop :=
  forall i r, c !! i = Some r -> seq (payload r) = wrap_u 64 (Z.of_nat i).

Lemma append_seqs c e ts : seqs_ok c -> seqs_ok (append c e ts).1.
Proof.
  intros Hc i r. simpl. intros [Hi|[Hge Hi]]%lookup_app_Some; [by apply Hc|].
  apply list_lookup_singleton_Some in Hi as [Hi <-]. simpl.
  unfold next_seq. f_equal. lia.
Qed.

Lemma append_all_ok c es :
  chain_ok c -> seqs_ok c -> chain_ok (append_all c es) /\ seqs_ok (append_all c es).
Proof.
  revert c. induction es as [|e es IH]; intros c Hc Hs; [done|].
  simpl. apply IH; [|by apply append_seqs].
  apply append_ok; [done|]. intros q Hq. rewrite last_lookup in Hq.
  rewrite (Hs _ _ Hq). f_equal. apply lookup_lt_Some in Hq. lia.
Qed.

(** A pair of payloads with the same hash, or a payload whose hash is the genesis value. *)
Definition hash_broken : Prop :=
  (exists p q, p <> q /\ compute_hash p = compute_hash q) \/
  (exists p, compute_hash p = GENESIS_PREV_HASH).

Lemma same_head_same_chain a b :
  chain_ok a -> chain_ok b -> head_hash a = head_hash b -> a = b \/ hash_broken.
Proof.
  intros Ha. revert b. induction Ha as [|a r Ha IH (Hr & Hp & Hs)]; intros b Hb Hh.
  - destruct Hb as [|b r Hb (Hr & Hp & Hs)]; [by left|].
    right. right. exists (payload r). unfold head_hash in Hh. rewrite last_snoc in Hh. simpl in Hh. congruence.
  - destruct Hb as [|b q Hb (Hr' & Hp' & Hs')].
    + right. right. exists (payload r). unfold head_hash in Hh. rewrite last_snoc in Hh. simpl in Hh. congruence.
    + unfold head_hash in Hh. rewrite !last_snoc in Hh.
      destruct (decide (payload r = payload q)) as [E|E].
      2:{ right. left. exists (payload r), (payload q). split; [done|congruence]. }
      destruct r as [p h], q as [p' h']; simpl in *. subst p'. subst h'.
      destruct (IH b Hb) as [->|?]; [congruence|left; congruence|by right].
Qed.
End chain.

(** ** Properties *)

(** C16: [verify_chain] decides well-formedness: it accepts exactly the slices in which
    every record hashes to its stored hash, the first back-link is the genesis value,
    every other is its predecessor's hash, and sequence numbers increase by one. *)
Theorem verify_chain_refines_spec (canonical : AuditPayload -> list byte) (sha256_hex : list byte -> string)
    (records : list AuditRecord) :
  verify_chain canonical sha256_hex records = Ok tt <-> chain_ok canonical sha256_hex records.
Proof. apply verify_chain_ok. Qed.

(** The reported break is the first one: every record before its index verifies,
    and the prefix ending at it already fails with the same break. *)
Theorem verify_chain_reports_first_break (canonical : AuditPayload -> list byte)
    (sha256_hex : list byte -> string) (records : list AuditRecord) (b : ChainBreak) :
  verify_chain canonical sha256_hex records = Err b ->
  (break_index b < length records)%nat /\
  verify_chain canonical sha256_hex (take (break_index b) records) = Ok tt /\
  verify_chain canonical sha256_hex (take (S (break_index b)) records) = Err b.
Proof.
  intros (i & r & -> & Hl & Ht & Hs)%verify_from_index. simpl.
  split; [by eapply lookup_lt_Some|done].
Qed.

Definition sample_entry (s : string) : NewEntry :=
  mkEntry s DBlock "write_on_readonly" None (mkPrincipal "pgb_agent" None None) intent_default refs_default.

Definition toy_canonical (p : AuditPayload) : list byte :=
  le_bytes 8 (seq p) ++ as_bytes (statement_text p).
Definition toy_hash (l : list byte) : string := of_bytes (x01 :: l).

Definition sample_chain : list AuditRecord :=
  append_all toy_canonical toy_hash [] [(sample_entry "a", 1); (sample_entry "b", 2); (sample_entry "c", 3)].

Lemma verify_chain_reports_first_break_witness :
  let broken := take 1 sample_chain ++ drop 2 sample_chain in
  exists b, verify_chain toy_canonical toy_hash broken = Err b /\
            verify_chain toy_canonical toy_hash (take (break_index b) broken) = Ok tt.
Proof.
  exists (SeqGap 1 1 2). split; [vm_compute; reflexivity|].
  apply (verify_chain_reports_first_break toy_canonical toy_hash
           (take 1 sample_chain ++ drop 2 sample_chain) (SeqGap 1 1 2)).
  vm_compute. reflexivity.
Defined.

(** Whatever is appended, the chain built from empty verifies, holds one record per
    entry, and numbers its records by position. *)
Theorem appended_chain_verifies (canonical : AuditPayload -> list byte) (sha256_hex : list byte -> string)
    (entries : list (NewEntry * Z)) :
  let c := append_all canonical sha256_hex chain_new entries in
  verify canonical sha256_hex c = Ok tt /\ length c = length entries /\ seqs_ok c.
Proof.
  simpl. destruct (append_all_ok canonical sha256_hex [] entries) as [Hok Hs]; [constructor|done|].
  split; [by apply verify_chain_ok|]. split; [|done].
  unfold append_all, chain_new.
  assert (forall c, length (foldl (fun c e => (append canonical sha256_hex c e.1 e.2).1) c entries) =
                    (length c + length entries)%nat) as H; [|apply H].
  clear. induction entries as [|e es IH]; intros c; simpl; [lia|]. rewrite IH, length_app. simpl. lia.
Qed.

(** The head determines the chain.  Two chains that both verify and have the same
    head hash are the same chain, record by record; otherwise the hash is broken (two
    payloads with one hash, or a payload hashing to the genesis value).  This is why
    pinning one hash outside the database exposes a consistent rewrite of the table. *)
Theorem head_determines_chain (canonical : AuditPayload -> list byte) (sha256_hex : list byte -> string)
    (a b : list AuditRecord) :
  verify_chain canonical sha256_hex a = Ok tt -> verify_chain canonical sha256_hex b = Ok tt ->
  head_hash a = head_hash b -> a = b \/ hash_broken canonical sha256_hex.
Proof. rewrite !verify_chain_ok. apply same_head_same_chain. Qed.

Lemma head_determines_chain_witness :
  sample_chain = sample_chain \/ hash_broken toy_canonical toy_hash.
Proof. apply head_determines_chain; vm_compute; reflexivity. Defined.

(** Deleting a record from the middle of a verified chain is always detected, at the
    position of the gap and by the sequence numbers alone, without any assumption on the
    hash. *)
Theorem deletion_detected (canonical : AuditPayload -> list byte) (sha256_hex : list byte -> string)
    (a b : list AuditRecord) (p r q : AuditRecord) :
  verify_chain canonical sha256_hex (a ++ p :: r :: q :: b) = Ok tt ->
  verify_chain canonical sha256_hex (a ++ p :: q :: b) =
    Err (SeqGap (length a + 1) (succ_seq (seq (payload p))) (seq (payload q))).
Proof.
  intros Hok%verify_chain_ok.
  assert (chain_ok canonical sha256_hex (a ++ [p])) as Hp.
  { apply (chain_ok_app_inv _ _ _ (r :: q :: b)). by rewrite <- app_assoc. }
  assert (follows canonical sha256_hex (a ++ [p]) r) as (_ & _ & Hr).
  { apply (chain_ok_lookup _ _ _ _ (q :: b)). by rewrite <- app_assoc. }
  assert (follows canonical sha256_hex ((a ++ [p]) ++ [r]) q) as (Hq & _ & Hqs).
  { apply (chain_ok_lookup _ _ _ _ b). by rewrite <- !app_assoc. }
  specialize (Hr p (last_snoc _ _)). specialize (Hqs r (last_snoc _ _)).
  replace (a ++ p :: q :: b) with ((a ++ [p]) ++ q :: b) by by rewrite <- app_assoc.
  unfold verify_chain. rewrite verify_from_app, last_snoc.
  apply verify_chain_ok in Hp. unfold verify_chain in Hp. rewrite Hp. simpl.
  rewrite decide_True by done. rewrite decide_False.
  - by rewrite length_app.
  - rewrite Hqs, Hr. unfold succ_seq, wrap_u. rewrite Zplus_mod_idemp_l.
    intros E. apply (f_equal (fun z => (z - (seq (payload p) + 1)) mod 2 ^ 64)) in E.
    rewrite !Zminus_mod_idemp_l in E.
    replace (seq (payload p) + 1 + 1 - (seq (payload p) + 1)) with 1 in E by lia.
    rewrite Z.sub_diag in E. done.
Qed.

Definition sample_payload (n : Z) (text prev : string) : AuditPayload :=
  mkPayload n text DAllow "ok" None (mkPrincipal "x" None None) intent_default refs_default 0 prev.
Definition sample_r0 : AuditRecord := seal toy_canonical toy_hash (sample_payload 0 "a" GENESIS_PREV_HASH).
Definition sample_r1 : AuditRecord := seal toy_canonical toy_hash (sample_payload 1 "b" (record_hash sample_r0)).
Definition sample_r2 : AuditRecord := seal toy_canonical toy_hash (sample_payload 2 "c" (record_hash sample_r1)).

Lemma deletion_detected_witness :
  verify_chain toy_canonical toy_hash ([] ++ sample_r0 :: sample_r2 :: []) =
    Err (SeqGap (length (@nil AuditRecord) + 1) (succ_seq (seq (payload sample_r0)))
           (seq (payload sample_r2))).
Proof.
  apply (deletion_detected toy_canonical toy_hash [] [] sample_r0 sample_r1 sample_r2).
  vm_compute. reflexivity.
Defined.

(** Editing a record in place, its stored hash left as it was, is detected at that
    record unless the edited and the original payload have the same hash. *)
Theorem edit_detected (canonical : AuditPayload -> list byte) (sha256_hex : list byte -> string)
    (a b : list AuditRecord) (r : AuditRecord) (p : AuditPayload) :
  verify_chain canonical sha256_hex (a ++ r :: b) = Ok tt -> p <> payload r ->
  verify_chain canonical sha256_hex (a ++ mkRecord p (record_hash r) :: b) =
    Err (HashMismatch (length a) (seq p) (record_hash r) (compute_hash canonical sha256_hex p)) \/
  compute_hash canonical sha256_hex p = compute_hash canonical sha256_hex (payload r).
Proof.
  intros Hok%verify_chain_ok Hne.
  pose proof (chain_ok_lookup _ _ _ _ _ Hok) as (Hr & _ & _).
  apply chain_ok_app_inv in Hok. apply verify_chain_ok in Hok. unfold verify_chain in *.
  rewrite verify_from_app, Hok. simpl. rewrite Hr.
  destruct (decide (compute_hash canonical sha256_hex p = compute_hash canonical sha256_hex (payload r)));
    [by right|]. left. done.
Qed.

Lemma edit_detected_witness :
  let r := sample_r0 in
  let p := sample_payload 0 "b" GENESIS_PREV_HASH in
  verify_chain toy_canonical toy_hash ([] ++ mkRecord p (record_hash r) :: []) =
    Err (HashMismatch 0 (seq p) (record_hash r) (compute_hash toy_canonical toy_hash p)) \/
  compute_hash toy_canonical toy_hash p = compute_hash toy_canonical toy_hash (payload r).
Proof.
  apply (edit_detected toy_canonical toy_hash [] [] sample_r0 (sample_payload 0 "b" GENESIS_PREV_HASH));
    [vm_compute; reflexivity|discriminate].
Defined.

(** The number of the first record is not checked: a chain whose genesis record
    claims [seq] 7 verifies. *)
Theorem genesis_seq_unchecked (canonical : AuditPayload -> list byte) (sha256_hex : list byte -> string) :
  exists r, seq (payload r) = 7 /\ verify_chain canonical sha256_hex [r] = Ok tt.
Proof.
  exists (seal canonical sha256_hex
            (mkPayload 7 "q" DAllow "ok" None (mkPrincipal "x" None None) intent_default refs_default 0
               GENESIS_PREV_HASH)).
  split; [done|]. unfold verify_chain; simpl. by rewrite !decide_True by done.
Qed.

End AuditChain.
