(* ===== verification/AuditSink.v ===== *)
(** * AuditSink: the append-only sinks of the audit log

    Models [src/crates/audit/src/sink.rs] (the [Sink] trait, the in-memory sink, the
    shared handle) and [pg.rs] (the Postgres sink with its advisory lock, over the table
    of [src/crates/audit/sql/10_audit_meta.sql] and its constraints).  [SinkLaws] is what
    a sink promises the boot sequence; both sinks discharge it.  The JSON decoder of
    [serde_json] is the parameter [from_json].  A failing connection is a client that is
    not [alive]; a commit whose acknowledgement is lost is not modelled. *)

From Stdlib Require Import SpecFloat.
From S2P Require Import Prelude Wire Policy AuditChain.

Module AuditSink.
Import AuditChain.

Inductive SinkError : Type :=
| Backend (message : string)
| Integrity (b : ChainBreak).

(** The [Sink] trait: [append] may change the sink, the readers do not. *)
Class Sink (S : Type) : Type := {
  sink_append : S -> NewEntry -> Z -> S * result SinkError AuditRecord;
  load_chain : S -> result SinkError (list AuditRecord);
  load_chain_mut : S -> result SinkError (list AuditRecord)
}.

Section sink.
Context (canonical : AuditPayload -> list byte) (sha256_hex : list byte -> string).

Definition sink_verify {S} `{Sink S} (s : S) : result SinkError unit :=
  let? rs := load_chain s in result_map_err Integrity (verify_chain canonical sha256_hex rs).

Definition sink_verify_mut {S} `{Sink S} (s : S) : result SinkError unit :=
  let? rs := load_chain_mut s in result_map_err Integrity (verify_chain canonical sha256_hex rs).

(** The payload of an entry at position [n] after the hash [prev]. *)
Definition entry_payload (n : Z) (prev : string) (e : NewEntry) (ts : Z) : AuditPayload :=
  mkPayload n (e_statement_text e) (e_decision e) (e_reason_code e) (e_reason e)
    (e_principal e) (e_intent e) (e_write_safety e) ts prev.

(** The record holds what the entry says, stamped at [ts]. *)
Definition carries (r : AuditRecord) (e : NewEntry) (ts : Z) : Prop :=
  payload r = entry_payload (seq (payload r)) (prev_hash (payload r)) e ts.

(** What a sink promises: in a state its own operations reach, the chain reads back and
    is well formed; a successful append extends what reads back by one record that
    follows it and carries the entry; a failed one leaves it as it was. *)
Class SinkLaws (S : Type) `{Sink S} : Type := {
  sink_ok : S -> Prop;
  appendable : NewEntry -> Z -> Prop;
  sink_reads s : sink_ok s -> exists rs, load_chain_mut s = Ok rs /\ chain_ok canonical sha256_hex rs;
  append_extends s e ts s' r :
    sink_ok s -> appendable e ts -> sink_append s e ts = (s', Ok r) ->
    sink_ok s' /\ carries r e ts /\
    exists rs, load_chain_mut s = Ok rs /\ load_chain_mut s' = Ok (rs ++ [r]) /\
               follows canonical sha256_hex rs r;
  append_fails s e ts s' err :
    sink_ok s -> sink_append s e ts = (s', Err err) ->
    sink_ok s' /\ load_chain_mut s' = load_chain_mut s
}.

(** ** The in-memory sink *)

Record InMemorySink : Type := mkInMemorySink { chain : AuditChain }.

Definition mem_append (s : InMemorySink) (e : NewEntry) (ts : Z) : InMemorySink * result SinkError AuditRecord :=
  let '(c, r) := append canonical sha256_hex (chain s) e ts in (mkInMemorySink c, Ok r).

#[global] Instance InMemorySink_sink : Sink InMemorySink := {|
  sink_append := mem_append;
  load_chain s := Ok (chain s);
  load_chain_mut s := Ok (chain s)
|}.

#[global, refine] Instance InMemorySink_laws : SinkLaws InMemorySink := {|
  sink_ok s := chain_ok canonical sha256_hex (chain s) /\ seqs_ok (chain s);
  appendable _ _ := True
|}.
Proof.
  - intros s [H _]. by exists (chain s).
  - intros s e ts s' r [Hc Hs] _ [= <- <-]. cbn [chain].
    assert (chain_ok canonical sha256_hex (append canonical sha256_hex (chain s) e ts).1) as Hok.
    { apply append_ok; [done|]. intros q Hq. rewrite last_lookup in Hq.
      rewrite (Hs _ _ Hq). f_equal. apply lookup_lt_Some in Hq. lia. }
    split; [split; [done|by apply append_seqs]|]. split; [done|].
    exists (chain s). do 2 (split; [done|]). apply (chain_ok_lookup _ _ _ _ []), Hok.
  - by intros s e ts s' err _ [= ? ?].
Defined.

(** ** The Postgres sink *)

Context (from_json : string -> option AuditPayload).

Record Row : Type := mkRow {
  row_seq : Z;
  row_prev_hash : string;
  row_record_hash : string;
  row_payload : string
}.

Record PgSink : Type := mkPgSink { table : list Row; alive : bool }.

(** [ORDER BY seq DESC LIMIT 1]. *)
Definition greatest_seq (rows : list Row) : option Row :=
  foldl (fun acc r => match acc with
                      | Some a => if row_seq a <? row_seq r then Some r else Some a
                      | None => Some r
                      end) None rows.

(** [ORDER BY seq ASC]. *)
Fixpoint insert_by_seq (r : Row) (rows : list Row) : list Row :=
  match rows with
  | [] => [r]
  | q :: rows => if row_seq r <=? row_seq q then r :: q :: rows else q :: insert_by_seq r rows
  end.
Definition order_by_seq (rows : list Row) : list Row := foldr insert_by_seq [] rows.

Definition head_in_txn (rows : list Row) : Z * string :=
  match greatest_seq rows with
  | None => (0, GENESIS_PREV_HASH)
  | Some r => (wrap_u 64 (wrap_u 64 (row_seq r) + 1), row_record_hash r)
  end.

(** [INSERT INTO pgb_audit.audit_log] under the table's constraints. *)
Definition insert_row (rows : list Row) (r : Row) : result SinkError (list Row) :=
  if negb (0 <=? row_seq r) then Err (Backend "audit_log_seq_nonneg")
  else if existsb (fun q => row_seq q =? row_seq r) rows then Err (Backend "audit_log_seq_key")
  else if existsb (fun q => bool_decide (row_record_hash q = row_record_hash r)) rows
  then Err (Backend "audit_log_record_hash_key")
  else Ok (rows ++ [r]).

(** The part of [append] between the head read and the commit. *)
Definition seal_and_insert (rows : list Row) (head : Z * string) (e : NewEntry) (ts : Z) :
    result SinkError (list Row * AuditRecord) :=
  let p := entry_payload head.1 head.2 e ts in
  let record := seal canonical sha256_hex p in
  match Wire.from_utf8 (canonical p) with
  | Err _ => Err (Backend "non-utf8 canonical payload")
  | Ok payload_text =>
      let? rows' := insert_row rows (mkRow (wrap_s 64 (seq p)) (prev_hash p) (record_hash record) payload_text) in
      Ok (rows', record)
  end.

Definition pg_append (s : PgSink) (e : NewEntry) (ts : Z) : PgSink * result SinkError AuditRecord :=
  if alive s then
    match seal_and_insert (table s) (head_in_txn (table s)) e ts with
    | Ok (rows, record) => (mkPgSink rows true, Ok record)
    | Err err => (s, Err err)
    end
  else (s, Err (Backend "connection closed")).

Definition row_to_record (r : Row) : result SinkError AuditRecord :=
  match from_json (row_payload r) with
  | Some p => Ok (mkRecord p (row_record_hash r))
  | None => Err (Backend "corrupt audit payload json")
  end.

Fixpoint rows_to_records (rows : list Row) : result SinkError (list AuditRecord) :=
  match rows with
  | [] => Ok []
  | r :: rows => let? x := row_to_record r in let? xs := rows_to_records rows in Ok (x :: xs)
  end.

Definition pg_load_chain (s : PgSink) : result SinkError (list AuditRecord) :=
  Err (Backend "PgSink::load_chain needs &mut; call load_chain_mut() / verify_mut()").

Definition pg_load_chain_mut (s : PgSink) : result SinkError (list AuditRecord) :=
  if alive s then rows_to_records (order_by_seq (table s)) else Err (Backend "connection closed").

#[global] Instance PgSink_sink : Sink PgSink := {|
  sink_append := pg_append;
  load_chain := pg_load_chain;
  load_chain_mut := pg_load_chain_mut
|}.
(** ** The table invariant *)

(** Row [i] is record [i]: numbered [i], with the record's hash and a payload that
    reads back as the record's. *)
Definition row_is (i : nat) (row : Row) (r : AuditRecord) : Prop :=
  row_seq row = Z.of_nat i /\ seq (payload r) = Z.of_nat i /\
  row_record_hash row = record_hash r /\ from_json (row_payload row) = Some (payload r).

Inductive table_is : list Row -> list AuditRecord -> Prop :=
| table_is_nil : table_is [] []
| table_is_snoc rows rs row r :
    table_is rows rs -> row_is (length rs) row r -> Z.of_nat (length rs) < 2 ^ 63 ->
    table_is (rows ++ [row]) (rs ++ [r]).

Definition table_ok (rows : list Row) : Prop :=
  exists rs, table_is rows rs /\ chain_ok canonical sha256_hex rs.

Lemma table_is_length rows rs : table_is rows rs -> length rows = length rs.
Proof. induction 1; [done|]. rewrite !length_app. simpl. lia. Qed.

Lemma table_is_bound rows rs row :
  table_is rows rs -> row ∈ rows -> 0 <= row_seq row < Z.of_nat (length rs).
Proof.
  induction 1 as [|rows rs row' r H IH (Hs & _)]; [by intros ?%elem_of_nil|].
  rewrite length_app. intros [Hin| ->%list_elem_of_singleton]%elem_of_app; simpl; [specialize (IH Hin)|]; lia.
Qed.

Lemma greatest_seq_snoc rows row :
  greatest_seq (rows ++ [row]) =
  match greatest_seq rows with
  | Some a => if row_seq a <? row_seq row then Some row else Some a
  | None => Some row
  end.
Proof. unfold greatest_seq. by rewrite foldl_app. Qed.

Lemma greatest_seq_in rows a : greatest_seq rows = Some a -> a ∈ rows.
Proof.
  revert a. induction rows as [|row rows IH] using rev_ind; intros a; [done|].
  rewrite greatest_seq_snoc, elem_of_app, list_elem_of_singleton.
  destruct (greatest_seq rows) as [b|]; [|naive_solver]. case_match; naive_solver.
Qed.

Lemma table_is_head rows rs :
  table_is rows rs ->
  head_in_txn rows = (Z.of_nat (length rs), head_hash rs).
Proof.
  intros H. destruct H as [|rows rs row r H (Hs & _ & Hh & _) Hb]; [done|].
  unfold head_in_txn. rewrite greatest_seq_snoc.
  assert (match greatest_seq rows with
          | Some a => if row_seq a <? row_seq row then Some row else Some a
          | None => Some row end = Some row) as ->.
  { destruct (greatest_seq rows) as [a|] eqn:E; [|done].
    apply greatest_seq_in, (table_is_bound _ _ _ H) in E.
    destruct (Z.ltb_spec (row_seq a) (row_seq row)); [done|lia]. }
  unfold head_hash. rewrite last_snoc, length_app, Hs, Hh. simpl. f_equal.
  rewrite (wrap_u_id 64 (Z.of_nat (length rs))), wrap_u_id by (unfold in_u; lia). lia.
Qed.

Lemma insert_by_seq_snoc row rows x :
  row_seq row < row_seq x -> insert_by_seq row (rows ++ [x]) = insert_by_seq row rows ++ [x].
Proof.
  intros H. induction rows as [|q rows IH]; simpl.
  - destruct (Z.leb_spec (row_seq row) (row_seq x)); [done|lia].
  - destruct (Z.leb_spec (row_seq row) (row_seq q)); [done|by rewrite IH].
Qed.

Lemma order_by_seq_snoc rows x :
  (forall q, q ∈ rows -> row_seq q < row_seq x) -> order_by_seq (rows ++ [x]) = order_by_seq rows ++ [x].
Proof.
  induction rows as [|q rows IH]; intros H; [done|]. simpl. unfold order_by_seq in IH |- *. simpl.
  rewrite IH by (intros; apply H; by right).
  apply insert_by_seq_snoc, H. left.
Qed.

Lemma table_is_sorted rows rs : table_is rows rs -> order_by_seq rows = rows.
Proof.
  induction 1 as [|rows rs row r H IH (Hs & _)]; [done|].
  rewrite order_by_seq_snoc; [by rewrite IH|].
  intros q Hq. apply (table_is_bound _ _ _ H) in Hq. lia.
Qed.

Lemma rows_to_records_snoc rows rs row r :
  rows_to_records rows = Ok rs -> row_to_record row = Ok r ->
  rows_to_records (rows ++ [row]) = Ok (rs ++ [r]).
Proof.
  revert rs. induction rows as [|q rows IH]; intros rs Hr Hrow; simpl in *.
  - injection Hr as <-. by rewrite Hrow.
  - apply result_bind_ok in Hr as (x & -> & (xs & Hxs & [= <-])%result_bind_ok). simpl.
    by rewrite (IH _ Hxs Hrow).
Qed.

Lemma table_is_loads rows rs : table_is rows rs -> rows_to_records (order_by_seq rows) = Ok rs.
Proof.
  intros H. rewrite (table_is_sorted _ _ H).
  induction H as [|rows rs row r H IH (_ & _ & Hh & Hj) _]; [done|].
  apply rows_to_records_snoc; [done|]. unfold row_to_record. rewrite Hj, Hh. by destruct r.
Qed.
(** What is relied on of [serde_json]: a payload representable in JSON (no NaN or
    infinite number in it) is read back from its own encoding. *)
Context (representable : AuditPayload -> Prop).
Hypothesis json_roundtrip : forall p,
  representable p -> from_json (of_bytes (canonical p)) = Some p.

Definition representable_entry (e : NewEntry) (ts : Z) : Prop :=
  forall n prev, 0 <= n -> representable (entry_payload n prev e ts).

Lemma table_is_max rows rs : table_is rows rs -> Z.of_nat (length rs) <= 2 ^ 63.
Proof. destruct 1; [simpl; lia|]. rewrite length_app. simpl. lia. Qed.

Lemma insert_row_ok rows row rows' :
  insert_row rows row = Ok rows' -> 0 <= row_seq row /\ rows' = rows ++ [row].
Proof.
  unfold insert_row. destruct (Z.leb_spec 0 (row_seq row)); simpl; [|done].
  repeat case_match; naive_solver.
Qed.

Lemma wrap_s_64_of_nat n :
  Z.of_nat n <= 2 ^ 63 -> 0 <= wrap_s 64 (Z.of_nat n) -> Z.of_nat n < 2 ^ 63.
Proof.
  intros Hn H. destruct (decide (Z.of_nat n = 2 ^ 63)) as [E|]; [|lia].
  rewrite E in H. vm_compute in H. done.
Qed.

(** An insert computed from the current head extends the table by the record that an
    in-memory chain would append. *)
Lemma insert_at_head rows rs e ts rows' r :
  table_is rows rs -> chain_ok canonical sha256_hex rs -> representable_entry e ts ->
  seal_and_insert rows (head_in_txn rows) e ts = Ok (rows', r) ->
  table_is rows' (rs ++ [r]) /\ chain_ok canonical sha256_hex (rs ++ [r]) /\ carries r e ts /\
  r = (append canonical sha256_hex rs e ts).2.
Proof.
  intros Ht Hc He. pose proof (table_is_max _ _ Ht) as Hmax. unfold seal_and_insert.
  rewrite (table_is_head _ _ Ht). cbn [fst snd].
  set (p := entry_payload _ _ e ts). unfold Wire.from_utf8.
  destruct (Wire.utf8_valid (canonical p)); [|done].
  intros (rows'' & [Hs ->]%insert_row_ok & [= <- <-])%result_bind_ok. cbn [row_seq] in Hs.
  assert (seq p = Z.of_nat (length rs)) as Hseq by done.
  rewrite Hseq in Hs. pose proof (wrap_s_64_of_nat _ Hmax Hs) as Hlt.
  assert (seal canonical sha256_hex p = (append canonical sha256_hex rs e ts).2) as Happ.
  { unfold append, next_seq. simpl. rewrite wrap_u_id by (unfold in_u; lia). done. }
  split; [|split; [|split; [done|done]]].
  - constructor; [done| |done]. split; [|split; [done|split; [done|apply json_roundtrip, He; lia]]].
    apply wrap_s_id; unfold in_s; simpl; lia.
  - constructor; [done|]. split; [done|]. split; [done|].
    intros q Hq. simpl. destruct Ht as [|rows0 rs0 row0 r0 Ht (_ & Hq' & _) Hb]; [done|].
    rewrite last_snoc in Hq. injection Hq as <-. rewrite Hq', length_app. unfold succ_seq.
    rewrite wrap_u_id by (unfold in_u; lia). simpl. lia.
Qed.

#[global, refine] Instance PgSink_laws : @SinkLaws PgSink PgSink_sink := {|
  sink_ok s := alive s = true /\ table_ok (table s);
  appendable := representable_entry
|}.
Proof.
  - intros s [Ha (rs & Ht & Hc)]. exists rs. split; [|done]. simpl. unfold pg_load_chain_mut.
    rewrite Ha. by apply table_is_loads.
  - intros s e ts s' r [Ha (rs & Ht & Hc)] He. simpl. unfold pg_append, pg_load_chain_mut. rewrite Ha.
    destruct (seal_and_insert (table s) (head_in_txn (table s)) e ts) as [[rows x]|err] eqn:E; [|done].
    intros [= <- <-]. destruct (insert_at_head _ _ _ _ _ _ Ht Hc He E) as (Ht' & Hc' & Hr & _). simpl.
    split; [split; [done|by exists (rs ++ [x])]|]. split; [done|]. exists rs.
    split; [by apply table_is_loads|]. split; [by apply table_is_loads|].
    by apply (chain_ok_lookup _ _ _ _ []).
  - intros s e ts s' err [Ha Ht]. simpl. unfold pg_append. rewrite Ha.
    destruct (seal_and_insert _ _ _ _) as [[rows x]|err']; [done|]. by intros [= <- <-].
Defined.

(** An insert computed from the current head is never refused for its number. *)
Lemma insert_at_head_no_collision rows rs e ts :
  table_is rows rs -> Z.of_nat (length rs) < 2 ^ 63 ->
  seal_and_insert rows (head_in_txn rows) e ts <> Err (Backend "audit_log_seq_key") /\
  seal_and_insert rows (head_in_txn rows) e ts <> Err (Backend "audit_log_seq_nonneg").
Proof.
  intros Ht Hb. unfold seal_and_insert. rewrite (table_is_head _ _ Ht). cbn [fst snd seq entry_payload].
  destruct (Wire.from_utf8 _) as [text|]; [|done].
  unfold insert_row. cbn [row_seq]. rewrite wrap_s_id by (unfold in_s; lia).
  destruct (Z.leb_spec 0 (Z.of_nat (length rs))); [|lia]. simpl.
  destruct (existsb _ rows) eqn:E.
  - apply existsb_exists in E as (q & Hq & E%Z.eqb_eq).
    apply list_elem_of_In, (table_is_bound _ _ _ Ht) in Hq. lia.
  - clear E. by destruct (existsb (fun q => bool_decide _) rows).
Qed.

(** ** Appenders in several processes *)

(** Where a process is in [append]'s transaction. *)
Inductive Pc : Type :=
| Idle
| Locked (e : NewEntry) (ts : Z)
| HeadRead (e : NewEntry) (ts : Z) (head : Z * string).

Record World : Type := mkWorld {
  w_table : list Row;
  w_lock : option nat;
  w_pc : nat -> Pc
}.

Definition set_pc (w : World) (rows : list Row) (lock : option nat) (p : nat) (c : Pc) : World :=
  mkWorld rows lock (fun q => if decide (q = p) then c else w_pc w q).

Inductive step (w : World) : World -> Prop :=
| step_lock p e ts :
    w_pc w p = Idle -> w_lock w = None -> representable_entry e ts ->
    step w (set_pc w (w_table w) (Some p) p (Locked e ts))
| step_read p e ts :
    w_pc w p = Locked e ts ->
    step w (set_pc w (w_table w) (w_lock w) p (HeadRead e ts (head_in_txn (w_table w))))
| step_commit p e ts head rows r :
    w_pc w p = HeadRead e ts head -> seal_and_insert (w_table w) head e ts = Ok (rows, r) ->
    step w (set_pc w rows None p Idle)
| step_abort p :
    w_pc w p <> Idle -> step w (set_pc w (w_table w) None p Idle).

Definition start : World := mkWorld [] None (fun _ => Idle).

Definition world_ok (w : World) : Prop :=
  table_ok (w_table w) /\
  (forall p, w_pc w p <> Idle -> w_lock w = Some p) /\
  (forall p e ts head, w_pc w p = HeadRead e ts head -> head = head_in_txn (w_table w)) /\
  (forall p e ts, w_pc w p = Locked e ts -> representable_entry e ts) /\
  (forall p e ts head, w_pc w p = HeadRead e ts head -> representable_entry e ts).

Lemma others_idle w p q :
  (forall p, w_pc w p <> Idle -> w_lock w = Some p) -> w_lock w = Some p -> q <> p -> w_pc w q = Idle.
Proof.
  intros Hl Hp Hq. destruct (w_pc w q) eqn:E; [done|..]; specialize (Hl q); rewrite E in Hl;
    specialize (Hl ltac:(done)); congruence.
Qed.

Lemma step_keeps w w' : world_ok w -> step w w' -> world_ok w'.
Proof.
  intros (Ht & Hl & Hh & Hr1 & Hr2) Hs.
  destruct Hs as [p e ts Hp Hlock He|p e ts Hp|p e ts head rows r Hp Hins|p Hp];
    unfold world_ok, set_pc; simpl.
  - split; [done|]. split; [|split; [|split]]; intros q; [..|]; case_decide; subst; naive_solver congruence.
  - split; [done|]. split; [|split; [|split]]; intros q; [..|]; case_decide; subst; try naive_solver.
    intros _. apply Hl. by rewrite Hp.
  - assert (w_lock w = Some p) as Hlp by (apply Hl; by rewrite Hp).
    pose proof (fun q => others_idle w p q Hl Hlp) as Hid.
    rewrite (Hh _ _ _ _ Hp) in Hins. destruct Ht as (rs & Ht & Hc).
    destruct (insert_at_head _ _ _ _ _ _ Ht Hc (Hr2 _ _ _ _ Hp) Hins) as (Ht' & Hc' & _).
    split; [by exists (rs ++ [r])|].
    split; [|split; [|split]]; intros q; case_decide; try done; rewrite (Hid q) by done; done.
  - assert (w_lock w = Some p) as Hlp by (by apply Hl).
    pose proof (fun q => others_idle w p q Hl Hlp) as Hid.
    split; [done|].
    split; [|split; [|split]]; intros q; case_decide; try done; rewrite (Hid q) by done; done.
Qed.
(** A run of appends that all succeed. *)
Fixpoint pg_append_all (s : PgSink) (es : list (NewEntry * Z)) : option PgSink :=
  match es with
  | [] => Some s
  | (e, ts) :: es => match pg_append s e ts with (s', Ok _) => pg_append_all s' es | (_, Err _) => None end
  end.

Lemma pg_append_all_is s es s' rs :
  alive s = true -> table_is (table s) rs -> chain_ok canonical sha256_hex rs ->
  Forall (fun x => representable_entry x.1 x.2) es -> pg_append_all s es = Some s' ->
  alive s' = true /\ table_is (table s') (append_all canonical sha256_hex rs es).
Proof.
  revert s rs. induction es as [|[e ts] es IH]; intros s rs Ha Ht Hc Hr; simpl.
  - by intros [= <-].
  - apply Forall_cons in Hr as [He Hr]. unfold pg_append. rewrite Ha.
    destruct (seal_and_insert _ _ _ _) as [[rows r]|err] eqn:E; [|done].
    destruct (insert_at_head _ _ _ _ _ _ Ht Hc He E) as (Ht' & Hc' & _ & ->).
    by apply (IH (mkPgSink rows true)).
Qed.
End sink.

(** ** Properties *)

(** The Postgres sink stores the chain the in-memory reference sink builds: after
    any run of successful appends to an empty table, reading the rows back in [seq] order
    gives exactly the records [AuditChain::append] would have produced. *)
Theorem pg_sink_matches_memory (canonical : AuditPayload -> list byte) (sha256_hex : list byte -> string)
    (from_json : string -> option AuditPayload) (representable : AuditPayload -> Prop)
    (json_roundtrip : forall p, representable p -> from_json (of_bytes (canonical p)) = Some p)
    (es : list (NewEntry * Z)) (s' : PgSink) :
  Forall (fun x => representable_entry representable x.1 x.2) es ->
  pg_append_all canonical sha256_hex (mkPgSink [] true) es = Some s' ->
  pg_load_chain_mut from_json s' = Ok (append_all canonical sha256_hex chain_new es).
Proof.
  intros Hr Hs.
  destruct (pg_append_all_is canonical sha256_hex from_json representable json_roundtrip
              (mkPgSink [] true) es s' []) as [Ha Ht]; try done; [constructor..|].
  unfold pg_load_chain_mut. rewrite Ha. by apply (table_is_loads from_json).
Qed.

(** C17: appenders in any number of processes, interleaved in any way and aborted
    anywhere, never fork the chain: with the advisory lock held from the head read to the
    commit, every reachable table reads back as one chain that verifies, and no insert in
    flight can be refused for its sequence number (below 2^63 records). *)
Theorem interleaved_appends_one_chain (canonical : AuditPayload -> list byte)
    (sha256_hex : list byte -> string) (from_json : string -> option AuditPayload)
    (representable : AuditPayload -> Prop)
    (json_roundtrip : forall p, representable p -> from_json (of_bytes (canonical p)) = Some p)
    (w : World) :
  rtc (step canonical sha256_hex representable) start w ->
  exists rs, rows_to_records from_json (order_by_seq (w_table w)) = Ok rs /\
    verify_chain canonical sha256_hex rs = Ok tt /\
    forall p e ts head, w_pc w p = HeadRead e ts head -> Z.of_nat (length rs) < 2 ^ 63 ->
      seal_and_insert canonical sha256_hex (w_table w) head e ts <> Err (Backend "audit_log_seq_key").
Proof.
  intros Hsteps.
  assert (world_ok canonical sha256_hex from_json representable w) as ((rs & Ht & Hc) & _ & Hh & _).
  { revert Hsteps. apply (rtc_ind_r (fun w => world_ok canonical sha256_hex from_json representable w)).
    - split; [|done]. exists []. split; constructor.
    - intros v w' _ Hstep Hok. by eapply step_keeps. }
  exists rs. split; [by apply table_is_loads|]. split; [by apply verify_chain_ok|].
  intros p e ts head Hp Hb. rewrite (Hh _ _ _ _ Hp).
  by eapply insert_at_head_no_collision.
Qed.

(** A concrete encoding for the witnesses: the number in unary, a bar, the back-link. *)
Definition demo_entry : NewEntry :=
  mkEntry "q" DBlock "write_on_readonly" None (mkPrincipal "pgb_agent" None None) Policy.intent_default refs_default.
Definition demo_canonical (p : AuditPayload) : list byte :=
  repeat x31 (Z.to_nat (seq p)) ++ x7c :: as_bytes (prev_hash p).
Definition demo_hash (l : list byte) : string := of_bytes (repeat x61 (length l)).
Fixpoint demo_parse (n : Z) (l : list byte) : option AuditPayload :=
  match l with
  | x31 :: l => demo_parse (n + 1) l
  | x7c :: l => Some (entry_payload n (of_bytes l) demo_entry 5)
  | _ => None
  end.
Definition demo_from_json (s : string) : option AuditPayload := demo_parse 0 (as_bytes s).
Definition demo_representable (p : AuditPayload) : Prop :=
  exists n prev, 0 <= n /\ p = entry_payload n prev demo_entry 5.

Lemma demo_roundtrip p : demo_representable p -> demo_from_json (of_bytes (demo_canonical p)) = Some p.
Proof.
  intros (n & prev & Hn & ->). unfold demo_from_json, demo_canonical. rewrite as_of_bytes.
  cbn [seq prev_hash entry_payload].
  assert (forall k a, demo_parse a (repeat x31 k ++ x7c :: as_bytes prev) =
                      Some (entry_payload (a + Z.of_nat k) prev demo_entry 5)) as H.
  { induction k as [|k IH]; intros a; simpl; [by rewrite of_as_bytes, Z.add_0_r|].
    rewrite IH. do 2 f_equal. lia. }
  rewrite H. do 2 f_equal. lia.
Qed.

Lemma demo_entry_representable : representable_entry demo_representable demo_entry 5.
Proof. intros n prev Hn. by exists n, prev. Qed.

Lemma pg_sink_matches_memory_witness :
  exists s', pg_append_all demo_canonical demo_hash (mkPgSink [] true) [(demo_entry, 5); (demo_entry, 5)] = Some s' /\
    pg_load_chain_mut demo_from_json s' =
      Ok (append_all demo_canonical demo_hash chain_new [(demo_entry, 5); (demo_entry, 5)]).
Proof.
  destruct (pg_append_all demo_canonical demo_hash (mkPgSink [] true) [(demo_entry, 5); (demo_entry, 5)])
    as [s'|] eqn:E; [|vm_compute in E; discriminate].
  exists s'. split; [reflexivity|].
  apply (pg_sink_matches_memory demo_canonical demo_hash demo_from_json demo_representable demo_roundtrip);
    [|exact E].
  constructor; [apply demo_entry_representable|]. constructor; [apply demo_entry_representable|]. constructor.
Defined.

Lemma interleaved_appends_one_chain_witness :
  exists w, w_pc w 1%nat <> Idle /\ exists rs,
    rows_to_records demo_from_json (order_by_seq (w_table w)) = Ok rs /\
    verify_chain demo_canonical demo_hash rs = Ok tt /\
    forall p e ts head, w_pc w p = HeadRead e ts head -> Z.of_nat (length rs) < 2 ^ 63 ->
      seal_and_insert demo_canonical demo_hash (w_table w) head e ts <> Err (Backend "audit_log_seq_key").
Proof.
  set (w1 := set_pc start [] (Some 1%nat) 1 (Locked demo_entry 5)).
  exists (set_pc w1 [] (Some 1%nat) 1 (HeadRead demo_entry 5 (0, GENESIS_PREV_HASH))).
  split; [discriminate|].
  apply (interleaved_appends_one_chain demo_canonical demo_hash demo_from_json demo_representable demo_roundtrip).
  eapply rtc_l; [apply (step_lock _ _ _ start 1 demo_entry 5); [reflexivity..|apply demo_entry_representable]|].
  eapply rtc_l; [apply (step_read _ _ _ w1 1 demo_entry 5); reflexivity|]. apply rtc_refl.
Defined.

End AuditSink.
