(* ===== verification/AuditAnchor.v ===== *)
(** * AuditAnchor: secrets, head signing, the WORM anchor and the boot sequence

    Models [src/crates/audit/src/secret.rs] (Module [Secret]), [kms.rs] (Module [Kms]),
    [anchor.rs] (Module [Anchor]) and [boot.rs] (Module [Boot]).  HMAC-SHA-256, the hex
    codec and the JSON codec of anchor entries are third-party code and section
    parameters; the file system is a map from paths to lines, and an append to a path
    that does not exist is the I/O error the source can meet. *)

From Stdlib Require Import SpecFloat.
From S2P Require Import Prelude Text Wire Policy AuditChain AuditSink.

Module Secret.

Definition AUDIT_SIGNING_KEY_ID : string := "audit/signing-key".

Inductive SecretError : Type :=
| NotFound (id : string)
| AlreadyExists (id : string)
| RotateMissing (id : string)
| Empty (id : string).

(** The [SecretStore] trait. *)
Class SecretStore (S : Type) : Type := {
  get : S -> string -> result SecretError (list byte);
  put : S -> string -> list byte -> S * result SecretError unit;
  rotate : S -> string -> list byte -> S * result SecretError unit
}.

Definition contains {S} `{SecretStore S} (s : S) (id : string) : bool := is_ok (get s id).

Abbreviation LocalSecretStore := (gmap string (list byte)).

Definition local_get (s : LocalSecretStore) (id : string) : result SecretError (list byte) :=
  match s !! id with Some v => Ok v | None => Err (NotFound id) end.

Definition local_put (s : LocalSecretStore) (id : string) (value : list byte) :
    LocalSecretStore * result SecretError unit :=
  match value with
  | [] => (s, Err (Empty id))
  | _ => match s !! id with
         | Some _ => (s, Err (AlreadyExists id))
         | None => (<[id := value]> s, Ok tt)
         end
  end.

Definition local_rotate (s : LocalSecretStore) (id : string) (value : list byte) :
    LocalSecretStore * result SecretError unit :=
  match value with
  | [] => (s, Err (Empty id))
  | _ => match s !! id with
         | Some _ => (<[id := value]> s, Ok tt)
         | None => (s, Err (RotateMissing id))
         end
  end.

#[global] Instance LocalSecretStore_store : SecretStore LocalSecretStore := {|
  get := local_get;
  put := local_put;
  rotate := local_rotate
|}.

End Secret.

Module Kms.
Import Secret.

Definition OPERATOR_PRINCIPAL : string := "pgb_agent".

Inductive KmsError : Type :=
| OperatorPrincipalDenied (principal : string)
| SecretErr (e : SecretError).

Record HeadSignature : Type := mkHeadSignature { sig_key_id : string; signature : string }.

(** The domain tag ["pgb-audit-anchor:v1\0"], the length-prefixed head, [seq] and time. *)
Definition head_signing_input (head_hash : string) (seq timestamp_unix_millis : Z) : list byte :=
  as_bytes "pgb-audit-anchor:v1" ++ [x00]
  ++ be_bytes 8 (Z.of_nat (length (as_bytes head_hash)))
  ++ as_bytes head_hash
  ++ be_bytes 8 seq
  ++ be_bytes 8 timestamp_unix_millis.

(** The [Kms] trait. *)
Class Kms (K : Type) : Type := {
  sign_head : K -> string -> Z -> Z -> HeadSignature;
  verify_head : K -> string -> Z -> Z -> HeadSignature -> bool
}.

Record LocalKms : Type := mkLocalKms { key_id : string; key : list byte }.

Definition from_secret_store {S} `{SecretStore S} (store : S) (id : string) : result KmsError LocalKms :=
  let? k := result_map_err SecretErr (get store id) in Ok (mkLocalKms id k).

Definition for_principal {S} `{SecretStore S} (store : S) (id principal : string) : result KmsError LocalKms :=
  if bool_decide (principal = OPERATOR_PRINCIPAL) then Err (OperatorPrincipalDenied principal)
  else from_secret_store store id.

Definition verifier_handle (k : LocalKms) : LocalKms := k.

Section local.
Context (hmac : list byte -> list byte -> list byte).
Context (hex_encode : list byte -> string) (hex_decode : string -> option (list byte)).

Definition local_sign_head (k : LocalKms) (head : string) (seq ts : Z) : HeadSignature :=
  mkHeadSignature (key_id k) (hex_encode (hmac (key k) (head_signing_input head seq ts))).

Definition local_verify_head (k : LocalKms) (head : string) (seq ts : Z) (sig : HeadSignature) : bool :=
  if bool_decide (sig_key_id sig = key_id k) then
    match hex_decode (signature sig) with
    | None => false
    | Some raw => bool_decide (hmac (key k) (head_signing_input head seq ts) = raw)
    end
  else false.

#[global] Instance LocalKms_kms : Kms LocalKms := {|
  sign_head := local_sign_head;
  verify_head := local_verify_head
|}.
End local.

Lemma be_bytes_inj n a b :
  in_u (8 * Z.of_nat n) a -> in_u (8 * Z.of_nat n) b -> be_bytes n a = be_bytes n b -> a = b.
Proof.
  unfold be_bytes. intros Ha Hb E. apply (f_equal (@rev byte)) in E. rewrite !rev_involutive in E.
  by apply (le_bytes_inj n).
Qed.

(** Distinct heads have distinct signing inputs. *)
Lemma head_signing_input_inj h s t h' s' t' :
  in_u 64 (Z.of_nat (length (as_bytes h))) -> in_u 64 (Z.of_nat (length (as_bytes h'))) ->
  in_u 64 s -> in_u 64 s' -> in_u 64 t -> in_u 64 t' ->
  head_signing_input h s t = head_signing_input h' s' t' -> h = h' /\ s = s' /\ t = t'.
Proof.
  intros Hh Hh' Hs Hs' Ht Ht' E. unfold head_signing_input in E.
  apply app_inv_head, app_inv_head in E.
  apply app_inj_1 in E as [El E]; [|by rewrite !be_bytes_length].
  apply (be_bytes_inj 8) in El; [|done..]. apply Nat2Z.inj in El.
  apply app_inj_1 in E as [Eh E]; [|done].
  apply app_inj_1 in E as [Es Et]; [|by rewrite !be_bytes_length].
  apply (be_bytes_inj 8) in Es, Et; try done. by apply as_bytes_inj in Eh.
Qed.

(** A head's own signature verifies. *)
Lemma sign_then_verify hmac hex_encode hex_decode k h s t :
  (forall l, hex_decode (hex_encode l) = Some l) ->
  local_verify_head hmac hex_decode k h s t (local_sign_head hmac hex_encode k h s t) = true.
Proof.
  intros Hx. unfold local_verify_head, local_sign_head. simpl.
  by rewrite bool_decide_true, Hx, bool_decide_true by done.
Qed.

End Kms.

Module Anchor.
Import AuditChain Kms.

Record AnchorEntry : Type := mkAnchorEntry {
  a_head_hash : string;
  a_seq : Z;
  a_timestamp_unix_millis : Z;
  a_signature : HeadSignature
}.

Record Anchored : Type := mkAnchored { anchored_at_seq : Z; anchored_hash : string }.

Inductive AnchorError : Type :=
| NoAnchor
| BadSignature (seq : Z)
| NoVerifier.

Inductive AnchorVerification : Type :=
| Verified
| HeadMismatch (anchored_head actual_head : string) (anchored_seq : Z).

Definition head_of (records : list AuditRecord) : string * Z * Z :=
  match last records with
  | Some r => (record_hash r, seq (payload r), timestamp_unix_millis (payload r))
  | None => (GENESIS_PREV_HASH, 0, 0)
  end.

Inductive WormAnchorError : Type :=
| Io
| Corrupt (message : string).

(** The files the anchors are kept in: the lines of each path. *)
Abbreviation Files := (gmap string (list string)).

Record WormAnchor : Type := mkWorm {
  entries : list AnchorEntry;
  verifier : option LocalKms;
  file_path : option string
}.

Definition worm_new : WormAnchor := mkWorm [] None None.

Definition latest (w : WormAnchor) : option AnchorEntry := last (entries w).

Record Anchorer : Type := mkAnchorer {
  signer : LocalKms;
  interval_millis : Z;
  last_anchor_at : option Z
}.

Definition anchorer_new (signer : LocalKms) (interval : Z) : Anchorer := mkAnchorer signer interval None.

Section anchor.
Context `{!Kms LocalKms}.
Context (entry_to_json : AnchorEntry -> result string string).
Context (entry_of_json : string -> result string AnchorEntry).

(** The loop of [open_file]: blank lines are skipped, the first bad line is an error. *)
Fixpoint read_entries (lines : list string) : result WormAnchorError (list AnchorEntry) :=
  match lines with
  | [] => Ok []
  | line :: lines =>
      if Text.is_blank line then read_entries lines
      else
        let? e := result_map_err Corrupt (entry_of_json line) in
        let? es := read_entries lines in
        Ok (e :: es)
  end.

Definition open_file (fs : Files) (path : string) : Files * result WormAnchorError WormAnchor :=
  match fs !! path with
  | Some lines => (fs, let? es := read_entries lines in Ok (mkWorm es None (Some path)))
  | None => (<[path := []]> fs, Ok (mkWorm [] None (Some path)))
  end.

Definition worm_append (fs : Files) (w : WormAnchor) (e : AnchorEntry) :
    Files * WormAnchor * result WormAnchorError unit :=
  let push := mkWorm (entries w ++ [e]) (verifier w) (file_path w) in
  match file_path w with
  | None => (fs, push, Ok tt)
  | Some path =>
      match fs !! path with
      | None => (fs, w, Err Io)
      | Some lines =>
          match entry_to_json e with
          | Err m => (fs, w, Err (Corrupt m))
          | Ok line => (<[path := lines ++ [line]]> fs, push, Ok tt)
          end
      end
  end.

Definition due (a : Anchorer) (now : Z) : bool :=
  match last_anchor_at a with
  | None => true
  | Some prev => interval_millis a <=? sat_sub now prev
  end.

Definition maybe_anchor_records (fs : Files) (a : Anchorer) (records : list AuditRecord) (now : Z)
    (w : WormAnchor) : Files * Anchorer * WormAnchor * result WormAnchorError (option Anchored) :=
  if due a now then
    let '(head_hash, seq, ts) := head_of records in
    let entry := mkAnchorEntry head_hash seq ts (sign_head (signer a) head_hash seq ts) in
    match worm_append fs w entry with
    | (fs', w', Err e) => (fs', a, w', Err e)
    | (fs', w', Ok _) =>
        (fs', mkAnchorer (signer a) (interval_millis a) (Some now),
         mkWorm (entries w') (Some (verifier_handle (signer a))) (file_path w'),
         Ok (Some (mkAnchored seq head_hash)))
    end
  else (fs, a, w, Ok None).

Definition verify_records_against_anchor_with (records : list AuditRecord) (w : WormAnchor) (v : LocalKms) :
    result AnchorError AnchorVerification :=
  match latest w with
  | None => Err NoAnchor
  | Some anchor =>
      if verify_head v (a_head_hash anchor) (a_seq anchor) (a_timestamp_unix_millis anchor) (a_signature anchor)
      then
        let '(actual_head, _, _) := head_of records in
        if bool_decide (actual_head = a_head_hash anchor) then Ok Verified
        else Ok (HeadMismatch (a_head_hash anchor) actual_head (a_seq anchor))
      else Err (BadSignature (a_seq anchor))
  end.

Definition verify_records_against_anchor (records : list AuditRecord) (w : WormAnchor) :
    result AnchorError AnchorVerification :=
  match verifier w with
  | Some v => verify_records_against_anchor_with records w v
  | None => Err NoVerifier
  end.

(** The forms that take a chain instead of its records. *)
Definition maybe_anchor (fs : Files) (a : Anchorer) (chain : AuditChain) (now : Z) (w : WormAnchor) :
    Files * Anchorer * WormAnchor * result WormAnchorError (option Anchored) :=
  maybe_anchor_records fs a chain now w.
Definition verify_against_anchor (chain : AuditChain) (w : WormAnchor) : result AnchorError AnchorVerification :=
  verify_records_against_anchor chain w.
Definition verify_against_anchor_with (chain : AuditChain) (w : WormAnchor) (v : LocalKms) :
    result AnchorError AnchorVerification :=
  verify_records_against_anchor_with chain w v.

Lemma head_of_hash records : (head_of records).1.1 = head_hash records.
Proof. unfold head_of, head_hash. by destruct (last records). Qed.

Lemma worm_append_entries fs w e fs' w' : worm_append fs w e = (fs', w', Ok tt) -> entries w' = entries w ++ [e].
Proof.
  unfold worm_append. destruct (file_path w) as [path|]; [|by intros [= <- <-]].
  destruct (fs !! path); [|done]. destruct (entry_to_json e); [|done]. by intros [= <- <-].
Qed.

(** What has just been anchored verifies by the handle the anchoring left behind, whatever
    was anchored before, and so does exactly what has the same head. *)
Lemma anchored_verifies fs a chain now w fs' a' w' x chain' :
  (forall head n ts, verify_head (verifier_handle (signer a)) head n ts (sign_head (signer a) head n ts) = true) ->
  maybe_anchor fs a chain now w = (fs', a', w', Ok (Some x)) ->
  verify_against_anchor chain' w' = Ok Verified <-> head_hash chain' = head_hash chain.
Proof.
  intros Hv. unfold maybe_anchor, maybe_anchor_records. destruct (due a now); [|done].
  pose proof (head_of_hash chain) as Eh. destruct (head_of chain) as [[h n] ts]. simpl in Eh. subst h.
  destruct (worm_append _ _ _) as [[fs1 w1] [[]|e]] eqn:Ea; [|done]. intros [= <- <- <- <-].
  unfold verify_against_anchor, verify_records_against_anchor, verify_records_against_anchor_with, latest. simpl.
  rewrite (worm_append_entries _ _ _ _ _ Ea), last_snoc. simpl. rewrite Hv.
  pose proof (head_of_hash chain') as Eh. destruct (head_of chain') as [[h' n'] ts']. simpl in Eh. subst h'.
  case_bool_decide; naive_solver.
Qed.

(** ** What the durable file keeps *)

Hypothesis json_roundtrip : forall e line,
  entry_to_json e = Ok line -> Text.is_blank line = false /\ entry_of_json line = Ok e.

(** The file at the anchor's path reads back as exactly the anchor's entries. *)
Definition durable (fs : Files) (w : WormAnchor) : Prop :=
  exists path lines, file_path w = Some path /\ fs !! path = Some lines /\
    read_entries lines = Ok (entries w).

Lemma read_entries_app l1 l2 es1 es2 :
  read_entries l1 = Ok es1 -> read_entries l2 = Ok es2 -> read_entries (l1 ++ l2) = Ok (es1 ++ es2).
Proof.
  intros H1 H2. revert es1 H1. induction l1 as [|line l1 IH]; intros es1; simpl.
  - by intros [= <-].
  - destruct (Text.is_blank line); [apply IH|].
    intros (e & -> & (es & Hes & [= <-])%result_bind_ok)%result_bind_ok. simpl. by rewrite (IH _ Hes).
Qed.

Lemma open_file_durable fs path fs' w : open_file fs path = (fs', Ok w) -> durable fs' w.
Proof.
  unfold open_file. destruct (fs !! path) as [lines|] eqn:E; intros H.
  - injection H as <- (es & Hes & [= <-])%result_bind_ok. by exists path, lines.
  - injection H as <- <-. exists path, []. by rewrite lookup_insert_eq.
Qed.

Lemma worm_append_durable fs w e fs' w' :
  durable fs w -> worm_append fs w e = (fs', w', Ok tt) ->
  durable fs' w' /\ entries w' = entries w ++ [e] /\ file_path w' = file_path w.
Proof.
  intros (path & lines & Hp & Hf & Hr). unfold worm_append. rewrite Hp, Hf.
  destruct (entry_to_json e) as [line|m] eqn:E; [|done]. intros [= <- <-]. simpl.
  split; [|done]. exists path, (lines ++ [line]). rewrite lookup_insert_eq. do 2 (split; [done|]).
  apply read_entries_app; [done|]. apply json_roundtrip in E as [Hb He]. simpl. by rewrite Hb, He.
Qed.

(** A new process reads back from the path what was durable there. *)
Lemma reopen_durable fs w path :
  durable fs w -> file_path w = Some path ->
  open_file fs path = (fs, Ok (mkWorm (entries w) None (Some path))).
Proof.
  intros (path' & lines & Hp & Hf & Hr) Hp'. rewrite Hp in Hp'. injection Hp' as ->.
  unfold open_file. by rewrite Hf, Hr.
Qed.
End anchor.

End Anchor.

Module Boot.
Import AuditChain AuditSink Secret Kms Anchor.

Inductive BootError : Type :=
| Connect (message : string)
| KmsFailed (e : KmsError)
| SinkFailed (e : SinkError)
| WormFailed (e : WormAnchorError)
| ChainIntegrity (b : ChainBreak)
| AnchorHeadMismatch (anchored_head actual_head : string) (anchored_seq : Z)
| AnchorFailed (e : AnchorError).

Inductive AnchorRole : Type := Owner | VerifyOnly.

Definition parse_role (value : option string) (default : AnchorRole) : result string AnchorRole :=
  match value with
  | None => Ok default
  | Some v =>
      let v := Text.to_ascii_lowercase (Text.trim v) in
      if bool_decide (v = ""%string) then Ok default
      else if bool_decide (v = "owner"%string) then Ok Owner
      else if bool_decide (v = "verify"%string) || bool_decide (v = "verifier"%string)
              || bool_decide (v = "verify-only"%string)
      then Ok VerifyOnly
      else Err ("PGB_ANCHOR_ROLE must be `owner` or `verify`, got `" +:+ v +:+ "`")%string
  end.

Definition is_owner (r : AnchorRole) : bool := match r with Owner => true | VerifyOnly => false end.

Record AuditBoot (S : Type) : Type := mkBoot {
  sink : S;
  worm : WormAnchor;
  anchorer : Anchorer;
  boot_verifier : LocalKms
}.
Arguments mkBoot {S}.
Arguments sink {S}.
Arguments worm {S}.
Arguments anchorer {S}.
Arguments boot_verifier {S}.

Definition with_sink_and_worm {S} (s : S) (signer : LocalKms) (interval : Z) (w : WormAnchor) : AuditBoot S :=
  mkBoot s w (anchorer_new signer interval) (verifier_handle signer).

Definition with_sink {S} (s : S) (signer : LocalKms) (interval : Z) : AuditBoot S :=
  with_sink_and_worm s signer interval worm_new.

Section boot.
Context (canonical : AuditPayload -> list byte) (sha256_hex : list byte -> string).
Context `{!Kms LocalKms}.
Context (entry_to_json : AnchorEntry -> result string string).
Context (entry_of_json : string -> result string AnchorEntry).
Context {S : Type} `{!Sink S}.

(** [connect_with_anchor]: [client] is the outcome of connecting to the database. *)
Definition connect_with_anchor {K} `{SecretStore K} (fs : Files) (client : result string S) (store : K)
    (interval : Z) (anchor_path : string) : Files * result BootError (AuditBoot S) :=
  match from_secret_store store AUDIT_SIGNING_KEY_ID with
  | Err e => (fs, Err (KmsFailed e))
  | Ok signer =>
      match open_file entry_of_json fs anchor_path with
      | (fs', Err e) => (fs', Err (WormFailed e))
      | (fs', Ok w) =>
          (fs', let? s := result_map_err Connect client in Ok (with_sink_and_worm s signer interval w))
      end
  end.

(** [AuditBoot::connect]: the same over an anchor in memory, which starts empty. *)
Definition boot_connect {K} `{SecretStore K} (client : result string S) (store : K) (interval : Z) : result BootError (AuditBoot S) :=
  let? signer := result_map_err KmsFailed (from_secret_store store AUDIT_SIGNING_KEY_ID) in
  let? s := result_map_err Connect client in
  Ok (with_sink_and_worm s signer interval worm_new).

Definition boot_load_chain (b : AuditBoot S) : result BootError (list AuditRecord) :=
  result_map_err SinkFailed (load_chain_mut (sink b)).

Definition assert_head_matches_durable_anchor (b : AuditBoot S) (records : list AuditRecord) :
    result BootError unit :=
  let? v := result_map_err AnchorFailed (verify_records_against_anchor_with records (worm b) (boot_verifier b)) in
  match v with
  | Verified => Ok tt
  | HeadMismatch anchored actual seq => Err (AnchorHeadMismatch anchored actual seq)
  end.

Definition boot_maybe_anchor (fs : Files) (b : AuditBoot S) (now : Z) :
    Files * AuditBoot S * result BootError (option Anchored) :=
  match boot_load_chain b with
  | Err e => (fs, b, Err e)
  | Ok records =>
      let '(fs', a, w, r) := maybe_anchor_records entry_to_json fs (anchorer b) records now (worm b) in
      (fs', mkBoot (sink b) w a (boot_verifier b), result_map_err WormFailed r)
  end.

(** The checks shared by the two boot sequences: within-chain integrity, then the
    durable head when one was ever published. *)
Definition check_chain (b : AuditBoot S) : result BootError (list AuditRecord) :=
  let? records := boot_load_chain b in
  let? _ := result_map_err ChainIntegrity (verify_chain canonical sha256_hex records) in
  match latest (worm b) with
  | Some _ => let? _ := assert_head_matches_durable_anchor b records in Ok records
  | None => Ok records
  end.

Definition verify_then_anchor (fs : Files) (b : AuditBoot S) (now : Z) :
    Files * AuditBoot S * result BootError unit :=
  match check_chain b with
  | Err e => (fs, b, Err e)
  | Ok records =>
      let '(fs', a, w, r) := maybe_anchor_records entry_to_json fs (anchorer b) records now (worm b) in
      (fs', mkBoot (sink b) w a (boot_verifier b),
       let? _ := result_map_err WormFailed r in Ok tt)
  end.

Definition verify_only (b : AuditBoot S) : result BootError unit :=
  let? _ := check_chain b in Ok tt.

Definition boot (fs : Files) (b : AuditBoot S) (role : AnchorRole) (now : Z) :
    Files * AuditBoot S * result BootError unit :=
  match role with
  | Owner => verify_then_anchor fs b now
  | VerifyOnly => (fs, b, verify_only b)
  end.

Definition startup_verify (b : AuditBoot S) : result BootError unit :=
  let? records := boot_load_chain b in
  let? _ := result_map_err ChainIntegrity (verify_chain canonical sha256_hex records) in
  assert_head_matches_durable_anchor b records.

(** ** Lemmas *)

Lemma assert_head_ok b records :
  assert_head_matches_durable_anchor b records = Ok tt ->
  exists e, latest (worm b) = Some e /\ a_head_hash e = head_hash records.
Proof.
  unfold assert_head_matches_durable_anchor, verify_records_against_anchor_with.
  rewrite <- head_of_hash. destruct (latest (worm b)) as [e|]; [|done].
  destruct (verify_head _ _ _ _ _); [|done]. destruct (head_of records) as [[h s] t]. simpl.
  case_bool_decide; [|done]. subst. eauto.
Qed.

(** Over a validly signed anchor the check compares the two heads. *)
Lemma assert_head_signed b records e :
  latest (worm b) = Some e ->
  verify_head (boot_verifier b) (a_head_hash e) (a_seq e) (a_timestamp_unix_millis e) (a_signature e) = true ->
  assert_head_matches_durable_anchor b records =
    if decide (head_hash records = a_head_hash e) then Ok tt
    else Err (AnchorHeadMismatch (a_head_hash e) (head_hash records) (a_seq e)).
Proof.
  intros He Hv. unfold assert_head_matches_durable_anchor, verify_records_against_anchor_with.
  rewrite He, Hv. rewrite <- (head_of_hash records). destruct (head_of records) as [[h q] t]. simpl.
  case_bool_decide; by case_decide.
Qed.

Lemma check_chain_anchored b records e :
  load_chain_mut (sink b) = Ok records -> verify_chain canonical sha256_hex records = Ok tt ->
  latest (worm b) = Some e ->
  verify_head (boot_verifier b) (a_head_hash e) (a_seq e) (a_timestamp_unix_millis e) (a_signature e) = true ->
  check_chain b =
    if decide (head_hash records = a_head_hash e) then Ok records
    else Err (AnchorHeadMismatch (a_head_hash e) (head_hash records) (a_seq e)).
Proof.
  intros Hl Hv He Hs. unfold check_chain, boot_load_chain. rewrite Hl. cbn [result_map_err result_bind].
  rewrite Hv. cbn [result_map_err result_bind]. rewrite He, (assert_head_signed b records e He Hs).
  by case_decide.
Qed.

Lemma check_chain_ok b records :
  check_chain b = Ok records ->
  load_chain_mut (sink b) = Ok records /\ chain_ok canonical sha256_hex records /\
  (forall e, latest (worm b) = Some e -> a_head_hash e = head_hash records).
Proof.
  unfold check_chain, boot_load_chain.
  destruct (load_chain_mut (sink b)) as [rs|]; [|done]. simpl.
  destruct (verify_chain canonical sha256_hex rs) as [[]|] eqn:Ev; [|done]. simpl.
  apply verify_chain_ok in Ev. destruct (latest (worm b)) as [e|] eqn:El.
  - intros ([] & Ha & [= <-])%result_bind_ok. apply assert_head_ok in Ha as (e' & He' & Hh).
    naive_solver congruence.
  - intros [= <-]. done.
Qed.

Lemma boot_ok_head fs b role now fs' b' records :
  boot fs b role now = (fs', b', Ok tt) -> load_chain_mut (sink b) = Ok records ->
  chain_ok canonical sha256_hex records /\
  (forall e, latest (worm b) = Some e -> a_head_hash e = head_hash records).
Proof.
  intros Hb Hl. assert (exists rs, check_chain b = Ok rs) as [rs Hrs].
  { destruct role; simpl in Hb; unfold verify_then_anchor, verify_only in Hb;
      destruct (check_chain b) as [rs|]; eauto; discriminate. }
  apply check_chain_ok in Hrs as (Hl' & Hc & Hh). rewrite Hl in Hl'. injection Hl' as ->. done.
Qed.

(** What a first owner boot leaves behind when it succeeds. *)
Lemma owner_boot_pins fs b now fs' b' records :
  last_anchor_at (anchorer b) = None -> load_chain_mut (sink b) = Ok records ->
  boot fs b Owner now = (fs', b', Ok tt) ->
  exists e w0, worm_append entry_to_json fs (worm b) e = (fs', w0, Ok tt) /\
    entries (worm b') = entries w0 /\ file_path (worm b') = file_path w0 /\
    a_head_hash e = head_hash records /\
    a_signature e = sign_head (signer (anchorer b)) (a_head_hash e) (a_seq e) (a_timestamp_unix_millis e).
Proof.
  intros Hn Hl. simpl. unfold verify_then_anchor.
  destruct (check_chain b) as [rs|] eqn:Hc; [|done].
  apply check_chain_ok in Hc as (Hl' & _ & _). rewrite Hl in Hl'. injection Hl' as <-.
  unfold maybe_anchor_records, due. rewrite Hn, <- head_of_hash.
  destruct (head_of records) as [[h s] t]. simpl.
  destruct (worm_append _ _ _ _) as [[fs1 w1] [[]|err]] eqn:E; [|done].
  intros [= <- <-]. eexists _, w1. split; [exact E|done].
Qed.
End boot.

(** One process life: open the durable anchor at [path], build the handle, boot. *)
Definition life (canonical : AuditPayload -> list byte) (sha256_hex : list byte -> string)
    `{!Kms LocalKms} (entry_to_json : AnchorEntry -> result string string)
    (entry_of_json : string -> result string AnchorEntry) {S} `{!Sink S}
    (fs : Files) (path : string) (s : S) (signer : LocalKms) (interval : Z) (role : AnchorRole) (now : Z) :
    Files * result BootError unit :=
  match open_file entry_of_json fs path with
  | (fs', Err e) => (fs', Err (WormFailed e))
  | (fs', Ok w) =>
      let '(fs'', _, r) := boot canonical sha256_hex entry_to_json fs' (with_sink_and_worm s signer interval w)
                             role now in
      (fs'', r)
  end.

Section life.
Context (canonical : AuditPayload -> list byte) (sha256_hex : list byte -> string).
Context `{!Kms LocalKms}.
Context (entry_to_json : AnchorEntry -> result string string).
Context (entry_of_json : string -> result string AnchorEntry).
Hypothesis json_roundtrip : forall e line,
  entry_to_json e = Ok line -> Text.is_blank line = false /\ entry_of_json line = Ok e.

(** What the next process reads from the path after a successful owner boot. *)
Lemma owner_life_pins {S} `{!Sink S} fs path (s : S) signer interval now fs1 rs :
  load_chain_mut s = Ok rs ->
  life canonical sha256_hex entry_to_json entry_of_json fs path s signer interval Owner now = (fs1, Ok tt) ->
  chain_ok canonical sha256_hex rs /\
  exists w e, open_file entry_of_json fs1 path = (fs1, Ok w) /\ durable entry_of_json fs1 w /\
    latest w = Some e /\ a_head_hash e = head_hash rs /\
    a_signature e = sign_head signer (a_head_hash e) (a_seq e) (a_timestamp_unix_millis e).
Proof.
  intros Hl. unfold life. destruct (open_file entry_of_json fs path) as [fs0 [w0|]] eqn:Ho; [|done].
  destruct (boot _ _ _ _ _ _ _) as [[fs1' b1] r] eqn:Hb. intros [= -> ->].
  pose proof (open_file_durable _ _ _ _ _ Ho) as Hd.
  assert (file_path w0 = Some path) as Hp.
  { unfold open_file in Ho. destruct (fs !! path); injection Ho as <- Ho; [|by subst].
    by apply result_bind_ok in Ho as (es & _ & [= <-]). }
  assert (load_chain_mut (sink (with_sink_and_worm s signer interval w0)) = Ok rs) as Hl' by done.
  split; [by eapply boot_ok_head in Hl' as [??]|].
  eapply owner_boot_pins in Hb as (e & w1 & Ha & He & Hpath & Hh & Hs); [|done..].
  eapply worm_append_durable in Ha as (Hd1 & He1 & Hp1); [|done..].
  exists (mkWorm (entries w1) None (Some path)), e.
  split; [apply reopen_durable; [done|]; etransitivity; [exact Hp1|exact Hp]|].
  split; [|split; [|done]].
  - destruct Hd1 as (path' & lines & Hq & Hf & Hr). exists path', lines. split; [|done].
    simpl. rewrite <- Hq, Hp1. symmetry. exact Hp.
  - unfold latest. simpl. rewrite He1. apply last_snoc.
Qed.
End life.

(** ** Properties *)

(** Tamper evidence across a restart.  After an owner process booted over the chain
    [rs1] and pinned its head in the durable anchor, any later process, owner or
    verify-only, over any sink contents [rs2], boots only when [rs2] is [rs1]; otherwise
    two payloads share a hash.  A consistent rewrite of the whole table is included. *)
Theorem restart_detects_rewrite (canonical : AuditPayload -> list byte) (sha256_hex : list byte -> string)
    `{!Kms LocalKms} (entry_to_json : AnchorEntry -> result string string)
    (entry_of_json : string -> result string AnchorEntry)
    (json_roundtrip : forall e line,
       entry_to_json e = Ok line -> Text.is_blank line = false /\ entry_of_json line = Ok e)
    (S1 S2 : Type) `{!Sink S1, !Sink S2} (fs : Files) (path : string) (s1 : S1) (s2 : S2)
    (k1 k2 : LocalKms) (i1 i2 now1 now2 : Z) (role : AnchorRole) (rs1 rs2 : list AuditRecord) (fs1 fs2 : Files) :
  load_chain_mut s1 = Ok rs1 ->
  life canonical sha256_hex entry_to_json entry_of_json fs path s1 k1 i1 Owner now1 = (fs1, Ok tt) ->
  load_chain_mut s2 = Ok rs2 ->
  life canonical sha256_hex entry_to_json entry_of_json fs1 path s2 k2 i2 role now2 = (fs2, Ok tt) ->
  rs2 = rs1 \/ hash_broken canonical sha256_hex.
Proof.
  intros Hl1 H1 Hl2 H2.
  eapply owner_life_pins in H1 as (Hc1 & w & e & Ho & _ & He & Hh & _); [|done..].
  unfold life in H2. rewrite Ho in H2. destruct (boot _ _ _ _ _ _ _) as [[fs2' b2] r] eqn:Hb.
  injection H2 as -> ->. eapply boot_ok_head in Hb as [Hc2 Hh2]; [|exact Hl2].
  apply same_head_same_chain; [done..|]. by rewrite <- (Hh2 e He).
Qed.

(** An honest restart boots: over the unchanged chain and with the same key, both
    the owner and a verify-only process start. *)
Theorem honest_restart_boots (canonical : AuditPayload -> list byte) (sha256_hex : list byte -> string)
    (hmac : list byte -> list byte -> list byte)
    (hex_encode : list byte -> string) (hex_decode : string -> option (list byte))
    (entry_to_json : AnchorEntry -> result string string)
    (entry_of_json : string -> result string AnchorEntry)
    (hex_roundtrip : forall l, hex_decode (hex_encode l) = Some l)
    (json_total : forall e, exists line, entry_to_json e = Ok line)
    (json_roundtrip : forall e line,
       entry_to_json e = Ok line -> Text.is_blank line = false /\ entry_of_json line = Ok e)
    (S : Type) `{!Sink S} (fs : Files) (path : string) (s : S) (k : LocalKms)
    (i now1 now2 : Z) (role : AnchorRole) (rs : list AuditRecord) (fs1 : Files) :
  let _ := LocalKms_kms hmac hex_encode hex_decode in
  load_chain_mut s = Ok rs ->
  life canonical sha256_hex entry_to_json entry_of_json fs path s k i Owner now1 = (fs1, Ok tt) ->
  (life canonical sha256_hex entry_to_json entry_of_json fs1 path s k i role now2).2 = Ok tt.
Proof.
  intros kms Hl H1.
  eapply owner_life_pins in H1 as (Hc1 & w & e & Ho & Hd & He & Hh & Hs); [|done..].
  unfold life. rewrite Ho.
  assert (check_chain canonical sha256_hex (with_sink_and_worm s k i w) = Ok rs) as Hck.
  { rewrite (check_chain_anchored _ _ _ rs e); [by rewrite decide_True|done|by apply verify_chain_ok|done|].
    rewrite Hs. by apply sign_then_verify. }
  destruct role; simpl; unfold verify_then_anchor, verify_only; rewrite Hck; [|done].
  unfold maybe_anchor_records. simpl. destruct (head_of rs) as [[h q] t].
  destruct Hd as (path' & lines & Hp & Hf & Hr). unfold worm_append. rewrite Hp, Hf.
  edestruct json_total as [line ->]. done.
Qed.

(** The anchor must be the last thing a process writes.  A chain honestly extended
    after the head was pinned is refused by the next boot, owner or verify-only, with the
    head-mismatch error (or the hash is broken): records appended between the last anchor
    tick and a crash keep every later process from starting. *)
Theorem honest_extension_refused (canonical : AuditPayload -> list byte) (sha256_hex : list byte -> string)
    (hmac : list byte -> list byte -> list byte)
    (hex_encode : list byte -> string) (hex_decode : string -> option (list byte))
    (entry_to_json : AnchorEntry -> result string string)
    (entry_of_json : string -> result string AnchorEntry)
    (hex_roundtrip : forall l, hex_decode (hex_encode l) = Some l)
    (json_roundtrip : forall e line,
       entry_to_json e = Ok line -> Text.is_blank line = false /\ entry_of_json line = Ok e)
    (S1 S2 : Type) `{!Sink S1, !Sink S2} (fs : Files) (path : string) (s1 : S1) (s2 : S2) (k : LocalKms)
    (i now1 now2 : Z) (role : AnchorRole) (rs more : list AuditRecord) (fs1 : Files) :
  let _ := LocalKms_kms hmac hex_encode hex_decode in
  load_chain_mut s1 = Ok rs ->
  life canonical sha256_hex entry_to_json entry_of_json fs path s1 k i Owner now1 = (fs1, Ok tt) ->
  load_chain_mut s2 = Ok (rs ++ more) -> more <> [] ->
  verify_chain canonical sha256_hex (rs ++ more) = Ok tt ->
  (exists n, (life canonical sha256_hex entry_to_json entry_of_json fs1 path s2 k i role now2).2 =
             Err (AnchorHeadMismatch (head_hash rs) (head_hash (rs ++ more)) n)) \/
  hash_broken canonical sha256_hex.
Proof.
  intros kms Hl1 H1 Hl2 Hne Hv.
  eapply owner_life_pins in H1 as (Hc1 & w & e & Ho & _ & He & Hh & Hs); [|done..].
  destruct (decide (head_hash (rs ++ more) = head_hash rs)) as [E|E].
  { right. apply verify_chain_ok in Hv.
    destruct (same_head_same_chain _ _ _ _ Hv Hc1 E) as [E2|?]; [|done].
    rewrite <- (app_nil_r rs) in E2 at 2. by apply app_inv_head in E2. }
  left. exists (a_seq e). unfold life. rewrite Ho.
  assert (check_chain canonical sha256_hex (with_sink_and_worm s2 k i w) =
          Err (AnchorHeadMismatch (head_hash rs) (head_hash (rs ++ more)) (a_seq e))) as Hck.
  { rewrite (check_chain_anchored _ _ _ (rs ++ more) e); [by rewrite Hh, decide_False|done..|].
    rewrite Hs. by apply sign_then_verify. }
  destruct role; simpl; unfold verify_then_anchor, verify_only; by rewrite Hck.
Qed.

(** The anchor log is append-only and has one writer.  Whatever a boot returns, a
    verify-only process leaves files and anchor untouched, and an owner keeps every
    published entry and every line of every file, adding at most one. *)
Theorem boot_append_only (canonical : AuditPayload -> list byte) (sha256_hex : list byte -> string)
    `{!Kms LocalKms} (entry_to_json : AnchorEntry -> result string string)
    (S : Type) `{!Sink S} (fs : Files) (b : AuditBoot S) (role : AnchorRole) (now : Z) :
  let '(fs', b', _) := boot canonical sha256_hex entry_to_json fs b role now in
  (is_owner role = false -> fs' = fs /\ b' = b) /\
  (exists more, entries (worm b') = entries (worm b) ++ more /\ (length more <= 1)%nat) /\
  (forall path lines, fs !! path = Some lines ->
     exists more, fs' !! path = Some (lines ++ more) /\ (length more <= 1)%nat).
Proof.
  assert (forall A (l : list A), exists more, l = l ++ more /\ (length more <= 1)%nat) as Hsame.
  { intros A l. exists []. rewrite app_nil_r. split; [done|simpl; lia]. }
  assert (forall (f : Files) path lines, f !! path = Some lines ->
     exists more, f !! path = Some (lines ++ more) /\ (length more <= 1)%nat) as Hfs.
  { intros f path lines Hf. exists []. rewrite app_nil_r. split; [done|simpl; lia]. }
  destruct role; [|by simpl; split_and!; auto]. cbn [boot is_owner]. unfold verify_then_anchor.
  destruct (check_chain _ _ _) as [rs|]; [|by simpl; split_and!; auto]. unfold maybe_anchor_records.
  destruct (due _ _); [|by simpl; split_and!; auto]. destruct (head_of rs) as [[h q] t]. unfold worm_append.
  assert (forall A (l : list A) x, exists more, l ++ [x] = l ++ more /\ (length more <= 1)%nat) as Hone.
  { intros A l x. exists [x]. split; [done|simpl; lia]. }
  destruct (file_path (worm b)) as [path0|]; [|by simpl; split_and!; auto].
  destruct (fs !! path0) as [lines0|] eqn:E0; [|by simpl; split_and!; auto].
  destruct (entry_to_json _) as [line|]; [|by simpl; split_and!; auto].
  split; [done|]. split; [apply Hone|]. intros path lines Hp.
  destruct (decide (path0 = path)) as [->|Hne]; [|rewrite lookup_insert_ne by done; by apply Hfs].
  rewrite lookup_insert_eq. rewrite E0 in Hp. injection Hp as ->. exists [line]. split; [done|simpl; lia].
Qed.

(** A run of interval ticks over whatever the sink holds at each; the instants at which
    an anchor was published, in order. *)
Fixpoint ticks `{!Kms LocalKms} (entry_to_json : AnchorEntry -> result string string)
    (fs : Files) (a : Anchorer) (w : WormAnchor) (ts : list (Z * list AuditRecord)) : list Z :=
  match ts with
  | [] => []
  | (now, records) :: ts =>
      let '(fs', a', w', r) := maybe_anchor_records entry_to_json fs a records now w in
      match r with
      | Ok (Some _) => now :: ticks entry_to_json fs' a' w' ts
      | _ => ticks entry_to_json fs' a' w' ts
      end
  end.

Definition spaced (interval : Z) (prev : option Z) (published : list Z) : Prop :=
  Sorted (fun p q => p + interval <= q) (match prev with Some p => p :: published | None => published end).

Lemma maybe_anchor_due `{!Kms LocalKms} entry_to_json fs a records now w fs' a' w' r :
  maybe_anchor_records entry_to_json fs a records now w = (fs', a', w', r) ->
  interval_millis a' = interval_millis a /\
  match r with
  | Ok (Some _) => due a now = true /\ last_anchor_at a' = Some now
  | _ => last_anchor_at a' = last_anchor_at a
  end.
Proof.
  unfold maybe_anchor_records. destruct (due a now); [|by intros [= <- <- <- <-]].
  destruct (head_of records) as [[h q] t]. destruct (worm_append _ _ _ _) as [[fs1 w1] [[]|]];
    by intros [= <- <- <- <-].
Qed.

(** Anchors are paced.  Over any run of ticks, two consecutive anchors are at least
    one interval apart on the monotonic clock, whatever was published, refused or failed
    in between. *)
Theorem anchors_are_paced `{!Kms LocalKms} (entry_to_json : AnchorEntry -> result string string)
    (fs : Files) (a : Anchorer) (w : WormAnchor) (ts : list (Z * list AuditRecord)) :
  0 < interval_millis a ->
  spaced (interval_millis a) (last_anchor_at a) (ticks entry_to_json fs a w ts).
Proof.
  revert fs a w. induction ts as [|[now rs] ts IH]; intros fs a w Hi; simpl.
  - unfold spaced. destruct (last_anchor_at a); repeat constructor.
  - destruct (maybe_anchor_records entry_to_json fs a rs now w) as [[[fs' a'] w'] r] eqn:E.
    apply maybe_anchor_due in E as [Hiv Hr].
    specialize (IH fs' a' w'). rewrite Hiv in IH. specialize (IH Hi).
    destruct r as [[x|]|e]; [|by rewrite Hr in IH..].
    destruct Hr as [Hdue Hlast]. rewrite Hlast in IH. unfold spaced in *.
    unfold due in Hdue. destruct (last_anchor_at a) as [prev|]; [|done].
    apply Z.leb_le in Hdue. unfold sat_sub in Hdue. constructor; [done|]. constructor. lia.
Qed.

Definition never_json (e : AnchorEntry) : result string string := Err ""%string.

Lemma anchors_are_paced_witness :
  let _ := LocalKms_kms (fun _ l => l) of_bytes (fun s => Some (as_bytes s)) in
  let a := anchorer_new (mkLocalKms "k" []) 10 in
  ticks never_json ∅ a worm_new [(5, []); (9, []); (15, [])] = [5; 15] /\
  spaced (interval_millis a) (last_anchor_at a) (ticks never_json ∅ a worm_new [(5, []); (9, []); (15, [])]).
Proof.
  intros kms a. split; [vm_compute; reflexivity|].
  apply (anchors_are_paced never_json ∅ a worm_new). reflexivity.
Defined.

(** An anchor signature binds the head it was made for: verified against other
    values of the hash, number or time, it is refused unless HMAC maps two different
    inputs to one tag. *)
Theorem anchor_signature_binds_head (hmac : list byte -> list byte -> list byte)
    (hex_encode : list byte -> string) (hex_decode : string -> option (list byte))
    (hex_roundtrip : forall l, hex_decode (hex_encode l) = Some l)
    (k : LocalKms) (h h' : string) (s s' t t' : Z) :
  in_u 64 (Z.of_nat (length (as_bytes h))) -> in_u 64 (Z.of_nat (length (as_bytes h'))) ->
  in_u 64 s -> in_u 64 s' -> in_u 64 t -> in_u 64 t' ->
  local_verify_head hmac hex_decode k h' s' t' (local_sign_head hmac hex_encode k h s t) = true <->
  (h = h' /\ s = s' /\ t = t') \/
  (head_signing_input h s t <> head_signing_input h' s' t' /\
   hmac (key k) (head_signing_input h s t) = hmac (key k) (head_signing_input h' s' t')).
Proof.
  intros. unfold local_verify_head, local_sign_head. simpl.
  rewrite bool_decide_true, hex_roundtrip, bool_decide_eq_true by done.
  split; [|intros [(-> & -> & ->)|[_ E]]; done].
  intros E. destruct (decide (head_signing_input h s t = head_signing_input h' s' t')) as [Ei|Ei].
  - left. by apply head_signing_input_inj.
  - right. by split.
Qed.

Lemma anchor_signature_binds_head_witness :
  local_verify_head (fun _ l => l) (fun s => Some (as_bytes s)) (mkLocalKms "k" []) "ab" 2 3
    (local_sign_head (fun _ l => l) of_bytes (mkLocalKms "k" []) "ab" 1 3) = true <->
  ("ab"%string = "ab"%string /\ 1 = 2 /\ 3 = 3) \/
  (head_signing_input "ab" 1 3 <> head_signing_input "ab" 2 3 /\
   head_signing_input "ab" 1 3 = head_signing_input "ab" 2 3).
Proof.
  apply (anchor_signature_binds_head (fun _ l => l) of_bytes (fun s => Some (as_bytes s))
           (fun l => f_equal Some (as_of_bytes l)) (mkLocalKms "k" []) "ab" "ab" 1 2 3 3);
    by_decide.
Defined.

(** ** A concrete instance for the restart theorems *)

Definition demo_hmac (k l : list byte) : list byte := k ++ l.
Definition demo_hex_decode (s : string) : option (list byte) := Some (as_bytes s).
Definition demo_kms : Kms LocalKms := LocalKms_kms demo_hmac of_bytes demo_hex_decode.

Fixpoint bits (p : positive) : list byte :=
  match p with xH => [x31] | xO p => x30 :: bits p | xI p => x31 :: bits p end.
Fixpoint of_bits (l : list byte) : option positive :=
  match l with
  | [x31] => Some xH
  | x30 :: l => xO <$> of_bits l
  | x31 :: l => xI <$> of_bits l
  | _ => None
  end.

Lemma of_bits_bits p : of_bits (bits p) = Some p.
Proof.
  induction p as [p IH|p IH|]; [| |done].
  - change (of_bits (bits (xI p))) with
      (match bits p with [] => Some xH | _ => xI <$> of_bits (bits p) end).
    rewrite IH. by destruct p.
  - change (of_bits (bits (xO p))) with (xO <$> of_bits (bits p)). by rewrite IH.
Qed.

Definition entry_tuple (e : AnchorEntry) : string * Z * Z * (string * string) :=
  (a_head_hash e, a_seq e, a_timestamp_unix_millis e, (sig_key_id (a_signature e), signature (a_signature e))).
Definition tuple_entry (t : string * Z * Z * (string * string)) : AnchorEntry :=
  let '(h, s, ts, (k, g)) := t in mkAnchorEntry h s ts (mkHeadSignature k g).

Definition demo_to_json (e : AnchorEntry) : result string string :=
  Ok (of_bytes (x7b :: bits (encode (entry_tuple e)) ++ [x7d])).
Definition demo_of_json (s : string) : result string AnchorEntry :=
  match of_bits (removelast (drop 1 (as_bytes s))) ≫= decode with
  | Some t => Ok (tuple_entry t)
  | None => Err "bad entry"%string
  end.

Lemma bracketed_not_blank l : Text.is_blank (of_bytes (x7b :: l ++ [x7d])) = false.
Proof.
  unfold Text.is_blank, Text.trim. apply bool_decide_eq_false. rewrite as_of_bytes.
  assert (Text.trim_start (x7b :: l ++ [x7d]) = x7b :: l ++ [x7d]) as Hs.
  { unfold Text.trim_start. cbn [length Text.strip_all].
    replace (Text.strip_ws (x7b :: l ++ [x7d])) with (@None (list byte)); [done|].
    destruct (l ++ [x7d]) as [|b1 [|b2 r]]; reflexivity. }
  unfold Text.trim_bytes, Text.trim_end. rewrite Hs. cbn [length Text.strip_all].
  rewrite app_comm_cons, rev_app_distr. cbn [rev app].
  replace (Text.strip_ws_back (x7d :: rev l ++ [x7b])) with (@None (list byte)).
  - cbn [rev]. rewrite rev_app_distr, rev_involutive. done.
  - unfold Text.strip_ws_back. symmetry.
    destruct (rev l ++ [x7b]) as [|b1 [|b2 r]]; cbn [take rev app drop];
      repeat (case_match; simplify_eq/=; try done);
      repeat match goal with H : Text.strip_ws _ = Some [] |- _ => apply Text.strip_ws_last in H; by destruct H end.
Qed.

Lemma demo_json_roundtrip e line :
  demo_to_json e = Ok line -> Text.is_blank line = false /\ demo_of_json line = Ok e.
Proof.
  unfold demo_to_json. intros [= <-]. split; [apply bracketed_not_blank|].
  unfold demo_of_json. rewrite as_of_bytes. cbn [drop].
  rewrite ?drop_0, removelast_last, of_bits_bits. simpl. rewrite decode_encode.
  by destruct e as [h q t [k g]].
Qed.

Lemma demo_hex_roundtrip l : demo_hex_decode (of_bytes l) = Some l.
Proof. unfold demo_hex_decode. by rewrite as_of_bytes. Qed.

Lemma demo_json_total e : exists line, demo_to_json e = Ok line.
Proof. by eexists. Qed.

Definition demo_sink (n : nat) : InMemorySink :=
  mkInMemorySink (take n [sample_r0; sample_r1; sample_r2]).
Definition demo_key : LocalKms := mkLocalKms "audit/signing-key" [x01].
#[local] Abbreviation demo_sink_class := (InMemorySink_sink toy_canonical toy_hash).

(** A first owner life over the sample chain. *)
Definition demo_life (fs : Files) (n : nat) (role : AnchorRole) (now : Z) : Files * result BootError unit :=
  @life toy_canonical toy_hash demo_kms demo_to_json demo_of_json InMemorySink demo_sink_class
    fs "anchor" (demo_sink n) demo_key 1000 role now.

Definition demo_fs : Files := Eval vm_compute in (demo_life ∅ 2 Owner 5).1.

Lemma restart_detects_rewrite_witness :
  chain (demo_sink 2) = chain (demo_sink 2) \/ hash_broken toy_canonical toy_hash.
Proof.
  apply (@restart_detects_rewrite toy_canonical toy_hash demo_kms demo_to_json demo_of_json demo_json_roundtrip
           InMemorySink InMemorySink demo_sink_class demo_sink_class ∅ "anchor" (demo_sink 2) (demo_sink 2)
           demo_key demo_key 1000 1000 5 7 VerifyOnly (chain (demo_sink 2)) (chain (demo_sink 2))
           demo_fs demo_fs).
  - reflexivity.
  - vm_compute. reflexivity.
  - reflexivity.
  - vm_compute. reflexivity.
Defined.

Lemma honest_restart_boots_witness :
  (@life toy_canonical toy_hash (LocalKms_kms demo_hmac of_bytes demo_hex_decode) demo_to_json demo_of_json
     InMemorySink demo_sink_class demo_fs "anchor" (demo_sink 2) demo_key 1000 Owner 7).2 = Ok tt.
Proof.
  apply (honest_restart_boots toy_canonical toy_hash demo_hmac of_bytes demo_hex_decode demo_to_json demo_of_json
           demo_hex_roundtrip demo_json_total demo_json_roundtrip InMemorySink (Sink0 := demo_sink_class)
           ∅ "anchor" (demo_sink 2) demo_key 1000 5 7 Owner (chain (demo_sink 2)) demo_fs).
  - reflexivity.
  - vm_compute. reflexivity.
Defined.

Lemma honest_extension_refused_witness :
  (exists n, (@life toy_canonical toy_hash (LocalKms_kms demo_hmac of_bytes demo_hex_decode) demo_to_json
               demo_of_json InMemorySink demo_sink_class demo_fs "anchor" (demo_sink 3) demo_key 1000 Owner 7).2 =
             Err (AnchorHeadMismatch (head_hash [sample_r0; sample_r1])
                    (head_hash ([sample_r0; sample_r1] ++ [sample_r2])) n)) \/
  hash_broken toy_canonical toy_hash.
Proof.
  apply (honest_extension_refused toy_canonical toy_hash demo_hmac of_bytes demo_hex_decode demo_to_json demo_of_json
           demo_hex_roundtrip demo_json_roundtrip InMemorySink InMemorySink (Sink0 := demo_sink_class)
           (Sink1 := demo_sink_class) ∅ "anchor" (demo_sink 2) (demo_sink 3) demo_key 1000 5 7 Owner
           [sample_r0; sample_r1] [sample_r2] demo_fs).
  - reflexivity.
  - vm_compute. reflexivity.
  - reflexivity.
  - discriminate.
  - vm_compute. reflexivity.
Defined.

End Boot.
