(* ===== verification/Warden.v ===== *)
(** * Warden: the watchdog, its thresholds and the circuit breaker

    Models [src/crates/warden/src/model.rs] (Module [WardenModel]), [thresholds.rs]
    (Module [Thresholds]), [breaker.rs] (Module [Breaker]), [poller.rs] (Module [Poller])
    and the pure part of [run.rs] (Module [Run]: the audit records of a tick and the
    audited tick, over any audit sink).  The database reads and kills are the classes
    [ActivitySource] and [Killer], as in the source. *)

From stdpp Require Import pretty.
From S2P Require Import Prelude Session Policy AuditChain AuditSink.

Module WardenModel.

Definition PROXY_APP_NAME : string := "pgb_proxy".
Definition AGENT_ROLE : string := "pgb_agent".

Record Backend : Type := mkBackend {
  pid : Z;
  usename : string;
  application_name : string;
  state : string;
  query_runtime_millis : Z;
  query : string
}.

Definition is_agent_tagged (b : Backend) : bool :=
  bool_decide (usename b = AGENT_ROLE) || bool_decide (application_name b = PROXY_APP_NAME).

Record ReplicationSlot : Type := mkSlot {
  slot_name : string;
  slot_type : string;
  active : bool;
  retained_wal_bytes : Z
}.

Record Observation : Type := mkObservation {
  backends : list Backend;
  slots : list ReplicationSlot;
  replication_lag_bytes : Z
}.

Definition tag_is_strippable_for (role : string) : bool := negb (bool_decide (role = AGENT_ROLE)).

End WardenModel.

Module Thresholds.

Record WardenThresholds : Type := mkThresholds {
  poll_interval_millis : Z;
  max_query_runtime_millis : Z;
  slot_retained_wal_alarm_bytes : Z;
  breaker_lag_trip_bytes : Z;
  breaker_runaway_trip_count : Z;
  breaker_cooldown_millis : Z
}.

Definition thresholds_default : WardenThresholds :=
  mkThresholds 2000 60000 (64 * 1024 * 1024) (128 * 1024 * 1024) 3 30000.

(** Which rule refused; the source carries a sentence for each. *)
Inductive ThresholdError : Type :=
| ParseFailed (message : string)
| Invalid (rule : string).

Definition validate (t : WardenThresholds) : result ThresholdError unit :=
  if poll_interval_millis t =? 0 then Err (Invalid "poll_interval_millis must be > 0")
  else if 3600000 <? poll_interval_millis t then Err (Invalid "poll_interval_millis exceeds 1h")
  else if max_query_runtime_millis t =? 0 then Err (Invalid "max_query_runtime_millis must be > 0")
  else if slot_retained_wal_alarm_bytes t =? 0 then Err (Invalid "slot_retained_wal_alarm_bytes must be > 0")
  else if breaker_lag_trip_bytes t =? 0 then Err (Invalid "breaker_lag_trip_bytes must be > 0")
  else if breaker_runaway_trip_count t =? 0 then Err (Invalid "breaker_runaway_trip_count must be >= 1")
  else if breaker_cooldown_millis t =? 0 then Err (Invalid "breaker_cooldown_millis must be > 0")
  else Ok tt.

(** [parse] is the YAML reader: the optional [warden] section, or its error. *)
Definition from_policy_yaml (parse : string -> result string (option WardenThresholds)) (yaml : string) :
    result ThresholdError WardenThresholds :=
  let? doc := result_map_err ParseFailed (parse yaml) in
  let t := match doc with Some t => t | None => thresholds_default end in
  let? _ := validate t in
  Ok t.

Definition guards_on (t : WardenThresholds) : Prop :=
  0 < poll_interval_millis t <= 3600000 /\ 0 < max_query_runtime_millis t /\
  0 < slot_retained_wal_alarm_bytes t /\ 0 < breaker_lag_trip_bytes t /\
  0 < breaker_runaway_trip_count t /\ 0 < breaker_cooldown_millis t.

(** The fields as the unsigned integers they are. *)
Definition thresholds_in_range (t : WardenThresholds) : Prop :=
  0 <= poll_interval_millis t /\ 0 <= max_query_runtime_millis t /\ 0 <= slot_retained_wal_alarm_bytes t /\
  0 <= breaker_lag_trip_bytes t /\ 0 <= breaker_runaway_trip_count t /\ 0 <= breaker_cooldown_millis t.

Lemma validate_spec t : thresholds_in_range t -> validate t = Ok tt <-> guards_on t.
Proof.
  unfold validate, guards_on, thresholds_in_range. intros.
  repeat match goal with
         | |- context [?a =? 0] => destruct (Z.eqb_spec a 0); [split; [done|lia]|]
         | |- context [?a <? ?b] => destruct (Z.ltb_spec a b); [split; [done|lia]|]
         end.
  split; [lia|done].
Qed.

End Thresholds.

Module Breaker.
Import Session.Clock.

Inductive Principal : Type := Warden | Agent | Operator.

(** Only the warden can be holding one: [mint] is the only constructor. *)
Inductive WardenCredential : Type := mint.
Definition credential_principal (_ : WardenCredential) : Principal := Warden.

Inductive BreakerState : Type := Closed | Open (opened_at_millis : Z) | HalfOpen.

Inductive TripReason : Type :=
| ReplicationLag (observed_bytes trip_bytes : Z)
| RunawayVolume (observed trip : Z)
| SlotWalCeiling (slot : string) (observed_bytes ceiling_bytes : Z).

Inductive ForgeryRejected : Type := mkForgeryRejected (who : Principal).

Record CircuitBreaker : Type := mkBreaker {
  breaker_state : BreakerState;
  cooldown_millis : Z;
  last_trip_reason : option TripReason
}.

Definition breaker_new (cooldown : Z) : CircuitBreaker := mkBreaker Closed cooldown None.

Definition allows_traffic (b : CircuitBreaker) : bool :=
  match breaker_state b with Open _ => false | _ => true end.

Definition trip {C} `{Clock C} (b : CircuitBreaker) (who : WardenCredential) (reason : TripReason) (clock : C) :
    CircuitBreaker * result ForgeryRejected unit :=
  match credential_principal who with
  | Warden =>
      (mkBreaker (match breaker_state b with Open at_ => Open at_ | _ => Open (monotonic_millis clock) end)
         (cooldown_millis b) (Some reason), Ok tt)
  | p => (b, Err (mkForgeryRejected p))
  end.

Definition trip_unauthenticated (b : CircuitBreaker) (who : Principal) :
    CircuitBreaker * result ForgeryRejected unit := (b, Err (mkForgeryRejected who)).

Definition breaker_tick {C} `{Clock C} (b : CircuitBreaker) (clock : C) : CircuitBreaker :=
  match breaker_state b with
  | Open opened_at =>
      if cooldown_millis b <=? sat_sub (monotonic_millis clock) opened_at
      then mkBreaker HalfOpen (cooldown_millis b) (last_trip_reason b)
      else b
  | _ => b
  end.

Definition record_probe_success (b : CircuitBreaker) (who : WardenCredential) :
    CircuitBreaker * result ForgeryRejected unit :=
  match credential_principal who with
  | Warden => (match breaker_state b with HalfOpen => mkBreaker Closed (cooldown_millis b) None | _ => b end, Ok tt)
  | p => (b, Err (mkForgeryRejected p))
  end.

Definition record_probe_failure {C} `{Clock C} (b : CircuitBreaker) (who : WardenCredential) (clock : C) :
    CircuitBreaker * result ForgeryRejected unit :=
  match credential_principal who with
  | Warden =>
      (match breaker_state b with
       | HalfOpen => mkBreaker (Open (monotonic_millis clock)) (cooldown_millis b) (last_trip_reason b)
       | _ => b
       end, Ok tt)
  | p => (b, Err (mkForgeryRejected p))
  end.

End Breaker.

Module Poller.
Import Session.Clock WardenModel Thresholds Breaker.

Class ActivitySource (S : Type) : Type := { observe : S -> S * Observation }.
Class Killer (K : Type) : Type := { terminate : K -> Z -> K }.

Record TickOutcome : Type := mkOutcome {
  terminated_pids : list Z;
  spared_non_agent_pids : list Z;
  outcome_slot_alarms : list (string * Z);
  breaker_open : bool
}.

Record Assessment : Type := mkAssessment {
  to_terminate : list Z;
  spared_non_agent : list Z;
  slot_alarms : list (string * Z);
  trip_reason : option TripReason
}.

Definition is_runaway (b : Backend) (max_runtime_millis : Z) : bool :=
  bool_decide (state b = "active"%string) && (max_runtime_millis <? query_runtime_millis b).

Definition is_slot_over_ceiling (s : ReplicationSlot) (ceiling_bytes : Z) : bool :=
  ceiling_bytes <? retained_wal_bytes s.

(** The loop over the backends: the pids to kill, those spared, the runaway counter. *)
Fixpoint sort_backends (max_runtime : Z) (bs : list Backend) (kill spare : list Z) (count : Z) :
    list Z * list Z * Z :=
  match bs with
  | [] => (kill, spare, count)
  | b :: bs =>
      if is_runaway b max_runtime then
        if is_agent_tagged b
        then sort_backends max_runtime bs (kill ++ [pid b]) spare (wrap_u 32 (count + 1))
        else sort_backends max_runtime bs kill (spare ++ [pid b]) count
      else sort_backends max_runtime bs kill spare count
  end.

Definition slots_over (ceiling : Z) (ss : list ReplicationSlot) : list (string * Z) :=
  map (fun s => (slot_name s, retained_wal_bytes s)) (List.filter (fun s => is_slot_over_ceiling s ceiling) ss).

Definition assess (obs : Observation) (t : WardenThresholds) : Assessment :=
  let '(kill, spare, count) := sort_backends (max_query_runtime_millis t) (backends obs) [] [] 0 in
  let alarms := slots_over (slot_retained_wal_alarm_bytes t) (slots obs) in
  let trip :=
    if breaker_lag_trip_bytes t <? replication_lag_bytes obs
    then Some (ReplicationLag (replication_lag_bytes obs) (breaker_lag_trip_bytes t))
    else
      match alarms with
      | (name, bytes) :: _ => Some (SlotWalCeiling name bytes (slot_retained_wal_alarm_bytes t))
      | [] =>
          if breaker_runaway_trip_count t <=? count
          then Some (RunawayVolume count (breaker_runaway_trip_count t))
          else None
      end in
  mkAssessment kill spare alarms trip.

Record WardenLoop (S K : Type) : Type := mkLoop {
  source : S;
  killer : K;
  thresholds : WardenThresholds;
  breaker : CircuitBreaker;
  credential : WardenCredential
}.
Arguments mkLoop {S K}.
Arguments source {S K}.
Arguments killer {S K}.
Arguments thresholds {S K}.
Arguments breaker {S K}.
Arguments credential {S K}.

Definition loop_new {S K} (s : S) (k : K) (t : WardenThresholds) : WardenLoop S K :=
  mkLoop s k t (breaker_new (breaker_cooldown_millis t)) mint.

Definition tick {S K C} `{ActivitySource S, Killer K, Clock C} (l : WardenLoop S K) (clock : C) :
    WardenLoop S K * TickOutcome :=
  let b := breaker_tick (breaker l) clock in
  let '(src, obs) := observe (source l) in
  let a := assess obs (thresholds l) in
  let k := foldl terminate (killer l) (to_terminate a) in
  let b := match trip_reason a with
           | Some reason => (trip b (credential l) reason clock).1
           | None => b
           end in
  (mkLoop src k (thresholds l) b (credential l),
   mkOutcome (to_terminate a) (spared_non_agent a) (slot_alarms a) (negb (allows_traffic b))).

Fixpoint run_ticks {S K} `{ActivitySource S, Killer K} (l : WardenLoop S K) (clock : MockClock) (n : nat) :
    WardenLoop S K * MockClock * list TickOutcome :=
  match n with
  | O => (l, clock, [])
  | Datatypes.S n =>
      let '(l', o) := tick l clock in
      let clock' := (advance clock (poll_interval_millis (thresholds l'))).1 in
      let '(l'', clock'', os) := run_ticks l' clock' n in
      (l'', clock'', o :: os)
  end.

(** ** Lemmas *)

Definition runaways (tagged : bool) (max_runtime : Z) (bs : list Backend) : list Z :=
  map pid (List.filter (fun b => is_runaway b max_runtime && Bool.eqb (is_agent_tagged b) tagged) bs).

Lemma runaways_spec tagged m bs p :
  p ∈ runaways tagged m bs <->
  exists b, b ∈ bs /\ pid b = p /\ is_runaway b m = true /\ is_agent_tagged b = tagged.
Proof.
  unfold runaways. rewrite list_elem_of_In, in_map_iff. split.
  - intros (b & Hp & [Hin [Hr Ht%eqb_prop]%andb_true_iff]%filter_In). exists b.
    by rewrite list_elem_of_In.
  - intros (b & Hin & Hp & Hr & Ht). exists b. split; [done|]. apply filter_In.
    rewrite <- list_elem_of_In, Hr, Ht. split; [done|]. by destruct tagged.
Qed.

Lemma is_runaway_spec b m :
  is_runaway b m = true <-> state b = "active"%string /\ m < query_runtime_millis b.
Proof. unfold is_runaway. by rewrite andb_true_iff, bool_decide_eq_true, Z.ltb_lt. Qed.

Lemma is_agent_tagged_spec b :
  is_agent_tagged b = true <-> usename b = AGENT_ROLE \/ application_name b = PROXY_APP_NAME.
Proof. unfold is_agent_tagged. by rewrite orb_true_iff, !bool_decide_eq_true. Qed.

Lemma sort_backends_spec m bs kill spare count :
  let '(k, s, c) := sort_backends m bs kill spare count in
  k = kill ++ runaways true m bs /\ s = spare ++ runaways false m bs /\
  (in_u 32 count -> c = wrap_u 32 (count + Z.of_nat (length (runaways true m bs)))).
Proof.
  revert kill spare count. induction bs as [|b bs IH]; intros kill spare count; simpl.
  - rewrite !app_nil_r, Z.add_0_r. do 2 (split; [done|]). intros. by rewrite wrap_u_id.
  - unfold runaways in *. simpl. destruct (is_runaway b m); simpl; [|apply IH].
    destruct (is_agent_tagged b); simpl.
    + specialize (IH (kill ++ [pid b]) spare (wrap_u 32 (count + 1))).
      destruct (sort_backends _ _ _ _ _) as [[k s] c]. destruct IH as (-> & -> & Hc).
      rewrite <- app_assoc. do 2 (split; [done|]). intros _.
      rewrite Hc by (apply Z.mod_pos_bound; lia). unfold wrap_u. rewrite Zplus_mod_idemp_l. f_equal. lia.
    + specialize (IH kill (spare ++ [pid b]) count).
      destruct (sort_backends _ _ _ _ _) as [[k s] c]. destruct IH as (-> & -> & Hc).
      rewrite <- app_assoc. done.
Qed.

Lemma assess_sorts obs t :
  to_terminate (assess obs t) = runaways true (max_query_runtime_millis t) (backends obs) /\
  spared_non_agent (assess obs t) = runaways false (max_query_runtime_millis t) (backends obs).
Proof.
  unfold assess. pose proof (sort_backends_spec (max_query_runtime_millis t) (backends obs) [] [] 0) as H.
  destruct (sort_backends _ _ _ _ _) as [[k s] c]. naive_solver.
Qed.

(** The breaker of the loop after a tick depends on the clock and the assessment only. *)
Definition breaker_after (b : CircuitBreaker) (now : Z) (reason : option TripReason) : CircuitBreaker :=
  let b := breaker_tick b (mkMockClock now now) in
  match reason with Some r => (trip b mint r (mkMockClock now now)).1 | None => b end.

Lemma tick_breaker {S K C} `{ActivitySource S, Killer K, Clock C} (l : WardenLoop S K) (clock : C) :
  exists reason, breaker (tick l clock).1 = breaker_after (breaker l) (monotonic_millis clock) reason /\
    breaker_open (tick l clock).2 = negb (allows_traffic (breaker (tick l clock).1)) /\
    thresholds (tick l clock).1 = thresholds l.
Proof.
  unfold tick. destruct (observe (source l)) as [src obs].
  exists (trip_reason (assess obs (thresholds l))). simpl.
  unfold breaker_after, breaker_tick, trip. simpl. by destruct (credential l), (trip_reason _).
Qed.

Lemma breaker_after_cooldown b now r : cooldown_millis (breaker_after b now r) = cooldown_millis b.
Proof. unfold breaker_after, breaker_tick, trip. destruct r, (breaker_state b); simpl; try done; by case_match. Qed.

End Poller.

Module Run.
Import Session.Clock WardenModel Thresholds Breaker Poller AuditChain AuditSink.

Definition WARDEN_AUDIT_ROLE : string := "pgb_agent".
Definition REASON_WARDEN_TERMINATE : string := "WARDEN_TERMINATE".
Definition REASON_BREAKER_TRIP : string := "BREAKER_TRIP".
Definition REASON_SLOT_ALARM : string := "SLOT_ALARM".

Definition warden_entry (session_id statement_text reason_code : string) (reason : option string) : NewEntry :=
  mkEntry statement_text DBlock reason_code reason
    (mkPrincipal WARDEN_AUDIT_ROLE (Some session_id) (Some "pgb_warden"%string))
    Policy.intent_default refs_default.

Definition terminate_entry (session_id : string) (pid : Z) : NewEntry :=
  warden_entry session_id ("pg_terminate_backend(" +:+ pretty pid +:+ ")") REASON_WARDEN_TERMINATE
    (Some ("warden terminated agent-tagged runaway backend pid=" +:+ pretty pid)).

Definition slot_entry (session_id : string) (alarm : string * Z) : NewEntry :=
  warden_entry session_id
    ("replication slot `" +:+ alarm.1 +:+ "` retained_wal_bytes=" +:+ pretty alarm.2) REASON_SLOT_ALARM
    (Some ("warden slot/WAL alarm: slot `" +:+ alarm.1 +:+ "` retaining " +:+ pretty alarm.2
           +:+ " bytes over ceiling")).

Definition breaker_entry (session_id : string) : NewEntry :=
  warden_entry session_id "circuit breaker OPEN" REASON_BREAKER_TRIP
    (Some "warden authenticated circuit breaker tripped/open"%string).

Definition audit_entries_for (o : TickOutcome) (session_id : string) : list NewEntry :=
  map (terminate_entry session_id) (terminated_pids o)
  ++ map (slot_entry session_id) (outcome_slot_alarms o)
  ++ (if breaker_open o then [breaker_entry session_id] else []).

Definition action_count (o : TickOutcome) : nat :=
  length (terminated_pids o) + length (outcome_slot_alarms o) + (if breaker_open o then 1 else 0).

(** The append loop: stops at the first error. *)
Fixpoint append_entries {D} `{!Sink D} (sink : D) (es : list NewEntry) (ts : Z) : D * result SinkError unit :=
  match es with
  | [] => (sink, Ok tt)
  | e :: es =>
      match sink_append sink e ts with
      | (sink', Ok _) => append_entries sink' es ts
      | (sink', Err err) => (sink', Err err)
      end
  end.

(** [tick_and_audit]; the source renders the sink's error as text. *)
Definition tick_and_audit {S K C D} `{ActivitySource S, Killer K, Clock C, !Sink D}
    (l : WardenLoop S K) (sink : D) (clock : C) (session_id : string) :
    WardenLoop S K * D * result SinkError TickOutcome :=
  let '(l', outcome) := tick l clock in
  let ts := now_unix_millis clock in
  let '(sink', r) := append_entries sink (audit_entries_for outcome session_id) ts in
  (l', sink', let? _ := r in Ok outcome).

Lemma append_entries_extends canonical sha256_hex {D} `{!Sink D} `{!SinkLaws canonical sha256_hex D}
    (s s' : D) es ts rs :
  sink_ok canonical sha256_hex s -> Forall (fun e => appendable canonical sha256_hex e ts) es ->
  load_chain_mut s = Ok rs -> append_entries s es ts = (s', Ok tt) ->
  sink_ok canonical sha256_hex s' /\
  exists new, load_chain_mut s' = Ok (rs ++ new) /\ Forall2 (fun r e => carries r e ts) new es.
Proof.
  revert s rs. induction es as [|e es IH]; intros s rs Hok Happ Hl; simpl.
  - intros [= <-]. split; [done|]. exists []. rewrite app_nil_r. by split.
  - apply Forall_cons in Happ as [He Happ].
    destruct (sink_append s e ts) as [s1 [r|err]] eqn:E; [|done]. intros Hrun.
    destruct (append_extends canonical sha256_hex s e ts s1 r Hok He E) as (Hok1 & Hr & rs0 & Hl0 & Hl1 & _).
    rewrite Hl in Hl0. injection Hl0 as <-.
    destruct (IH s1 (rs ++ [r]) Hok1 Happ Hl1 Hrun) as (Hok' & new & Hl' & Hnew).
    split; [done|]. exists (r :: new). rewrite <- app_assoc in Hl'. split; [done|]. by constructor.
Qed.

(** Ticks at the given clock readings, one after the other. *)
Fixpoint ticks_at {S K C} `{ActivitySource S, Killer K, Clock C} (l : WardenLoop S K) (clocks : list C) :
    WardenLoop S K * list TickOutcome :=
  match clocks with
  | [] => (l, [])
  | c :: clocks => let '(l', o) := tick l c in let '(l'', os) := ticks_at l' clocks in (l'', o :: os)
  end.

(** ** Properties *)

(** Only agent-tagged runaways are killed, and all of them are.  In a tick the
    killer is called, in the order of the observation, on exactly the pids of the
    backends that are active, over the runtime ceiling and agent-tagged; over-ceiling
    backends of other roles are reported as spared; and a backend of the agent role is
    tagged whatever [application_name] it shows. *)
Theorem warden_kills_exactly_agent_runaways {S K C} `{ActivitySource S, Killer K, Clock C}
    (l : WardenLoop S K) (clock : C) :
  let obs := (observe (source l)).2 in
  let ceiling := max_query_runtime_millis (thresholds l) in
  let over b := state b = "active"%string /\ ceiling < query_runtime_millis b in
  killer (tick l clock).1 = foldl terminate (killer l) (terminated_pids (tick l clock).2) /\
  (forall p, p ∈ terminated_pids (tick l clock).2 <->
     exists b, b ∈ backends obs /\ pid b = p /\ over b /\
       (usename b = AGENT_ROLE \/ application_name b = PROXY_APP_NAME)) /\
  (forall p, p ∈ spared_non_agent_pids (tick l clock).2 <->
     exists b, b ∈ backends obs /\ pid b = p /\ over b /\
       usename b <> AGENT_ROLE /\ application_name b <> PROXY_APP_NAME).
Proof.
  unfold tick. destruct (observe (source l)) as [src obs]. simpl.
  destruct (assess_sorts obs (thresholds l)) as [Ht Hs]. rewrite Ht, Hs. split; [done|].
  split; intros p; rewrite runaways_spec; split.
  - intros (b & Hb & Hp & Hr%is_runaway_spec & Ht'%is_agent_tagged_spec). by exists b.
  - intros (b & Hb & Hp & Hr%is_runaway_spec & Ht'%is_agent_tagged_spec). by exists b.
  - intros (b & Hb & Hp & Hr%is_runaway_spec & Ht'). exists b.
    do 3 (split; [done|]). rewrite <- not_true_iff_false, is_agent_tagged_spec in Ht'. tauto.
  - intros (b & Hb & Hp & Hr%is_runaway_spec & Hu & Ha). exists b.
    do 3 (split; [done|]). rewrite <- not_true_iff_false, is_agent_tagged_spec. tauto.
Qed.

(** An open breaker holds.  Once open at [t0] it sheds traffic at every tick before
    [t0 + cooldown], whatever is observed, and a repeated trip does not move the cooldown. *)
Theorem open_breaker_holds {S K C} `{ActivitySource S, Killer K, Clock C}
    (l : WardenLoop S K) (clocks : list C) (t0 : Z) :
  breaker_state (breaker l) = Open t0 ->
  Forall (fun c => monotonic_millis c < t0 + cooldown_millis (breaker l)) clocks ->
  0 < cooldown_millis (breaker l) ->
  breaker_state (breaker (ticks_at l clocks).1) = Open t0 /\
  Forall (fun o => breaker_open o = true) (ticks_at l clocks).2.
Proof.
  revert l. induction clocks as [|c cs IH]; intros l Ho Hc Hcd; simpl; [done|].
  apply Forall_cons in Hc as [Hc Hcs].
  destruct (tick_breaker l c) as (reason & Hb & Hout & _). destruct (tick l c) as [l' o]. simpl in *.
  assert (breaker_state (breaker l') = Open t0) as Ho'.
  { rewrite Hb. unfold breaker_after, breaker_tick. rewrite Ho. simpl. unfold sat_sub.
    destruct (Z.leb_spec (cooldown_millis (breaker l)) (Z.max (monotonic_millis c - t0) 0)); [lia|].
    unfold trip. destruct reason; simpl; by rewrite Ho. }
  assert (cooldown_millis (breaker l') = cooldown_millis (breaker l)) as Hcd'
    by (rewrite Hb; apply breaker_after_cooldown).
  specialize (IH l' Ho'). rewrite Hcd' in IH. specialize (IH Hcs Hcd).
  destruct (ticks_at l' cs) as [l'' os]. simpl in *. split; [tauto|]. constructor; [|tauto].
  rewrite Hout. unfold allows_traffic. by rewrite Ho'.
Qed.

(** A tripped breaker never closes again under the warden loop: no sequence of
    ticks leads from an open or half-open breaker back to [Closed], since the loop never
    records a recovery probe. *)
Theorem loop_never_closes_breaker {S K C} `{ActivitySource S, Killer K, Clock C}
    (l : WardenLoop S K) (clocks : list C) :
  breaker_state (breaker l) <> Closed -> breaker_state (breaker (ticks_at l clocks).1) <> Closed.
Proof.
  revert l. induction clocks as [|c cs IH]; intros l Ho; simpl; [done|].
  destruct (tick_breaker l c) as (reason & Hb & _ & _). destruct (tick l c) as [l' o]. simpl in *.
  assert (breaker_state (breaker l') <> Closed) as Ho'.
  { rewrite Hb. unfold breaker_after, breaker_tick, trip.
    destruct reason, (breaker_state (breaker l)) eqn:E; simpl; repeat case_match; simpl in *; congruence. }
  specialize (IH l' Ho'). by destruct (ticks_at l' cs).
Qed.

(** C34: every enforcement action leaves its record.  Against any sink that keeps the
    sink laws, an audited tick that returns has appended exactly one record per action
    (kills, then slot alarms, then the open breaker), carrying the entry of that action
    and the clock's stamp, after the records already there; and the whole chain verifies. *)
Theorem audited_tick_records_every_action {S K C D} `{ActivitySource S, Killer K, Clock C}
    (canonical : AuditPayload -> list byte) (sha256_hex : list byte -> string)
    `{!Sink D} `{!SinkLaws canonical sha256_hex D}
    (l l' : WardenLoop S K) (sink sink' : D) (clock : C) (session_id : string) (o : TickOutcome)
    (rs : list AuditRecord) :
  sink_ok canonical sha256_hex sink ->
  Forall (fun e => appendable canonical sha256_hex e (now_unix_millis clock))
    (audit_entries_for (tick l clock).2 session_id) ->
  load_chain_mut sink = Ok rs ->
  tick_and_audit l sink clock session_id = (l', sink', Ok o) ->
  (l', o) = tick l clock /\
  exists new, load_chain_mut sink' = Ok (rs ++ new) /\ length new = action_count o /\
    Forall2 (fun r e => carries r e (now_unix_millis clock)) new (audit_entries_for o session_id) /\
    verify_chain canonical sha256_hex (rs ++ new) = Ok tt.
Proof.
  intros Hok Happ Hl. unfold tick_and_audit. destruct (tick l clock) as [l1 o1]. simpl in Happ.
  destruct (append_entries _ _ _) as [s1 [[]|err]] eqn:E; [|done]. simpl. intros [= -> -> ->].
  split; [done|].
  destruct (append_entries_extends canonical sha256_hex _ _ _ _ _ Hok Happ Hl E) as (Hok' & new & Hl' & Hnew).
  exists new. split; [done|]. split; [|split; [done|]].
  - apply Forall2_length in Hnew. rewrite Hnew. unfold audit_entries_for, action_count.
    rewrite !length_app, !length_map. destruct (breaker_open o); simpl; lia.
  - destruct (sink_reads canonical sha256_hex sink' Hok') as (rs' & Hrs' & Hc).
    rewrite Hl' in Hrs'. injection Hrs' as <-. by apply verify_chain_ok.
Qed.

(** A [BREAKER_TRIP] record does not mean that the breaker tripped: while it stays
    open, a tick that kills nothing, raises no alarm and meets no trip condition still
    writes one. *)
Theorem quiet_tick_records_breaker_trip {S K C} `{ActivitySource S, Killer K, Clock C}
    (l : WardenLoop S K) (clock : C) (t0 : Z) (session_id : string) :
  breaker_state (breaker l) = Open t0 ->
  sat_sub (monotonic_millis clock) t0 < cooldown_millis (breaker l) ->
  assess (observe (source l)).2 (thresholds l) = mkAssessment [] [] [] None ->
  audit_entries_for (tick l clock).2 session_id = [breaker_entry session_id].
Proof.
  intros Ho Hc Ha. unfold tick. destruct (observe (source l)) as [src obs]. simpl in Ha. rewrite Ha. simpl.
  unfold breaker_tick. rewrite Ho.
  destruct (Z.leb_spec (cooldown_millis (breaker l)) (sat_sub (monotonic_millis clock) t0)); [lia|].
  unfold allows_traffic. rewrite Ho. done.
Qed.

(** The trip conditions, complete and no more: an observation asks for a trip
    exactly when replication lag, some slot's retained WAL, or the number of agent-tagged
    runaways is past its threshold. *)
Theorem warden_trips_iff (obs : Observation) (t : WardenThresholds) :
  Z.of_nat (length (backends obs)) < 2 ^ 32 ->
  trip_reason (assess obs t) <> None <->
  breaker_lag_trip_bytes t < replication_lag_bytes obs \/
  (exists s, s ∈ slots obs /\ slot_retained_wal_alarm_bytes t < retained_wal_bytes s) \/
  breaker_runaway_trip_count t <=
    Z.of_nat (length (runaways true (max_query_runtime_millis t) (backends obs))).
Proof.
  intros Hlen. unfold assess.
  pose proof (sort_backends_spec (max_query_runtime_millis t) (backends obs) [] [] 0) as H.
  destruct (sort_backends _ _ _ _ _) as [[k s] c]. destruct H as (_ & _ & Hc). simpl.
  assert (c = Z.of_nat (length (runaways true (max_query_runtime_millis t) (backends obs)))) as ->.
  { rewrite Hc by (unfold in_u; lia). apply wrap_u_id. unfold in_u, runaways. rewrite length_map.
    pose proof (filter_length_le
      (fun b => is_runaway b (max_query_runtime_millis t) && Bool.eqb (is_agent_tagged b) true) (backends obs)).
    lia. }
  assert (slots_over (slot_retained_wal_alarm_bytes t) (slots obs) <> [] <->
          exists s, s ∈ slots obs /\ slot_retained_wal_alarm_bytes t < retained_wal_bytes s) as Hslots.
  { unfold slots_over, is_slot_over_ceiling. split.
    - intros Hne. destruct (List.filter _ (slots obs)) as [|x xs] eqn:E; [done|].
      exists x. assert (In x (x :: xs)) as Hin by (by left). rewrite <- E in Hin.
      apply filter_In in Hin as [Hin Hlt%Z.ltb_lt]. by rewrite list_elem_of_In.
    - intros (x & Hx%list_elem_of_In & Hlt) Hnil. apply map_eq_nil in Hnil.
      assert (In x []) as []. rewrite <- Hnil. apply filter_In. split; [done|]. by apply Z.ltb_lt. }
  destruct (Z.ltb_spec (breaker_lag_trip_bytes t) (replication_lag_bytes obs)); [naive_solver|].
  destruct (slots_over _ _) as [|[n v] ?].
  - destruct (Z.leb_spec (breaker_runaway_trip_count t)
      (Z.of_nat (length (runaways true (max_query_runtime_millis t) (backends obs)))));
      [naive_solver|]. split; [done|]. intros [?|[Hs|?]]; [lia| |lia]. by apply Hslots in Hs.
  - split; [|done]. intros _. right. left. by apply Hslots.
Qed.

(** Accepted thresholds leave every guard on: [from_policy_yaml] returns exactly
    the configured (or default) thresholds whose ceilings are all positive and whose poll
    interval is positive and at most one hour. *)
Theorem loaded_thresholds_guard (parse : string -> result string (option WardenThresholds)) (yaml : string)
    (doc : option WardenThresholds) :
  parse yaml = Ok doc -> thresholds_in_range (default thresholds_default doc) ->
  (guards_on (default thresholds_default doc) /\
   from_policy_yaml parse yaml = Ok (default thresholds_default doc)) \/
  (~ guards_on (default thresholds_default doc) /\
   exists rule, from_policy_yaml parse yaml = Err (Invalid rule)).
Proof.
  intros Hp Hr. unfold from_policy_yaml. rewrite Hp. cbn [result_map_err result_bind].
  change (match doc with Some t => t | None => thresholds_default end) with (default thresholds_default doc).
  pose proof (validate_spec _ Hr) as Hv. destruct (validate (default thresholds_default doc)) as [[]|e] eqn:E.
  - left. split; [by apply Hv|done].
  - right. split; [rewrite <- Hv; done|]. simpl. clear -E. unfold validate in E.
    repeat (case_match; [injection E as <-; by eexists|]). done.
Qed.

(** ** Witnesses *)

Record ScriptedSource : Type := mkScript { script : list Observation }.
#[global] Instance ScriptedSource_source : ActivitySource ScriptedSource := {|
  observe s := match script s with
               | o :: os => (mkScript os, o)
               | [] => (s, mkObservation [] [] 0)
               end
|}.
Record RecordingKiller : Type := mkKills { kills : list Z }.
#[global] Instance RecordingKiller_killer : Killer RecordingKiller := {| terminate k p := mkKills (kills k ++ [p]) |}.

Definition demo_open_loop : WardenLoop ScriptedSource RecordingKiller :=
  mkLoop (mkScript []) (mkKills []) thresholds_default (mkBreaker (Open 100) 30000 None) mint.

Definition demo_runaway : WardenModel.Backend := mkBackend 7 "pgb_agent" "sneaky" "active" 60001 "select pg_sleep(1000)".
Definition demo_slot : ReplicationSlot := mkSlot "s1" "logical" false (65 * 1024 * 1024).
Definition demo_loop : WardenLoop ScriptedSource RecordingKiller :=
  loop_new (mkScript [mkObservation [demo_runaway] [demo_slot] 0]) (mkKills []) thresholds_default.

Lemma open_breaker_holds_witness :
  let cs := [mkMockClock 0 200; mkMockClock 0 30099] in
  breaker_state (breaker (ticks_at demo_open_loop cs).1) = Open 100 /\
  Forall (fun o => breaker_open o = true) (ticks_at demo_open_loop cs).2.
Proof. apply open_breaker_holds; [reflexivity|by_decide|reflexivity]. Defined.

Lemma loop_never_closes_breaker_witness :
  breaker_state (breaker (ticks_at demo_open_loop [mkMockClock 0 200; mkMockClock 0 99999]).1) <> Closed.
Proof. apply loop_never_closes_breaker. discriminate. Defined.

Lemma quiet_tick_records_breaker_trip_witness :
  audit_entries_for (tick demo_open_loop (mkMockClock 0 200)).2 "s" = [breaker_entry "s"].
Proof. apply (quiet_tick_records_breaker_trip _ _ 100); vm_compute; reflexivity. Defined.

Lemma warden_trips_iff_witness :
  let obs := mkObservation [demo_runaway] [demo_slot] 0 in
  trip_reason (assess obs thresholds_default) <> None <->
  breaker_lag_trip_bytes thresholds_default < replication_lag_bytes obs \/
  (exists s, s ∈ slots obs /\ slot_retained_wal_alarm_bytes thresholds_default < retained_wal_bytes s) \/
  breaker_runaway_trip_count thresholds_default <=
    Z.of_nat (length (runaways true (max_query_runtime_millis thresholds_default) (backends obs))).
Proof. apply warden_trips_iff. reflexivity. Defined.

Lemma loaded_thresholds_guard_witness :
  let parse := fun _ : string => Ok (Some (mkThresholds 2000 60000 1 1 0 1)) in
  let t := mkThresholds 2000 60000 1 1 0 1 in
  (guards_on t /\ from_policy_yaml parse "w" = Ok t) \/
  (~ guards_on t /\ exists rule, from_policy_yaml parse "w" = Err (Invalid rule)).
Proof.
  apply (loaded_thresholds_guard (fun _ => Ok (Some (mkThresholds 2000 60000 1 1 0 1))) "w"
           (Some (mkThresholds 2000 60000 1 1 0 1))); [reflexivity|].
  unfold thresholds_in_range. simpl. lia.
Defined.

Lemma audited_tick_records_every_action_witness :
  let sink := InMemorySink_sink toy_canonical toy_hash in
  let clock := mkMockClock 9 200 in
  exists o sink', action_count o = 3%nat /\
    (exists new, load_chain_mut sink' = Ok ([] ++ new) /\ length new = action_count o /\
     Forall2 (fun r e => carries r e (now_unix_millis clock)) new (audit_entries_for o "s") /\
     verify_chain toy_canonical toy_hash ([] ++ new) = Ok tt).
Proof.
  intros sink clock.
  set (run := tick_and_audit demo_loop (mkInMemorySink []) clock "s").
  exists (tick demo_loop clock).2, run.1.2. split; [vm_compute; reflexivity|].
  apply (audited_tick_records_every_action (D := InMemorySink) toy_canonical toy_hash
           (SinkLaws0 := InMemorySink_laws toy_canonical toy_hash)
           demo_loop run.1.1 (mkInMemorySink []) run.1.2 clock "s" (tick demo_loop clock).2 []).
  - split; [constructor|]. intros i r Hr. discriminate Hr.
  - apply Forall_true. intros e. exact I.
  - reflexivity.
  - vm_compute. reflexivity.
Defined.

End Run.
