(* ===== verification/WardenLive.v ===== *)
(** * WardenLive: the running watchdog

    Models what [src/crates/warden/src/run.rs] adds to the pure loop of [Warden]: the
    settings, the observation and the kills over a live connection ([PgActivitySource],
    [PgKiller]), the loop that runs for ever, and [main.rs] up to it.  The connection is a
    class of the three queries the warden makes; what the server answers to them is stated
    as laws over its table of sessions.  A list of clock readings stands for the
    iterations of the loop. *)

From stdpp Require Import pretty.
From S2P Require Import Prelude Text Session Policy Config AuditChain AuditSink Warden.

Module WardenLive.
Import Config(DsnTarget, mkDsn, PolicyConfig, PolicyError, TargetResolutionError, ResolvedTarget, mkResolver, resolve,
  load_from_yaml, primary, r_host, r_port, r_database).
Import AuditSink WardenModel Thresholds Poller Session.Clock.

(** ** The settings *)

Inductive StartError : Type :=
| NoPolicyPath
| PolicyUnreadable (path e : string)
| ThresholdsInvalid (path : string) (e : ThresholdError)
| PolicyInvalid (path : string) (e : PolicyError)
| Unresolved (e : TargetResolutionError)
| SecretRequired (key : string)
| ConnectFailed (e : string).

Record WardenSettings : Type := mkSettings {
  ws_host : string;
  ws_port : string;
  backend_db : string;
  audit_db : string;
  admin_role : string;
  admin_password : string;
  writer_role : string;
  writer_password : string
}.

Definition kv_dsn (host port db user password : string) : string :=
  "host=" +:+ host +:+ " port=" +:+ port +:+ " dbname=" +:+ db +:+ " user=" +:+ user +:+ " password=" +:+ password.
Definition observe_dsn (s : WardenSettings) : string :=
  kv_dsn (ws_host s) (ws_port s) (backend_db s) (admin_role s) (admin_password s).
Definition writer_dsn (s : WardenSettings) : string :=
  kv_dsn (ws_host s) (ws_port s) (audit_db s) (writer_role s) (writer_password s).

Definition WARDEN_ADMIN_APP_NAME : string := "pgb_warden_admin".
Definition with_warden_admin_app_name (dsn : string) : string :=
  if Text.contains (as_bytes "application_name=") (as_bytes dsn) then dsn
  else dsn +:+ " application_name=" +:+ WARDEN_ADMIN_APP_NAME.

Section settings.
Context (getenv : string -> option string).

Definition env_default (key fallback : string) : string := default fallback (getenv key).
Definition required_secret (key : string) : result StartError string :=
  match getenv key with Some v => Ok v | None => Err (SecretRequired key) end.

Definition settings_resolve (policy_primary : option DsnTarget) : result StartError WardenSettings :=
  let? target := result_map_err Unresolved
    (resolve (mkResolver policy_primary (getenv "PGB_BACKEND_HOST") (getenv "PGB_BACKEND_PORT") (getenv "PGB_BACKEND_DB") None
       "postgres" "postgres" "PGB_BACKEND_HOST" "PGB_BACKEND_PORT"
       "policy.yaml `primary:` (the BYO primary target the warden watches, SPEC §0.5)")) in
  let? admin := required_secret "PGB_WARDEN_ADMIN_PASSWORD" in
  let? writer := required_secret "PGB_AUDIT_WRITER_PASSWORD" in
  Ok (mkSettings (r_host target) (pretty (r_port target)) (r_database target) (env_default "PGB_AUDIT_DB" "postgres")
        (env_default "PGB_WARDEN_ADMIN_ROLE" "postgres") admin (env_default "PGB_AUDIT_WRITER_ROLE" "pgb_audit_writer") writer).

Context (read_to_string : string -> result string string).
Context (parse_warden : string -> result string (option WardenThresholds)) (from_yaml : string -> option PolicyConfig).

Definition load_thresholds_fail_closed (path : string) : result StartError WardenThresholds :=
  let? yaml := result_map_err (PolicyUnreadable path) (read_to_string path) in
  result_map_err (ThresholdsInvalid path) (from_policy_yaml parse_warden yaml).

(** What [run] decides before it connects. *)
Definition configure_warden : result StartError (WardenThresholds * WardenSettings) :=
  let? path := match getenv "PGB_POLICY_PATH" with Some p => Ok p | None => Err NoPolicyPath end in
  let? t := load_thresholds_fail_closed path in
  let? yaml := result_map_err (PolicyUnreadable path) (read_to_string path) in
  let? policy := result_map_err (PolicyInvalid path) (load_from_yaml from_yaml yaml) in
  let? s := settings_resolve (primary policy) in
  Ok (t, s).
End settings.

(** ** The live seams *)

(** A row of the query over [pg_stat_activity], and of the one over the slots. *)
Record ActivityRow : Type := mkActivityRow {
  ar_pid : Z; ar_usename : string; ar_application_name : string; ar_state : string; ar_runtime_ms : Z; ar_query : string
}.
Record SlotRow : Type := mkSlotRow { sl_name : string; sl_type : string; sl_active : bool; sl_retained : Z }.

(** The queries the warden makes on its admin connection. *)
Class AdminClient (W : Type) : Type := {
  query_activity : W -> string -> W * result string (list ActivityRow);
  query_slots : W -> W * result string (list SlotRow);
  query_terminate : W -> Z -> W * result string unit
}.

Definition row_backend (r : ActivityRow) : Backend :=
  mkBackend (ar_pid r) (ar_usename r) (ar_application_name r) (ar_state r) (Z.max (ar_runtime_ms r) 0) (ar_query r).
Definition row_slot (r : SlotRow) : ReplicationSlot := mkSlot (sl_name r) (sl_type r) (sl_active r) (Z.max (sl_retained r) 0).

(** [unwrap_or_default]. *)
Definition unwrap_or_default {A} (r : result string (list A)) : list A := match r with Ok l => l | Err _ => [] end.

Record PgActivitySource (W : Type) : Type := mkSource { source_admin : W }.
Arguments mkSource {W}.
Arguments source_admin {W}.
Record PgKiller (W : Type) : Type := mkKiller { killer_admin : W }.
Arguments mkKiller {W}.
Arguments killer_admin {W}.

#[global] Instance PgActivitySource_source {W} `{AdminClient W} : ActivitySource (PgActivitySource W) := {|
  observe s :=
    let '(w, backend_rows) := query_activity (source_admin s) WARDEN_ADMIN_APP_NAME in
    let '(w, slot_rows) := query_slots w in
    (mkSource w, mkObservation (map row_backend (unwrap_or_default backend_rows))
                   (map row_slot (unwrap_or_default slot_rows)) 0)
|}.

#[global] Instance PgKiller_killer {W} `{AdminClient W} : Killer (PgKiller W) := {|
  terminate k p := mkKiller (query_terminate (killer_admin k) p).1
|}.

(** ** The loop and the binary *)

(** The iterations of [run_loop] at the given clock readings: still running ([None]), or
    ended with the error that escapes. *)
Fixpoint run_loop {S K C D} `{ActivitySource S, Killer K, Clock C, !Sink D} (l : WardenLoop S K) (sink : D)
    (session_id : string) (clocks : list C) : WardenLoop S K * D * option SinkError :=
  match clocks with
  | [] => (l, sink, None)
  | clock :: clocks =>
      match Run.tick_and_audit l sink clock session_id with
      | (l', sink', Err e) => (l', sink', Some e)
      | (l', sink', Ok _) => run_loop l' sink' session_id clocks
      end
  end.

Section start.
Context (getenv : string -> option string) (read_to_string : string -> result string string).
Context (parse_warden : string -> result string (option WardenThresholds)) (from_yaml : string -> option PolicyConfig).
Context {W D : Type} (connect : string -> result string W) (connect_sink : string -> result string D).

(** [run] up to the loop. *)
Definition start : result StartError (WardenLoop (PgActivitySource W) (PgKiller W) * D) :=
  let? ts := configure_warden getenv read_to_string parse_warden from_yaml in
  let s := ts.2 in
  let? source := result_map_err ConnectFailed (connect (with_warden_admin_app_name (observe_dsn s))) in
  let? killer := result_map_err ConnectFailed (connect (with_warden_admin_app_name (observe_dsn s))) in
  let? sink := result_map_err ConnectFailed (connect_sink (writer_dsn s)) in
  Ok (loop_new (mkSource source) (mkKiller killer) ts.1, sink).

(** What a warden that has started runs on. *)
Lemma started_from l sink :
  start = Ok (l, sink) ->
  exists path yaml t s, getenv "PGB_POLICY_PATH" = Some path /\ read_to_string path = Ok yaml /\
    from_policy_yaml parse_warden yaml = Ok t /\
    settings_resolve getenv (from_yaml yaml ≫= primary) = Ok s /\
    thresholds l = t /\ Breaker.breaker_state (breaker l) = Breaker.Closed.
Proof.
  unfold start, configure_warden. intros ([t s] & Hc & Hs)%result_bind_ok. simpl in Hs.
  apply result_bind_ok in Hc as (path & Hp & Hc1). destruct (getenv "PGB_POLICY_PATH") as [p|]; [|done]. injection Hp as ->.
  apply result_bind_ok in Hc1 as (t0 & Ht & Hc2). unfold load_thresholds_fail_closed in Ht.
  apply result_bind_ok in Ht as (yaml & Hy & Hf). destruct (read_to_string path) as [y|] eqn:Ey; [|done]. injection Hy as ->.
  apply result_bind_ok in Hc2 as (y2 & Hy2 & Hc3). injection Hy2 as <-.
  apply result_bind_ok in Hc3 as (cfg & Hcfg & Hc4). apply result_bind_ok in Hc4 as (s0 & Hset & [= <- <-]).
  apply result_bind_ok in Hs as (src & _ & Hs1). apply result_bind_ok in Hs1 as (kl & _ & Hs2).
  apply result_bind_ok in Hs2 as (sk & _ & [= <- <-]).
  destruct (from_policy_yaml parse_warden yaml) as [t1|] eqn:Et; [|done]. injection Hf as ->.
  exists path, yaml, t0, s0. split_and!; try done.
  unfold load_from_yaml in Hcfg. destruct (from_yaml yaml) as [c|]; [|done]. simpl.
  destruct (Config.policy_validate c); [|done]. by injection Hcfg as <-.
Qed.

(** A warden that has started is guarded: its policy file was read, the thresholds it runs
    with are those of the file and none of them is switched off, the target it watches
    resolved, both secrets were given, and its breaker is closed. *)
Theorem started_warden_is_guarded l sink :
  (forall y d, parse_warden y = Ok (Some d) -> thresholds_in_range d) ->
  start = Ok (l, sink) ->
  guards_on (thresholds l) /\ Breaker.breaker_state (breaker l) = Breaker.Closed /\
  is_Some (getenv "PGB_WARDEN_ADMIN_PASSWORD") /\ is_Some (getenv "PGB_AUDIT_WRITER_PASSWORD").
Proof.
  intros Hrange (path & yaml & t & s & _ & _ & Ht & Hset & Hl & Hb)%started_from. subst t.
  unfold from_policy_yaml in Ht. apply result_bind_ok in Ht as (doc & Hdoc & Hv).
  destruct (parse_warden yaml) as [d|] eqn:Ed; [|done]. injection Hdoc as ->.
  apply result_bind_ok in Hv as ([] & Hv & [= <-]). split; [|split; [done|]].
  - apply validate_spec in Hv; [done|]. destruct doc as [d|]; [by eapply Hrange|]. unfold thresholds_in_range. simpl. lia.
  - unfold settings_resolve, required_secret in Hset. destruct (result_map_err _ _); [|done]. simpl in Hset.
    destruct (getenv "PGB_WARDEN_ADMIN_PASSWORD"); [|done]. simpl in Hset. destruct (getenv "PGB_AUDIT_WRITER_PASSWORD"); [|done]. eauto.
Qed.
End start.

(** ** Whom the live warden kills *)

(** A session as the server has it. *)
Record Session : Type := mkSession { s_row : ActivityRow; client_backend : bool }.

Section live.
Context {W : Type} `{AdminClient W}.

(** What the query over [pg_stat_activity] returns: the rows its [WHERE] keeps. *)
Class ActivityLaws : Type := {
  sessions : W -> list Session;
  own_pid : W -> Z;
  activity_where w name w' rows :
    query_activity w name = (w', Ok rows) ->
    rows = map s_row (List.filter (fun s => client_backend s && negb (ar_pid (s_row s) =? own_pid w) &&
                                            negb (bool_decide (ar_application_name (s_row s) = name))) (sessions w))
}.

(** The sessions a live tick kills. *)
Definition live_target `{ActivityLaws} (w : W) (ceiling : Z) (s : Session) : Prop :=
  client_backend s = true /\ ar_pid (s_row s) <> own_pid w /\ ar_application_name (s_row s) <> WARDEN_ADMIN_APP_NAME /\
  ar_state (s_row s) = "active"%string /\ ceiling < Z.max (ar_runtime_ms (s_row s)) 0 /\
  (ar_usename (s_row s) = AGENT_ROLE \/ ar_application_name (s_row s) = PROXY_APP_NAME).
#[global] Instance live_target_dec `{ActivityLaws} w ceiling s : Decision (live_target w ceiling s).
Proof. unfold live_target. apply _. Defined.

(** A connection after [pg_terminate_backend] has been called on it for each pid in turn. *)
Definition after_kills (w : W) (pids : list Z) : W := foldl (fun w p => (query_terminate w p).1) w pids.

Lemma kills_reach_connection (k : PgKiller W) pids : foldl terminate k pids = mkKiller (after_kills (killer_admin k) pids).
Proof. revert k. induction pids as [|p pids IH]; intros k; [by destruct k|]. simpl. by rewrite IH. Qed.

(** A tick reports the runaways among the rows and calls the killer for just those. *)
Lemma live_tick_terminates {C} `{Clock C} (l : WardenLoop (PgActivitySource W) (PgKiller W)) (clock : C) :
  let pids := runaways true (max_query_runtime_millis (thresholds l))
    (map row_backend (unwrap_or_default (query_activity (source_admin (source l)) WARDEN_ADMIN_APP_NAME).2)) in
  terminated_pids (tick l clock).2 = pids /\
  killer (tick l clock).1 = mkKiller (after_kills (killer_admin (killer l)) pids).
Proof.
  unfold tick. cbn [observe PgActivitySource_source].
  destruct (query_activity (source_admin (source l)) WARDEN_ADMIN_APP_NAME) as [w1 rows].
  destruct (query_slots w1) as [w2 slot_rows]. cbn [snd fst terminated_pids killer].
  rewrite kills_reach_connection. by match goal with |- context [assess ?obs ?t] => destruct (assess_sorts obs t) as [-> _] end.
Qed.

(** The runaways among the rows of the query are the targets among the sessions, in order. *)
Lemma runaways_are_targets `{ActivityLaws} (w : W) ceiling ss :
  runaways true ceiling (map row_backend (map s_row
    (List.filter (fun s => client_backend s && negb (ar_pid (s_row s) =? own_pid w) &&
                           negb (bool_decide (ar_application_name (s_row s) = WARDEN_ADMIN_APP_NAME))) ss))) =
  map (fun s => ar_pid (s_row s)) (filter (live_target w ceiling) ss).
Proof.
  unfold runaways. induction ss as [|s ss IH]; [done|]. rewrite filter_cons. cbn [List.filter].
  destruct (client_backend s && _ && _) eqn:Ew.
  - cbn [map List.filter].
    rewrite !andb_true_iff, !negb_true_iff, Z.eqb_neq, bool_decide_eq_false in Ew. destruct Ew as [[? ?] ?].
    destruct (is_runaway (row_backend (s_row s)) ceiling && Bool.eqb (is_agent_tagged (row_backend (s_row s))) true) eqn:Er.
    + apply andb_true_iff in Er as [[Hst Hc]%is_runaway_spec Ht%eqb_prop%is_agent_tagged_spec].
      rewrite decide_True by by split_and!. simpl. by rewrite <- IH.
    + rewrite decide_False; [exact IH|]. intros (_ & _ & _ & Hst & Hc & Ht%(is_agent_tagged_spec (row_backend (s_row s)))).
      rewrite Ht, (proj2 (is_runaway_spec (row_backend (s_row s)) ceiling)) in Er by done. done.
  - rewrite decide_False; [exact IH|]. intros (Hcb & Hown & Hname & _).
    by rewrite Hcb, (proj2 (Z.eqb_neq _ _) Hown), bool_decide_eq_false_2 in Ew.
Qed.

(** C33: whom a tick over the live connection kills.  When the query over the activity
    succeeds, the killer's connection is asked to terminate, once each and in the order of
    the server's table, exactly the client sessions that are active, over the ceiling, of the
    agent's role or the proxy's name, not the connection's own, and not named like the
    warden's own connections; and the tick reports just those.  So a session of the agent's
    role that takes that name is not killed, whatever it runs.  When the query fails, nothing
    is asked of the killer's connection and nothing is reported. *)
Theorem live_warden_kills_iff `{ActivityLaws} {C} `{Clock C}
    (l : WardenLoop (PgActivitySource W) (PgKiller W)) (clock : C) :
  let w := source_admin (source l) in
  let '(l', outcome) := tick l clock in
  match (query_activity w WARDEN_ADMIN_APP_NAME).2 with
  | Ok _ =>
      let pids := map (fun s => ar_pid (s_row s)) (filter (live_target w (max_query_runtime_millis (thresholds l))) (sessions w)) in
      killer_admin (killer l') = foldl (fun k p => (query_terminate k p).1) (killer_admin (killer l)) pids /\
      terminated_pids outcome = pids
  | Err _ => killer l' = killer l /\ terminated_pids outcome = []
  end.
Proof.
  intros w. pose proof (live_tick_terminates l clock) as [Hp Hk]. fold w in Hp, Hk.
  destruct (tick l clock) as [l' outcome]. simpl in Hp, Hk. rewrite Hp, Hk.
  destruct (query_activity w WARDEN_ADMIN_APP_NAME) as [w1 [rows|e]] eqn:Eq; simpl.
  - apply activity_where in Eq as ->. by rewrite runaways_are_targets.
  - by destruct (killer l).
Qed.

(** A connection on which every query fails from now on. *)
Definition dead (P : W -> Prop) : Prop :=
  forall w, P w ->
    (exists w' e, query_activity w WARDEN_ADMIN_APP_NAME = (w', Err e) /\ P w') /\
    (exists w' e, query_slots w = (w', Err e) /\ P w').

Lemma blind_tick (P : W -> Prop) {C} `{Clock C} (l : WardenLoop (PgActivitySource W) (PgKiller W)) (clock : C) :
  dead P -> P (source_admin (source l)) -> guards_on (thresholds l) -> Breaker.breaker_state (breaker l) = Breaker.Closed ->
  exists src, tick l clock = (mkLoop (mkSource src) (killer l) (thresholds l) (breaker l) (credential l), mkOutcome [] [] [] false) /\
    P src.
Proof.
  intros Hdead Hp Hg Hb. destruct (Hdead _ Hp) as [(w1 & e1 & E1 & P1) _].
  destruct (Hdead _ P1) as [_ (w2 & e2 & E2 & P2)]. exists w2. split; [|done].
  unfold tick. cbn [observe PgActivitySource_source]. rewrite E1, E2. simpl.
  assert (Breaker.breaker_tick (breaker l) clock = breaker l) as -> by (unfold Breaker.breaker_tick; by rewrite Hb).
  unfold assess. simpl. unfold guards_on in Hg.
  replace (breaker_lag_trip_bytes (thresholds l) <? 0) with false by (symmetry; apply Z.ltb_ge; lia).
  replace (breaker_runaway_trip_count (thresholds l) <=? 0) with false by (symmetry; apply Z.leb_gt; lia).
  unfold Breaker.allows_traffic. by rewrite Hb.
Qed.

(** A warden whose admin connection is lost goes on for ever and does nothing: however
    many times it polls, it ends with no error, has killed no session and appended no
    record. *)
Theorem blind_warden_never_stops (P : W -> Prop) {C D} `{Clock C, !Sink D}
    (l : WardenLoop (PgActivitySource W) (PgKiller W)) (sink : D) (session_id : string) (clocks : list C) :
  dead P -> P (source_admin (source l)) -> guards_on (thresholds l) -> Breaker.breaker_state (breaker l) = Breaker.Closed ->
  exists l', run_loop l sink session_id clocks = (l', sink, None) /\ killer l' = killer l /\ breaker l' = breaker l.
Proof.
  intros Hdead. revert l. induction clocks as [|clock clocks IH]; intros l Hp Hg Hb; [by exists l|].
  destruct (blind_tick P l clock Hdead Hp Hg Hb) as (src & Ht & Hs). simpl. unfold Run.tick_and_audit. rewrite Ht. simpl.
  by apply (IH (mkLoop (mkSource src) (killer l) (thresholds l) (breaker l) (credential l))).
Qed.
End live.
Arguments ActivityLaws W {_}.

(** *** A server *)

Record DemoServer : Type := mkServer { table : list Session; up : bool }.

#[global] Instance DemoServer_client : AdminClient DemoServer := {|
  query_activity w name :=
    (w, if up w then Ok (map s_row (List.filter (fun s => client_backend s && negb (ar_pid (s_row s) =? 1) &&
                                              negb (bool_decide (ar_application_name (s_row s) = name))) (table w)))
        else Err "connection closed"%string);
  query_slots w := (w, if up w then Ok [] else Err "connection closed"%string);
  query_terminate w p :=
    (mkServer (List.filter (fun s => negb (ar_pid (s_row s) =? p)) (table w)) (up w), Ok tt)
|}.

#[global, refine] Instance DemoServer_laws : ActivityLaws DemoServer := {| sessions := table; own_pid := fun _ => 1 |}.
Proof. simpl. intros w name w' rows. destruct (up w); by intros [= <- <-]. Defined.

Definition agent_session (name : string) : Session :=
  mkSession (mkActivityRow 7 "pgb_agent" name "active" 60001 "select pg_sleep(1000)") true.
Definition live_loop (w : DemoServer) : WardenLoop (PgActivitySource DemoServer) (PgKiller DemoServer) :=
  loop_new (mkSource w) (mkKiller w) thresholds_default.

Definition bystander : Session := mkSession (mkActivityRow 8 "app" "web" "active" 90000 "select 1") true.

(** The same runaway under a name of its own, and under the warden's: the first is killed
    and the other's session beside it is not, the second is not killed. *)
Lemma live_warden_kills_iff_witness :
  let killed name := table (killer_admin (killer (tick (live_loop (mkServer [agent_session name; bystander] true)) mock_new).1)) in
  killed "sneaky"%string = [bystander] /\
  killed "pgb_warden_admin"%string = [agent_session "pgb_warden_admin"; bystander].
Proof.
  intros killed. split.
  - pose proof (live_warden_kills_iff (live_loop (mkServer [agent_session "sneaky"; bystander] true)) mock_new) as Hk.
    unfold killed. destruct (tick _ _) as [l' outcome]. destruct Hk as [Hk _]. simpl fst. rewrite Hk. vm_compute. reflexivity.
  - pose proof (live_warden_kills_iff (live_loop (mkServer [agent_session "pgb_warden_admin"; bystander] true)) mock_new) as Hk.
    unfold killed. destruct (tick _ _) as [l' outcome]. destruct Hk as [Hk _]. simpl fst. rewrite Hk. vm_compute. reflexivity.
Defined.

Lemma blind_warden_never_stops_witness :
  let sink := InMemorySink_sink AuditChain.toy_canonical AuditChain.toy_hash in
  exists l', run_loop (live_loop (mkServer [agent_session "sneaky"] false)) (mkInMemorySink []) "s" [mock_new; starting_at 2000] =
             (l', mkInMemorySink [], None) /\
    killer l' = mkKiller (mkServer [agent_session "sneaky"] false).
Proof.
  intros sink.
  destruct (blind_warden_never_stops (fun w => up w = false) (live_loop (mkServer [agent_session "sneaky"] false))
              (mkInMemorySink []) "s" [mock_new; starting_at 2000]) as (l' & Hr & Hk & _).
  - intros w Hw. simpl. rewrite Hw. split; eexists _, _; (split; [reflexivity|exact Hw]).
  - reflexivity.
  - unfold guards_on. simpl. lia.
  - reflexivity.
  - exists l'. split; [exact Hr|exact Hk].
Defined.
End WardenLive.
