(* ===== verification/Conn.v ===== *)
(** * Conn: the Postgres connections of the write path

    Models [src/crates/clone-orchestrator/src/conn.rs]: the rehearsal backend
    [PgRehearsal], the apply connection [PgApplyConn] and the revert connection
    [PgRevertConn], as instances of the traits [Rehearsal], [ApplyConn] and [RevertConn].

    The [postgres] client is the class [Client] over the state of the session: a call takes
    the SQL text and the parameters and answers rows or an error.  Its methods are split by
    the row type the code reads, so that the conversions of [Row::get] belong to the client;
    key columns are not null and read through their type.  The SQL texts are those of the
    source with their white space normalised.  The assignments of a parsed [UPDATE] are the
    parameter [assignments] ([sqlparser]). *)

From Stdlib Require Import ZifyBool.
From stdpp Require Import pretty.
From S2P Require Import Prelude Text Predicate PkChecksum Inverse Session BlastRadius DryRun Apply Revert.

Module Conn.
Import Clock PkChecksum BlastRadius Apply Revert.
Import DryRun(WriteKind, WUpdate, WDelete, WriteKind_eq_dec, AffectedTable, mkAffectedTable, RelationEffect,
              mkRelationEffect, Measurement, mkMeasurement, Rehearsal).

(** ** The client *)

Inductive SqlVal : Type :=
| SqlInt (z : Z)
| SqlText (s : string)
| SqlOptText (s : option string)
| SqlBytes (b : list byte).

#[global] Instance SqlVal_eq_dec : EqDecision SqlVal.
Proof. solve_decision. Defined.

(** [postgres::Error]: its SQLSTATE, if the server sent one, and its text. *)
Record PgError : Type := mkPgError { sqlstate : option string; error_text : string }.

Definition QUERY_CANCELED : string := "57014".
Definition T_R_SERIALIZATION_FAILURE : string := "40001".

(** A value of a key column, by the column's type. *)
Inductive KeyCell : Type :=
| KInt2 (z : Z) | KInt4 (z : Z) | KInt8 (z : Z)
| KText (s : string)
| KBytea (b : list byte)
| KOther (text : option string).

(** A value of any column, by the column's type; [IOther] carries the type's name. *)
Inductive ImageCell : Type :=
| IInt2 (z : option Z) | IInt4 (z : option Z) | IInt8 (z : option Z)
| IText (s : option string)
| IBytea (b : option (list byte))
| IOther (type_name : string).

(** A column of a returned row: its name and what reading it answers. *)
Record Column : Type := mkColumn { col_name : string; cell : ImageCell; read_error : option string }.

Class Client (D : Type) : Type := {
  query_text : D -> string -> list SqlVal -> D * result PgError (list string);
  query_pairs : D -> string -> list SqlVal -> D * result PgError (list (string * string));
  query_stats : D -> string -> list SqlVal -> D * result PgError (list (string * (Z * Z * Z)));
  query_keys : D -> string -> list SqlVal -> D * result PgError (list (list KeyCell));
  query_images : D -> string -> list SqlVal -> D * result PgError (list (list Column));
  query_one_text : D -> string -> list SqlVal -> D * result PgError string;
  query_one_int : D -> string -> list SqlVal -> D * result PgError Z;
  query_one_volatility : D -> string -> list SqlVal -> D * result PgError (bool * Z);
  execute : D -> string -> list SqlVal -> D * result PgError Z;
  batch_execute : D -> string -> D * result PgError unit;
  transaction : D -> D * result PgError unit;
  txn_rollback : D -> D * result PgError unit;
  txn_drop : D -> D
}.

(** ** Calls in sequence *)

Section calls.
Context {D E : Type}.

Definition Run (A : Type) : Type := D -> D * result E A.

Definition run_ret {A} (a : A) : Run A := fun d => (d, Ok a).
Definition run_lift {A} (r : result E A) : Run A := fun d => (d, r).
Definition run_bind {A B} (m : Run A) (k : A -> Run B) : Run B :=
  fun d => match m d with (d, Ok a) => k a d | (d, Err e) => (d, Err e) end.

Fixpoint run_each {A B} (f : A -> Run B) (l : list A) : Run (list B) :=
  match l with
  | [] => run_ret []
  | x :: l => run_bind (f x) (fun y => run_bind (run_each f l) (fun ys => run_ret (y :: ys)))
  end.
End calls.
#[global] Arguments Run : clear implicits.

Definition map_pg {D E A} (f : PgError -> E) (m : D -> D * result PgError A) : Run D E A :=
  fun d => let '(d, r) := m d in (d, result_map_err f r).

Notation "'sql!' x ':=' m 'in' k" := (run_bind m (fun x => k))
  (at level 10, x pattern, m at level 100, k at level 200) : rust_scope.

(** ** Texts *)

Definition dq : string := String (Ascii.ascii_of_nat 34) EmptyString.
Definition quoted (c : string) : string := dq +:+ c +:+ dq.
Definition join (sep : string) (l : list string) : string := String.concat sep l.

(** The text before and after the first separator byte. *)
Fixpoint split_once (b : byte) (l : list byte) : option (list byte * list byte) :=
  match l with
  | [] => None
  | x :: l => if bool_decide (x = b) then Some ([], l)
              else match split_once b l with Some (a, c) => Some (x :: a, c) | None => None end
  end.
Definition rsplit_once (b : byte) (l : list byte) : option (list byte * list byte) :=
  match split_once b (rev l) with Some (a, c) => Some (rev c, rev a) | None => None end.

Definition split_relation (relation : string) : string * string :=
  match split_once x2e (as_bytes relation) with
  | Some (s, t) => (of_bytes s, of_bytes t)
  | None => ("public"%string, relation)
  end.

Definition is_ascii_hexdigit (b : byte) : bool :=
  let z := Z_of_byte b in ((48 <=? z) && (z <=? 57)) || ((65 <=? z) && (z <=? 70)) || ((97 <=? z) && (z <=? 102)).

Definition is_valid_lsn (s : string) : bool :=
  match split_once x2f (as_bytes s) with
  | Some (hi, lo) =>
      negb (bool_decide (hi = [])) && negb (bool_decide (lo = [])) &&
      forallb is_ascii_hexdigit hi && forallb is_ascii_hexdigit lo
  | None => false
  end.

Definition SQL_PROVOLATILE : string :=
  "SELECT bool_or(p.provolatile = 'v') AS any_volatile, count(*) AS n FROM pg_proc p JOIN pg_namespace n ON n.oid = p.pronamespace WHERE p.proname = $1 AND ( $2::text IS NULL AND pg_function_is_visible(p.oid) OR n.nspname = $2::text )".
Definition SQL_PK_TYPES : string :=
  "SELECT t.typname FROM pg_index i JOIN pg_class c ON c.oid = i.indrelid JOIN pg_namespace n ON n.oid = c.relnamespace JOIN pg_attribute a ON a.attrelid = c.oid AND a.attnum = ANY(i.indkey) JOIN pg_type t ON t.oid = a.atttypid WHERE n.nspname = $1 AND c.relname = $2 AND i.indisprimary ORDER BY array_position(i.indkey, a.attnum)".
Definition SQL_PK_COLUMNS : string :=
  "SELECT a.attname FROM pg_index i JOIN pg_class c ON c.oid = i.indrelid JOIN pg_namespace n ON n.oid = c.relnamespace JOIN pg_attribute a ON a.attrelid = c.oid AND a.attnum = ANY(i.indkey) WHERE n.nspname = $1 AND c.relname = $2 AND i.indisprimary ORDER BY array_position(i.indkey, a.attnum)".
Definition SQL_COLUMN_TYPE : string :=
  "SELECT t.typname FROM pg_attribute a JOIN pg_class c ON c.oid = a.attrelid JOIN pg_namespace n ON n.oid = c.relnamespace JOIN pg_type t ON t.oid = a.atttypid WHERE n.nspname = $1 AND c.relname = $2 AND a.attname = $3 AND a.attnum > 0 AND NOT a.attisdropped".
Definition SQL_ALL_COLUMNS : string :=
  "SELECT a.attname FROM pg_attribute a JOIN pg_class c ON c.oid = a.attrelid JOIN pg_namespace n ON n.oid = c.relnamespace WHERE n.nspname = $1 AND c.relname = $2 AND a.attnum > 0 AND NOT a.attisdropped ORDER BY a.attnum".
Definition SQL_XACT_STATS : string :=
  "SELECT schemaname || '.' || relname AS rel, n_tup_ins, n_tup_upd, n_tup_del FROM pg_stat_xact_user_tables".
Definition SQL_CASCADES : string :=
  "SELECT cn.nspname AS child_schema, cc.relname AS child_table, con.conkey, con.confkey FROM pg_constraint con JOIN pg_class pc ON pc.oid = con.confrelid JOIN pg_namespace pn ON pn.oid = pc.relnamespace JOIN pg_class cc ON cc.oid = con.conrelid JOIN pg_namespace cn ON cn.oid = cc.relnamespace WHERE con.contype = 'f' AND con.confdeltype = 'c' AND pn.nspname = $1 AND pc.relname = $2".
Definition SQL_FK_COLUMNS : string :=
  "SELECT a.attname FROM pg_constraint con JOIN pg_class cc ON cc.oid = con.conrelid JOIN pg_namespace cn ON cn.oid = cc.relnamespace JOIN pg_class pc ON pc.oid = con.confrelid JOIN pg_namespace pn ON pn.oid = pc.relnamespace JOIN LATERAL unnest(con.conkey) WITH ORDINALITY AS k(attnum, ord) ON true JOIN pg_attribute a ON a.attrelid = cc.oid AND a.attnum = k.attnum WHERE con.contype = 'f' AND cn.nspname = $1 AND cc.relname = $2 AND pn.nspname = $3 AND pc.relname = $4 ORDER BY k.ord".
Definition SQL_TRIGGERS (mask : string) : string :=
  "SELECT t.tgname FROM pg_trigger t JOIN pg_class c ON c.oid = t.tgrelid JOIN pg_namespace n ON n.oid = c.relnamespace WHERE n.nspname = $1 AND c.relname = $2 AND NOT t.tgisinternal AND (t.tgtype & 1) = 1 AND (t.tgtype & " +:+ mask +:+ ") <> 0 ORDER BY t.tgname".
Definition SQL_LOCKS : string :=
  "SELECT l.mode FROM pg_locks l JOIN pg_class c ON c.oid = l.relation JOIN pg_namespace n ON n.oid = c.relnamespace WHERE l.locktype = 'relation' AND l.pid = pg_backend_pid() AND n.nspname = $1 AND c.relname = $2 ORDER BY l.mode".
Definition SQL_RESTORE_POINT : string := "SELECT pg_create_restore_point($1)::text".
Definition SQL_WAL_LSN : string := "SELECT pg_current_wal_lsn()::text".
Definition SQL_WAL_INSERT_LSN : string := "SELECT pg_current_wal_insert_lsn()::text".
Definition SQL_WAL_DIFF (after before : string) : string :=
  "SELECT GREATEST(pg_wal_lsn_diff('" +:+ after +:+ "'::pg_lsn, '" +:+ before +:+ "'::pg_lsn), 0)::bigint".

Definition parse_lock_mode (s : string) : option LockMode :=
  if decide (s = "AccessShareLock"%string) then Some AccessShareLock
  else if decide (s = "RowShareLock"%string) then Some RowShareLock
  else if decide (s = "RowExclusiveLock"%string) then Some RowExclusiveLock
  else if decide (s = "ShareUpdateExclusiveLock"%string) then Some ShareUpdateExclusiveLock
  else if decide (s = "ShareLock"%string) then Some ShareLock
  else if decide (s = "ShareRowExclusiveLock"%string) then Some ShareRowExclusiveLock
  else if decide (s = "ExclusiveLock"%string) then Some ExclusiveLock
  else if decide (s = "AccessExclusiveLock"%string) then Some AccessExclusiveLock
  else None.

(** [AssignmentTarget]: the rendered parts of a column name, or a tuple. *)
Inductive AssignmentTarget : Type := ColumnName (parts : list string) | TupleTarget.

Fixpoint drop_quotes (l : list byte) : list byte :=
  match l with x22 :: l => drop_quotes l | _ => l end.
(** [trim_matches] of the double quote. *)
Definition trim_quotes (s : string) : string := of_bytes (rev (drop_quotes (rev (drop_quotes (as_bytes s))))).

Fixpoint set_columns (l : list AssignmentTarget) : result string (list string) :=
  match l with
  | [] => Ok []
  | ColumnName parts :: l =>
      match last parts with
      | None => Err "empty SET column name"%string
      | Some col => let? cols := set_columns l in Ok (trim_quotes col :: cols)
      end
  | TupleTarget :: l =>
      Err "tuple SET target `(a, b) = (…)` is not supported by the MVP reversible-capture (fail-closed)"%string
  end.

(** A key value: integers and texts by type, anything else as text. *)
Definition pk_value_at (i : nat) (c : KeyCell) : PkValue :=
  match c with
  | KInt2 z | KInt4 z | KInt8 z => Int z
  | KText s => Text s
  | KBytea b => Bytes b
  | KOther t => Text (default ("<unprintable col " +:+ pretty i +:+ ">") t)
  end.

Definition pk_tuple_from_row (row : list KeyCell) (n : nat) : result ChecksumError PkTuple :=
  tuple_new (imap pk_value_at (take n row)).

Definition or_null {A} (f : A -> PkValue) (o : option A) : PkValue := match o with Some a => f a | None => Null end.

Definition image_value_at (c : Column) : result ApplyError PkValue :=
  let read v := match read_error c with
                | None => Ok v
                | Some e => Err (ABackend ("reading pre-image column `" +:+ col_name c +:+ "`: " +:+ e))
                end in
  match cell c with
  | IInt2 z | IInt4 z | IInt8 z => read (or_null Int z)
  | IText s => read (or_null Text s)
  | IBytea b => read (or_null Bytes b)
  | IOther ty =>
      Err (ABackend ("column `" +:+ col_name c +:+ "` has type `" +:+ ty +:+
        "` which the MVP reversible-capture does not support losslessly — fail-closed (S5 #75): refusing to commit a write whose pre-image cannot be certifiably restored"))
  end.

(** [row.try_get::<_, i32>]. *)
Definition try_get_i32 (wrong_type : ImageCell -> string) (c : Column) : result string Z :=
  match read_error c, cell c with
  | Some e, _ => Err e
  | None, IInt4 (Some z) => Ok z
  | None, other => Err (wrong_type other)
  end.

(** The per-relation difference of two readings of the transaction statistics, the
    relations in key order and those without a change left out. *)
Definition stat_deltas (baseline after : gmap string (Z * Z * Z)) : list RelationChange :=
  omap (fun rel =>
          match after !! rel with
          | Some (i, u, d) =>
              let '(b_i, b_u, b_d) := default (0, 0, 0) (baseline !! rel) in
              let d_i := Z.max (i - b_i) 0 in
              let d_u := Z.max (u - b_u) 0 in
              let d_d := Z.max (d - b_d) 0 in
              if d_i + d_u + d_d =? 0 then None else Some (mkChange rel d_i d_u d_d)
          | None => None
          end) (btree_keys after).

(** ** The rehearsal backend *)

Inductive PkShape : Type := NoPk | SingleInt4 | OtherShape.

Definition capturable (ty : string) : bool :=
  existsb (fun t => bool_decide (t = ty)) ["int2"; "int4"; "int8"; "text"; "varchar"; "bpchar"; "name"; "bytea"]%string.

Section conn.
Context (parse_sql : string -> result string (list Predicate.Statement)).
Context (query_where : string -> option Predicate.Expr) (expr_to_string : Predicate.Expr -> string).
Context (update_assignments : string -> result string (option (list AssignmentTarget))).
Context (sha256_hex : list byte -> string) (debug_str : string -> string).
Context (wrong_type : ImageCell -> string).
Context {D : Type} `{Client D}.

#[local] Abbreviation R := (Run D string).

Definition extract_where (statement : string) : string :=
  match parse_sql statement with
  | Err _ => "true"
  | Ok parsed =>
      let selection := match parsed with
                       | Predicate.Delete _ _ s :: _ => s
                       | Predicate.Update _ _ s :: _ => s
                       | Predicate.SelectQuery :: _ => query_where statement
                       | _ => None
                       end in
      match selection with Some e => expr_to_string e | None => "true" end
  end.

Definition update_set_columns (forward_sql : string) : result string (list string) :=
  let? parsed := result_map_err (fun e => "parse error: " +:+ e) (update_assignments forward_sql) in
  match parsed with
  | None => Err "forward statement is not a plain UPDATE"%string
  | Some [] => Err "UPDATE has no SET assignments"%string
  | Some assignments => set_columns assignments
  end.

Definition resolve_provolatile (name : string) : R Predicate.Volatility :=
  let '(schema, proc_name) := match rsplit_once x2e (as_bytes name) with
                              | Some (s, p) => (Some (of_bytes s), of_bytes p)
                              | None => (None, name)
                              end in
  sql! row := map_pg error_text (fun d => query_one_volatility d SQL_PROVOLATILE [SqlText proc_name; SqlOptText schema]) in
  let '(any_volatile, n) := row in
  run_ret (if n =? 0 then Predicate.Unknown else if any_volatile then Predicate.Volatile else Predicate.Stable).

Definition target_pk_int4_shape (relation : string) : R PkShape :=
  let '(schema, table) := split_relation relation in
  sql! rows := map_pg error_text (fun d => query_text d SQL_PK_TYPES [SqlText schema; SqlText table]) in
  run_ret (match rows with
           | [] => NoPk
           | [ty] => if bool_decide (ty = "int4"%string) then SingleInt4 else OtherShape
           | _ => OtherShape
           end).

(** [pk_column_names] of the backend and [pk_columns] of its transactions: one query. *)
Definition pk_columns (relation : string) : R (list string) :=
  let '(schema, table) := split_relation relation in
  map_pg error_text (fun d => query_text d SQL_PK_COLUMNS [SqlText schema; SqlText table]).

Definition single_pk_column_name (relation : string) (d : D) : D * option string :=
  let '(d, cols) := pk_columns relation d in
  (d, match cols with Ok [single] => Some single | _ => None end).

Fixpoint uncapturable_columns (schema table : string) (columns : list string) : R (list string) :=
  match columns with
  | [] => run_ret []
  | col :: columns =>
      sql! rows := map_pg error_text
                     (fun d => query_text d SQL_COLUMN_TYPE [SqlText schema; SqlText table; SqlText col]) in
      let supported := match rows with ty :: _ => capturable ty | [] => false end in
      sql! bad := uncapturable_columns schema table columns in
      run_ret (if supported then bad else col :: bad)
  end.

Definition certify_apply_shape (statement : string) (kind : WriteKind) (target : string) (d : D) : D * option string :=
  let '(d, shape) := target_pk_int4_shape target d in
  match shape with
  | Err e => (d, Some ("could not resolve PK shape of `" +:+ target +:+ "`: " +:+ e))
  | Ok OtherShape =>
      (d, Some ("target relation `" +:+ target +:+ "` does not have a single `int4` primary key — the MVP reversible apply path is constrained to a single-`int4`-PK `UPDATE`/`DELETE` (a wider/composite PK is DEFERRED, fail-closed)"))
  | Ok _ =>
      match kind with
      | WDelete => (d, None)
      | WUpdate =>
          match update_set_columns statement with
          | Err e => (d, Some ("cannot determine the UPDATE SET-clause columns (so reversibility cannot be certified): " +:+ e))
          | Ok set_cols =>
              let '(schema, table) := split_relation target in
              let '(d, bad) := uncapturable_columns schema table set_cols d in
              (d, match bad with
                  | Ok [] => None
                  | Ok bad => Some ("UPDATE writes column(s) [" +:+ join ", " (map debug_str bad) +:+ "] on `" +:+ target +:+
                      "` whose type the MVP reversible-capture does not support losslessly — refusing rather than commit an unrevertable write (S5 #75, fail-closed)")
                  | Err e => Some ("could not resolve SET-column types on `" +:+ target +:+ "`: " +:+ e)
                  end)
          end
      end
  end.

Fixpoint push_keys (b : PkSetBuilder) (n : nat) (rows : list (list KeyCell)) : result string PkSetBuilder :=
  match rows with
  | [] => Ok b
  | row :: rows =>
      let? tuple := result_map_err checksum_error_fmt (pk_tuple_from_row row n) in
      let '(b, pushed) := push b tuple in
      let? _ := result_map_err checksum_error_fmt pushed in
      push_keys b n rows
  end.

(** The affected table of the rows a query returned: the keys pushed, the set finalised. *)
Definition affected_of (relation : string) (n : nat) (rows : list (list KeyCell)) : result string AffectedTable :=
  let? b := push_keys (for_relation relation) n rows in
  let? checksum := result_map_err checksum_error_fmt (finalize sha256_hex b) in
  Ok (mkAffectedTable relation (Some checksum) (Z.of_nat (length rows))).

Definition run_forward_capturing_pks (statement relation : string) (pk_cols : list string) : R AffectedTable :=
  match pk_cols with
  | [] => run_ret (mkAffectedTable relation None 0)
  | _ =>
      let returning := join ", " (map quoted pk_cols) in
      sql! rows := map_pg error_text (fun d => query_keys d (statement +:+ " RETURNING " +:+ returning) []) in
      run_lift (affected_of relation (length pk_cols) rows)
  end.

Definition fk_child_columns (child_rel parent : string) : R (list string) :=
  let '(cs, ct) := split_relation child_rel in
  let '(ps, pt) := split_relation parent in
  map_pg error_text (fun d => query_text d SQL_FK_COLUMNS [SqlText cs; SqlText ct; SqlText ps; SqlText pt]).

Definition capture_cascade (target where_clause : string) (fk : string * string) : R AffectedTable :=
  let child_rel := fk.1 +:+ "." +:+ fk.2 in
  sql! child_pk := pk_columns child_rel in
  match child_pk with
  | [] => run_ret (mkAffectedTable child_rel None 0)
  | _ =>
      sql! fk_cols := fk_child_columns child_rel target in
      sql! parent_pk := pk_columns target in
      let join_on := join " AND " (map (fun '(c, p) => "ch." +:+ quoted c +:+ " = pa." +:+ quoted p) (zip fk_cols parent_pk)) in
      let select_pk := join ", " (map (fun c => "ch." +:+ quoted c) child_pk) in
      sql! rows := map_pg error_text
        (fun d => query_keys d ("SELECT " +:+ select_pk +:+ " FROM " +:+ child_rel +:+ " ch JOIN " +:+ target +:+
                                " pa ON " +:+ join_on +:+ " WHERE " +:+ where_clause) []) in
      run_lift (affected_of child_rel (length child_pk) rows)
  end.

Definition capture_cascades (target delete_statement : string) : R (list AffectedTable) :=
  let '(schema, table) := split_relation target in
  sql! fks := map_pg error_text (fun d => query_pairs d SQL_CASCADES [SqlText schema; SqlText table]) in
  run_each (capture_cascade target (extract_where delete_statement)) fks.

Definition trigger_mask (kind : WriteKind) : Z := match kind with WUpdate => 16 | WDelete => 8 end.

Definition trigger_names (relation : string) (kind : WriteKind) : R (list string) :=
  let '(schema, table) := split_relation relation in
  map_pg error_text (fun d => query_text d (SQL_TRIGGERS (pretty (trigger_mask kind))) [SqlText schema; SqlText table]).

Definition locks_on (relation : string) : R (list LockHeld) :=
  let '(schema, table) := split_relation relation in
  sql! rows := map_pg error_text (fun d => query_text d SQL_LOCKS [SqlText schema; SqlText table]) in
  run_ret (omap (fun s => option_map (fun mode => mkLockHeld relation mode 0) (parse_lock_mode s)) rows).

Definition xact_raw : R (gmap string (Z * Z * Z)) :=
  sql! rows := map_pg error_text (fun d => query_stats d SQL_XACT_STATS []) in
  run_ret (foldl (fun m '(rel, c) => <[rel := c]> m) ∅ rows).

Definition xact_full_effect (baseline : gmap string (Z * Z * Z)) : R (list RelationEffect) :=
  sql! after := xact_raw in
  run_ret (map (fun c => mkRelationEffect (r_relation c) (as_op_counts c)) (stat_deltas baseline after)).

Definition current_wal_lsn : R string := map_pg error_text (fun d => query_one_text d SQL_WAL_LSN []).
Definition txn_wal_lsn : R string := map_pg error_text (fun d => query_one_text d SQL_WAL_INSERT_LSN []).

Definition wal_diff (before after : string) : R Z :=
  if negb (is_valid_lsn before) || negb (is_valid_lsn after) then
    run_lift (Err ("invalid LSN literal: " +:+ debug_str before +:+ " / " +:+ debug_str after))
  else
    sql! bytes := map_pg error_text (fun d => query_one_int d (SQL_WAL_DIFF after before) []) in
    run_ret (Z.max bytes 0).

(** The measurement inside the transaction; [now] is the monotonic clock, read between
    two calls. *)
Definition measure (now : D -> Z) (statement : string) (kind : WriteKind) (target clone_lsn : string) : R Measurement :=
  sql! baseline := xact_raw in
  sql! pk_cols := pk_columns target in
  sql! cascades := (match kind with WDelete => capture_cascades target statement | WUpdate => run_ret [] end) in
  sql! names := trigger_names target kind in
  sql! wal_before := txn_wal_lsn in
  sql! t0 := (fun d => (d, Ok (now d))) in
  sql! affected := run_forward_capturing_pks statement target pk_cols in
  sql! t1 := (fun d => (d, Ok (now d))) in
  sql! wal_after := txn_wal_lsn in
  sql! wal_bytes := wal_diff wal_before wal_after in
  sql! locks := locks_on target in
  sql! full_effect := xact_full_effect baseline in
  run_ret (mkMeasurement affected cascades full_effect
             (map (fun name => mkTriggerFired name (DryRun.at_rows affected)) names) locks (sat_sub t1 t0) wal_bytes []
             clone_lsn 0).

(** [rehearse]: the transaction is rolled back on success, and dropped, which rolls it
    back, on the way out of an error. *)
Definition rehearse (now : D -> Z) (statement : string) (kind : WriteKind) (target : string) : R Measurement :=
  sql! clone_lsn := current_wal_lsn in
  sql! _ := map_pg error_text transaction in
  fun d =>
    match measure now statement kind target clone_lsn d with
    | (d, Err e) => (txn_drop d, Err e)
    | (d, Ok m) => (sql! _ := map_pg error_text txn_rollback in run_ret m) d
    end.

(** The backend itself; its clock is [now]. *)
Record PgRehearsal : Type := mkPgRehearsal { rehearsal_client : D; gate_self_determined : bool }.

Definition PgRehearsal_new (client : D) : PgRehearsal := mkPgRehearsal client false.
Definition with_self_determined_gate (r : PgRehearsal) (enabled : bool) : PgRehearsal :=
  mkPgRehearsal (rehearsal_client r) enabled.

Definition on_client {A} (r : PgRehearsal) (x : D * A) : PgRehearsal * A :=
  (mkPgRehearsal x.1 (gate_self_determined r), x.2).

Definition volatility_of (r : PgRehearsal) (name : string) : PgRehearsal * Predicate.Volatility :=
  let '(d, v) := resolve_provolatile name (rehearsal_client r) in
  on_client r (d, match v with Ok v => v | Err _ => Predicate.Unknown end).

Definition rehearsal_self_determined_pk_column (r : PgRehearsal) (target : string) : PgRehearsal * option string :=
  if negb (gate_self_determined r) then (r, None)
  else on_client r (single_pk_column_name target (rehearsal_client r)).

#[global] Instance PgRehearsal_rehearsal (now : D -> Z) : Rehearsal PgRehearsal := {|
  DryRun.rehearsal_volatility_of := volatility_of;
  DryRun.certify_apply_shape r statement kind target := on_client r (certify_apply_shape statement kind target (rehearsal_client r));
  DryRun.rehearsal_pk_column := rehearsal_self_determined_pk_column;
  DryRun.rehearse r statement kind target := on_client r (rehearse now statement kind target (rehearsal_client r))
|}.

(** ** The apply connection *)

Record PgApplyConn : Type := mkPgApplyConn {
  client : D;
  forward_sql : string;
  where_sql : string;
  xact_baseline : gmap string (Z * Z * Z);
  wal_baseline_lsn : option string;
  in_txn : bool;
  conn_timeout_ms : Z
}.

Definition PgApplyConn_new (client : D) (forward_sql where_sql : string) : PgApplyConn :=
  mkPgApplyConn client forward_sql where_sql ∅ None false 0.

Definition set_client (c : PgApplyConn) (d : D) : PgApplyConn :=
  mkPgApplyConn d (forward_sql c) (where_sql c) (xact_baseline c) (wal_baseline_lsn c) (in_txn c) (conn_timeout_ms c).
Definition set_in_txn (c : PgApplyConn) (b : bool) : PgApplyConn :=
  mkPgApplyConn (client c) (forward_sql c) (where_sql c) (xact_baseline c) (wal_baseline_lsn c) b (conn_timeout_ms c).
Definition set_timeout (c : PgApplyConn) (t : Z) : PgApplyConn :=
  mkPgApplyConn (client c) (forward_sql c) (where_sql c) (xact_baseline c) (wal_baseline_lsn c) (in_txn c) t.
Definition set_xact_baseline (c : PgApplyConn) (b : gmap string (Z * Z * Z)) : PgApplyConn :=
  mkPgApplyConn (client c) (forward_sql c) (where_sql c) b (wal_baseline_lsn c) (in_txn c) (conn_timeout_ms c).
Definition set_wal_baseline (c : PgApplyConn) (l : string) : PgApplyConn :=
  mkPgApplyConn (client c) (forward_sql c) (where_sql c) (xact_baseline c) (Some l) (in_txn c) (conn_timeout_ms c).

Definition classify_apply (timeout_ms : Z) (e : PgError) : ApplyError :=
  match sqlstate e with
  | Some c =>
      if decide (c = QUERY_CANCELED) then Timeout timeout_ms
      else if decide (c = T_R_SERIALIZATION_FAILURE) then SerializationFailure
      else ABackend (error_text e)
  | None => ABackend (error_text e)
  end.

#[local] Abbreviation A := (Run PgApplyConn ApplyError).

(** A call on the client of a connection. *)
Definition on_db {X} (f : PgError -> ApplyError) (m : D -> D * result PgError X) : A X :=
  fun c => let '(d, r) := m (client c) in (set_client c d, result_map_err f r).
Definition backend_error (e : PgError) : ApplyError := ABackend (error_text e).
Definition modify (f : PgApplyConn -> PgApplyConn) : A unit := fun c => (f c, Ok tt).
Definition read {X} (f : PgApplyConn -> X) : A X := fun c => (c, Ok (f c)).

Definition all_columns (relation : string) : A (list string) :=
  let '(schema, table) := split_relation relation in
  on_db backend_error (fun d => query_text d SQL_ALL_COLUMNS [SqlText schema; SqlText table]).

Definition read_xact_raw : A (gmap string (Z * Z * Z)) :=
  sql! timeout_ms := read conn_timeout_ms in
  sql! rows := on_db (classify_apply timeout_ms) (fun d => query_stats d SQL_XACT_STATS []) in
  run_ret (foldl (fun m '(rel, c) => <[rel := c]> m) ∅ rows).

Definition pg_create_restore_point (label : string) : A string :=
  on_db backend_error (fun d => query_one_text d SQL_RESTORE_POINT [SqlText label]).

Definition begin_sql (timeout_ms : Z) : string :=
  "BEGIN ISOLATION LEVEL REPEATABLE READ; SET LOCAL statement_timeout = " +:+ pretty timeout_ms +:+ ";".

Definition pg_begin (timeout_ms : Z) : A unit :=
  sql! _ := on_db (classify_apply timeout_ms) (fun d => batch_execute d (begin_sql timeout_ms)) in
  sql! _ := modify (fun c => set_timeout (set_in_txn c true) timeout_ms) in
  sql! baseline := read_xact_raw in
  sql! _ := modify (fun c => set_xact_baseline c baseline) in
  sql! lsn := on_db (classify_apply timeout_ms) (fun d => query_one_text d SQL_WAL_INSERT_LSN []) in
  modify (fun c => set_wal_baseline c lsn).

Definition pg_xact_wal_bytes : A Z :=
  sql! baseline := read wal_baseline_lsn in
  match baseline with
  | None => run_lift (Err (ABackend "WAL baseline not captured (begin not called)"))
  | Some before =>
      sql! timeout_ms := read conn_timeout_ms in
      sql! after := on_db (classify_apply timeout_ms) (fun d => query_one_text d SQL_WAL_INSERT_LSN []) in
      sql! bytes := on_db backend_error (fun d => query_one_int d (SQL_WAL_DIFF after before) []) in
      run_ret (Z.max bytes 0)
  end.

Definition apply_self_determined_pk_column (c : PgApplyConn) (relation : string) : PgApplyConn * option string :=
  let '(schema, table) := split_relation relation in
  let '(d, rows) := query_text (client c) SQL_PK_COLUMNS [SqlText schema; SqlText table] in
  (set_client c d, match rows with Ok [single] => Some single | _ => None end).

(** The select list: the key, then each image column once. *)
Fixpoint add_columns (select_cols image_cols : list string) : list string :=
  match image_cols with
  | [] => select_cols
  | c :: cols =>
      if negb (bool_decide (c = "id"%string)) && negb (bool_decide (c ∈ select_cols))
      then add_columns (select_cols ++ [c]) cols
      else add_columns select_cols cols
  end.

Fixpoint read_image (select_cols : list string) (row : list Column) : result ApplyError (list (string * PkValue)) :=
  match select_cols, row with
  | col :: select_cols, c :: row =>
      let? v := image_value_at c in
      let? image := read_image select_cols row in
      Ok ((col, v) :: image)
  | _, _ => Ok []
  end.

Definition row_id (relation : string) (row : list Column) : result ApplyError Z :=
  match row with
  | c :: _ => result_map_err (fun e => ABackend ("non-int4 PK on `" +:+ relation +:+ "`: " +:+ e)) (try_get_i32 wrong_type c)
  | [] => Err (ABackend ("non-int4 PK on `" +:+ relation +:+ "`: no such column"))
  end.

Fixpoint collect_preimages (relation : string) (select_cols : list string) (rows : list (list Column))
    (preimage : gmap Z (list (string * PkValue))) : result ApplyError (gmap Z (list (string * PkValue))) :=
  match rows with
  | [] => Ok preimage
  | row :: rows =>
      let? id := row_id relation row in
      let? image := read_image select_cols row in
      collect_preimages relation select_cols rows (<[id := image]> preimage)
  end.

Fixpoint collect_written (relation : string) (preimage : gmap Z (list (string * PkValue))) (rows : list (list Column)) :
    result ApplyError (list CapturedRow) :=
  match rows with
  | [] => Ok []
  | row :: rows =>
      let? id := row_id relation row in
      match preimage !! id with
      | None => Err (MissingPreImage relation (pretty id))
      | Some image =>
          let? written := collect_written relation preimage rows in
          Ok (mkCaptured (tuple_single (Int id)) image :: written)
      end
  end.

Definition preimage_sql (select_cols : list string) (relation where_sql : string) : string :=
  "SELECT " +:+ join ", " (map quoted select_cols) +:+ " FROM " +:+ relation +:+ " WHERE " +:+ where_sql +:+
  " ORDER BY id FOR UPDATE".

Definition pg_apply_forward (kind : WriteKind) (relation : string) : A ForwardResult :=
  sql! forward := read forward_sql in
  sql! image_cols := (match kind with
                      | WUpdate => run_lift (result_map_err (fun e => ABackend
                          ("cannot determine the UPDATE SET-clause columns to capture a reversible pre-image (fail-closed; S5 #75): " +:+ e))
                          (update_set_columns forward))
                      | WDelete => all_columns relation
                      end) in
  let select_cols := add_columns ["id"%string] image_cols in
  sql! where_sql := read where_sql in
  sql! timeout_ms := read conn_timeout_ms in
  sql! rows := on_db (classify_apply timeout_ms) (fun d => query_images d (preimage_sql select_cols relation where_sql) []) in
  sql! preimage := run_lift (collect_preimages relation select_cols rows ∅) in
  sql! returned := on_db (classify_apply timeout_ms) (fun d => query_images d (forward +:+ " RETURNING id") []) in
  sql! written := run_lift (collect_written relation preimage returned) in
  run_ret (match kind with
           | WUpdate => with_written_columns (forward_new written) image_cols
           | WDelete => forward_new written
           end).

Definition pg_xact_tuple_deltas : A (list RelationChange) :=
  sql! after := read_xact_raw in
  sql! baseline := read xact_baseline in
  run_ret (stat_deltas baseline after).

Definition pg_commit : A unit :=
  sql! _ := on_db backend_error (fun d => batch_execute d "COMMIT") in
  modify (fun c => set_in_txn c false).

Definition pg_rollback : A unit :=
  fun c => if in_txn c then (set_in_txn (set_client c (batch_execute (client c) "ROLLBACK").1) false, Ok tt) else (c, Ok tt).

#[global] Instance PgApplyConn_conn : ApplyConn PgApplyConn := {|
  create_restore_point c label := pg_create_restore_point label c;
  begin c timeout_ms := pg_begin timeout_ms c;
  xact_wal_bytes := pg_xact_wal_bytes;
  self_determined_pk_column := apply_self_determined_pk_column;
  apply_forward c kind relation _ := pg_apply_forward kind relation c;
  xact_tuple_deltas := pg_xact_tuple_deltas;
  commit := pg_commit;
  rollback := pg_rollback
|}.

(** ** The revert connection *)

(** [SqlVal::from_concrete] through [into_image_or_sqlval]: [None] is a NULL. *)
Definition to_sqlval (v : PkValue) : option SqlVal :=
  match v with
  | Int i => Some (SqlInt i)
  | Text s => Some (SqlText s)
  | Bytes b => Some (SqlBytes b)
  | Null => None
  end.

(** [BindBuilder::push]: the owned parameters after the call, and the placeholder. *)
Definition bind_push (owned : list SqlVal) (v : option SqlVal) : list SqlVal * string :=
  match v with
  | None => (owned, "NULL"%string)
  | Some val =>
      let owned := owned ++ [val] in
      let n := "$" +:+ pretty (length owned) in
      (owned, match val with SqlInt _ => n +:+ "::int8" | _ => n end)
  end.

Fixpoint bind_all (owned : list SqlVal) (vals : list PkValue) : list SqlVal * list string :=
  match vals with
  | [] => (owned, [])
  | v :: vals =>
      let '(owned, ph) := bind_push owned (to_sqlval v) in
      let '(owned, phs) := bind_all owned vals in
      (owned, ph :: phs)
  end.

Record PgRevertConn : Type := mkPgRevertConn { revert_client : D; revert_in_txn : bool }.

Definition PgRevertConn_new (client : D) : PgRevertConn := mkPgRevertConn client false.

#[local] Abbreviation V := (Run PgRevertConn RevertError).

Definition on_revert_db {X} (m : D -> D * result PgError X) : V X :=
  fun c => let '(d, r) := m (revert_client c) in
           (mkPgRevertConn d (revert_in_txn c), result_map_err (fun e => RBackend (error_text e)) r).
Definition set_revert_txn (b : bool) : V unit := fun c => (mkPgRevertConn (revert_client c) b, Ok tt).

(** The first key value; a tuple has at least one. *)
Definition pk_int (row : RevertRow) : result RevertError Z :=
  match tuple_values (rr_pk row) with
  | Int i :: _ => Ok i
  | other :: _ => Err (RBackend ("bad pk " +:+ debug_value debug_str other))
  | [] => Err (RBackend "bad pk")
  end.

Definition update_sql (relation : string) (cols phs : list string) (id_ph : string) : string :=
  "UPDATE " +:+ relation +:+ " SET " +:+ join ", " (zip_with (fun c ph => quoted c +:+ " = " +:+ ph) cols phs) +:+
  " WHERE id = " +:+ id_ph.

Definition restore_update_row (relation : string) (row : RevertRow) : V Z :=
  sql! id := run_lift (pk_int row) in
  match List.filter (fun cv => negb (bool_decide (cv.1 = "id"%string))) (rr_before_image row) with
  | [] => run_lift (Err (RBackend ("inverse row for `" +:+ relation +:+ "` id=" +:+ pretty id +:+
            " has no non-PK pre-image columns to restore (S5 #75: a reversible UPDATE must capture every written column)")))
  | cols =>
      let '(owned, phs) := bind_all [] cols.*2 in
      let '(owned, id_ph) := bind_push owned (Some (SqlInt id)) in
      on_revert_db (fun d => execute d (update_sql relation cols.*1 phs id_ph) owned)
  end.

Definition insert_sql (relation : string) (cols phs : list string) : string :=
  "INSERT INTO " +:+ relation +:+ "(" +:+ join ", " (map quoted cols) +:+ ") VALUES (" +:+ join ", " phs +:+ ")".

Definition restore_insert_row (relation : string) (row : RevertRow) : V Z :=
  match rr_before_image row with
  | [] => run_lift (Err (RBackend ("inverse row for `" +:+ relation +:+ "` has no pre-image columns to re-insert")))
  | image =>
      let '(owned, phs) := bind_all [] image.*2 in
      on_revert_db (fun d => execute d (insert_sql relation image.*1 phs) owned)
  end.

Definition sum_each {X} (f : X -> V Z) (rows : list X) : V Z :=
  sql! ns := run_each f rows in run_ret (foldl Z.add 0 ns).

Definition pg_revert_begin : V unit := sql! _ := on_revert_db (fun d => batch_execute d "BEGIN") in set_revert_txn true.
Definition pg_revert_commit : V unit := sql! _ := on_revert_db (fun d => batch_execute d "COMMIT") in set_revert_txn false.
Definition pg_revert_rollback : V unit :=
  fun c => if revert_in_txn c then (mkPgRevertConn (batch_execute (revert_client c) "ROLLBACK").1 false, Ok tt) else (c, Ok tt).

#[global] Instance PgRevertConn_conn : RevertConn PgRevertConn := {|
  revert_begin := pg_revert_begin;
  restore_update c relation rows := sum_each (restore_update_row relation) rows c;
  restore_insert c relation rows := sum_each (restore_insert_row relation) rows c;
  revert_commit := pg_revert_commit;
  revert_rollback := pg_revert_rollback
|}.
End conn.

(** ** What a rehearsal leaves behind *)

(** The catalog reads made outside a transaction. *)
Definition catalog_reads : list string :=
  [SQL_PROVOLATILE; SQL_PK_TYPES; SQL_PK_COLUMNS; SQL_COLUMN_TYPE; SQL_WAL_LSN].

(** The catalog and statistics reads of a measurement. *)
Definition measurement_text (sql : string) : Prop :=
  sql = SQL_PK_COLUMNS \/ sql = SQL_FK_COLUMNS \/ sql = SQL_LOCKS \/ exists mask, sql = SQL_TRIGGERS mask.

(** One UPDATE or DELETE of one table, as the parser reads it. *)
Definition one_write (parse_sql : string -> result string (list Predicate.Statement)) (sql : string) : Prop :=
  exists kind target, DryRun.classify parse_sql sql = Ok (kind, target).

(** A session of a server nobody else writes.  [persisted] is what it keeps when the
    session goes away.  A catalog read keeps it; inside an open transaction the reads of a
    measurement, a SELECT, and one UPDATE or DELETE that returns columns keep it and leave
    the transaction open, as long as the statement is [confined]: what it does, and what
    the triggers it fires do, it does in its own transaction, calling nothing that outlives
    a rollback (a sequence's advance, a connection of its own).  What was done in the
    transaction is gone once it is rolled back or dropped. *)
Class SessionLaws (parse_sql : string -> result string (list Predicate.Statement)) (D : Type) `{Client D} : Type := {
  Persisted : Type;
  persisted : D -> Persisted;
  open_txn : D -> bool;
  confined : string -> Prop;
  text_reads d sql ps : sql ∈ catalog_reads -> persisted (query_text d sql ps).1 = persisted d;
  one_text_reads d sql ps : sql ∈ catalog_reads -> persisted (query_one_text d sql ps).1 = persisted d;
  volatility_reads d sql ps : sql ∈ catalog_reads -> persisted (query_one_volatility d sql ps).1 = persisted d;
  text_inside d sql ps : open_txn d = true -> measurement_text sql ->
    persisted (query_text d sql ps).1 = persisted d /\ open_txn (query_text d sql ps).1 = true;
  pairs_inside d ps : open_txn d = true ->
    persisted (query_pairs d SQL_CASCADES ps).1 = persisted d /\ open_txn (query_pairs d SQL_CASCADES ps).1 = true;
  stats_inside d ps : open_txn d = true ->
    persisted (query_stats d SQL_XACT_STATS ps).1 = persisted d /\ open_txn (query_stats d SQL_XACT_STATS ps).1 = true;
  keys_select d rest where_clause : open_txn d = true ->
    let sql := "SELECT " +:+ rest +:+ " WHERE " +:+ where_clause in
    confined sql -> persisted (query_keys d sql []).1 = persisted d /\ open_txn (query_keys d sql []).1 = true;
  keys_returning d statement cols : open_txn d = true ->
    let sql := statement +:+ " RETURNING " +:+ cols in
    one_write parse_sql statement -> confined statement ->
    persisted (query_keys d sql []).1 = persisted d /\ open_txn (query_keys d sql []).1 = true;
  one_text_inside d ps : open_txn d = true ->
    persisted (query_one_text d SQL_WAL_INSERT_LSN ps).1 = persisted d /\ open_txn (query_one_text d SQL_WAL_INSERT_LSN ps).1 = true;
  one_int_inside d after before : open_txn d = true -> is_valid_lsn after = true -> is_valid_lsn before = true ->
    let sql := SQL_WAL_DIFF after before in
    persisted (query_one_int d sql []).1 = persisted d /\ open_txn (query_one_int d sql []).1 = true;
  transaction_opens d d' r :
    transaction d = (d', r) -> persisted d' = persisted d /\ (r = Ok tt -> open_txn d' = true);
  rollback_discards d : persisted (txn_rollback d).1 = persisted d;
  drop_discards d : persisted (txn_drop d) = persisted d
}.

Section leaves.
Context (parse_sql : string -> result string (list Predicate.Statement)).
Context {D : Type} `{SessionLaws parse_sql D}.

(** A computation that stays inside the open transaction; and one that persists nothing. *)
Definition inside {E A} (m : Run D E A) : Prop :=
  forall d, open_txn d = true -> persisted (m d).1 = persisted d /\ open_txn (m d).1 = true.
Definition keeps {E A} (m : Run D E A) : Prop := forall d, persisted (m d).1 = persisted d.

Lemma inside_bind {E A B} (m : Run D E A) (k : A -> Run D E B) :
  inside m -> (forall a, inside (k a)) -> inside (run_bind m k).
Proof.
  intros Hm Hk d Hd. unfold run_bind. pose proof (Hm d Hd) as [H1 H2]. destruct (m d) as [d' [a|e]]; simpl in *; [|done].
  destruct (Hk a d' H2) as [H3 H4]. by rewrite H3.
Qed.
Lemma inside_pure {E A} (f : D -> result E A) : inside (fun d => (d, f d)).
Proof. by intros d Hd. Qed.
Lemma inside_map_pg {E A} (f : PgError -> E) (m : D -> D * result PgError A) : inside (E:=PgError) m -> inside (map_pg f m).
Proof. intros Hm d Hd. unfold map_pg. specialize (Hm d Hd). by destruct (m d). Qed.
Lemma inside_each {E A B} (f : A -> Run D E B) l : (forall x, inside (f x)) -> inside (run_each f l).
Proof.
  intros Hf. induction l as [|x l IH]; simpl; [apply inside_pure|].
  apply inside_bind; [done|]. intros y. apply inside_bind; [done|]. intros ys. apply inside_pure.
Qed.

Lemma persists_bind {E A B} (m : Run D E A) (k : A -> Run D E B) :
  keeps m -> (forall a, keeps (k a)) -> keeps (run_bind m k).
Proof.
  intros Hm Hk d. unfold run_bind. pose proof (Hm d) as H1. destruct (m d) as [d' [a|e]]; simpl in *; [|done].
  by rewrite Hk.
Qed.
Lemma persists_pure {E A} (f : D -> result E A) : keeps (fun d => (d, f d)).
Proof. by intros d. Qed.
Lemma persists_map_pg {E A} (f : PgError -> E) (m : D -> D * result PgError A) : keeps (E:=PgError) m -> keeps (map_pg f m).
Proof. intros Hm d. unfold map_pg. specialize (Hm d). by destruct (m d). Qed.

Lemma uncapturable_keeps schema table cols : keeps (uncapturable_columns schema table cols).
Proof.
  induction cols as [|c cols IH]; simpl; [apply persists_pure|]. apply persists_bind.
  - apply persists_map_pg. intros d. apply text_reads. set_solver.
  - intros rows. apply persists_bind; [done|]. intros bad. apply persists_pure.
Qed.

Lemma provolatile_keeps name : keeps (resolve_provolatile name).
Proof.
  unfold resolve_provolatile. destruct (match rsplit_once _ _ with Some _ => _ | None => _ end) as [schema proc].
  apply persists_bind.
  - apply persists_map_pg. intros d. apply volatility_reads. set_solver.
  - intros [any n]. apply persists_pure.
Qed.

Lemma pk_name_keeps target d : persisted (single_pk_column_name target d).1 = persisted d.
Proof.
  unfold single_pk_column_name, pk_columns, map_pg. destruct (split_relation target) as [s t].
  pose proof (text_reads d SQL_PK_COLUMNS [SqlText s; SqlText t]) as Hr.
  destruct (query_text _ _ _) as [d1 r]. simpl in *. apply Hr. set_solver.
Qed.

Context (query_where : string -> option Predicate.Expr) (expr_to_string : Predicate.Expr -> string).
Context (sha256_hex : list byte -> string) (debug_str : string -> string).

(** A statement a rehearsal may run: one write, confined, as a SELECT with its WHERE
    clause is. *)
Definition rehearsable (statement : string) : Prop :=
  confined statement /\
  forall rest, confined ("SELECT " +:+ rest +:+ " WHERE " +:+ extract_where parse_sql query_where expr_to_string statement).

Lemma append_assoc (a b c : string) : (a +:+ b) +:+ c = a +:+ (b +:+ c).
Proof. induction a as [|x a IH]; [done|]. exact (f_equal (String x) IH). Qed.

Lemma select_where l c t j where_clause :
  "SELECT " +:+ l +:+ " FROM " +:+ c +:+ " ch JOIN " +:+ t +:+ " pa ON " +:+ j +:+ " WHERE " +:+ where_clause =
  "SELECT " +:+ (l +:+ " FROM " +:+ c +:+ " ch JOIN " +:+ t +:+ " pa ON " +:+ j) +:+ " WHERE " +:+ where_clause.
Proof. by rewrite !append_assoc. Qed.

Lemma capture_cascade_inside target where_clause fk :
  (forall rest, confined ("SELECT " +:+ rest +:+ " WHERE " +:+ where_clause)) ->
  inside (capture_cascade sha256_hex target where_clause fk).
Proof.
  intros Hc.
  assert (forall rel, inside (pk_columns rel)) as Hpk.
  { intros rel. unfold pk_columns. destruct (split_relation rel). apply inside_map_pg. intros d Hd. apply text_inside; [done|by left]. }
  unfold capture_cascade. apply inside_bind; [apply Hpk|]. intros [|c cs]; [apply inside_pure|].
  apply inside_bind.
  { unfold fk_child_columns. destruct (split_relation _), (split_relation _). apply inside_map_pg. intros d Hd.
    apply text_inside; [done|by right; left]. }
  intros fks. apply inside_bind; [apply Hpk|]. intros pks. apply inside_bind; [|intros rows; apply inside_pure].
  apply inside_map_pg. intros d Hd.
  match goal with |- context [query_keys d ("SELECT " +:+ ?l +:+ " FROM " +:+ ?c +:+ " ch JOIN " +:+ ?t +:+ " pa ON " +:+ ?j +:+ _)] =>
    rewrite (select_where l c t j where_clause) end. by apply keys_select.
Qed.

Lemma measure_inside now statement kind target lsn :
  one_write parse_sql statement -> rehearsable statement ->
  inside (measure parse_sql query_where expr_to_string sha256_hex debug_str now statement kind target lsn).
Proof.
  intros Hw [Hc Hwh].
  assert (inside (E:=string) xact_raw) as Hraw.
  { unfold xact_raw. apply inside_bind; [|intros rows; apply inside_pure]. apply inside_map_pg. intros d Hd. by apply stats_inside. }
  assert (inside (E:=string) txn_wal_lsn) as Hlsn by (apply inside_map_pg; intros d Hd; by apply one_text_inside).
  unfold measure. apply inside_bind; [done|]. intros baseline. apply inside_bind.
  { unfold pk_columns. destruct (split_relation target). apply inside_map_pg. intros d Hd. apply text_inside; [done|by left]. }
  intros pk_cols. apply inside_bind.
  { destruct kind; [apply inside_pure|]. unfold capture_cascades. destruct (split_relation target).
    apply inside_bind; [apply inside_map_pg; intros d Hd; by apply pairs_inside|]. intros fks. apply inside_each.
    intros fk. by apply capture_cascade_inside. }
  intros cascades. apply inside_bind.
  { unfold trigger_names. destruct (split_relation target). apply inside_map_pg. intros d Hd.
    apply text_inside; [done|]. right. right. right. by eexists. }
  intros names. apply inside_bind; [done|]. intros wal_before. apply inside_bind; [apply inside_pure|]. intros t0.
  apply inside_bind.
  { unfold run_forward_capturing_pks. destruct pk_cols; [apply inside_pure|].
    apply inside_bind; [|intros rows; apply inside_pure]. apply inside_map_pg. intros d Hd. by apply keys_returning. }
  intros affected. apply inside_bind; [apply inside_pure|]. intros t1. apply inside_bind; [done|]. intros wal_after.
  apply inside_bind.
  { unfold wal_diff. destruct (is_valid_lsn wal_before) eqn:E1, (is_valid_lsn wal_after) eqn:E2; simpl; try apply inside_pure.
    apply inside_bind; [|intros b; apply inside_pure]. apply inside_map_pg. intros d Hd. by apply one_int_inside. }
  intros wal_bytes. apply inside_bind.
  { unfold locks_on. destruct (split_relation target). apply inside_bind; [|intros rows; apply inside_pure].
    apply inside_map_pg. intros d Hd. apply text_inside; [done|by right; right; left]. }
  intros locks. apply inside_bind; [|intros e; apply inside_pure].
  unfold xact_full_effect. apply inside_bind; [done|]. intros after. apply inside_pure.
Qed.

Lemma rehearse_keeps now statement kind target :
  one_write parse_sql statement -> rehearsable statement ->
  keeps (rehearse parse_sql query_where expr_to_string sha256_hex debug_str now statement kind target).
Proof.
  intros Hw Hc. unfold rehearse. apply persists_bind.
  { apply persists_map_pg. intros d. apply one_text_reads. set_solver. }
  intros lsn d. unfold run_bind, map_pg. pose proof (transaction_opens d) as Ht.
  destruct (transaction d) as [d1 r1]. destruct (Ht d1 r1 eq_refl) as [Hp Ho]. destruct r1 as [[]|e]; simpl; [|done].
  pose proof (measure_inside now statement kind target lsn Hw Hc d1 (Ho eq_refl)) as [Hm _].
  destruct (measure _ _ _ _ _ _ _ _ _ _ d1) as [d2 [m|e]]; simpl in *.
  - pose proof (rollback_discards d2) as Hr. destruct (txn_rollback d2) as [d3 [[]|e]]; simpl in *; congruence.
  - rewrite drop_discards. congruence.
Qed.

Context (update_assignments : string -> result string (option (list AssignmentTarget))).

Lemma shape_keeps statement kind target d :
  persisted (certify_apply_shape update_assignments debug_str statement kind target d).1 = persisted d.
Proof.
  unfold certify_apply_shape.
  assert (keeps (target_pk_int4_shape target)) as Hk.
  { unfold target_pk_int4_shape. destruct (split_relation target). apply persists_bind.
    - apply persists_map_pg. intros d'. apply text_reads. set_solver.
    - intros rows. apply persists_pure. }
  specialize (Hk d). destruct (target_pk_int4_shape target d) as [d1 [[]|e]]; simpl in *; try done.
  all: destruct kind; [|done]; destruct (update_set_columns _ _); [|done]; destruct (split_relation target);
    match goal with |- context [uncapturable_columns ?s ?t ?c ?d'] =>
      pose proof (uncapturable_keeps s t c d') as Hu; destruct (uncapturable_columns s t c d') as [d2 r] end;
    simpl in *; congruence.
Qed.

End leaves.


(** ** A forward write captures what it changes *)

Lemma add_columns_app select_cols image_cols :
  exists more, add_columns select_cols image_cols = select_cols ++ more.
Proof.
  revert select_cols. induction image_cols as [|c cols IH]; intros sel; simpl; [exists []; by rewrite app_nil_r|].
  destruct (_ && _); [|apply IH]. destruct (IH (sel ++ [c])) as [more ->]. exists (c :: more). by rewrite <- app_assoc.
Qed.

Lemma add_columns_covers select_cols image_cols c :
  c ∈ image_cols -> c <> "id"%string -> c ∈ add_columns select_cols image_cols.
Proof.
  revert select_cols. induction image_cols as [|x cols IH]; intros sel Hc Hid; simpl; [set_solver|].
  apply elem_of_cons in Hc as [<-|Hc]; [|destruct (_ && _); by apply IH].
  destruct (bool_decide (c = "id"%string)) eqn:E1; [by apply bool_decide_eq_true in E1|].
  destruct (bool_decide (c ∈ sel)) eqn:E2; simpl.
  - apply bool_decide_eq_true in E2. destruct (add_columns_app sel cols) as [more ->]. set_solver.
  - destruct (add_columns_app (sel ++ [c]) cols) as [more ->]. set_solver.
Qed.

Lemma read_image_columns cols row image :
  length row = length cols -> read_image cols row = Ok image -> image.*1 = cols.
Proof.
  revert row image. induction cols as [|c cols IH]; intros [|x row] image Hl; simpl; try done; [by intros [= <-]|].
  destruct (image_value_at x); simpl; [|done]. destruct (read_image cols row) eqn:E; simpl; [|done].
  intros [= <-]. simpl. f_equal. apply (IH row); [by injection Hl|done].
Qed.

Lemma collect_preimages_from wt rel cols rows pre pre' :
  collect_preimages wt rel cols rows pre = Ok pre' ->
  forall i image, pre' !! i = Some image ->
  pre !! i = Some image \/ exists row, row ∈ rows /\ row_id wt rel row = Ok i /\ read_image cols row = Ok image.
Proof.
  revert pre. induction rows as [|row rows IH]; intros pre; simpl; [intros [= <-]; by left|].
  destruct (row_id wt rel row) as [id|] eqn:Ei; simpl; [|done].
  destruct (read_image cols row) as [im|] eqn:E; simpl; [|done]. intros Hc i image Hi.
  destruct (IH _ Hc i image Hi) as [Hp|(row' & Hin & Hr)]; [|right; exists row'; set_solver].
  destruct (decide (i = id)) as [->|Hne]; [|rewrite lookup_insert_ne in Hp by done; by left].
  rewrite lookup_insert_eq in Hp. injection Hp as <-. right. exists row. set_solver.
Qed.

Lemma collect_written_images wt rel pre rows written :
  collect_written wt rel pre rows = Ok written ->
  Forall2 (fun row w => exists i, row_id wt rel row = Ok i /\ c_pk w = tuple_single (Int i) /\ pre !! i = Some (c_before_image w))
    rows written.
Proof.
  revert written. induction rows as [|row rows IH]; intros written; simpl; [intros [= <-]; constructor|].
  destruct (row_id wt rel row) as [i|] eqn:Ei; simpl; [|done]. destruct (pre !! i) as [image|] eqn:Ep; [|done].
  destruct (collect_written wt rel pre rows) as [ws|]; simpl; [|done]. intros [= <-].
  constructor; [by exists i|]. by apply IH.
Qed.

Lemma elem_non_id c l : c ∈ non_id l <-> c ∈ l /\ c <> "id"%string.
Proof.
  unfold non_id. rewrite !list_elem_of_In, filter_In, negb_true_iff, bool_decide_eq_false. done.
Qed.

Lemma required_columns_covered debug_str rel required rows :
  required <> [] -> Forall (fun w => forall c, c ∈ required -> c ∈ non_id (c_before_image w).*1) rows ->
  column_coverage debug_str rel required rows = Ok tt.
Proof.
  intros Hr. induction rows as [|w rows IH]; intros Hf; simpl; [done|]. apply Forall_cons in Hf as [Hw Hf].
  destruct required as [|r0 required]; [done|].
  destruct (List.filter _ (r0 :: required)) as [|m ms] eqn:E; [by apply IH|]. exfalso.
  assert (In m (m :: ms)) as Hm by (by left). rewrite <- E in Hm. apply filter_In in Hm as [Hin Hb].
  apply negb_true_iff, bool_decide_eq_false in Hb. apply Hb, Hw. by apply list_elem_of_In.
Qed.

Lemma add_columns_spec select_cols image_cols :
  NoDup select_cols -> "id"%string ∈ select_cols ->
  NoDup (add_columns select_cols image_cols) /\
  forall x, x ∈ add_columns select_cols image_cols <-> x ∈ select_cols \/ x ∈ image_cols.
Proof.
  revert select_cols. induction image_cols as [|c cols IH]; intros sel Hnd Hid; simpl; [split; [done|set_solver]|].
  destruct (bool_decide_reflect (c = "id"%string)) as [->|Hc]; simpl.
  { destruct (IH sel Hnd Hid) as [Hn Hx]. split; [done|]. intros x. rewrite Hx. set_solver. }
  destruct (bool_decide_reflect (c ∈ sel)) as [Hin|Hin]; simpl.
  { destruct (IH sel Hnd Hid) as [Hn Hx]. split; [done|]. intros x. rewrite Hx. set_solver. }
  destruct (IH (sel ++ [c])) as [Hn Hx]; [|set_solver|].
  { apply NoDup_app. split; [done|]. split; [set_solver|]. apply NoDup_singleton. }
  split; [done|]. intros x. rewrite Hx. set_solver.
Qed.

(** The columns a write's pre-image is asked for, and the session after asking: those the
    UPDATE sets, or for a DELETE all that the catalog lists for the relation. *)
Definition image_columns {D : Type} `{Client D} (update_assignments : string -> result string (option (list AssignmentTarget)))
    (kind : WriteKind) (relation : string) (c : PgApplyConn (D := D)) (d1 : D) (cols : list string) : Prop :=
  match kind with
  | WUpdate => d1 = client c /\ update_set_columns update_assignments (forward_sql c) = Ok cols
  | WDelete => query_text (client c) SQL_ALL_COLUMNS [SqlText (split_relation relation).1; SqlText (split_relation relation).2] =
                 (d1, Ok cols)
  end.

(** The query that locks and reads the rows a write will touch. *)
Definition locking_read (sel : list string) (relation where_clause : string) : string :=
  "SELECT " +:+ String.concat ", " (map (fun c => dq +:+ c +:+ dq) sel) +:+ " FROM " +:+ relation +:+ " WHERE " +:+ where_clause +:+
  " ORDER BY id FOR UPDATE".


(** ** A revert statement binds the captured values *)

(** What a placeholder stands for, given the parameters of the statement. *)
Inductive denotes (owned : list SqlVal) : string -> PkValue -> Prop :=
| denotes_null : denotes owned "NULL" Null
| denotes_int k i : owned !! k = Some (SqlInt i) -> denotes owned ("$" +:+ pretty (S k) +:+ "::int8") (Int i)
| denotes_text k t : owned !! k = Some (SqlText t) -> denotes owned ("$" +:+ pretty (S k)) (Text t)
| denotes_bytes k b : owned !! k = Some (SqlBytes b) -> denotes owned ("$" +:+ pretty (S k)) (Bytes b).

Lemma denotes_mono owned more ph v : denotes owned ph v -> denotes (owned ++ more) ph v.
Proof. intros []; constructor; by apply lookup_app_l_Some. Qed.

Lemma bind_push_denotes owned v :
  let '(owned', ph) := bind_push owned (to_sqlval v) in
  owned' = owned ++ Predicate.list_of (to_sqlval v) /\ denotes owned' ph v.
Proof.
  assert (forall x, (owned ++ [x]) !! length owned = Some x) as Hx by (intros x; by rewrite list_lookup_middle).
  destruct v; simpl; rewrite ?app_nil_r; (split; [done|]); rewrite ?length_app, ?Nat.add_1_r; try constructor; apply Hx.
Qed.

Lemma bind_all_denotes owned vals :
  let '(owned', phs) := bind_all owned vals in
  owned' = owned ++ omap to_sqlval vals /\ Forall2 (denotes owned') phs vals.
Proof.
  revert owned. induction vals as [|v vals IH]; intros owned; simpl; [by rewrite app_nil_r|].
  pose proof (bind_push_denotes owned v) as Hp. destruct (bind_push owned (to_sqlval v)) as [o1 ph]. destruct Hp as [-> Hd].
  specialize (IH (owned ++ Predicate.list_of (to_sqlval v))). destruct (bind_all _ vals) as [o2 phs]. destruct IH as [-> Hf].
  split; [|constructor; [|done]; by apply denotes_mono].
  rewrite <- app_assoc. f_equal. by destruct (to_sqlval v).
Qed.

(** Restoring an updated row issues one statement, which sets exactly the captured
    columns but the key, each to the value captured for it, where the key is the row's:
    the placeholders name the parameters in step, a NULL being written as itself. *)
Theorem restore_update_is_exact {D : Type} `{Client D} (debug_str : string -> string)
    (relation : string) (row : RevertRow) (c : PgRevertConn) (i : Z) (cols : list (string * PkValue)) :
  pk_int debug_str row = Ok i ->
  cols = List.filter (fun cv => negb (bool_decide (cv.1 = "id"%string))) (rr_before_image row) -> cols <> [] ->
  exists owned phs id_ph,
    restore_update_row debug_str relation row c =
      on_revert_db (fun d => execute d (update_sql relation cols.*1 phs id_ph) owned) c /\
    Forall2 (denotes owned) phs cols.*2 /\ denotes owned id_ph (Int i) /\
    owned = omap to_sqlval cols.*2 ++ [SqlInt i].
Proof.
  intros Hi Hcols Hne. unfold restore_update_row, run_bind, run_lift. rewrite Hi, <- Hcols.
  destruct cols as [|cv cols]; [done|]. pose proof (bind_all_denotes [] (cv :: cols).*2) as Hb.
  destruct (bind_all [] (cv :: cols).*2) as [owned phs]. destruct Hb as [Ho Hf]. rewrite app_nil_l in Ho.
  pose proof (bind_push_denotes owned (Int i)) as Hp. change (to_sqlval (Int i)) with (Some (SqlInt i)) in Hp.
  destruct (bind_push owned (Some (SqlInt i))) as [o2 id_ph]. destruct Hp as [-> Hd]. simpl Predicate.list_of in *.
  exists (owned ++ [SqlInt i]), phs, id_ph. split; [done|]. split; [|split; [done|by rewrite Ho]].
  eapply Forall2_impl; [exact Hf|]. intros ph v. apply denotes_mono.
Qed.

(** ** The apply connection keeps the contract of the engine *)

Abbreviation Stats := (gmap string (Z * Z * Z)).

(** A server session as the apply connection uses it.  [log] holds the committed
    transactions: the statistics when each began and when it committed, and the integer
    last answered in it (the WAL distance asked for).  [txn] is the open transaction, as
    the statistics at its start; [sound] says that it is not aborted, which an answered
    query shows.  The catalog reads, the restore point and the measurements change none
    of the three; a SELECT, or a statement that is [dml] with a RETURNING clause, run inside
    the transaction publishes nothing and does not end it. *)
Class ServerLaws (dml : string -> Prop) (D : Type) `{Client D} : Type := {
  log : D -> list (Stats * Stats * Z);
  stats : D -> Stats;
  txn : D -> option Stats;
  sound : D -> bool;
  last_int : D -> Z;
  same (d d' : D) : Prop := log d' = log d /\ stats d' = stats d /\ txn d' = txn d;
  text_same d sql ps d' r : sql = SQL_PK_COLUMNS \/ sql = SQL_ALL_COLUMNS -> query_text d sql ps = (d', r) ->
    same d d' /\ (is_ok r = true -> sound d' = true);
  one_text_same d sql ps d' r : sql = SQL_RESTORE_POINT \/ sql = SQL_WAL_INSERT_LSN -> query_one_text d sql ps = (d', r) ->
    same d d' /\ (is_ok r = true -> sound d' = true);
  stats_same d d' r : query_stats d SQL_XACT_STATS [] = (d', r) ->
    same d d' /\ forall rows, r = Ok rows -> sound d' = true /\ foldl (fun m '(rel, c) => <[rel := c]> m) ∅ rows = stats d;
  int_same d after before d' r : query_one_int d (SQL_WAL_DIFF after before) [] = (d', r) ->
    same d d' /\ forall n, r = Ok n -> sound d' = true /\ last_int d' = n;
  images_inside d sql d' r start : txn d = Some start ->
    (exists rest, sql = "SELECT " +:+ rest) \/ (exists statement, dml statement /\ sql = statement +:+ " RETURNING id") ->
    query_images d sql [] = (d', r) ->
    log d' = log d /\ (is_ok r = true -> txn d' = Some start /\ sound d' = true);
  begin_opens_txn d t d' r : txn d = None -> batch_execute d (begin_sql t) = (d', r) ->
    log d' = log d /\ (r = Ok tt -> txn d' = Some (stats d'));
  commit_logs d start d' r : txn d = Some start -> sound d = true -> batch_execute d "COMMIT" = (d', r) ->
    match r with
    | Ok _ => log d' = log d ++ [(start, stats d, last_int d)]
    | Err _ => log d' = log d \/ log d' = log d ++ [(start, stats d, last_int d)]
    end;
  rollback_logs_nothing d : log (batch_execute d "ROLLBACK").1 = log d
}.

Section contract.
Context {dml : string -> Prop} {D : Type} `{ServerLaws dml D}.
Context (update_assignments : string -> result string (option (list AssignmentTarget))) (wrong_type : ImageCell -> string).

Definition pg_committed (c : PgApplyConn) : list (list RelationChange * Z) :=
  map (fun '(before, after, n) => (stat_deltas before after, Z.max n 0)) (log (client c)).
Definition pg_pending (c : PgApplyConn) : list RelationChange := stat_deltas (xact_baseline c) (stats (client c)).
Definition in_sound_txn (c : PgApplyConn) : Prop := txn (client c) = Some (xact_baseline c) /\ sound (client c) = true.
Definition pg_applying (c : PgApplyConn) : Prop := in_sound_txn c /\ dml (forward_sql c).

(** A step of the forward write: it publishes nothing, and keeps the transaction sound
    when it succeeds. *)
Definition steps {A} (m : Run PgApplyConn ApplyError A) : Prop :=
  forall c c' r, in_sound_txn c -> m c = (c', r) -> log (client c') = log (client c) /\ (is_ok r = true -> in_sound_txn c').

Lemma steps_bind {A B} (m : Run PgApplyConn ApplyError A) (k : A -> Run PgApplyConn ApplyError B) :
  steps m -> (forall a, steps (k a)) -> steps (run_bind m k).
Proof.
  intros Hm Hk c c' r Ha. unfold run_bind. destruct (m c) as [c1 [a|e]] eqn:E.
  - destruct (Hm _ _ _ Ha E) as [Hl Ha1]. intros E'. destruct (Hk a _ _ _ (Ha1 eq_refl) E') as [Hl' Ha2].
    split; [congruence|done].
  - intros [= <- <-]. by destruct (Hm _ _ _ Ha E).
Qed.
Lemma steps_pure {A} (f : PgApplyConn -> result ApplyError A) : steps (fun c => (c, f c)).
Proof. intros c c' r Ha [= <- <-]. done. Qed.

Lemma forward_steps kind relation c c' r :
  pg_applying c -> pg_apply_forward update_assignments wrong_type kind relation c = (c', r) ->
  log (client c') = log (client c) /\ (is_ok r = true -> in_sound_txn c').
Proof.
  intros [Hin Hdml]. revert c c' r Hin Hdml. unfold pg_apply_forward, read, run_lift, run_ret. intros c c' r Hin Hdml.
  unfold run_bind at 1. cbv beta iota. revert Hdml. generalize (forward_sql c). intros forward Hdml. revert c c' r Hin.
  apply steps_bind.
  { destruct kind; [apply steps_pure|]. unfold all_columns. destruct (split_relation relation) as [sc tb].
    intros c c' r [Ht Hs]. unfold on_db. destruct (query_text _ _ _) as [d1 r1] eqn:Eq. intros [= <- <-].
    apply text_same in Eq as [(Hl & _ & Htx) Hok]; [|by right]. cbn [client set_client xact_baseline]. split; [done|].
    intros Hr. split; [cbn [client set_client xact_baseline]; congruence|]. apply Hok. by destruct r1. }
  intros cols. apply steps_bind; [apply steps_pure|intros wh]. apply steps_bind; [apply steps_pure|intros tm].
  assert (forall sql, (exists rest, sql = "SELECT " +:+ rest) \/ (exists statement, dml statement /\ sql = statement +:+ " RETURNING id") ->
            steps (on_db (classify_apply tm) (fun d => query_images d sql []))) as Hq.
  { intros sql Hsql c c' r [Ht Hs]. unfold on_db. destruct (query_images _ _ _) as [d1 r1] eqn:Eq. intros [= <- <-].
    apply (images_inside _ _ _ _ _ Ht Hsql) in Eq as [Hl Hok]. split; [done|]. intros Hr. apply Hok. by destruct r1. }
  apply steps_bind; [apply Hq; left; by eexists|intros rows]. apply steps_bind; [apply steps_pure|intros pre].
  apply steps_bind; [apply Hq; right; by eexists|intros ret]. apply steps_bind; [apply steps_pure|intros wr]. apply steps_pure.
Qed.

(** No call touches the statement of the connection. *)
Definition keeps_sql {A} (m : Run (PgApplyConn (D:=D)) ApplyError A) : Prop := forall c, forward_sql (m c).1 = forward_sql c.

Lemma keeps_sql_bind {A B} (m : Run PgApplyConn ApplyError A) (k : A -> Run PgApplyConn ApplyError B) :
  keeps_sql m -> (forall a, keeps_sql (k a)) -> keeps_sql (run_bind m k).
Proof. intros Hm Hk c. unfold run_bind. specialize (Hm c). destruct (m c) as [c1 [a|e]]; simpl in *; [|done]. by rewrite Hk. Qed.

Ltac keeps_sql_tac :=
  repeat first
    [ apply keeps_sql_bind; [|intros ?]
    | intros c; unfold on_db; match goal with |- context [let '(_, _) := ?x in _] => by destruct x end
    | (intros ?; reflexivity)
    | case_match ].

Lemma begin_keeps_sql t : keeps_sql (pg_begin t).
Proof. unfold pg_begin, read_xact_raw, read, modify, run_ret. keeps_sql_tac. Qed.
Lemma forward_keeps_sql kind relation : keeps_sql (pg_apply_forward update_assignments wrong_type kind relation).
Proof. unfold pg_apply_forward, all_columns, read, run_lift, run_ret. keeps_sql_tac. Qed.
Lemma deltas_keep_sql : keeps_sql pg_xact_tuple_deltas.
Proof. unfold pg_xact_tuple_deltas, read_xact_raw, read, run_ret. keeps_sql_tac. Qed.
Lemma wal_keeps_sql : keeps_sql pg_xact_wal_bytes.
Proof. unfold pg_xact_wal_bytes, read, run_lift, run_ret. keeps_sql_tac. Qed.

Lemma read_stats_spec c c' r :
  read_xact_raw c = (c', r) ->
  same (client c) (client c') /\ xact_baseline c' = xact_baseline c /\ wal_baseline_lsn c' = wal_baseline_lsn c /\
  forall m, r = Ok m -> sound (client c') = true /\ m = stats (client c).
Proof.
  unfold read_xact_raw, run_bind, read, on_db, run_ret. destruct (query_stats _ _ _) as [d1 r1] eqn:Eq.
  apply stats_same in Eq as [Hs Hok].
  destruct r1 as [rows|e]; simpl; intros [= <- <-]; (split; [done|]; split; [done|]; split; [done|]); [|done].
  intros m [= <-]. by apply Hok.
Qed.

Lemma begin_spec t c c' r :
  txn (client c) = None -> pg_begin t c = (c', r) -> log (client c') = log (client c) /\ (r = Ok tt -> in_sound_txn c').
Proof.
  intros Hr. unfold pg_begin, run_bind, on_db, modify.
  destruct (batch_execute _ _) as [d1 rb] eqn:Eb. apply (begin_opens_txn _ _ _ _ Hr) in Eb as [Hl Ht].
  destruct rb as [[]|e]; simpl; [|intros [= <- <-]; done]. specialize (Ht eq_refl).
  match goal with |- context [read_xact_raw ?x] => destruct (read_xact_raw x) as [c1 r1] eqn:Er end.
  apply read_stats_spec in Er as ((Hl1 & Hs1 & Ht1) & _ & _ & Hm). simpl in *.
  destruct r1 as [m|e]; [|intros [= <- <-]; split; [congruence|done]]. destruct (Hm m eq_refl) as [_ ->].
  destruct (query_one_text _ _ _) as [d2 r2] eqn:E2. apply one_text_same in E2 as [(Hl2 & Hs2 & Ht2) Hok]; [|by right].
  destruct r2 as [lsn|e]; simpl; intros [= <- <-]; cbn [client set_client set_wal_baseline set_xact_baseline xact_baseline] in *;
    (split; [congruence|]); [|done].
  intros _. split; [|by apply Hok]. cbn [client set_client set_wal_baseline set_xact_baseline xact_baseline]. congruence.
Qed.

Lemma deltas_spec c c' r :
  in_sound_txn c -> pg_xact_tuple_deltas c = (c', r) ->
  log (client c') = log (client c) /\
  forall ds, r = Ok ds -> pg_pending c' = pg_pending c /\ in_sound_txn c' /\ ds = pg_pending c.
Proof.
  intros [Ht Hs]. unfold pg_xact_tuple_deltas, run_bind, read, run_ret.
  destruct (read_xact_raw c) as [c1 r1] eqn:Er. apply read_stats_spec in Er as ((Hl & Hst & Htx) & Hb & _ & Hm).
  destruct r1 as [m|e]; intros [= <- <-]; (split; [done|]); [|done]. intros ds [= <-].
  destruct (Hm m eq_refl) as [Hs1 ->]. unfold pg_pending, in_sound_txn. rewrite Hb, Hst, Htx. done.
Qed.

Lemma wal_spec c c' r :
  in_sound_txn c -> pg_xact_wal_bytes c = (c', r) ->
  log (client c') = log (client c) /\
  forall n, r = Ok n -> pg_pending c' = pg_pending c /\ in_sound_txn c' /\ n = Z.max (last_int (client c')) 0.
Proof.
  intros [Ht Hs]. unfold pg_xact_wal_bytes, run_bind, read, run_lift, run_ret, on_db.
  destruct (wal_baseline_lsn c) as [before|]; [|by intros [= <- <-]].
  destruct (query_one_text _ _ _) as [d1 r1] eqn:E1. apply one_text_same in E1 as [(Hl1 & Hs1 & Ht1) _]; [|by right].
  destruct r1 as [after|e]; simpl; [|by intros [= <- <-]].
  destruct (query_one_int _ _ _) as [d2 r2] eqn:E2. apply int_same in E2 as [(Hl2 & Hs2 & Ht2) Hn].
  destruct r2 as [n|e]; simpl; intros [= <- <-]; (split; [simpl; congruence|]); [|done]. intros n' [= <-].
  destruct (Hn n eq_refl) as [Hs' <-]. unfold pg_pending, in_sound_txn. simpl. split_and!; congruence.
Qed.

Lemma commit_spec c c' r :
  in_sound_txn c -> pg_commit c = (c', r) ->
  match r with
  | Ok _ => pg_committed c' = pg_committed c ++ [(pg_pending c, Z.max (last_int (client c)) 0)]
  | Err _ => pg_committed c' = pg_committed c \/
             pg_committed c' = pg_committed c ++ [(pg_pending c, Z.max (last_int (client c)) 0)]
  end.
Proof.
  intros [Ht Hs]. unfold pg_commit, run_bind, read, on_db, modify, pg_committed, pg_pending. simpl.
  destruct (batch_execute _ _) as [d1 r1] eqn:E. apply (commit_logs _ _ _ _ Ht Hs) in E.
  destruct r1 as [[]|e]; simpl; intros [= <- <-]; simpl.
  - by rewrite E, map_app.
  - destruct E as [->| ->]; [by left|right]. by rewrite map_app.
Qed.

(** The connection of the daemon discharges the contract the engine is proved against. *)
#[global, refine] Instance PgApplyConn_laws :
    ApplyConnLaws PgApplyConn (H := PgApplyConn_conn update_assignments wrong_type) := {|
  committed := pg_committed; pending := pg_pending; pending_wal c := Z.max (last_int (client c)) 0;
  ready c := txn (client c) = None /\ dml (forward_sql c); applying := pg_applying
|}.
Proof.
  - intros c l. simpl. unfold pg_create_restore_point, on_db. destruct (query_one_text _ _ _) as [d1 r1] eqn:E.
    apply one_text_same in E as [(Hl & _ & Ht) _]; [|by left]. unfold pg_committed. simpl. by rewrite Hl, Ht.
  - intros c t c' r [Hr Hd] Hb. destruct (begin_spec t c c' r Hr Hb) as [Hl Ha]. unfold pg_committed. rewrite Hl.
    split; [done|]. intros Hok. split; [by apply Ha|]. pose proof (begin_keeps_sql t c) as Hf.
    simpl in Hb. rewrite Hb in Hf. simpl in Hf. by rewrite Hf.
  - intros c rel. simpl. unfold apply_self_determined_pk_column. destruct (split_relation rel) as [sc tb].
    destruct (query_text _ _ _) as [d1 r1] eqn:E. apply text_same in E as [(Hl & _ & Ht) _]; [|by left].
    unfold pg_committed. simpl. by rewrite Hl, Ht.
  - intros c k rel cs c' r Ha Hf. destruct (forward_steps k rel c c' r Ha Hf) as [Hl Hok]. unfold pg_committed. rewrite Hl.
    split; [done|]. intros Hr. split; [by apply Hok|]. pose proof (forward_keeps_sql k rel c) as Hs.
    simpl in Hf. rewrite Hf in Hs. simpl in Hs. rewrite Hs. apply Ha.
  - intros c c' r [Ha Hm] Hd. destruct (deltas_spec c c' r Ha Hd) as [Hl Hds]. unfold pg_committed. rewrite Hl.
    split; [done|]. intros ds Hr. destruct (Hds ds Hr) as (H1 & H2 & H3). split_and!; [done| |done]. split; [done|].
    pose proof (deltas_keep_sql c) as Hs. simpl in Hd. rewrite Hd in Hs. simpl in Hs. by rewrite Hs.
  - intros c c' r [Ha Hm] Hd. destruct (wal_spec c c' r Ha Hd) as [Hl Hds]. unfold pg_committed. rewrite Hl.
    split; [done|]. intros n Hr. destruct (Hds n Hr) as (H1 & H2 & H3). split_and!; [done| |done]. split; [done|].
    pose proof (wal_keeps_sql c) as Hs. simpl in Hd. rewrite Hd in Hs. simpl in Hs. by rewrite Hs.
  - intros c c' [Ha _] Hc. exact (commit_spec c c' (Ok tt) Ha Hc).
  - intros c c' e [Ha _] Hc. exact (commit_spec c c' (Err e) Ha Hc).
  - intros c. simpl. unfold pg_rollback, run_bind, read, run_ret, on_db, modify, pg_committed. simpl.
    destruct (in_txn c); [|done]. pose proof (rollback_logs_nothing (client c)) as Hl.
    destruct (batch_execute _ _) as [d1 [[]|e]]; simpl in *; by rewrite Hl.
Defined.
End contract.

(** A [BEGIN] that succeeds and a baseline query that fails leave the transaction open:
    the connection says so, but the engine returns the error of [begin] without a
    rollback, and the connection built for the next apply does not know of it. *)
Lemma failed_begin_keeps_transaction {D : Type} `{Client D} (t : Z) (c : PgApplyConn) (d1 d2 : D) (e : PgError) :
  batch_execute (client c) (begin_sql t) = (d1, Ok tt) -> query_stats d1 SQL_XACT_STATS [] = (d2, Err e) ->
  exists c' err, pg_begin t c = (c', Err err) /\ client c' = d2 /\ in_txn c' = true /\
    forall fwd wh, pg_rollback (PgApplyConn_new (client c') fwd wh) = (PgApplyConn_new d2 fwd wh, Ok tt).
Proof.
  intros Hb Hs. unfold pg_begin, run_bind, on_db, modify, read_xact_raw, run_bind, read, on_db. rewrite Hb. simpl.
  rewrite Hs. simpl. do 2 eexists. by split_and!.
Qed.

(** ** A session to try them on *)

Module Demo.

(** One table of numbered rows: what is kept, and the open transaction's copy. *)
Record Db : Type := mkDb { kept : list Z; work : option (list Z) }.

Definition rows_of (d : Db) : list Z := default (kept d) (work d).
Definition wipe (d : Db) : Db := match work d with Some _ => mkDb (kept d) (Some []) | None => mkDb [] None end.

#[global] Instance Db_client : Client Db := {|
  query_text d sql _ :=
    (d, Ok (if bool_decide (sql = SQL_PK_TYPES) || bool_decide (sql = SQL_COLUMN_TYPE) then ["int4"]
            else if bool_decide (sql = SQL_PK_COLUMNS) then ["id"]
            else if bool_decide (sql = SQL_ALL_COLUMNS) then ["id"; "x"] else [])%string);
  query_pairs d _ _ := (d, Ok []);
  query_stats d _ _ := (d, Ok [("public.t"%string, (0, 0, Z.of_nat (length (kept d) - length (rows_of d))))]);
  query_keys d _ _ := (wipe d, Ok (map (fun i => [KInt4 i]) (rows_of d)));
  query_images d sql _ :=
    (d, Ok (map (fun i => mkColumn "id" (IInt4 (Some i)) None ::
                          if bool_decide (sql = "f RETURNING id"%string) then []
                          else [mkColumn "x" (IInt8 (Some (10 * i))) None]) (rows_of d)));
  query_one_text d _ _ := (d, Ok "0/1"%string);
  query_one_int d _ _ := (d, Ok 80);
  query_one_volatility d _ _ := (d, Ok (false, 1));
  execute d _ _ := (d, Ok 1);
  batch_execute d _ := (d, Ok tt);
  transaction d := (mkDb (kept d) (Some (kept d)), Ok tt);
  txn_rollback d := (mkDb (kept d) None, Ok tt);
  txn_drop d := mkDb (kept d) None
|}.

Definition demo_parse (_ : string) : result string (list Predicate.Statement) :=
  Ok [Predicate.Delete [Predicate.plain_table] false
        (Some (Predicate.Binary Predicate.BinaryOp (Predicate.column "id") Predicate.Value))].
(** Every statement of it stays in its transaction. *)
#[global, refine] Instance Db_laws : SessionLaws demo_parse Db := {|
  Persisted := list Z; persisted := kept; open_txn d := bool_decide (is_Some (work d)); confined _ := True
|}.
Proof.
  all: try (intros d sql ps _; reflexivity).
  all: try (intros d sql ps Ho; split; [reflexivity|exact Ho]).
  all: try (intros d ps Ho; split; [reflexivity|exact Ho]).
  all: try (intros d a b Ho; split; [reflexivity|exact Ho]).
  all: try (intros d a b Ho sql; intros; apply bool_decide_eq_true in Ho as [w Hw]; simpl; unfold wipe; rewrite Hw;
            (split; [done|]); apply bool_decide_eq_true; by eexists).
  - intros d d' r [= <- <-]. split; [done|]. intros _. apply bool_decide_eq_true. by eexists.
  - done.
  - done.
Defined.

Definition demo_backend : Rehearsal PgRehearsal :=
  PgRehearsal_rehearsal (D := Db) demo_parse (fun _ => None) (fun _ => "id = 7"%string) (fun _ => Ok None)
    (fun _ => "aa"%string) (fun s => s) (fun _ => 0).
Definition demo_dry_run :=
  DryRun.dry_run (H := demo_backend) demo_parse Predicate.below Text.to_ascii_lowercase
    (Proposal.mkProposal "p-1" "DELETE FROM t WHERE id = 7" None 0 0 1000) (PgRehearsal_new (mkDb [7; 9] None)) (starting_at 5).


Definition demo_conn : PgApplyConn := PgApplyConn_new (mkDb [7] None) "f" "id = 7".
Definition demo_set (_ : string) : result string (option (list AssignmentTarget)) := Ok (Some [ColumnName ["x"%string]]).
Definition demo_forward : ForwardResult :=
  with_written_columns (forward_new [mkCaptured (tuple_single (Int 7)) [("id", Int 7); ("x", Int 70)]%string]) ["x"%string].


(** A row whose captured columns are a number and a NULL. *)
Definition demo_row : RevertRow := mkRevertRow (tuple_single (Int 7)) [("id", Int 7); ("x", Int 70); ("y", Null)]%string.

Lemma restore_update_is_exact_witness :
  exists owned phs id_ph,
    restore_update_row (fun s => s) "public.t" demo_row (PgRevertConn_new (mkDb [7] None)) =
      on_revert_db (fun d => execute d (update_sql "public.t" ["x"; "y"]%string phs id_ph) owned) (PgRevertConn_new (mkDb [7] None)) /\
    Forall2 (denotes owned) phs [Int 70; Null] /\ denotes owned id_ph (Int 7) /\ owned = [SqlInt 70; SqlInt 7].
Proof.
  apply (restore_update_is_exact (fun s => s) "public.t" demo_row (PgRevertConn_new (mkDb [7] None)) 7
           [("x", Int 70); ("y", Null)]%string); [reflexivity|reflexivity|discriminate].
Defined.

(** A server with one table of one row, that keeps its statistics, its open transaction
    and its log of commits; the forward statement deletes the row. *)
Record Srv : Type := mkSrv {
  srv_log : list (Stats * Stats * Z);
  srv_stats : list (string * (Z * Z * Z));
  srv_txn : option Stats;
  srv_last : Z
}.

Definition srv_stats_map (d : Srv) : Stats := foldl (fun m '(rel, c) => <[rel := c]> m) ∅ (srv_stats d).

#[global] Instance Srv_client : Client Srv := {|
  query_text d sql _ :=
    (d, Ok (if bool_decide (sql = SQL_PK_TYPES) || bool_decide (sql = SQL_COLUMN_TYPE) then ["int4"]
            else if bool_decide (sql = SQL_PK_COLUMNS) then ["id"]
            else if bool_decide (sql = SQL_ALL_COLUMNS) then ["id"; "x"] else [])%string);
  query_pairs d _ _ := (d, Ok []);
  query_stats d _ _ := (d, Ok (srv_stats d));
  query_keys d _ _ := (d, Ok [[KInt4 7]]);
  query_images d sql _ :=
    (if Text.contains (as_bytes "RETURNING") (as_bytes sql)
     then mkSrv (srv_log d) [("public.t"%string, (0, 0, 1))] (srv_txn d) (srv_last d) else d,
     Ok [[mkColumn "id" (IInt4 (Some 7)) None; mkColumn "x" (IInt8 (Some 70)) None]]);
  query_one_text d _ _ := (d, Ok "0/1"%string);
  query_one_int d _ _ := (mkSrv (srv_log d) (srv_stats d) (srv_txn d) 80, Ok 80);
  query_one_volatility d _ _ := (d, Ok (false, 1));
  execute d _ _ := (d, Ok 1);
  batch_execute d sql :=
    (if bool_decide (sql = "COMMIT"%string) then
       match srv_txn d with
       | Some start => mkSrv (srv_log d ++ [(start, srv_stats_map d, srv_last d)]) (srv_stats d) None (srv_last d)
       | None => d
       end
     else if bool_decide (sql = "ROLLBACK"%string) then mkSrv (srv_log d) (srv_stats d) None (srv_last d)
     else mkSrv (srv_log d) (srv_stats d) (Some (srv_stats_map d)) (srv_last d), Ok tt);
  transaction d := (d, Ok tt);
  txn_rollback d := (d, Ok tt);
  txn_drop d := d
|}.

#[global, refine] Instance Srv_laws dml : ServerLaws dml Srv := {|
  log := srv_log; stats := srv_stats_map; txn := srv_txn; sound _ := true; last_int := srv_last
|}.
Proof.
  - by intros d sql ps d' r _ [= <- <-].
  - by intros d sql ps d' r _ [= <- <-].
  - intros d d' r [= <- <-]. split; [done|]. by intros rows [= <-].
  - intros d a b d' r [= <- <-]. split; [done|]. by intros n [= <-].
  - intros d sql d' r start Ht _ [= <- <-]. destruct (Text.contains _ _); simpl; auto.
  - intros d t d' r _ [= <- <-]. done.
  - intros d start d' r Ht _ [= <- <-]. simpl. by rewrite Ht.
  - done.
Defined.
End Demo.
End Conn.
