(* ===== verification/Messages.v ===== *)
(** * Messages: the [Display] forms of the errors the write path reports

    The [#[error]] texts of [policy/src/grant.rs], [core/src/inverse.rs],
    [clone-orchestrator/src/predicate.rs], [apply.rs] and [apply_grant.rs], and
    [audit/src/sink.rs] (with the derived [Debug] form of a chain break).  They end up in
    audit records and in the answers of the apply service.  The [Debug] form of a string
    is the parameter [debug_str] of [Apply]. *)

From Stdlib Require Import SpecFloat.
From stdpp Require Import pretty.
From S2P Require Import Prelude Text PkChecksum Inverse BlastRadius Policy Predicate DryRun Apply Grant GrantedApply AuditChain AuditSink.

Module Messages.

Definition RefusedOp_fmt (r : Inverse.RefusedOp) : string :=
  match r with
  | Inverse.RefTruncate => "refused: TRUNCATE is outside the certified action set"
  | Inverse.RefDrop => "refused: DROP is outside the certified action set"
  | Inverse.RefAlter => "refused: ALTER is outside the certified action set"
  | Inverse.VolatileDefaultInsert => "refused: INSERT with a volatile default is outside the certified action set"
  | Inverse.DeleteWithoutPreimage => "refused: DELETE without a captured pre-image cannot be reversed"
  | Inverse.PkLessTable => "refused: write to a PK-less / no-replica-identity table"
  | Inverse.NotCertified o => "refused: operation `" +:+ o +:+ "` is not in the certified action set (default-deny)"
  end.

Definition NotSelfDetermined_fmt (r : Predicate.NotSelfDetermined) : string :=
  match r with
  | Predicate.NonPkColumn pk_col referenced =>
      "predicate references non-PK column `" +:+ referenced +:+ "` (only the immutable primary-key column `" +:+
      pk_col +:+ "` + literals + immutable functions on it are self-determined; a mutable column is steerable to a chosen row)"
  | Predicate.HasSubquery =>
      "predicate contains a subquery / correlated reference / EXISTS / IN (SELECT …) (its row set is not pinned by the immutable primary key)"
  | Predicate.JoinCorrelation =>
      "statement joins a second relation into the target (UPDATE … FROM / DELETE … USING / a JOIN on the target) — the affected row set is determined by the joined table's content, which is steerable, so it is not pinned by the immutable primary key"
  | Predicate.NonImmutable reason => "predicate is not immutable: " +:+ Predicate.VolatileReason_fmt reason
  | Predicate.Unclassifiable => "predicate could not be classified as self-determined (fail-closed)"
  end.

Definition GrantError_fmt (e : Grant.GrantError) : string :=
  match e with
  | Grant.MalformedSignature => "malformed signature encoding"
  | Grant.BadSignature => "signature does not verify"
  | Grant.BindingMismatch => "grant binding mismatch: the live request differs from what was approved"
  | Grant.ReplayedNonce => "grant nonce already used (single-use violated)"
  | Grant.Expired now expiry =>
      "grant expired (now=" +:+ pretty now +:+ "ms >= expiry=" +:+ pretty expiry +:+ "ms)"
  end.

Section debug.
Context (debug_str : string -> string).
Import Apply BlastRadius.

Definition CapKind_str (k : CapKind) : string := match k with CapRows => "rows" | CapWalBytes => "wal_bytes" end.
Definition Channel_str (c : Channel) : string := match c with ChIns => "ins" | ChUpd => "upd" | ChDel => "del" end.

(** [{:?}] of a [Vec<String>]. *)
Definition debug_strings (l : list string) : string := "[" +:+ String.concat ", " (map debug_str l) +:+ "]".

Definition counts_str (c : OpCounts) : string :=
  "(ins=" +:+ pretty (ins c) +:+ " upd=" +:+ pretty (upd c) +:+ " del=" +:+ pretty (del c) +:+ ")".

Definition ApplyError_fmt (e : ApplyError) : string :=
  match e with
  | ARefused op => "REFUSED: " +:+ RefusedOp_fmt op
  | CapExceeded relation kind cap actual =>
      "GUARD ABORT (cap exceeded on `" +:+ relation +:+ "` [" +:+ CapKind_str kind +:+ "]): the live write's " +:+
      CapKind_str kind +:+ " (" +:+ pretty actual +:+ ") exceeds the approved cap (" +:+ pretty cap +:+ ")"
  | UnpredictedRelationWrite relation changed i u d =>
      "GUARD ABORT (unpredicted-relation write on `" +:+ relation +:+ "`): " +:+ pretty changed +:+
      " tuples changed (ins=" +:+ pretty i +:+ " upd=" +:+ pretty u +:+ " del=" +:+ pretty d +:+
      ") but the relation is not in the dry-run blast radius"
  | RelationOverWrite relation channel predicted actual =>
      "GUARD ABORT (relation `" +:+ relation +:+ "` changed more than predicted on the `" +:+ Channel_str channel +:+
      "` channel): predicted=" +:+ counts_str predicted +:+ " actual=" +:+ counts_str actual
  | IrreversibleChange relation detail =>
      "GUARD ABORT (irreversible change on `" +:+ relation +:+ "`): " +:+ detail
  | UncapturedColumn relation pk missing =>
      "GUARD ABORT (uncaptured written column on `" +:+ relation +:+ "` pk=" +:+ pk +:+
      "): the write mutated column(s) " +:+ debug_strings missing +:+
      " but the typed-inverse captured no pre-image for them — the change is not reversible"
  | MissingPreImage relation pk =>
      "GUARD ABORT (missing pre-image on `" +:+ relation +:+ "` pk=" +:+ pk +:+
      "): the forward op wrote a row with no captured FOR UPDATE pre-image (a row committed INTO the predicate after the pre-image snapshot) — its change cannot be reversibly restored"
  | SerializationFailure =>
      "APPLY SERIALIZATION FAILURE (40001): the REPEATABLE READ apply txn could not serialize against a concurrent transaction — aborted, nothing committed (NOT retried: a retry would burn the single-use grant + re-open the TOCTOU)"
  | Timeout timeout_ms =>
      "APPLY TIMEOUT: apply exceeded statement_timeout of " +:+ pretty timeout_ms +:+ "ms — aborted, nothing committed"
  | InvalidGrant what => "INVALID GRANT: " +:+ what
  | ABackend what => "apply backend failed: " +:+ what
  end.

(** The derived [Debug] of [ChainBreak]. *)
Definition ChainBreak_debug (b : AuditChain.ChainBreak) : string :=
  match b with
  | AuditChain.BadGenesis i found =>
      "BadGenesis { index: " +:+ pretty i +:+ ", found_prev_hash: " +:+ debug_str found +:+ " }"
  | AuditChain.HashMismatch i q stored recomputed =>
      "HashMismatch { index: " +:+ pretty i +:+ ", seq: " +:+ pretty q +:+ ", stored_hash: " +:+ debug_str stored +:+
      ", recomputed_hash: " +:+ debug_str recomputed +:+ " }"
  | AuditChain.BrokenLink i q expected actual =>
      "BrokenLink { index: " +:+ pretty i +:+ ", seq: " +:+ pretty q +:+ ", expected_prev_hash: " +:+
      debug_str expected +:+ ", actual_prev_hash: " +:+ debug_str actual +:+ " }"
  | AuditChain.SeqGap i expected found =>
      "SeqGap { index: " +:+ pretty i +:+ ", expected_seq: " +:+ pretty expected +:+ ", found_seq: " +:+
      pretty found +:+ " }"
  end.

Definition SinkError_fmt (e : AuditSink.SinkError) : string :=
  match e with
  | AuditSink.Backend m => "audit sink backend error: " +:+ m
  | AuditSink.Integrity b => "audit chain integrity broken: " +:+ ChainBreak_debug b
  end.
End debug.
End Messages.
