(* ===== verification/Approval.v ===== *)
(** * Approval: the approval flow

    Models the library half of [src/crates/cli]: the request store ([request.rs], Module
    [Request]), the principal gate ([principal.rs], Module [Authority]), the elevation
    gate ([refuse.rs]) and the webhook ([webhook.rs], Module [Webhook]), and the flow that
    joins them and audits every step ([flow.rs], Module [Flow]).

    The flow's audit handle is a clone of a shared sink, so the sink's state is not a
    field of the flow: each operation takes it and returns it, and the apply service
    passes the same state to its own appends.  Parameters: the hash, the signature scheme
    and the hexadecimal codec ([Grant]), [serde_json] for the webhook body, and the TCP
    exchange. *)

From Stdlib Require Import SpecFloat.
From stdpp Require Import pretty.
From S2P Require Import Prelude Text Config Inverse Session BlastRadius Policy Grant AuditChain AuditSink Messages.

(** ** The request store *)

Module Request.
Import Clock BlastRadius(WriteCap).

(** [RequestId], a newtype over a string. *)
Abbreviation RequestId := string (only parsing).

Record Proposal : Type := mkProposal {
  proposal_id : string;
  statement_text : string;
  normalized_params : list string;
  role : string;
  session_id : string;
  dry_run_lsn : string;
  cap : WriteCap
}.

Definition to_binding (p : Proposal) (nonce : string) (expiry_unix_millis : Z) : Grant.GrantBinding :=
  Grant.mkBinding (statement_text p) (normalized_params p) (role p) (session_id p) (proposal_id p) (dry_run_lsn p)
    (cap p) nonce expiry_unix_millis.

Definition with_cap (p : Proposal) (c : WriteCap) : Proposal :=
  mkProposal (proposal_id p) (statement_text p) (normalized_params p) (role p) (session_id p) (dry_run_lsn p) c.

Inductive RequestStatus : Type := Pending | Approved | Denied.

#[global] Instance RequestStatus_eq_dec : EqDecision RequestStatus.
Proof. solve_decision. Defined.

Record ApprovalRequest : Type := mkRequest {
  id : RequestId;
  proposal : Proposal;
  requester_id : string;
  created_unix_millis : Z;
  ttl_millis : Z;
  status : RequestStatus
}.

Definition expires_at (r : ApprovalRequest) : Z := sat_add (created_unix_millis r) (ttl_millis r).
Definition is_expired (r : ApprovalRequest) (now_unix_millis : Z) : bool := expires_at r <=? now_unix_millis.

Record ApprovalRequired : Type := mkRequired {
  code : string;
  request_id : RequestId;
  expires_at_unix_millis : Z;
  remedy : string
}.

Definition APPROVAL_REQUIRED_CODE : string := "APPROVAL_REQUIRED".

Inductive RequestError : Type :=
| DuplicateId (id : string)
| UnknownId (id : string)
| NotPending (id : string)
| Expired (id : string) (expires_at now : Z).

Definition RequestError_fmt (e : RequestError) : string :=
  match e with
  | DuplicateId i => "duplicate request id: `" +:+ i +:+ "`"
  | UnknownId i => "unknown request id: `" +:+ i +:+ "`"
  | NotPending i => "request `" +:+ i +:+ "` is not pending (already resolved)"
  | Expired i expires now =>
      "request `" +:+ i +:+ "` expired at " +:+ pretty expires +:+ "ms (now=" +:+ pretty now +:+ "ms)"
  end.

(** [ApprovalStore], the map of its requests. *)
Abbreviation ApprovalStore := (gmap string ApprovalRequest).

Definition store_new : ApprovalStore := ∅.

Definition store_request_elevation {C} `{Clock C} (s : ApprovalStore) (i : RequestId) (p : Proposal) (requester : string)
    (ttl : Z) (clock : C) : ApprovalStore * result RequestError ApprovalRequired :=
  match s !! i with
  | Some _ => (s, Err (DuplicateId i))
  | None =>
      let now := now_unix_millis clock in
      let request := mkRequest i p requester now ttl Pending in
      (<[i := request]> s,
       Ok (mkRequired APPROVAL_REQUIRED_CODE i (expires_at request)
             ("blocked: a human must approve. run `pgb-cli approve " +:+ i +:+
              "` before the request expires, then retry apply")))
  end.

Definition get (s : ApprovalStore) (i : RequestId) : option ApprovalRequest := s !! i.

Definition pending_for_approval {C} `{Clock C} (s : ApprovalStore) (i : RequestId) (clock : C) :
    result RequestError ApprovalRequest :=
  match s !! i with
  | None => Err (UnknownId i)
  | Some request =>
      if negb (bool_decide (status request = Pending)) then Err (NotPending i)
      else
        let now := now_unix_millis clock in
        if is_expired request now then Err (Expired i (expires_at request) now) else Ok request
  end.

Definition set_status (r : ApprovalRequest) (st : RequestStatus) : ApprovalRequest :=
  mkRequest (id r) (proposal r) (requester_id r) (created_unix_millis r) (ttl_millis r) st.

Definition resolve (s : ApprovalStore) (i : RequestId) (st : RequestStatus) :
    ApprovalStore * result RequestError unit :=
  match s !! i with
  | None => (s, Err (UnknownId i))
  | Some request =>
      if negb (bool_decide (status request = Pending)) then (s, Err (NotPending i))
      else (<[i := set_status request st]> s, Ok tt)
  end.
End Request.

(** ** The principal gate *)

Module Authority.

Inductive PrincipalKind : Type := Requester | Approver.

Record Principal : Type := mkPrincipal { id : string; kind : PrincipalKind }.

Definition requester (i : string) : Principal := mkPrincipal i Requester.
Definition approver (i : string) : Principal := mkPrincipal i Approver.

Definition can_approve (p : Principal) : bool := match kind p with Approver => true | Requester => false end.

Inductive AuthorityError : Type :=
| NotAnApprover (id : string)
| SelfApproval (id : string).

Definition AuthorityError_fmt (e : AuthorityError) : string :=
  match e with
  | NotAnApprover i => "not an approver: principal `" +:+ i +:+ "` may not authorize (only a human approver can)"
  | SelfApproval i =>
      "self-approval refused: approver `" +:+ i +:+
      "` is the same identity as the requester (the agent can never authorize itself)"
  end.

Definition authorize (p : Principal) (requester_id : string) : result AuthorityError unit :=
  if negb (can_approve p) then Err (NotAnApprover (id p))
  else if bool_decide (id p = requester_id) then Err (SelfApproval (id p))
  else Ok tt.

(** *** The elevation gate of [refuse.rs] *)

Inductive ElevationEligibility : Type :=
| Eligible (action : Inverse.CertifiedAction)
| Refused (op : Inverse.RefusedOp).

Definition is_eligible (e : ElevationEligibility) : bool := match e with Eligible _ => true | Refused _ => false end.

Definition REFUSED_CODE : string := "REFUSED".

Definition gate_for_elevation (op : Inverse.Operation) : ElevationEligibility :=
  match Inverse.certify op with
  | Ok action => Eligible action
  | Err refused => Refused refused
  end.
End Authority.

(** ** The webhook *)

Module Webhook.
Import Text Request.

Record WebhookPayload : Type := mkPayload {
  event : string;
  request_id : RequestId;
  requester_id : string;
  proposal : Proposal;
  expires_at_unix_millis : Z
}.

Definition WEBHOOK_EVENT : string := "approval_required".

Definition from_request (r : ApprovalRequest) : WebhookPayload :=
  mkPayload WEBHOOK_EVENT (Request.id r) (Request.requester_id r) (Request.proposal r) (expires_at r).

Inductive WebhookError : Type :=
| InvalidUrl (url : string)
| Transport (what : string)
| Status (code : Z).

(** The [WebhookSender] trait; a sender may record what it was given. *)
Class WebhookSender (W : Type) : Type := {
  send : W -> WebhookPayload -> W * result WebhookError unit
}.

Record HttpWebhookSender : Type := mkHttpSender { url : string; timeout_secs : Z }.

Definition http_new (url : string) : HttpWebhookSender := mkHttpSender url 5.
Definition with_timeout (s : HttpWebhookSender) (secs : Z) : HttpWebhookSender := mkHttpSender (url s) secs.

Record ParsedUrl : Type := mkUrl { host : string; port : Z; path : string }.

(** The text before and after the first occurrence of a byte; and the last one. *)
Fixpoint split_first (b : byte) (l : list byte) : option (list byte * list byte) :=
  match l with
  | [] => None
  | x :: l => if bool_decide (x = b) then Some ([], l)
              else match split_first b l with Some (a, c) => Some (x :: a, c) | None => None end
  end.
Definition split_last (b : byte) (l : list byte) : option (list byte * list byte) :=
  match split_first b (rev l) with Some (a, c) => Some (rev c, rev a) | None => None end.

Definition parse_http_url (url : string) : result WebhookError ParsedUrl :=
  let scheme := as_bytes "http://" in
  if negb (starts_with scheme (as_bytes url)) then Err (InvalidUrl url)
  else
    let rest := drop (length scheme) (as_bytes url) in
    let '(authority, path) := match split_first x2f rest with
                              | Some (a, p) => (a, x2f :: p)
                              | None => (rest, [x2f])
                              end in
    match authority with
    | [] => Err (InvalidUrl url)
    | _ =>
        let? (host, port) := match split_last x3a authority with
                             | Some (h, p) => let? port := Config.ok_or (InvalidUrl url) (Config.parse_u16 (of_bytes p)) in
                                              Ok (h, port)
                             | None => Ok (authority, 80)
                             end in
        match host with
        | [] => Err (InvalidUrl url)
        | _ => Ok (mkUrl (of_bytes host) port (of_bytes path))
        end
    end.

Definition crlf : list byte := [x0d; x0a].

(** The request text of [send]. *)
Definition http_request (u : ParsedUrl) (body : string) : list byte :=
  as_bytes ("POST " +:+ path u +:+ " HTTP/1.1") ++ crlf ++
  as_bytes ("Host: " +:+ host u) ++ crlf ++
  as_bytes "Content-Type: application/json" ++ crlf ++
  as_bytes ("Content-Length: " +:+ pretty (length (as_bytes body))) ++ crlf ++
  as_bytes "Connection: close" ++ crlf ++ crlf ++ as_bytes body.

(** [str::lines().next()]: nothing for the empty text, and a carriage return before the
    line feed is dropped. *)
Definition first_line (l : list byte) : option (list byte) :=
  match l with
  | [] => None
  | _ => match split_first x0a l with
         | Some (line, _) => Some (match rev line with x0d :: line' => rev line' | _ => line end)
         | None => Some l
         end
  end.

(** [str::split_whitespace]: the next word and what follows it. *)
Fixpoint word (fuel : nat) (l : list byte) : list byte * list byte :=
  match fuel, l with
  | S fuel, b :: l' => match strip_ws l with
                       | Some _ => ([], l)
                       | None => let '(w, r) := word fuel l' in (b :: w, r)
                       end
  | _, _ => ([], l)
  end.
Fixpoint words (fuel : nat) (l : list byte) : list (list byte) :=
  match fuel with
  | O => []
  | S fuel => match trim_start l with
              | [] => []
              | l => let '(w, r) := word (length l) l in w :: words fuel r
              end
  end.
Definition split_whitespace (l : list byte) : list (list byte) := words (S (length l)) l.

Section http.
Context (to_json : WebhookPayload -> string) (debug_str : string -> string).
(** The TCP exchange: connect, write the request, read to the end of the stream. *)
Context (exchange : string -> Z -> list byte -> result string string).

Definition parse_status_code (response : string) : result WebhookError Z :=
  match first_line (as_bytes response) with
  | None => Err (Transport "empty webhook response")
  | Some line =>
      match split_whitespace line !! 1%nat ≫= fun c => Config.parse_u16 (of_bytes c) with
      | Some code => Ok code
      | None => Err (Transport ("malformed webhook status line: " +:+ debug_str (of_bytes line)))
      end
  end.

Definition http_send (s : HttpWebhookSender) (payload : WebhookPayload) : result WebhookError unit :=
  let? parsed := parse_http_url (url s) in
  let body := to_json payload in
  let? response := result_map_err Transport (exchange (host parsed) (port parsed) (http_request parsed body)) in
  let? status := parse_status_code response in
  if (200 <=? status) && (status <? 300) then Ok tt else Err (Status status).

#[global] Instance HttpWebhookSender_sender : WebhookSender HttpWebhookSender := {|
  send s payload := (s, http_send s payload)
|}.
End http.

Record RecordingWebhookSender : Type := mkRecorder { sent : list WebhookPayload; fail : bool }.

Definition recording_new : RecordingWebhookSender := mkRecorder [] false.
Definition recording_failing : RecordingWebhookSender := mkRecorder [] true.

Definition recording_send (s : RecordingWebhookSender) (payload : WebhookPayload) :
    RecordingWebhookSender * result WebhookError unit :=
  (mkRecorder (sent s ++ [payload]) (fail s),
   if fail s then Err (Transport "configured to fail") else Ok tt).

#[global] Instance RecordingWebhookSender_sender : WebhookSender RecordingWebhookSender := {|
  send := recording_send
|}.

Example status_line_204 :
  parse_status_code (fun s => s) (of_bytes (as_bytes "HTTP/1.1 204 No Content" ++ crlf ++ crlf)) = Ok 204.
Proof. vm_compute. reflexivity. Qed.
Example url_with_port : parse_http_url "http://127.0.0.1:8080/hook" = Ok (mkUrl "127.0.0.1" 8080 "/hook").
Proof. vm_compute. reflexivity. Qed.
Example url_https_refused : parse_http_url "https://x/y" = Err (InvalidUrl "https://x/y").
Proof. vm_compute. reflexivity. Qed.
End Webhook.

(** ** The flow *)

Module Flow.
Import AuditChain(Decision, DAllow, DBlock, DReject, NewEntry, mkEntry, mkRefs).
Import AuditSink(Sink, sink_append, SinkError).
Import Clock Messages Webhook Authority Request.
Import Grant(GrantToken, GrantBinding, GrantError, NonceStore).

Record ElevationOutcome : Type := mkElevation { contract : ApprovalRequired; delivered : result WebhookError unit }.

Inductive ElevationError : Type :=
| ERefused (op : Inverse.RefusedOp)
| ERequest (e : RequestError).

Inductive ApproveError : Type :=
| AAuthority (e : AuthorityError)
| ARequest (e : RequestError).

(** The flow without its audit handle; the authority is stateless. *)
Record ApprovalFlow (W N VerifyingKey : Type) : Type := mkFlow {
  store : ApprovalStore;
  webhook : W;
  flow_verifying_key : VerifyingKey;
  nonces : N
}.
Arguments mkFlow {W N VerifyingKey}.
Arguments store {W N VerifyingKey}.
Arguments webhook {W N VerifyingKey}.
Arguments flow_verifying_key {W N VerifyingKey}.
Arguments nonces {W N VerifyingKey}.

Section flow.
Context (sha256 : list byte -> list byte) {SigningKey VerifyingKey Signature : Type}.
Context (key_sign : SigningKey -> list byte -> Signature) (signature_to_bytes : Signature -> list byte).
Context (verify_strict : VerifyingKey -> list byte -> Signature -> bool).
Context (signature_from_bytes : list byte -> Signature).
Context (hex_encode : list byte -> string) (hex_decode : string -> option (list byte)).
Context {S W N C : Type} `{Sink S, WebhookSender W, NonceStore N, Clock C}.

#[local] Abbreviation AFlow := (ApprovalFlow W N VerifyingKey).

Definition flow_new (hook : W) (vk : VerifyingKey) (ns : N) : AFlow := mkFlow store_new hook vk ns.

Definition set_store (f : AFlow) (s : ApprovalStore) : AFlow :=
  mkFlow s (webhook f) (flow_verifying_key f) (nonces f).
Definition set_webhook (f : AFlow) (h : W) : AFlow := mkFlow (store f) h (flow_verifying_key f) (nonces f).
Definition set_nonces (f : AFlow) (n : N) : AFlow := mkFlow (store f) (webhook f) (flow_verifying_key f) n.

Definition step_entry (statement_text : string) (decision : Decision) (reason_code : string) (reason : option string)
    (role : string) (session_id principal proposal_id : option string) : NewEntry :=
  mkEntry statement_text decision reason_code reason (AuditChain.mkPrincipal role session_id principal) Policy.intent_default
    (mkRefs proposal_id None).

(** The append's result is discarded. *)
Definition audit_step (audit : S) (statement_text : string) (decision : Decision) (reason_code : string)
    (reason : option string) (role : string) (session_id principal proposal_id : option string) (clock : C) : S :=
  (sink_append audit (step_entry statement_text decision reason_code reason role session_id principal proposal_id)
     (now_unix_millis clock)).1.

(** [None] is the panic of the [expect] on the request just stored. *)
Definition request_elevation (f : AFlow) (audit : S) (i : RequestId) (p : Proposal) (requester_id : string)
    (op : Inverse.Operation) (ttl : Z) (clock : C) : option (S * AFlow * result ElevationError ElevationOutcome) :=
  match gate_for_elevation op with
  | Refused refused =>
      let audit := audit_step audit (statement_text p) DReject "structural_op_refused" (Some (RefusedOp_fmt refused))
                     (role p) (Some (session_id p)) (Some requester_id) (Some (proposal_id p)) clock in
      Some (audit, f, Err (ERefused refused))
  | Eligible _ =>
      let '(st, recorded) := store_request_elevation (store f) i p requester_id ttl clock in
      let f := set_store f st in
      match recorded with
      | Err e => Some (audit, f, Err (ERequest e))
      | Ok contract =>
          let audit := audit_step audit (statement_text p) DBlock "approval_required"
                         (Some ("request " +:+ i +:+ " opened (ttl " +:+ pretty ttl +:+ "ms)"))
                         (role p) (Some (session_id p)) (Some requester_id) (Some (proposal_id p)) clock in
          request ← get (store f) i;
          let '(hook, delivered) := send (webhook f) (from_request request) in
          Some (audit, set_webhook f hook, Ok (mkElevation contract delivered))
      end
  end.

Definition approve (f : AFlow) (audit : S) (i : RequestId) (by_ : Principal) (signing_key : SigningKey) (nonce : string)
    (grant_ttl_millis : Z) (clock : C) : S * AFlow * result ApproveError GrantToken :=
  match pending_for_approval (store f) i clock with
  | Err e => (audit, f, Err (ARequest e))
  | Ok request =>
      let p := proposal request in
      match authorize by_ (requester_id request) with
      | Err err =>
          let audit := audit_step audit (statement_text p) DReject "self_approval_refused" (Some (AuthorityError_fmt err))
                         (role p) (Some (session_id p)) (Some (Authority.id by_)) (Some (proposal_id p)) clock in
          (audit, f, Err (AAuthority err))
      | Ok _ =>
          let expiry := sat_add (now_unix_millis clock) grant_ttl_millis in
          let b := to_binding p nonce expiry in
          let grant := Grant.sign sha256 key_sign signature_to_bytes hex_encode b signing_key in
          let '(st, resolved) := resolve (store f) i Approved in
          let f := set_store f st in
          match resolved with
          | Err e => (audit, f, Err (ARequest e))
          | Ok _ =>
              let audit := audit_step audit (statement_text p) DAllow "grant_signed"
                (Some ("approver `" +:+ Authority.id by_ +:+ "` signed grant for request " +:+ i +:+ "; cap(max_rows=" +:+
                       pretty (BlastRadius.max_rows (Grant.cap b)) +:+ ", max_wal_bytes=" +:+
                       pretty (BlastRadius.max_wal_bytes (Grant.cap b)) +:+ "); binding " +:+
                       Grant.binding_hash_hex sha256 hex_encode b))
                (role p) (Some (session_id p)) (Some (Authority.id by_)) (Some (proposal_id p)) clock in
              (audit, f, Ok grant)
          end
      end
  end.

Definition verify_at_apply (f : AFlow) (audit : S) (grant : GrantToken) (live : GrantBinding) (clock : C) :
    S * AFlow * result GrantError unit :=
  let '(ns, r) := Grant.verify_for_apply sha256 verify_strict signature_from_bytes hex_decode grant live
                    (flow_verifying_key f) (nonces f) clock in
  let f := set_nonces f ns in
  let '(decision, code, reason) :=
    match r with
    | Ok _ => (DAllow, "grant_verified"%string, "grant re-verified at apply (binding + nonce + expiry)"%string)
    | Err e => (DReject, "grant_rejected"%string, GrantError_fmt e)
    end in
  let audit := audit_step audit (Grant.statement_text live) decision code (Some reason) (Grant.role live)
                 (Some (Grant.session_id live)) None (Some (Grant.proposal_id live)) clock in
  (audit, f, r).
End flow.

(** ** Properties *)

Section spec.
Context (sha256 : list byte -> list byte) {SigningKey VerifyingKey Signature : Type}.
Context (key_sign : SigningKey -> list byte -> Signature) (signature_to_bytes : Signature -> list byte).
Context (hex_encode : list byte -> string).
Context {S W N C : Type} `{Sink S, WebhookSender W, Clock C}.

#[local] Abbreviation AFlow := (ApprovalFlow W N VerifyingKey).
#[local] Abbreviation approving := (approve sha256 key_sign signature_to_bytes hex_encode (S:=S) (W:=W) (N:=N) (VerifyingKey:=VerifyingKey)).

(** A request that its reader may sign: pending, in time, and opened by someone else. *)
Definition signable (f : AFlow) (i : RequestId) (by_ : Principal) (clock : C) (r : ApprovalRequest) : Prop :=
  store f !! i = Some r /\ status r = Pending /\ now_unix_millis clock < expires_at r /\
  kind by_ = Approver /\ Authority.id by_ <> requester_id r.

Definition grant_for (r : ApprovalRequest) (sk : SigningKey) (nonce : string) (ttl : Z) (clock : C) : GrantToken :=
  Grant.sign sha256 key_sign signature_to_bytes hex_encode
    (to_binding (proposal r) nonce (sat_add (now_unix_millis clock) ttl)) sk.

Lemma pending_ok (st : ApprovalStore) i (clock : C) r :
  pending_for_approval st i clock = Ok r <->
  st !! i = Some r /\ status r = Pending /\ now_unix_millis clock < expires_at r.
Proof.
  unfold pending_for_approval, is_expired. destruct (st !! i) as [q|]; [|naive_solver].
  destruct (bool_decide_reflect (status q = Pending)) as [Hp|Hp]; simpl; [|naive_solver].
  destruct (Z.leb_spec (expires_at q) (now_unix_millis clock)); naive_solver lia.
Qed.

Lemma authorize_ok by_ requester : authorize by_ requester = Ok tt <-> kind by_ = Approver /\ Authority.id by_ <> requester.
Proof. unfold authorize, can_approve. destruct (kind by_); simpl; [naive_solver|]. case_bool_decide; naive_solver. Qed.

(** What an approval did, on either outcome. *)
Lemma approve_spec (f f' : AFlow) (a a' : S) i by_ sk nonce ttl (clock : C) res :
  approving f a i by_ sk nonce ttl clock = (a', f', res) ->
  match res with
  | Ok g => exists r, signable f i by_ clock r /\ g = grant_for r sk nonce ttl clock /\
                      f' = set_store f (<[i := set_status r Approved]> (store f))
  | Err _ => f' = f /\ forall r, ~ signable f i by_ clock r
  end.
Proof.
  unfold approve. destruct (pending_for_approval (store f) i clock) as [r|e] eqn:Ep.
  - apply pending_ok in Ep as (Hs & Hp & Ht). destruct (authorize by_ (requester_id r)) as [[]|e] eqn:Ea.
    + apply authorize_ok in Ea as [Hk Hid]. unfold resolve. rewrite Hs, bool_decide_eq_true_2 by done.
      simpl. intros [= <- <- <-]. exists r. by split_and!.
    + intros [= <- <- <-]. split; [done|]. intros r' (Hs' & _ & _ & Hk & Hid). simplify_eq.
      assert (authorize by_ (requester_id r) = Ok tt) by by apply authorize_ok. congruence.
  - intros [= <- <- <-]. split; [done|]. intros r (Hs & Hp & Ht & _).
    assert (pending_for_approval (store f) i clock = Ok r) by by apply pending_ok. congruence.
Qed.

(** Opening a request: a fresh pending one under a new id, or the flow as it was. *)
Lemma elevation_spec (f f' : AFlow) (a a' : S) i p requester op ttl (clock : C) res :
  request_elevation f a i p requester op ttl clock = Some (a', f', res) ->
  nonces f' = nonces f /\
  match res with
  | Ok out => store f !! i = None /\ is_ok (Inverse.certify op) = true /\
              store f' = <[i := mkRequest i p requester (now_unix_millis clock) ttl Pending]> (store f) /\
              expires_at_unix_millis (contract out) = sat_add (now_unix_millis clock) ttl
  | Err _ => store f' = store f
  end.
Proof.
  unfold request_elevation, gate_for_elevation, store_request_elevation, Request.get.
  destruct (Inverse.certify op) as [act|e] eqn:Ec; [|intros [= <- <- <-]; by rewrite ?Ec].
  destruct (store f !! i) as [q|] eqn:Eq; [intros [= <- <- <-]; done|].
  cbn [set_store store]. rewrite lookup_insert_eq. simpl.
  destruct (send _ _) as [hook d]. intros [= <- <- <-]. done.
Qed.
End spec.

(** C23: what an approval grants.  The flow signs a grant exactly when the request is
    known, still pending and not expired, and the principal is an approver other than
    the one who opened it.  The grant is the signature over the request's own proposal,
    with the nonce given and the expiry counted from now; the request is resolved in the
    same step, so no second grant is signed for it. *)
Theorem approval_grants_exactly (sha256 : list byte -> list byte) {SigningKey VerifyingKey Signature : Type}
    (key_sign : SigningKey -> list byte -> Signature) (signature_to_bytes : Signature -> list byte)
    (hex_encode : list byte -> string) {S W N C : Type} `{Sink S, WebhookSender W, Clock C}
    (f : ApprovalFlow W N VerifyingKey) (audit : S) (i : RequestId) (by_ : Principal) (sk : SigningKey) (nonce : string)
    (ttl : Z) (clock : C) :
  let '(audit', f', res) := approve sha256 key_sign signature_to_bytes hex_encode f audit i by_ sk nonce ttl clock in
  (is_ok res = true <-> exists r, signable f i by_ clock r) /\
  (forall g, res = Ok g ->
     (exists r, signable f i by_ clock r /\ g = grant_for sha256 key_sign signature_to_bytes hex_encode r sk nonce ttl clock) /\
     forall by2 sk2 nonce2 ttl2 (clock2 : C) audit2,
       is_ok (approve sha256 key_sign signature_to_bytes hex_encode f' audit2 i by2 sk2 nonce2 ttl2 clock2).2 = false).
Proof.
  destruct (approve _ _ _ _ f audit i by_ sk nonce ttl clock) as [[a' f'] res] eqn:E. apply approve_spec in E.
  destruct res as [g|e].
  - destruct E as (r & Hs & Hg & Hf). split; [naive_solver|]. intros g' [= <-]. split; [by exists r|].
    intros by2 sk2 n2 ttl2 clock2 a2. destruct (approve _ _ _ _ f' a2 i by2 sk2 n2 ttl2 clock2) as [[a3 f3] res2] eqn:E2.
    apply approve_spec in E2. destruct res2 as [g2|]; [|done]. destruct E2 as (r2 & (Hs2 & Hp2 & _) & _).
    rewrite Hf in Hs2. simpl in Hs2. rewrite lookup_insert_eq in Hs2. by injection Hs2 as <-.
  - destruct E as [-> Hn]. split; [|done]. split; [done|]. intros [r Hr]. by destruct (Hn r).
Qed.
End Flow.
