(* ===== verification/Applyd.v ===== *)
(** * Applyd: the apply service

    Models [src/crates/applyd]: the wire vocabulary ([protocol.rs], Module [Protocol]),
    the service that holds the lifecycle of a write ([service.rs], Module [Service]) and
    the daemon's dispatch of a request line ([main.rs], Module [Daemon]).

    The service composes [DryRun], [Approval] and [GrantedApply] over one audit sink,
    which it shares with its approval flow.  A panic (an overflow of the fallback total,
    or of the request counter) is [None]; each is raised before the operation changes the
    service.  The parameters are those of the components. *)

From Stdlib Require Import SpecFloat.
From stdpp Require Import pretty.
From S2P Require Import Prelude Text Config Predicate PkChecksum Inverse Session BlastRadius Policy Intent.
From S2P Require Import DryRun Apply Grant GrantedApply AuditChain AuditSink Messages Approval.

(** ** The wire vocabulary *)

Module Protocol.

Definition JSONRPC_VERSION : string := "2.0".

Record BlockData : Type := mkBlock { block_code : string; remedy : string; retryable : bool }.
Record RpcError : Type := mkRpcError { rpc_code : Z; message : string; data : BlockData }.

Definition APP_ERROR_CODE : Z := -32000.
Definition INVALID_REQUEST_CODE : Z := -32600.
Definition METHOD_NOT_FOUND_CODE : Z := -32601.
Definition INVALID_PARAMS_CODE : Z := -32602.

Inductive ErrorCode : Type :=
| ProposalNotFound | Volatile | PkLess | NotRehearsable | ApprovalRequired | GrantRejected | ConfirmMismatch
| BlastDrift | AuditFailed.

#[global] Instance ErrorCode_eq_dec : EqDecision ErrorCode.
Proof. solve_decision. Defined.

Definition as_str (c : ErrorCode) : string :=
  match c with
  | ProposalNotFound => "PROPOSAL_NOT_FOUND"
  | Volatile => "VOLATILE"
  | PkLess => "PK_LESS"
  | NotRehearsable => "NOT_REHEARSABLE"
  | ApprovalRequired => "APPROVAL_REQUIRED"
  | GrantRejected => "GRANT_REJECTED"
  | ConfirmMismatch => "CONFIRM_MISMATCH"
  | BlastDrift => "BLAST_DRIFT"
  | AuditFailed => "AUDIT_FAILED"
  end.

Definition code_remedy (c : ErrorCode) : string * bool :=
  match c with
  | ProposalNotFound => ("call propose again to mint a fresh proposal, then dry_run", false)
  | Volatile => ("rewrite the predicate without volatile/non-deterministic functions", false)
  | PkLess => ("the target has no primary key; pg_brakes cannot key the affected set (no ctid fallback)", false)
  | NotRehearsable => ("only single-statement UPDATE/DELETE are certified writes", false)
  | ApprovalRequired =>
      ("open an approval ticket via request_elevation, await the operator approve, then retry apply", true)
  | GrantRejected =>
      ("the grant did not verify (tamper/replay/expiry); request a fresh elevation + approve", false)
  | ConfirmMismatch => ("re-run dry_run and confirm the exact reported affected row count", true)
  | BlastDrift => ("the data drifted since dry_run; re-run dry_run and re-approve before applying", false)
  | AuditFailed =>
      ("the audit chain append failed; the deterministic write may have committed but is not certified auditable — inspect the _meta chain and the daemon logs", false)
  end%string.

Definition error (c : ErrorCode) (m : string) : RpcError :=
  let '(remedy, retryable) := code_remedy c in
  mkRpcError APP_ERROR_CODE m (mkBlock (as_str c) remedy retryable).

Inductive Method : Type := Propose | DryRun | RequestElevation | Approve | Apply | GetAudit.

Definition method_parse (name : string) : option Method :=
  if decide (name = "propose"%string) then Some Propose
  else if decide (name = "dry_run"%string) then Some DryRun
  else if decide (name = "request_elevation"%string) then Some RequestElevation
  else if decide (name = "approve"%string) then Some Approve
  else if decide (name = "apply"%string) then Some Apply
  else if decide (name = "get_audit"%string) then Some GetAudit
  else None.

Record ProposeParams : Type := mkProposeParams {
  pp_sql : string; pp_expected_rows : option Z; pp_role : string; pp_session_id : string
}.
Record ProposeResult : Type := mkProposeResult { pr_proposal_id : string; pr_ttl_millis : Z }.
Record DryRunParams : Type := mkDryRunParams { dp_proposal_id : string }.
Record DryRunResult : Type := mkDryRunResult {
  dr_total_rows : Z; dr_pk_set_checksum : string; dr_reversible : bool; dr_confirm_token : string
}.
Record RequestElevationParams : Type := mkElevationParams { ep_proposal_id : string; ep_reason : string }.
Record RequestElevationResult : Type := mkElevationResult {
  er_request_id : string; er_ttl_millis : Z; er_cap_max_rows : Z; er_cap_max_wal_bytes : Z;
  er_side_effecting_triggers : list string
}.
Record ApproveParams : Type := mkApproveParams {
  ap_request_id : string; ap_approver_id : string; ap_signing_key_hex : string; ap_nonce : string;
  ap_grant_ttl_millis : Z
}.
Record ApproveResult : Type := mkApproveResult { ar_request_id : string; ar_nonce : string }.
Record ApplyParams : Type := mkApplyParams {
  xp_proposal_id : string; xp_confirm_rows : Z; xp_confirm_token : option string
}.
Record ApplyResult : Type := mkApplyResult { xr_applied : bool; xr_rows_written : Z; xr_reversible : bool }.
Record GetAuditParams : Type := mkGetAuditParams { gp_limit : option Z }.
Record AuditRecordWire : Type := mkRecordWire { w_seq : Z; w_decision : string; w_reason_code : string }.
Record GetAuditResult : Type := mkGetAuditResult { g_records : list AuditRecordWire }.
End Protocol.

(** ** The service *)

Module Service.
Import Clock Barrier BlastRadius Protocol.
Import DryRun(WriteKind, WUpdate, WDelete, Rehearsal, DryRunError, DVolatile, DNotSelfDetermined, DExpired, DBackend).
Import Grant(GrantToken, GrantError, NonceStore).
Import GrantedApply(LiveRequest, mkLive, GrantedApplyError, GGrant, GApply, Inconsistent, GNotSelfDetermined).
Import AuditChain(Decision, DAllow, DBlock, DReject, NewEntry, mkEntry, mkRefs, AuditRecord).
Import AuditSink(Sink, sink_append, load_chain, SinkError).
Import Messages.
Import Webhook(WebhookSender).
Import Flow(ApprovalFlow, ElevationError, ERefused, ERequest, ApproveError, AAuthority, ARequest).

Definition DEFAULT_REQUEST_TTL_MILLIS : Z := 30 * 60 * 1000.

Record DryRunState : Type := mkDryRunState { blast_radius : BlastRadius; total_rows : Z; confirm_token : string }.

Record ProposalRecord : Type := mkRecord {
  proposal : Proposal.Proposal;
  role : string;
  session_id : string;
  kind : WriteKind;
  relation : string;
  dry_state : option DryRunState
}.

(** The service.  [sink] is the one chain its flow also appends to; [proposal_seq] is the
    process-wide counter of [proposal.rs]. *)
Record Service (S W NA NF VK : Type) : Type := mkService {
  flow : ApprovalFlow W NF VK;
  sink : S;
  apply_nonces : NA;
  verifying_key : VK;
  policy : Config.PolicyConfig;
  proposals : gmap string ProposalRecord;
  grants : gmap string GrantToken;
  request_to_proposal : gmap string string;
  next_request : Z;
  proposal_seq : Z
}.
Arguments mkService {S W NA NF VK}.
Arguments flow {S W NA NF VK}.
Arguments sink {S W NA NF VK}.
Arguments apply_nonces {S W NA NF VK}.
Arguments verifying_key {S W NA NF VK}.
Arguments policy {S W NA NF VK}.
Arguments proposals {S W NA NF VK}.
Arguments grants {S W NA NF VK}.
Arguments request_to_proposal {S W NA NF VK}.
Arguments next_request {S W NA NF VK}.
Arguments proposal_seq {S W NA NF VK}.

(** *** Error translations *)

Definition proposal_not_found : RpcError :=
  error ProposalNotFound "no live proposal with that id (unknown or TTL-expired)".

Definition dry_run_error_to_rpc (e : DryRunError) : RpcError :=
  match e with
  | DVolatile r => error Volatile (Predicate.VolatileReason_fmt r)
  | DryRun.PkLess rel => error PkLess ("target relation `" +:+ rel +:+ "` has no primary key")
  | DryRun.NotRehearsable m => error NotRehearsable m
  | DNotSelfDetermined r =>
      error NotRehearsable ("predicate is not self-determined (steerable); restrict the WHERE to the primary key + literals: " +:+ NotSelfDetermined_fmt r)
  | DExpired id => error ProposalNotFound ("proposal `" +:+ id +:+ "` expired")
  | DBackend m => error NotRehearsable ("rehearsal failed: " +:+ m)
  end.

Definition granted_apply_error_to_rpc (debug_str : string -> string) (e : GrantedApplyError) : RpcError :=
  match e with
  | GGrant Grant.BindingMismatch =>
      error GrantRejected "grant binding mismatch (statement/param/session/proposal/cap swap)"
  | GGrant g => error GrantRejected (GrantError_fmt g)
  | GApply a => error BlastDrift (ApplyError_fmt debug_str a)
  | Inconsistent m => error GrantRejected ("inconsistent grant binding: " +:+ m)
  | GNotSelfDetermined r =>
      error GrantRejected ("predicate is not self-determined (steerable): " +:+ NotSelfDetermined_fmt r)
  end.

Definition elevation_error_to_rpc (e : ElevationError) : RpcError :=
  match e with
  | ERefused r => error NotRehearsable ("structural/irreversible op refused: " +:+ RefusedOp_fmt r)
  | ERequest r => error ProposalNotFound (Request.RequestError_fmt r)
  end.

Definition approve_error_to_rpc (e : ApproveError) : RpcError :=
  match e with
  | AAuthority a => error GrantRejected (Authority.AuthorityError_fmt a)
  | ARequest r => error ProposalNotFound (Request.RequestError_fmt r)
  end.

(** *** The binding source and the certified operation *)

Definition DEFAULT_ROW_HEADROOM : f64 := S754_finite false 7205759403792794 (-56).
Definition DEFAULT_WAL_HEADROOM : f64 := S754_finite false 6755399441055744 (-51).
Definition DEFAULT_WAL_FLOOR_BYTES : Z := 64 * 1024.

Definition binding_proposal (oc : bool) (record : ProposalRecord) (dry : DryRunState) : option Request.Proposal :=
  rows ← suggested_cap oc (blast_radius dry) DEFAULT_ROW_HEADROOM;
  wal ← suggested_cap oc (blast_radius dry) DEFAULT_WAL_HEADROOM;
  Some (Request.mkProposal (Proposal.id (proposal record)) (Proposal.statement (proposal record)) [] (role record)
          (session_id record) (clone_lsn (blast_radius dry))
          (mkWriteCap (max_rows rows) (Z.max (max_wal_bytes wal) DEFAULT_WAL_FLOOR_BYTES))).

Definition operation_for (record : ProposalRecord) (dry : DryRunState) : Inverse.Operation :=
  let has_preimage := reversible (blast_radius dry) in
  match kind record with
  | WUpdate => Inverse.Update has_preimage true
  | WDelete => Inverse.Delete has_preimage true
  end.

(** [{:08x}]. *)
Definition hex_08 (n : Z) : string := Proposal.hex_digits (Nat.max 8 (Z.to_nat (Z.log2 n / 4 + 1))) n.
Definition request_id_of (n : Z) : string := "req-" +:+ hex_08 n.

Definition confirm_token_of (proposal_id : string) (total_rows : Z) : string :=
  "ct-" +:+ proposal_id +:+ "-" +:+ pretty total_rows.

(** The predicate of a parsed statement, rendered; [query_where] is the selection of the
    text's query when that is a plain [SELECT]. *)
Definition extract_where (parse_sql : string -> result string (list Predicate.Statement))
    (query_where : string -> option Predicate.Expr) (expr_to_string : Predicate.Expr -> string)
    (statement : string) : string :=
  match parse_sql statement with
  | Err _ => "true"
  | Ok parsed =>
      let selection := match parsed with
                       | Predicate.Delete _ _ s :: _ => s
                       | Predicate.Update _ _ s :: _ => s
                       | Predicate.SelectQuery :: _ => query_where statement
                       | _ => None
                       end in
      match selection with Some e => expr_to_string e | None => "true" end
  end.

Example request_id_1 : request_id_of 1 = "req-00000001"%string.
Proof. reflexivity. Qed.
Example request_id_wide : request_id_of 0x1234567890 = "req-1234567890"%string.
Proof. vm_compute. reflexivity. Qed.
Example wal_headroom_is_three : DEFAULT_WAL_HEADROOM = f64_of_Z 3.
Proof. vm_compute. reflexivity. Qed.

(** *** The operations *)

Section service.
Context (parse_sql : string -> result string (list Predicate.Statement)).
Context (visit_below : Predicate.Expr -> list Predicate.Expr) (to_lowercase : string -> string).
Context (query_where : string -> option Predicate.Expr) (expr_to_string : Predicate.Expr -> string).
Context (sha256 : list byte -> list byte) {SigningKey VerifyingKey Signature : Type}.
Context `{!EqDecision VerifyingKey} (verifying_key_of : SigningKey -> VerifyingKey).
Context (key_sign : SigningKey -> list byte -> Signature) (signature_to_bytes : Signature -> list byte).
Context (verify_strict : VerifyingKey -> list byte -> Signature -> bool).
Context (signature_from_bytes : list byte -> Signature).
Context (hex_encode : list byte -> string) (hex_decode : string -> option (list byte)).
Context (overflow_checks : bool) (sha256_hex : list byte -> string) (debug_str : string -> string).
Context {S W NA NF C : Type} `{Sink S, WebhookSender W, NA_store : NonceStore NA, NF_store : NonceStore NF, Clock C}.

#[local] Abbreviation Svc := (Service S W NA NF VerifyingKey).

Definition service_new (f : ApprovalFlow W NF VerifyingKey) (s : S) (nonces : NA) (vk : VerifyingKey)
    (p : Config.PolicyConfig) (seq : Z) : Svc :=
  mkService f s nonces vk p ∅ ∅ ∅ 0 seq.

Definition set_sink (v : Svc) (s : S) : Svc :=
  mkService (flow v) s (apply_nonces v) (verifying_key v) (policy v) (proposals v) (grants v) (request_to_proposal v)
    (next_request v) (proposal_seq v).
Definition set_flow (v : Svc) (f : ApprovalFlow W NF VerifyingKey) : Svc :=
  mkService f (sink v) (apply_nonces v) (verifying_key v) (policy v) (proposals v) (grants v) (request_to_proposal v)
    (next_request v) (proposal_seq v).
Definition set_apply_nonces (v : Svc) (n : NA) : Svc :=
  mkService (flow v) (sink v) n (verifying_key v) (policy v) (proposals v) (grants v) (request_to_proposal v)
    (next_request v) (proposal_seq v).
Definition set_proposals (v : Svc) (ps : gmap string ProposalRecord) : Svc :=
  mkService (flow v) (sink v) (apply_nonces v) (verifying_key v) (policy v) ps (grants v) (request_to_proposal v)
    (next_request v) (proposal_seq v).
Definition set_grants (v : Svc) (gs : gmap string GrantToken) : Svc :=
  mkService (flow v) (sink v) (apply_nonces v) (verifying_key v) (policy v) (proposals v) gs (request_to_proposal v)
    (next_request v) (proposal_seq v).
Definition set_requests (v : Svc) (rs : gmap string string) : Svc :=
  mkService (flow v) (sink v) (apply_nonces v) (verifying_key v) (policy v) (proposals v) (grants v) rs
    (next_request v) (proposal_seq v).
Definition set_next_request (v : Svc) (n : Z) : Svc :=
  mkService (flow v) (sink v) (apply_nonces v) (verifying_key v) (policy v) (proposals v) (grants v)
    (request_to_proposal v) n (proposal_seq v).
Definition set_proposal_seq (v : Svc) (n : Z) : Svc :=
  mkService (flow v) (sink v) (apply_nonces v) (verifying_key v) (policy v) (proposals v) (grants v)
    (request_to_proposal v) (next_request v) n.

Definition decision_entry (statement_text role session_id : string) (proposal_id : option string)
    (decision : Decision) (reason_code : string) (reason : option string) : NewEntry :=
  mkEntry statement_text decision reason_code reason (AuditChain.mkPrincipal role (Some session_id) None)
    (Intent.from_statement role statement_text (Some "applyd"%string)) (mkRefs proposal_id None).

Definition audit_decision (v : Svc) (statement_text role session_id : string) (proposal_id : option string)
    (decision : Decision) (reason_code : string) (reason : option string) (clock : C) : Svc * result SinkError unit :=
  let '(s, r) := sink_append (sink v)
                   (decision_entry statement_text role session_id proposal_id decision reason_code reason)
                   (now_unix_millis clock) in
  (set_sink v s, let? _ := r in Ok tt).

Definition audit_apply (v : Svc) (live : LiveRequest) (decision : Decision) (reason_code : string)
    (reason : option string) (clock : C) : Svc * result SinkError unit :=
  audit_decision v (GrantedApply.statement_text live) (GrantedApply.role live) (GrantedApply.session_id live)
    (Some (GrantedApply.proposal_id live)) decision reason_code reason clock.

Definition audit_refusal_then (v : Svc) (statement_text role session_id : string) (refusal : RpcError) (clock : C) :
    Svc * RpcError :=
  let reason_code := block_code (data refusal) in
  let '(v, r) := audit_decision v statement_text role session_id None DBlock reason_code (Some (message refusal)) clock in
  (v, match r with
      | Ok _ => refusal
      | Err e => error AuditFailed ("a write proposal was refused (" +:+ reason_code +:+
                   ") but the refusal could not be appended to the _meta chain: " +:+ SinkError_fmt debug_str e)
      end).

Definition propose (v : Svc) (sql : string) (expected_rows : option Z) (role session_id : string) (clock : C) :
    Svc * result RpcError ProposeResult :=
  match DryRun.classify parse_sql sql with
  | Err e =>
      let '(v, err) := audit_refusal_then v sql role session_id (dry_run_error_to_rpc e) clock in (v, Err err)
  | Ok (kind, relation) =>
      let '(seq, p) := Proposal.propose (proposal_seq v) sql expected_rows clock in
      let id := Proposal.id p in
      (set_proposal_seq (set_proposals v (<[id := mkRecord p role session_id kind relation None]> (proposals v))) seq,
       Ok (mkProposeResult id (Proposal.ttl_millis p)))
  end.

(** The record of a proposal that is known and has not expired. *)
Definition live_record (v : Svc) (proposal_id : string) (clock : C) : option ProposalRecord :=
  match proposals v !! proposal_id with
  | Some r => if Proposal.is_expired (proposal r) clock then None else Some r
  | None => None
  end.

Definition with_dry_run (r : ProposalRecord) (d : DryRunState) : ProposalRecord :=
  mkRecord (proposal r) (role r) (session_id r) (kind r) (relation r) (Some d).

Definition dry_run {R} `{Rehearsal R} (v : Svc) (proposal_id : string) (r : R) (clock : C) :
    R * (Svc * result RpcError DryRunResult) :=
  match live_record v proposal_id clock with
  | None => (r, (v, Err proposal_not_found))
  | Some record =>
      let statement := Proposal.statement (proposal record) in
      let refuse v e := let '(v, err) := audit_refusal_then v statement (role record) (session_id record) e clock in
                        (v, Err err) in
      let '(r, measured) := DryRun.dry_run parse_sql visit_below to_lowercase (proposal record) r clock in
      match measured with
      | Err e => (r, refuse v (dry_run_error_to_rpc e))
      | Ok br =>
          let total := BlastRadius.total_rows (affected br) in
          match pk_set_checksum (affected br) !! relation record with
          | None => (r, refuse v (error PkLess ("no pk_set_checksum for target `" +:+ relation record +:+ "`")))
          | Some checksum =>
              let token := confirm_token_of proposal_id total in
              let ps := match proposals v !! proposal_id with
                        | Some rec => <[proposal_id := with_dry_run rec (mkDryRunState br total token)]> (proposals v)
                        | None => proposals v
                        end in
              (r, (set_proposals v ps, Ok (mkDryRunResult total checksum (reversible br) token)))
          end
      end
  end.

Definition request_elevation (v : Svc) (proposal_id reason : string) (clock : C) :
    option (Svc * result RpcError RequestElevationResult) :=
  match live_record v proposal_id clock with
  | None => Some (v, Err proposal_not_found)
  | Some record =>
      match dry_state record with
      | None => Some (v, Err (error ConfirmMismatch "dry_run the proposal before elevating"))
      | Some dry =>
          req_proposal ← binding_proposal overflow_checks record dry;
          let cap := Request.cap req_proposal in
          let side_effecting_triggers :=
            map trigger_name (List.filter (fun t => 0 <? trigger_rows t) (triggers_fired (blast_radius dry))) in
          n ← add_u64 overflow_checks (next_request v) 1;
          let v := set_next_request v n in
          let id := request_id_of n in
          '(s, f, outcome) ← Flow.request_elevation (flow v) (sink v) id req_proposal (session_id record)
                               (operation_for record dry) DEFAULT_REQUEST_TTL_MILLIS clock;
          let v := set_flow (set_sink v s) f in
          match outcome with
          | Err e => Some (v, Err (elevation_error_to_rpc e))
          | Ok outcome =>
              Some (set_requests v (<[id := proposal_id]> (request_to_proposal v)),
                    Ok (mkElevationResult id
                          (sat_sub (Request.expires_at_unix_millis (Flow.contract outcome)) (now_unix_millis clock))
                          (max_rows cap) (max_wal_bytes cap) side_effecting_triggers))
          end
      end
  end.

Definition approve (v : Svc) (request_id approver_id : string) (signing_key : SigningKey) (nonce : string)
    (grant_ttl_millis : Z) (clock : C) : Svc * result RpcError ApproveResult :=
  if negb (bool_decide (verifying_key_of signing_key = verifying_key v)) then
    (v, Err (error GrantRejected "approver signing key does not match the configured approver pubkey"))
  else
    match request_to_proposal v !! request_id with
    | None => (v, Err (error ProposalNotFound "no such approval request"))
    | Some proposal_id =>
        let '(s, f, outcome) :=
          Flow.approve sha256 key_sign signature_to_bytes hex_encode (flow v) (sink v) request_id
            (Authority.approver approver_id) signing_key nonce grant_ttl_millis clock in
        let v := set_flow (set_sink v s) f in
        match outcome with
        | Err e => (v, Err (approve_error_to_rpc e))
        | Ok grant =>
            (set_grants v (<[proposal_id := grant]> (grants v)), Ok (mkApproveResult request_id nonce))
        end
    end.

Definition live_request (record : ProposalRecord) (proposal_id : string) : LiveRequest :=
  mkLive (Proposal.statement (proposal record)) [] (role record) (session_id record) proposal_id.

Definition inverse_is_reversible (i : Inverse.InversePlan) : bool :=
  bool_decide (Inverse.plan_kind i = Inverse.PreimageUpsert) || negb (bool_decide (Inverse.plan_rows i = [])).

(** What follows the guarded apply: the consumption of the record and the grant, and the
    audit of the outcome. *)
Definition settle (v : Svc) (proposal_id : string) (live : LiveRequest)
    (result : result GrantedApplyError (Apply.AppliedWrite * GrantedApply.BridgedApplyConfig)) (clock : C) :
    Svc * Prelude.result RpcError (ApplyResult * Inverse.InversePlan) :=
  match result with
  | Ok (applied, _) =>
      let v := set_grants (set_proposals v (delete proposal_id (proposals v))) (delete proposal_id (grants v)) in
      let inverse := Apply.a_inverse applied in
      let '(v, audited) := audit_apply v live DAllow "apply_committed"
                             (Some (pretty (Apply.a_rows_written applied) +:+ " rows committed (reversible)")) clock in
      (v, match audited with
          | Ok _ => Ok (mkApplyResult true (Apply.a_rows_written applied) (inverse_is_reversible inverse), inverse)
          | Err e => Err (error AuditFailed ("the bounded write committed but its audit record could not be appended to the _meta chain: " +:+ SinkError_fmt debug_str e))
          end)
  | Err e =>
      let rpc := granted_apply_error_to_rpc debug_str e in
      let '(v, audited) := audit_apply v live DBlock (block_code (data rpc)) (Some (message rpc)) clock in
      (v, Err (match audited with
               | Ok _ => rpc
               | Err ae => error AuditFailed ("an apply was blocked (" +:+ block_code (data rpc) +:+
                   ") but the block could not be audited to the _meta chain: " +:+ SinkError_fmt debug_str ae)
               end))
  end.

Definition apply_returning_inverse {X B} `{Apply.ApplyConn X, ApplyBarrier B X} (v : Svc) (proposal_id : string)
    (confirm_rows : Z) (token : option string) (conn : X) (barrier : B) (clock : C) :
    option (B * (X * (Svc * result RpcError (ApplyResult * Inverse.InversePlan)))) :=
  let stop e := Some (barrier, (conn, (v, Err e))) in
  match live_record v proposal_id clock with
  | None => stop proposal_not_found
  | Some record =>
      match dry_state record with
      | None => stop (error ConfirmMismatch "apply requires a prior dry_run to establish the guard")
      | Some dry =>
          if negb (confirm_rows =? total_rows dry) then
            stop (error ConfirmMismatch ("confirm_rows " +:+ pretty confirm_rows +:+ " != dry-run affected rows " +:+
                                         pretty (total_rows dry)))
          else if match token with Some t => negb (bool_decide (t = confirm_token dry)) | None => false end then
            stop (error ConfirmMismatch "confirm_token does not match the dry-run token")
          else
            match grants v !! proposal_id with
            | None => stop (error ApprovalRequired "no approved grant for this proposal")
            | Some grant =>
                let live := live_request record proposal_id in
                '(nonces, (barrier, (conn, result))) ←
                  GrantedApply.guarded_apply_with_grant parse_sql visit_below to_lowercase sha256 verify_strict
                    signature_from_bytes hex_decode overflow_checks sha256_hex debug_str (policy v) grant live
                    (verifying_key v) (apply_nonces v) (kind record) (relation record) (blast_radius dry) conn barrier
                    clock;
                Some (barrier, (conn, settle (set_apply_nonces v nonces) proposal_id live result clock))
            end
      end
  end.

Definition apply {X B} `{Apply.ApplyConn X, ApplyBarrier B X} (v : Svc) (proposal_id : string) (confirm_rows : Z)
    (token : option string) (conn : X) (barrier : B) (clock : C) :
    option (B * (X * (Svc * result RpcError ApplyResult))) :=
  '(barrier, (conn, (v, r))) ← apply_returning_inverse v proposal_id confirm_rows token conn barrier clock;
  Some (barrier, (conn, (v, let? (res, _) := r in Ok res))).

(** A chain that cannot be read is shown as an empty one. *)
Definition audit_records (v : Svc) (limit : nat) : list AuditRecord :=
  let all := match load_chain (sink v) with Ok rs => rs | Err _ => [] end in
  drop (length all - limit) all.

Definition apply_sql_for (v : Svc) (proposal_id : string) (clock : C) : option (string * string) :=
  match live_record v proposal_id clock with
  | None => None
  | Some record =>
      let statement := Proposal.statement (proposal record) in
      Some (statement, extract_where parse_sql query_where expr_to_string statement)
  end.
End service.

(** ** Properties *)

Section spec.
Context (parse_sql : string -> result string (list Predicate.Statement)).
Context (visit_below : Predicate.Expr -> list Predicate.Expr) (to_lowercase : string -> string).
Context (sha256 : list byte -> list byte) {SigningKey VerifyingKey Signature : Type}.
Context `{!EqDecision VerifyingKey} (verifying_key_of : SigningKey -> VerifyingKey).
Context (key_sign : SigningKey -> list byte -> Signature) (signature_to_bytes : Signature -> list byte).
Context (verify_strict : VerifyingKey -> list byte -> Signature -> bool).
Context (signature_from_bytes : list byte -> Signature).
Context (hex_encode : list byte -> string) (hex_decode : string -> option (list byte)).
Context (overflow_checks : bool) (sha256_hex : list byte -> string) (debug_str : string -> string).
Context {S W NA NF C : Type} `{Sink S, WebhookSender W, NA_store : NonceStore NA, Clock C}.
Context {R X B : Type} `{Rehearsal R, Apply.ApplyConnLaws X, ApplyBarrier B X}.

#[local] Abbreviation Svc := (Service S W NA NF VerifyingKey).
#[local] Abbreviation sign := (Grant.sign sha256 key_sign signature_to_bytes hex_encode).
#[local] Abbreviation proposing := (propose parse_sql debug_str (S:=S) (W:=W) (NA:=NA) (NF:=NF) (VerifyingKey:=VerifyingKey)).
#[local] Abbreviation rehearsing := (dry_run parse_sql visit_below to_lowercase debug_str (S:=S) (W:=W) (NA:=NA) (NF:=NF) (VerifyingKey:=VerifyingKey)).
#[local] Abbreviation elevating := (request_elevation overflow_checks (S:=S) (W:=W) (NA:=NA) (NF:=NF) (VerifyingKey:=VerifyingKey)).
#[local] Abbreviation approving := (approve sha256 verifying_key_of key_sign signature_to_bytes hex_encode (S:=S) (W:=W) (NA:=NA) (NF:=NF)).
#[local] Abbreviation applying_ := (apply parse_sql visit_below to_lowercase sha256 verify_strict signature_from_bytes
  hex_decode overflow_checks sha256_hex debug_str (S:=S) (W:=W) (NA:=NA) (NF:=NF)).
#[local] Abbreviation attempt := (GrantedApply.guarded_apply_with_grant parse_sql visit_below to_lowercase sha256 verify_strict
  signature_from_bytes hex_decode overflow_checks sha256_hex debug_str).

(** *** What each operation changes *)

(** The parts of the service an audit append or an error answer leaves alone. *)
Definition same_books (v v' : Svc) : Prop :=
  flow v' = flow v /\ apply_nonces v' = apply_nonces v /\ verifying_key v' = verifying_key v /\ policy v' = policy v /\
  proposals v' = proposals v /\ grants v' = grants v /\ request_to_proposal v' = request_to_proposal v.

Lemma refusal_books (v v' : Svc) sql rl sid e (clock : C) err :
  audit_refusal_then debug_str v sql rl sid e clock = (v', err) -> same_books v v'.
Proof.
  unfold audit_refusal_then, audit_decision. destruct (sink_append _ _ _) as [s r]. intros [= <- _]. done.
Qed.

Lemma live_record_some (v : Svc) pid (clock : C) r : live_record v pid clock = Some r -> proposals v !! pid = Some r.
Proof. unfold live_record. destruct (proposals v !! pid) as [q|]; [|done]. destruct (Proposal.is_expired _ _); congruence. Qed.

(** What follows the guarded apply only consumes. *)
Lemma settle_books (v v' : Svc) pid live res (clock : C) r :
  settle debug_str v pid live res clock = (v', r) ->
  flow v' = flow v /\ apply_nonces v' = apply_nonces v /\ verifying_key v' = verifying_key v /\
  request_to_proposal v' = request_to_proposal v /\
  (proposals v' = proposals v /\ grants v' = grants v \/
   proposals v' = delete pid (proposals v) /\ grants v' = delete pid (grants v)).
Proof.
  unfold settle, audit_apply, audit_decision.
  destruct res as [[applied bridged]|e]; destruct (sink_append _ _ _) as [s a]; intros [= <- _]; simpl; auto 10.
Qed.

(** An apply that did not stop early ran one guarded apply with the recorded grant. *)
Lemma apply_spec (v v' : Svc) pid rows token (conn conn' : X) (b b' : B) (clock : C) r :
  applying_ v pid rows token conn b clock = Some (b', (conn', (v', r))) ->
  (v' = v /\ conn' = conn /\ is_ok r = false) \/
  exists record dry g nonces res r0,
    proposals v !! pid = Some record /\ Proposal.is_expired (proposal record) clock = false /\
    dry_state record = Some dry /\ rows = total_rows dry /\
    (token = None \/ token = Some (confirm_token dry)) /\ grants v !! pid = Some g /\
    attempt (policy v) g (live_request record pid) (verifying_key v) (apply_nonces v) (kind record) (relation record)
      (blast_radius dry) conn b clock = Some (nonces, (b', (conn', res))) /\
    settle debug_str (set_apply_nonces v nonces) pid (live_request record pid) res clock = (v', r0) /\
    r = (let? (x, _) := r0 in Ok x).
Proof.
  unfold apply, apply_returning_inverse, live_record.
  destruct (proposals v !! pid) as [record|] eqn:Erec; simpl; [|intros; simplify_eq; by left].
  destruct (Proposal.is_expired (proposal record) clock) eqn:Eexp; simpl; [intros; simplify_eq; by left|].
  destruct (dry_state record) as [dry|] eqn:Edry; simpl; [|intros; simplify_eq; by left].
  destruct (Z.eqb_spec rows (total_rows dry)) as [Er|]; simpl; [|intros; simplify_eq; by left].
  destruct (match token with Some t => _ | None => _ end) eqn:Etok; simpl; [intros; simplify_eq; by left|].
  destruct (grants v !! pid) as [g|] eqn:Eg; simpl; [|intros; simplify_eq; by left].
  destruct (attempt _ _ _ _ _ _ _ _ _ _ _) as [[nonces [b1 [c1 res]]]|] eqn:Ea; simpl; [|done].
  destruct (settle _ _ _ _ _ _) as [v1 r0] eqn:Es. intros [= <- <- <- <-]. right.
  exists record, dry, g, nonces, res, r0. split_and!; auto.
  destruct token as [t|]; [|by left]. right. apply negb_false_iff, bool_decide_eq_true in Etok. by subst.
Qed.

(** A successful apply uses its proposal up. *)
Lemma apply_ok_consumes (v v' : Svc) pid rows token (conn conn' : X) (b b' : B) (clock : C) x :
  applying_ v pid rows token conn b clock = Some (b', (conn', (v', Ok x))) -> proposals v' !! pid = None.
Proof.
  intros [(_ & _ & ?)|(record & dry & g & nonces & res & r0 & _ & _ & _ & _ & _ & _ & _ & Hs & Hr)]%apply_spec; [done|].
  revert Hs. unfold settle, audit_apply, audit_decision.
  destruct res as [[applied bridged]|e]; destruct (sink_append _ _ _) as [s a]; intros [= <- <-]; [|done].
  simpl. apply lookup_delete_eq.
Qed.

(** *** The service as a transition system *)

(** What an observer of the service notes.  A signature: the request named, by whom and with
    which key, for which nonce and expiry, the request as the store held it then, and the
    grant the service holds for its proposal afterwards.  A write: the proposal named, its record and the grant held for
    it at that moment, and the transactions the apply added to the log. *)
Inductive label : Type :=
| Silent
| Signed (request_id approver : string) (signing_key : SigningKey) (nonce : string) (expires : Z)
         (request : option Request.ApprovalRequest) (held : option GrantToken)
| Wrote (proposal_id : string) (record : option ProposalRecord) (held : option GrantToken)
        (added : list (list Apply.RelationChange * Z)).

(** The label of an approval, read off the service before and after it. *)
Definition approval_label (v v' : Svc) (rid approver : string) (sk : SigningKey) (nonce : string) (ttl : Z) (clock : C)
    (r : result RpcError ApproveResult) : label :=
  match r with
  | Ok _ => Signed rid approver sk nonce (sat_add (now_unix_millis clock) ttl) (Flow.store (flow v) !! rid)
              (request_to_proposal v !! rid ≫= fun pid => grants v' !! pid)
  | Err _ => Silent
  end.

(** The label of an apply that changed the log. *)
Definition write_label (v : Svc) (pid : string) (conn conn' : X) : label :=
  Wrote pid (proposals v !! pid) (grants v !! pid) (drop (length (Apply.committed conn)) (Apply.committed conn')).

(** One call of the service, with the rehearsal, the connection, the barrier and the
    clock the caller passes.  An apply runs on a connection with no open transaction. *)
Inductive step : Svc -> label -> Svc -> Prop :=
| step_propose v sql rows rl sid (clock : C) v' r : proposing v sql rows rl sid clock = (v', r) -> step v Silent v'
| step_dry_run v pid (rh rh' : R) (clock : C) v' r : rehearsing v pid rh clock = (rh', (v', r)) -> step v Silent v'
| step_elevate v pid reason (clock : C) v' r : elevating v pid reason clock = Some (v', r) -> step v Silent v'
| step_approve v rid approver sk nonce ttl (clock : C) v' r :
    approving v rid approver sk nonce ttl clock = (v', r) -> step v (approval_label v v' rid approver sk nonce ttl clock r) v'
| step_apply v pid rows token (conn conn' : X) (b b' : B) (clock : C) v' r :
    Apply.ready conn -> applying_ v pid rows token conn b clock = Some (b', (conn', (v', r))) ->
    Apply.committed conn' = Apply.committed conn -> step v Silent v'
| step_write v pid rows token (conn conn' : X) (b b' : B) (clock : C) v' r :
    Apply.ready conn -> applying_ v pid rows token conn b clock = Some (b', (conn', (v', r))) ->
    Apply.committed conn' <> Apply.committed conn -> step v (write_label v pid conn conn') v'.

(** A run from a service, the latest label first. *)
Inductive run (v0 : Svc) : list label -> Svc -> Prop :=
| run_start : run v0 [] v0
| run_step tr v l v' : run v0 tr v -> step v l v' -> run v0 (l :: tr) v'.

Definition signed_requests (tr : list label) : list string :=
  omap (fun l => match l with Signed r _ _ _ _ _ _ => Some r | _ => None end) tr.
Definition signed_nonces (tr : list label) : list string :=
  omap (fun l => match l with Signed _ _ _ n _ _ _ => Some n | _ => None end) tr.
Definition writes (tr : list label) : list string := omap (fun l => match l with Wrote p _ _ _ => Some p | _ => None end) tr.
Definition written_nonces (tr : list label) : list string :=
  omap (fun l => match l with Wrote _ _ (Some g) _ => Some (Grant.nonce (Grant.binding g)) | _ => None end) tr.
Definition written (tr : list label) : list (list Apply.RelationChange * Z) :=
  List.concat (map (fun l => match l with Wrote _ _ _ txs => txs | _ => [] end) (rev tr)).

Lemma written_cons l tr : written (l :: tr) = written tr ++ written [l].
Proof. unfold written. simpl. by rewrite map_app, concat_app. Qed.

Lemma writes_cons l tr : writes (l :: tr) = writes [l] ++ writes tr.
Proof. unfold writes. apply (omap_app _ [l] tr). Qed.

Lemma signed_cons l tr : signed_requests (l :: tr) = signed_requests [l] ++ signed_requests tr.
Proof. unfold signed_requests. apply (omap_app _ [l] tr). Qed.

(** The signature a grant held for a proposal comes from: earlier in the run an approver
    signed, with a key of the configured public key, the request the store held; the grant
    is the signature of that very request's binding, the request is for that proposal and
    was made by its session, and the approver is not who made it. *)
Definition signed_for (tr : list label) (vk : VerifyingKey) (pid : string) (g : GrantToken) (rid approver : string)
    (sk : SigningKey) (nonce : string) (expires : Z) (q : Request.ApprovalRequest) : Prop :=
  Signed rid approver sk nonce expires (Some q) (Some g) ∈ tr /\ verifying_key_of sk = vk /\
  g = sign (Request.to_binding (Request.proposal q) nonce expires) sk /\
  Request.proposal_id (Request.proposal q) = pid /\ Request.requester_id q = Request.session_id (Request.proposal q) /\
  approver <> Request.requester_id q.

Definition mandated (tr : list label) (vk : VerifyingKey) (pid : string) (g : GrantToken) : Prop :=
  exists rid approver sk nonce expires q, signed_for tr vk pid g rid approver sk nonce expires q.

Lemma mandated_later tr l vk pid g : mandated tr vk pid g -> mandated (l :: tr) vk pid g.
Proof. intros (rid & ap & sk & n & ex & q & Hin & Hr). exists rid, ap, sk, n, ex, q. split; [by right|done]. Qed.

(** The books of a service that came to be by a run. *)
Record books_ok (vk : VerifyingKey) (tr : list label) (v : Svc) : Prop := mkBooks {
  key_kept : verifying_key v = vk;
  records_keyed pid record : proposals v !! pid = Some record -> Proposal.id (proposal record) = pid;
  requests_known rid pid : request_to_proposal v !! rid = Some pid ->
    exists q, Flow.store (flow v) !! rid = Some q /\ Request.proposal_id (Request.proposal q) = pid /\
              Request.requester_id q = Request.session_id (Request.proposal q);
  grants_mandated pid g : grants v !! pid = Some g -> mandated tr vk pid g;
  signed_resolved rid : rid ∈ signed_requests tr ->
    exists q, Flow.store (flow v) !! rid = Some q /\ Request.status q = Request.Approved;
  signed_once : NoDup (signed_requests tr);
  spent_once : NoDup (written_nonces tr);
  spent_by_writes : length (written_nonces tr) = length (writes tr);
  spent_signed : written_nonces tr ⊆ signed_nonces tr;
  spent_used nc : nc ∈ written_nonces tr -> Grant.used (apply_nonces v) nc = true
}.

Lemma books_silent vk tr (v v' : Svc) : same_books v v' -> books_ok vk tr v -> books_ok vk (Silent :: tr) v'.
Proof.
  intros (Hf & Hn & Hk & _ & Hp & Hg & Hr) []. constructor; rewrite ?Hf, ?Hn, ?Hk, ?Hp, ?Hg, ?Hr; auto using mandated_later.
Qed.

Lemma books_idle vk tr (v : Svc) : books_ok vk tr v -> books_ok vk (Silent :: tr) v.
Proof. by apply books_silent. Qed.

Lemma books_new f s n vk p seq : books_ok vk [] (service_new f s n vk p seq).
Proof. constructor; simpl; try done; [by intros ? ?%elem_of_nil|constructor|constructor|by intros ? ?%elem_of_nil]. Qed.

Lemma books_propose vk tr (v v' : Svc) sql rows rl sid (clock : C) r :
  proposing v sql rows rl sid clock = (v', r) -> books_ok vk tr v -> books_ok vk (Silent :: tr) v'.
Proof.
  unfold propose. destruct (DryRun.classify parse_sql sql) as [[k rel]|e]; simpl.
  - intros [= <- _] []. constructor; simpl; auto using mandated_later.
    intros pid record. rewrite lookup_insert_Some. intros [[<- <-]|[_ ?]]; [done|auto].
  - destruct (audit_refusal_then _ _ _ _ _ _ _) as [v1 err] eqn:Ea. intros [= <- _]. by eapply books_silent, refusal_books.
Qed.

Lemma books_dry_run vk tr (v v' : Svc) pid (rh rh' : R) (clock : C) r :
  rehearsing v pid rh clock = (rh', (v', r)) -> books_ok vk tr v -> books_ok vk (Silent :: tr) v'.
Proof.
  unfold dry_run. destruct (live_record v pid clock) as [record|] eqn:El; [|intros [= _ <- _]; apply books_idle].
  apply live_record_some in El. rewrite El.
  destruct (DryRun.dry_run _ _ _ _ _ _) as [rh1 [br|e]]; simpl.
  - destruct (pk_set_checksum (affected br) !! relation record) as [cs|]; simpl.
    + intros [= _ <- _] []. constructor; simpl; auto using mandated_later.
      intros pid' record'. rewrite lookup_insert_Some. intros [[<- <-]|[_ ?]]; [simpl; by apply records_keyed0|auto].
    + destruct (audit_refusal_then _ _ _ _ _ _ _) as [v1 err] eqn:Ea. intros [= _ <- _]. by eapply books_silent, refusal_books.
  - destruct (audit_refusal_then _ _ _ _ _ _ _) as [v1 err] eqn:Ea. intros [= _ <- _]. by eapply books_silent, refusal_books.
Qed.

Lemma books_elevate vk tr (v v' : Svc) pid reason (clock : C) r :
  elevating v pid reason clock = Some (v', r) -> books_ok vk tr v -> books_ok vk (Silent :: tr) v'.
Proof.
  unfold request_elevation. destruct (live_record v pid clock) as [record|] eqn:El; [|intros [= <- _]; apply books_idle].
  apply live_record_some in El. destruct (dry_state record) as [dry|]; [|intros [= <- _]; apply books_idle].
  destruct (binding_proposal _ record dry) as [p|] eqn:Ebp; simpl; [|done].
  destruct (add_u64 _ _ _) as [n|]; simpl; [|done].
  destruct (Flow.request_elevation _ _ _ _ _ _ _ _) as [[[s f] out]|] eqn:Ef; simpl; [|done].
  apply Flow.elevation_spec in Ef as [_ Hout].
  assert (Request.proposal_id p = Proposal.id (proposal record) /\ Request.session_id p = session_id record) as [Hpid Hsid].
  { unfold binding_proposal in Ebp. apply bind_Some in Ebp as (c1 & _ & (c2 & _ & [= <-])%bind_Some). done. }
  destruct out as [out|e]; intros [= <- _] [].
  - destruct Hout as (Hfresh & _ & Hst & _).
    constructor; simpl; auto using mandated_later.
    + intros rid pid'. rewrite Hst, lookup_insert_Some. intros [[<- <-]|[Hne Hr]].
      * rewrite lookup_insert_eq. eexists. split; [done|]. simpl. by rewrite Hpid, Hsid; auto.
      * rewrite lookup_insert_ne by done. auto.
    + intros rid Hrid. destruct (signed_resolved0 rid Hrid) as (q & Hq & Hs). exists q. rewrite Hst.
      rewrite lookup_insert_ne; [done|]. intros Heq. simpl in Hfresh. rewrite Heq in Hfresh. congruence.
  - constructor; simpl; auto using mandated_later; rewrite Hout; auto.
Qed.

Lemma books_approve vk tr (v v' : Svc) rid approver sk nonce ttl (clock : C) r :
  approving v rid approver sk nonce ttl clock = (v', r) -> books_ok vk tr v ->
  books_ok vk (approval_label v v' rid approver sk nonce ttl clock r :: tr) v'.
Proof.
  unfold approve. case_bool_decide as Hvk; simpl; [|intros [= <- <-]; apply books_idle].
  destruct (request_to_proposal v !! rid) as [pid|] eqn:Erq; [|intros [= <- <-]; apply books_idle].
  destruct (Flow.approve _ _ _ _ _ _ _ _ _ _ _ _) as [[s f] out] eqn:Ef. apply Flow.approve_spec in Ef.
  destruct out as [g|e]; intros [= <- <-] Hbooks.
  - destruct Ef as (q & (Hq & Hpend & _ & _ & Hne) & -> & ->). destruct Hbooks. simpl in Hq, Hne.
    destruct (requests_known0 rid pid Erq) as (q' & Hq' & Hpid & Hreq). simplify_eq.
    constructor; simpl; auto.
    + intros rid' pid' Hr. destruct (decide (rid' = rid)) as [->|Hneq].
      * rewrite lookup_insert_eq. eexists. split; [done|]. simpl. simplify_eq. done.
      * rewrite lookup_insert_ne by done. auto.
    + intros pid' g. rewrite lookup_insert_Some. intros [[<- <-]|[_ Hg]]; [|by apply mandated_later, grants_mandated0].
      do 6 eexists. split; [rewrite Erq, Hq; simpl; rewrite lookup_insert_eq; by left|].
      split; [congruence|]. split; [done|]. by split_and!.
    + intros rid'. destruct (decide (rid' = rid)) as [->|Hneq].
      * intros _. rewrite lookup_insert_eq. eexists. split; [done|]. done.
      * rewrite lookup_insert_ne by done. rewrite elem_of_cons. intros [?|Hr]; [done|auto].
    + constructor; [|done]. intros Hin. destruct (signed_resolved0 rid Hin) as (q2 & Hq2 & Happ). congruence.
    + intros nc Hnc. right. by apply spent_signed0.
  - destruct Ef as [-> _]. eapply books_silent; [|done]. done.
Qed.

(** A write of the run, with what the guarded apply established. *)
Lemma write_spec (v v' : Svc) pid rows token (conn conn' : X) (b b' : B) (clock : C) r :
  Apply.quiet (W:=X) (B:=B) -> Apply.ready conn ->
  applying_ v pid rows token conn b clock = Some (b', (conn', (v', r))) ->
  Apply.committed conn' <> Apply.committed conn ->
  exists record dry g changes wal,
    proposals v !! pid = Some record /\ Proposal.is_expired (proposal record) clock = false /\
    dry_state record = Some dry /\ rows = total_rows dry /\ grants v !! pid = Some g /\
    Grant.verify_for_apply sha256 verify_strict signature_from_bytes hex_decode g
      (GrantedApply.live_binding g (live_request record pid) (blast_radius dry)) (verifying_key v) (apply_nonces v) clock =
      (apply_nonces v', Ok tt) /\
    Apply.committed conn' = Apply.committed conn ++ [(changes, wal)] /\
    Apply.live_rows changes <= max_rows (Grant.cap (Grant.binding g)) /\
    wal <= max_wal_bytes (Grant.cap (Grant.binding g)).
Proof.
  intros Hq Hrdy Ha Hne. destruct (apply_spec _ _ _ _ _ _ _ _ _ _ _ Ha)
    as [(_ & -> & _)|(record & dry & g & nonces & res & r0 & H1r & H2r & H3r & H4r & _ & H5r & Hatt & Hset & _)]; [done|].
  destruct (GrantedApply.attempt_log _ _ _ _ _ _ _ _ _ _ _ _ _ _ _ _ _ _ _ _ _ _ _ _ _ Hq Hrdy Hatt)
    as [?|(changes & wal & Hc & Hr & Hw & _ & _ & Hv)]; [done|].
  apply settle_books in Hset as (_ & Hn & _). exists record, dry, g, changes, wal. rewrite Hn. by split_and!.
Qed.

Lemma books_apply vk tr (v v' : Svc) pid rows token (conn conn' : X) (b b' : B) (clock : C) r :
  applying_ v pid rows token conn b clock = Some (b', (conn', (v', r))) -> books_ok vk tr v -> books_ok vk (Silent :: tr) v'.
Proof.
  intros Ha. destruct (apply_spec _ _ _ _ _ _ _ _ _ _ _ Ha)
    as [(-> & _)|(record & dry & g & nonces & res & r0 & _ & _ & _ & _ & _ & _ & Hatt & Hset & _)]; [apply books_idle|].
  apply settle_books in Hset as (Hf & Hn & Hk & Hrq & Hpg). intros [].
  constructor; rewrite ?Hf, ?Hk, ?Hrq; simpl; auto.
  - intros pid' record'. destruct Hpg as [[-> _]|[-> _]]; simpl; [auto|]. intros [_ ?]%lookup_delete_Some. auto.
  - intros pid' g'. destruct Hpg as [[_ ->]|[_ ->]]; simpl; [|intros [_ ?]%lookup_delete_Some]; auto using mandated_later.
  - intros nc Hnc. rewrite Hn. eapply GrantedApply.attempt_nonces; [exact Hatt|]. by apply spent_used0.
Qed.

Lemma books_write vk tr (v v' : Svc) pid rows token (conn conn' : X) (b b' : B) (clock : C) r :
  Apply.quiet (W:=X) (B:=B) -> Apply.ready conn ->
  applying_ v pid rows token conn b clock = Some (b', (conn', (v', r))) ->
  Apply.committed conn' <> Apply.committed conn -> books_ok vk tr v -> books_ok vk (write_label v pid conn conn' :: tr) v'.
Proof.
  intros Hq Hrdy Ha Hne Hb. pose proof (books_apply _ _ _ _ _ _ _ _ _ _ _ _ _ Ha Hb) as [].
  destruct (write_spec _ _ _ _ _ _ _ _ _ _ _ Hq Hrdy Ha Hne) as (record & dry & g & _ & _ & _ & _ & _ & _ & Hg & Hv & _).
  apply Grant.verify_ok_iff in Hv as (_ & _ & _ & Hfresh & Hn'). destruct Hb.
  destruct (grants_mandated1 pid g Hg) as (rid & ap & sk & n & ex & q & Hin & _ & -> & _). simpl in Hfresh, Hn'.
  unfold write_label. constructor; auto.
  - intros pid' g' Hg'. destruct (grants_mandated0 pid' g' Hg') as (rid' & ap' & sk' & n' & ex' & q' & Hin' & Hm).
    do 6 eexists. split; [|exact Hm]. apply elem_of_cons in Hin' as [?|?]; [done|by right].
  - simpl. rewrite Hg. simpl. constructor; [|done]. intros Hs. specialize (spent_used1 n Hs). congruence.
  - simpl. rewrite Hg. simpl. by rewrite <- spent_by_writes1.
  - simpl. rewrite Hg. intros x [->|Hx]%elem_of_cons; [|by apply spent_signed1].
    apply list_elem_of_omap. eexists. split; [exact Hin|done].
  - simpl. rewrite Hg, Hn'. intros x [->|Hx]%elem_of_cons; [apply Grant.consume_marks|]. by apply Grant.consume_keeps, spent_used1.
Qed.

Lemma run_books f s n vk p seq tr v :
  Apply.quiet (W:=X) (B:=B) -> run (service_new f s n vk p seq) tr v -> books_ok vk tr v.
Proof.
  intros Hq. induction 1 as [|tr v l v' Hrun IH Hstep]; [apply books_new|].
  destruct Hstep; eauto using books_propose, books_dry_run, books_elevate, books_approve, books_apply, books_write.
Qed.

Lemma books_bound vk tr v : books_ok vk tr v -> (length (writes tr) <= length (signed_requests tr))%nat.
Proof.
  intros []. assert (length (signed_nonces tr) = length (signed_requests tr)) as <-.
  { clear. unfold signed_nonces, signed_requests. induction tr as [|[] tr IH]; [done|exact IH|exact (f_equal Datatypes.S IH)|exact IH]. }
  rewrite <- spent_by_writes0. by apply submseteq_length, NoDup_submseteq.
Qed.

(** An apply adds one transaction to the log, or none. *)
Lemma apply_log (v v' : Svc) pid rows token (conn conn' : X) (b b' : B) (clock : C) r :
  Apply.quiet (W:=X) (B:=B) -> Apply.ready conn ->
  applying_ v pid rows token conn b clock = Some (b', (conn', (v', r))) ->
  Apply.committed conn' = Apply.committed conn \/ exists x, Apply.committed conn' = Apply.committed conn ++ [x].
Proof.
  intros Hq Hrdy Ha. destruct (apply_spec _ _ _ _ _ _ _ _ _ _ _ Ha)
    as [(_ & -> & _)|(record & dry & g & nonces & res & r0 & _ & _ & _ & _ & _ & _ & Hatt & _)]; [by left|].
  destruct (GrantedApply.attempt_log _ _ _ _ _ _ _ _ _ _ _ _ _ _ _ _ _ _ _ _ _ _ _ _ _ Hq Hrdy Hatt)
    as [?|(changes & wal & Hc & _)]; [by left|right; by exists (changes, wal)].
Qed.

(** Every recorded statement is one UPDATE or DELETE of one table. *)
Definition certified (v : Svc) : Prop :=
  forall pid record, proposals v !! pid = Some record ->
    exists kind target, DryRun.classify parse_sql (Proposal.statement (proposal record)) = Ok (kind, target).

Lemma certified_same (v v' : Svc) : proposals v' = proposals v -> certified v -> certified v'.
Proof. intros E Hc pid record. rewrite E. apply Hc. Qed.

Lemma apply_certified (v v' : Svc) pid rows token (conn conn' : X) (b b' : B) (clock : C) r :
  certified v -> applying_ v pid rows token conn b clock = Some (b', (conn', (v', r))) -> certified v'.
Proof.
  intros Hc [(-> & _)|(record & dry & g & nonces & res & r0 & _ & _ & _ & _ & _ & _ & _ & Hset & _)]%apply_spec; [done|].
  apply settle_books in Hset as (_ & _ & _ & _ & Hpg). intros pid' record'.
  destruct Hpg as [[-> _]|[-> _]]; simpl; [apply Hc|]. intros [_ ?]%lookup_delete_Some. by eapply Hc.
Qed.

Lemma step_certified v l v' : certified v -> step v l v' -> certified v'.
Proof.
  intros Hc Hs. revert Hc. destruct Hs as [u sql rows rl sid clock v1 r E|u pid rh rh' clock v1 r E|u pid reason clock v1 r E
    |u rid ap sk nonce ttl clock v1 r E|u pid rows token conn conn' b b' clock v1 r _ E _
    |u pid rows token conn conn' b b' clock v1 r _ E _]; intros Hc.
  - revert E. unfold propose. destruct (DryRun.classify parse_sql sql) as [[k rel]|e] eqn:Ec; simpl.
    + intros [= <- _] pid record. simpl. rewrite lookup_insert_Some. intros [[_ <-]|[_ ?]]; [exists k, rel; exact Ec|by eapply Hc].
    + destruct (audit_refusal_then _ _ _ _ _ _ _) as [u1 err] eqn:Ea. intros [= <- _].
      apply refusal_books in Ea as (_ & _ & _ & _ & Hp & _). by apply (certified_same u).
  - revert E. unfold dry_run. destruct (live_record u pid clock) as [record|] eqn:El; [|by intros [= _ <- _]].
    apply live_record_some in El. rewrite El. destruct (DryRun.dry_run _ _ _ _ _ _) as [rh1 [br|e]]; simpl.
    + destruct (pk_set_checksum (affected br) !! relation record) as [cs|]; simpl.
      * intros [= _ <- _] pid' record'. simpl. rewrite lookup_insert_Some. intros [[_ <-]|[_ ?]]; [exact (Hc _ _ El)|by eapply Hc].
      * destruct (audit_refusal_then _ _ _ _ _ _ _) as [u1 err] eqn:Ea. intros [= _ <- _].
        apply refusal_books in Ea as (_ & _ & _ & _ & Hp & _). by apply (certified_same u).
    + destruct (audit_refusal_then _ _ _ _ _ _ _) as [u1 err] eqn:Ea. intros [= _ <- _].
      apply refusal_books in Ea as (_ & _ & _ & _ & Hp & _). by apply (certified_same u).
  - revert E. unfold request_elevation. destruct (live_record u pid clock) as [record|]; [|by intros [= <- _]].
    destruct (dry_state record) as [dry|]; [|by intros [= <- _]].
    destruct (binding_proposal _ record dry) as [p|]; simpl; [|done]. destruct (add_u64 _ _ _) as [n|]; simpl; [|done].
    destruct (Flow.request_elevation _ _ _ _ _ _ _ _) as [[[s1 f1] out]|]; simpl; [|done].
    destruct out; intros [= <- _]; by apply (certified_same u).
  - revert E. unfold approve. case_bool_decide; simpl; [|by intros [= <- _]].
    destruct (request_to_proposal u !! rid); [|by intros [= <- _]].
    destruct (Flow.approve _ _ _ _ _ _ _ _ _ _ _ _) as [[s1 f1] out]. destruct out; intros [= <- _]; by apply (certified_same u).
  - by eapply apply_certified.
  - by eapply apply_certified.
Qed.

Lemma run_certified v0 tr v : certified v0 -> run v0 tr v -> certified v.
Proof. intros Hc. induction 1; [done|]. by eapply step_certified. Qed.

Lemma new_certified f s n vk p seq : certified (service_new f s n vk p seq).
Proof. intros pid record. simpl. by rewrite lookup_empty. Qed.

Lemma run_split v0 after l before v :
  run v0 (after ++ l :: before) v -> exists v1 v2, run v0 before v1 /\ step v1 l v2.
Proof.
  revert v. induction after as [|l' after IH]; intros v Hr; inversion Hr; subst; [by eauto|]. by eapply IH.
Qed.

Lemma step_wrote (v v' : Svc) pid orecord og txs :
  step v (Wrote pid orecord og txs) v' ->
  exists rows token (conn conn' : X) (b b' : B) (clock : C) r,
    Apply.ready conn /\ applying_ v pid rows token conn b clock = Some (b', (conn', (v', r))) /\
    Apply.committed conn' <> Apply.committed conn /\ orecord = proposals v !! pid /\ og = grants v !! pid /\
    txs = drop (length (Apply.committed conn)) (Apply.committed conn').
Proof.
  intros Hst. inversion Hst; subst; [match goal with r : result _ ApproveResult |- _ => by destruct r end|]. by do 8 eexists.
Qed.

(** C1: no write without its own signature.  In every run of the service from its start,
    whatever the agent, the operator, the rehearsals and the connections do: an apply that
    changed the database added exactly one transaction, for a recorded proposal, under a
    grant held for it; that very grant was signed earlier in the run, with a key of the
    configured public key, on a request the store held for that same proposal, by an
    approver who is not the session that asked for it.  No request is signed twice, no two
    writes are made under grants of the same nonce, and there are at most as many writes
    as there were signatures. *)
Theorem every_write_has_its_signature (f : ApprovalFlow W NF VerifyingKey) (s : S) (n : NA) (vk : VerifyingKey)
    (p : Config.PolicyConfig) (seq : Z) (tr : list label) (v : Svc) :
  Apply.quiet (W:=X) (B:=B) -> run (service_new f s n vk p seq) tr v ->
  NoDup (signed_requests tr) /\ NoDup (written_nonces tr) /\
  (length (writes tr) <= length (signed_requests tr))%nat /\
  forall after pid orecord og txs before, tr = after ++ Wrote pid orecord og txs :: before ->
    exists record g tx rid approver sk nonce expires q,
      orecord = Some record /\ og = Some g /\ txs = [tx] /\ Proposal.id (proposal record) = pid /\
      Signed rid approver sk nonce expires (Some q) (Some g) ∈ before /\ verifying_key_of sk = vk /\
      g = sign (Request.to_binding (Request.proposal q) nonce expires) sk /\
      Request.proposal_id (Request.proposal q) = pid /\ Request.requester_id q = Request.session_id (Request.proposal q) /\
      approver <> Request.session_id (Request.proposal q).
Proof.
  intros Hq Hrun. pose proof (run_books _ _ _ _ _ _ _ _ Hq Hrun) as Hb.
  do 2 (split; [by destruct Hb|]). split; [by eapply books_bound|].
  intros after pid orecord og txs before ->. apply run_split in Hrun as (v1 & v2 & Hrun & Hst).
  apply step_wrote in Hst as (rows & token & conn & conn' & b & b' & clock & r & Hrdy & Ha & Hne & -> & -> & ->).
  destruct (write_spec _ _ _ _ _ _ _ _ _ _ _ Hq Hrdy Ha Hne) as (record & _ & g & changes & wal & Hrec & _ & _ & _ & Hg & _ & Hc & _).
  pose proof (run_books _ _ _ _ _ _ _ _ Hq Hrun) as Hb1.
  destruct (grants_mandated _ _ _ Hb1 pid g Hg) as (rid & ap & sk & nc & ex & q & Hin & Hk & Hs & Hp & Hr & Hd).
  exists record, g, (changes, wal), rid, ap, sk, nc, ex, q. split_and!; auto; [|by apply (records_keyed _ _ _ Hb1)|congruence].
  by rewrite Hc, drop_app_length.
Qed.

(** C2: what a write was approved as.  An apply that changed the database names a proposal
    that is recorded and has not expired, whose dry run the caller confirmed.  The grant the
    service held for it was signed in the run, before its expiry, on the request the store
    held then: unless SHA-256 collides on the two bindings compared, the statement, role,
    session and dry-run position of that request are those of the record (the length
    fields of both bindings being in range), so the approver is not the proposing session;
    and the cap of that request bounds the one transaction that was committed. *)
Theorem write_is_what_was_approved (f : ApprovalFlow W NF VerifyingKey) (s : S) (n : NA) (vk : VerifyingKey)
    (p : Config.PolicyConfig) (seq : Z) (tr : list label) (v v' : Svc) (pid : string) (rows : Z) (token : option string)
    (conn conn' : X) (b b' : B) (clock : C) (r : result RpcError ApplyResult) :
  Apply.quiet (W:=X) (B:=B) -> run (service_new f s n vk p seq) tr v -> Apply.ready conn ->
  applying_ v pid rows token conn b clock = Some (b', (conn', (v', r))) ->
  Apply.committed conn' <> Apply.committed conn ->
  exists record dry g rid approver sk nonce expires q changes wal,
    proposals v !! pid = Some record /\ Proposal.is_expired (proposal record) clock = false /\
    dry_state record = Some dry /\ rows = total_rows dry /\ grants v !! pid = Some g /\
    Signed rid approver sk nonce expires (Some q) (Some g) ∈ tr /\ verifying_key_of sk = vk /\
    g = sign (Request.to_binding (Request.proposal q) nonce expires) sk /\ now_unix_millis clock < expires /\
    (let shown := Request.to_binding (Request.proposal q) nonce expires in
     let live := GrantedApply.live_binding g (live_request record pid) (blast_radius dry) in
     (Grant.binding_preimage shown <> Grant.binding_preimage live /\
      sha256 (Grant.binding_preimage shown) = sha256 (Grant.binding_preimage live)) \/
     (Grant.binding_fits shown -> Grant.binding_fits live ->
      Request.statement_text (Request.proposal q) = Proposal.statement (proposal record) /\
      Request.role (Request.proposal q) = role record /\ Request.session_id (Request.proposal q) = session_id record /\
      Request.dry_run_lsn (Request.proposal q) = clone_lsn (blast_radius dry) /\ approver <> session_id record)) /\
    Apply.committed conn' = Apply.committed conn ++ [(changes, wal)] /\
    Apply.live_rows changes <= max_rows (Request.cap (Request.proposal q)) /\
    wal <= max_wal_bytes (Request.cap (Request.proposal q)).
Proof.
  intros Hq Hrun Hrdy Ha Hne.
  destruct (write_spec _ _ _ _ _ _ _ _ _ _ _ Hq Hrdy Ha Hne)
    as (record & dry & g & changes & wal & Hrec & Hexp & Hdry & Hrows & Hg & Hv & Hc & Hl & Hw).
  apply run_books in Hrun; [|done].
  destruct (grants_mandated _ _ _ Hrun pid g Hg) as (rid & ap & sk & nc & ex & q & Hin & Hk & Hs & Hp & Hr & Hd).
  exists record, dry, g, rid, ap, sk, nc, ex, q, changes, wal. subst g.
  apply Grant.verify_ok_iff in Hv as (_ & Hh & Ht & _). simpl in Hh, Ht. split_and!; auto.
  match type of Hh with Grant.binding_hash _ ?x = Grant.binding_hash _ ?y =>
    destruct (decide (Grant.binding_preimage x = Grant.binding_preimage y)) as [E|E]; [right|left; by split] end.
  intros Hf1 Hf2. apply Grant.binding_preimage_inj in E; [|done|done]. injection E as. rewrite Hr in Hd. split_and!; congruence.
Qed.

(** *** An approved proposal reaches the guards *)

(** A recorded proposal with the measurement its dry run cached. *)
Definition rehearsed (pid : string) (record : ProposalRecord) (dry : DryRunState) : Prop :=
  Proposal.id (proposal record) = pid /\ dry_state record = Some dry /\
  BlastRadius.proposal_id (blast_radius dry) = pid /\
  pk_set_checksum (affected (blast_radius dry)) !! relation record <> None /\ record_in_range (blast_radius dry).

(** The suggested cap admits the measured footprint. *)
Lemma binding_proposal_admits pid record dry :
  rehearsed pid record dry ->
  exists rows wal n,
    binding_proposal overflow_checks record dry =
      Some (Request.mkProposal pid (Proposal.statement (proposal record)) [] (role record) (session_id record)
              (clone_lsn (blast_radius dry)) (mkWriteCap rows wal)) /\
    predicted_total_tuples overflow_checks (blast_radius dry) = Some n /\ n <= rows /\ wal_bytes (blast_radius dry) <= wal.
Proof.
  intros (<- & _ & _ & _ & Hr). destruct (predicted_in_range overflow_checks _ Hr) as (n & En & Hn).
  unfold binding_proposal, suggested_cap. rewrite En. simpl. do 3 eexists. do 2 (split; [done|]).
  pose proof (with_headroom_bounds (effective_headroom DEFAULT_ROW_HEADROOM) (Z.max n 1) ltac:(unfold in_u in *; lia)) as Hrow.
  pose proof (with_headroom_bounds (effective_headroom DEFAULT_WAL_HEADROOM) (wal_bytes (blast_radius dry)) (proj1 Hr)).
  cbn [max_rows max_wal_bytes]. lia.
Qed.

(** The grant signed for the binding of a rehearsed record passes the consistency check. *)
Lemma own_grant_consistent pid record dry p nonce expiry sk :
  rehearsed pid record dry -> binding_proposal overflow_checks record dry = Some p ->
  GrantedApply.consistency overflow_checks (sign (Request.to_binding p nonce expiry) sk) (live_request record pid)
    (relation record) (blast_radius dry) = Some (Ok tt).
Proof.
  intros Hr Hp. destruct (binding_proposal_admits _ _ _ Hr) as (rows & wal & k & Hb & En & Hk & Hw).
  rewrite Hb in Hp. injection Hp as <-. destruct Hr as (_ & _ & Hid & Hcs & _).
  unfold GrantedApply.consistency. simpl. rewrite Hid, bool_decide_eq_true_2 by done. simpl.
  rewrite bool_decide_eq_false_2 by done. rewrite En. simpl.
  by destruct (Z.ltb_spec rows k), (Z.ltb_spec wal (wal_bytes (blast_radius dry))); try lia.
Qed.

Lemma elevate_ok (v v1 : Svc) pid reason (clock : C) er record dry :
  proposals v !! pid = Some record -> dry_state record = Some dry ->
  elevating v pid reason clock = Some (v1, Ok er) ->
  exists p, binding_proposal overflow_checks record dry = Some p /\
    er_cap_max_rows er = max_rows (Request.cap p) /\ er_cap_max_wal_bytes er = max_wal_bytes (Request.cap p) /\
    request_to_proposal v1 !! er_request_id er = Some pid /\ proposals v1 = proposals v /\
    apply_nonces v1 = apply_nonces v /\ verifying_key v1 = verifying_key v /\ policy v1 = policy v /\
    exists q, Flow.store (flow v1) !! er_request_id er = Some q /\ Request.proposal q = p.
Proof.
  intros Hrec Hdry. unfold request_elevation, live_record. rewrite Hrec.
  destruct (Proposal.is_expired _ _); [done|]. rewrite Hdry.
  destruct (binding_proposal _ record dry) as [p|] eqn:Ebp; simpl; [|done].
  destruct (add_u64 _ _ _) as [k|]; simpl; [|done].
  destruct (Flow.request_elevation _ _ _ _ _ _ _ _) as [[[s1 f1] out]|] eqn:Ef; simpl; [|done].
  apply Flow.elevation_spec in Ef as [_ Hout]. destruct out as [out|e]; intros [= <- <-]. simpl.
  destruct Hout as (_ & _ & Hst & _). exists p. split_and!; auto; [by rewrite lookup_insert_eq|].
  rewrite Hst. rewrite lookup_insert_eq. by eexists.
Qed.

Lemma approve_ok (v v1 : Svc) rid approver sk nonce ttl (clock : C) ar pid :
  request_to_proposal v !! rid = Some pid -> approving v rid approver sk nonce ttl clock = (v1, Ok ar) ->
  verifying_key_of sk = verifying_key v /\
  exists q, Flow.store (flow v) !! rid = Some q /\
    grants v1 !! pid = Some (sign (Request.to_binding (Request.proposal q) nonce (sat_add (now_unix_millis clock) ttl)) sk) /\
    proposals v1 = proposals v /\ apply_nonces v1 = apply_nonces v /\ verifying_key v1 = verifying_key v /\ policy v1 = policy v.
Proof.
  intros Hrq. unfold approve. case_bool_decide as Hvk; simpl; [|done]. rewrite Hrq.
  destruct (Flow.approve _ _ _ _ _ _ _ _ _ _ _ _) as [[s1 f1] out] eqn:Ef. apply Flow.approve_spec in Ef.
  destruct out as [g|e]; intros [= <- <-]. destruct Ef as (q & (Hq & _) & -> & ->).
  split; [done|]. exists q. simpl. by rewrite lookup_insert_eq.
Qed.

(** C19: an approved proposal is let through.  When a rehearsed proposal is elevated, and
    the request is approved, then an apply that confirms the rows, in time and with a
    nonce not yet spent, and whose predicate the gate admits, runs the guarded apply with
    the cap the approver was shown; if that commits, the caller is answered with the rows
    written (or that the audit append failed) and the proposal and its grant are gone. *)
Theorem approved_proposal_reaches_guards (v v1 v2 : Svc) (pid reason approver nonce : string) (ttl : Z)
    (sk : SigningKey) (clock1 clock2 clock3 : C) (record : ProposalRecord) (dry : DryRunState)
    (er : RequestElevationResult) (ar : ApproveResult) (conn conn1 conn' : X) (b b' : B) (applied : Apply.AppliedWrite) :
  (forall l, hex_decode (hex_encode l) = Some l) ->
  (forall sg, length (signature_to_bytes sg) = 64%nat /\ signature_from_bytes (signature_to_bytes sg) = sg) ->
  (forall k m, verify_strict (verifying_key_of k) m (key_sign k m) = true) ->
  proposals v !! pid = Some record -> rehearsed pid record dry ->
  elevating v pid reason clock1 = Some (v1, Ok er) ->
  approving v1 (er_request_id er) approver sk nonce ttl clock2 = (v2, Ok ar) ->
  Proposal.is_expired (proposal record) clock3 = false ->
  now_unix_millis clock3 < sat_add (now_unix_millis clock2) ttl -> Grant.used (apply_nonces v) nonce = false ->
  GrantedApply.predicate_gate parse_sql visit_below to_lowercase (live_request record pid) (relation record) conn = (conn1, None) ->
  Apply.guarded_apply overflow_checks sha256_hex debug_str pid (kind record) (relation record) (blast_radius dry)
    (mkWriteCap (er_cap_max_rows er) (er_cap_max_wal_bytes er))
    (GrantedApply.bridged_pitr (GrantedApply.from_policy (policy v))) conn1 b clock3 = Some (b', (conn', Ok applied)) ->
  exists v3 r, applying_ v2 pid (total_rows dry) None conn b clock3 = Some (b', (conn', (v3, r))) /\
    proposals v3 !! pid = None /\ grants v3 !! pid = None /\
    ((exists rev, r = Ok (mkApplyResult true (Apply.a_rows_written applied) rev)) \/
     exists m, r = Err (error AuditFailed m)).
Proof.
  intros Hhex Hsig Hver Hrec Hreh Hel Hap Hexp Hnow Hfresh Hgate Hga.
  destruct (elevate_ok _ _ _ _ _ _ _ _ Hrec (proj1 (proj2 Hreh)) Hel)
    as (p & Hp & Hrows & Hwal & Hrq & Hp1 & Hn1 & Hk1 & Hpo1 & q & Hq & Hqp).
  destruct (approve_ok _ _ _ _ _ _ _ _ _ _ Hrq Hap) as (Hkey & q' & Hq' & Hg & Hp2 & Hn2 & Hk2 & Hpo2).
  simplify_eq. set (g := sign _ sk) in Hg.
  unfold apply, apply_returning_inverse, live_record. rewrite Hp2, Hp1, Hrec, Hexp, (proj1 (proj2 Hreh)), Z.eqb_refl.
  cbn [negb]. rewrite Hg. unfold GrantedApply.guarded_apply_with_grant. rewrite Hgate.
  assert (GrantedApply.consistency overflow_checks g (live_request record pid) (relation record) (blast_radius dry) =
          Some (Ok tt)) as -> by by apply own_grant_consistent.
  cbn [mbind option_bind].
  assert (GrantedApply.live_binding g (live_request record pid) (blast_radius dry) = Grant.binding g) as Elive.
  { destruct (binding_proposal_admits _ _ _ Hreh) as (rows & wal & k & Hb & _). rewrite Hb in Hp. injection Hp as Hp.
    unfold g. rewrite <- Hp. done. }
  pose proof (Grant.signed_grant_accepted sha256 key_sign verify_strict signature_to_bytes signature_from_bytes hex_encode
    hex_decode sk (verifying_key_of sk) (Grant.binding g) (apply_nonces v) clock3 Hhex Hsig (Hver sk) Hnow Hfresh) as Hacc.
  rewrite Elive, Hk2, <- Hkey, Hn2, Hn1. change (sign (Grant.binding g) sk) with g in Hacc.
  destruct (Grant.verify_for_apply _ _ _ _ g (Grant.binding g) _ _ clock3) as [nonces vr]. simpl in Hacc. subst vr.
  assert (mkWriteCap (er_cap_max_rows er) (er_cap_max_wal_bytes er) = Grant.cap (Grant.binding g)) as Ecap.
  { rewrite Hrows, Hwal. simpl. by destruct (Request.cap _). }
  rewrite Ecap in Hga. rewrite Hpo2, Hpo1. cbn [GrantedApply.proposal_id live_request]. rewrite Hga. cbn [mbind option_bind result_map_err result_bind].
  unfold settle, audit_apply, audit_decision. destruct (sink_append _ _ _) as [s1 [rec|e]]; simpl;
    (do 2 eexists; split; [done|]; simpl; rewrite !lookup_delete_eq; split; [done|]; split; [done|]); eauto.
Qed.
End spec.

(** *** The audit of an apply *)

(** The entry the service appends for a decision on a recorded request. *)
Definition apply_entry (record : ProposalRecord) (pid : string) (d : Decision) (code : string) (reason : option string) : NewEntry :=
  decision_entry (Proposal.statement (proposal record)) (role record) (session_id record) (Some pid) d code reason.

Lemma settle_audited (canonical : AuditChain.AuditPayload -> list byte) (chain_hash : list byte -> string)
    (debug_str : string -> string) {S W NA NF VerifyingKey C : Type} `{AuditSink.SinkLaws canonical chain_hash S, Clock C}
    (v v' : Service S W NA NF VerifyingKey) pid record res (clock : C) r rs :
  AuditSink.sink_ok canonical chain_hash (sink v) ->
  (forall d code reason, AuditSink.appendable canonical chain_hash (apply_entry record pid d code reason) (now_unix_millis clock)) ->
  AuditSink.load_chain_mut (sink v) = Ok rs ->
  settle debug_str v pid (live_request record pid) res clock = (v', r) ->
  (exists rec d code reason,
     AuditSink.load_chain_mut (sink v') = Ok (rs ++ [rec]) /\
     AuditSink.carries rec (apply_entry record pid d code reason) (now_unix_millis clock) /\
     AuditChain.follows canonical chain_hash rs rec /\
     (is_ok r = true /\ is_ok res = true /\ d = DAllow /\ code = "apply_committed"%string \/
      is_ok r = false /\ is_ok res = false /\ d = DBlock)) \/
  (exists m, r = Err (error AuditFailed m)) /\ AuditSink.load_chain_mut (sink v') = Ok rs.
Proof.
  intros Hok Happ Hrs. unfold settle, audit_apply, audit_decision.
  destruct res as [[applied bridged]|e]; destruct (sink_append _ _ _) as [s1 [rec|err]] eqn:Es; intros [= <- <-]; simpl in *.
  - left. apply (AuditSink.append_extends canonical chain_hash) in Es as (_ & Hc & rs' & Hr & Hr' & Hf); [|done|apply Happ].
    exists rec, DAllow, "apply_committed"%string. eexists. rewrite Hrs in Hr. injection Hr as <-. split_and!; [exact Hr'|exact Hc|done|]. left. done.
  - right. apply (AuditSink.append_fails canonical chain_hash) in Es as [_ ->]; [|done]. eauto.
  - left. apply (AuditSink.append_extends canonical chain_hash) in Es as (_ & Hc & rs' & Hr & Hr' & Hf); [|done|apply Happ].
    do 4 eexists. rewrite Hrs in Hr. injection Hr as <-. split_and!; [exact Hr'|exact Hc|done|]. right. done.
  - right. apply (AuditSink.append_fails canonical chain_hash) in Es as [_ ->]; [|done]. eauto.
Qed.

(** C20: no apply goes unrecorded.  An apply that changed the database, or that the caller
    is told succeeded, has added exactly one record to the chain, which follows it and
    carries the recorded statement, role, session and proposal: an ALLOW exactly when
    success is reported.  Otherwise the caller is told AUDIT_FAILED and the chain is as
    it was. *)
Theorem apply_leaves_a_record (canonical : AuditChain.AuditPayload -> list byte) (chain_hash : list byte -> string)
    (parse_sql : string -> result string (list Predicate.Statement))
    (visit_below : Predicate.Expr -> list Predicate.Expr) (to_lowercase : string -> string)
    (sha256 : list byte -> list byte) {VerifyingKey Signature : Type}
    (verify_strict : VerifyingKey -> list byte -> Signature -> bool)
    (signature_from_bytes : list byte -> Signature) (hex_decode : string -> option (list byte))
    (overflow_checks : bool) (sha256_hex : list byte -> string) (debug_str : string -> string)
    {S W NA NF C X B : Type} `{AuditSink.SinkLaws canonical chain_hash S, WebhookSender W, NonceStore NA, Clock C,
                               Apply.ApplyConnLaws X, ApplyBarrier B X}
    (v v' : Service S W NA NF VerifyingKey) (pid : string) (rows : Z) (token : option string)
    (conn conn' : X) (b b' : B) (clock : C) (r : result RpcError ApplyResult) (rs : list AuditRecord) :
  AuditSink.sink_ok canonical chain_hash (sink v) ->
  (forall record d code reason, proposals v !! pid = Some record ->
     AuditSink.appendable canonical chain_hash (apply_entry record pid d code reason) (now_unix_millis clock)) ->
  AuditSink.load_chain_mut (sink v) = Ok rs ->
  apply parse_sql visit_below to_lowercase sha256 verify_strict signature_from_bytes hex_decode overflow_checks sha256_hex
    debug_str v pid rows token conn b clock = Some (b', (conn', (v', r))) ->
  Apply.committed conn' <> Apply.committed conn \/ is_ok r = true ->
  exists record, proposals v !! pid = Some record /\
    ((exists rec d code reason,
        AuditSink.load_chain_mut (sink v') = Ok (rs ++ [rec]) /\
        AuditSink.carries rec (apply_entry record pid d code reason) (now_unix_millis clock) /\
        AuditChain.follows canonical chain_hash rs rec /\
        (is_ok r = true /\ d = DAllow /\ code = "apply_committed"%string \/ is_ok r = false /\ d = DBlock)) \/
     (exists m, r = Err (error AuditFailed m)) /\ AuditSink.load_chain_mut (sink v') = Ok rs).
Proof.
  intros Hok Happ Hrs Ha Hdid.
  destruct (apply_spec _ _ _ _ _ _ _ _ _ _ _ _ _ _ _ _ _ _ _ _ _ Ha)
    as [(-> & -> & Hr)|(record & dry & g & nonces & res & r0 & Hrec & _ & _ & _ & _ & _ & _ & Hset & Hsame)].
  { destruct Hdid; congruence. }
  exists record. split; [done|].
  destruct (settle_audited canonical chain_hash debug_str (set_apply_nonces v nonces) _ _ _ _ _ _ _ Hok (fun d c m => Happ record d c m Hrec) Hrs Hset)
    as [(rec & d & code & reason & Hl & Hcar & Hfol & Hd)|[[m Hm] Hl]].
  - left. exists rec, d, code, reason. subst r. destruct r0 as [[? ?]|]; naive_solver.
  - right. split; [|done]. exists m. by subst.
Qed.

(** Over the Postgres sink the audit tail is always empty: its [load_chain] is an error,
    and an error is shown as no records. *)
Lemma pg_audit_tail_is_empty (canonical : AuditChain.AuditPayload -> list byte) (chain_hash : list byte -> string)
    (from_json : string -> option AuditChain.AuditPayload) {W NA NF VerifyingKey : Type}
    (v : Service AuditSink.PgSink W NA NF VerifyingKey) (limit : nat) :
  audit_records (H := AuditSink.PgSink_sink canonical chain_hash from_json) v limit = [].
Proof. unfold audit_records. simpl. by destruct limit. Qed.

(** ** A lifecycle to try them on *)

Module Demo.

(** Stand-ins for the primitives: the hash is the identity, a key is a byte that is its
    own verifying key, and a signature is the key's sum with the message's length. *)
Definition toy_sign (k : byte) (m : list byte) : byte := byte_of_Z (wrap_u 8 (Z_of_byte k + Z.of_nat (length m))).
Definition toy_verify (k : byte) (m : list byte) (s : byte) : bool := bool_decide (s = toy_sign k m).
Definition to_wire (s : byte) : list byte := replicate 64 s.
Definition of_wire (l : list byte) : byte := hd x00 l.
Definition hash (l : list byte) : list byte := l.
Definition unhex (s : string) : option (list byte) := Some (as_bytes s).

Definition parse := GrantedApply.demo_parse.
Definition rehearsal : DryRun.ScriptedRehearsal :=
  DryRun.mkScripted Predicate.sample_catalog None
    (Ok (DryRun.mkMeasurement (DryRun.mkAffectedTable "public.t" (Some "aa"%string) 1) []
           [DryRun.mkRelationEffect "public.t" (mkOpCounts 0 0 1)] [] [] 5 100 [] "0/1" 0)) [].
Definition conn : Apply.ScriptedConn :=
  Apply.mkScriptedConn (Ok (Apply.forward_new [Apply.row_of 7])) [Apply.mkChange "public.t" 0 0 1] 80 (Some "id"%string) [].
Definition at_ (t : Z) : MockClock := starting_at t.
Definition DemoSvc : Type := Service AuditSink.InMemorySink Webhook.RecordingWebhookSender (gset string) (gset string) byte.

#[global] Instance sink_instance : Sink AuditSink.InMemorySink :=
  AuditSink.InMemorySink_sink AuditSink.demo_canonical AuditSink.demo_hash.

Definition v0 : DemoSvc :=
  service_new (Flow.flow_new Webhook.recording_new x01 ∅) (AuditSink.mkInMemorySink []) ∅ x01 GrantedApply.demo_policy 0.
Definition proposed := propose parse (fun s => s) v0 "DELETE FROM t WHERE id = 7" None "pgb_applier" "sess-1" (at_ 1).
Definition pid : string := match proposed.2 with Ok p => pr_proposal_id p | Err _ => "" end.
Definition rehearsed_ := dry_run parse Predicate.below Text.to_ascii_lowercase (fun s => s) proposed.1 pid rehearsal (at_ 2).

(** The states of the lifecycle: proposed, rehearsed, elevated, approved, applied. *)
Definition v1 : DemoSvc := Eval vm_compute in proposed.1.
Definition v2 : DemoSvc := Eval vm_compute in rehearsed_.2.1.
Definition elevated := request_elevation true v2 pid "please" (at_ 3).
Definition v3 : DemoSvc := Eval vm_compute in match elevated with Some (v, _) => v | None => v0 end.
Definition elevation : RequestElevationResult :=
  Eval vm_compute in match elevated with Some (_, Ok e) => e | _ => mkElevationResult "" 0 0 0 [] end.
Definition approved := approve hash (fun k => k) toy_sign to_wire of_bytes v3 (er_request_id elevation) "alice" x01 "n-1" 1000 (at_ 4).
Definition v4 : DemoSvc := Eval vm_compute in approved.1.
Definition apply_ (v : DemoSvc) :=
  apply parse Predicate.below Text.to_ascii_lowercase hash toy_verify of_wire unhex true (fun _ => "aa"%string) (fun s => s)
    v pid 1 None conn mkNoopBarrier (at_ 5).
Definition applied := apply_ v4.
Definition v5 : DemoSvc := Eval vm_compute in match applied with Some (_, (_, (v, _))) => v | None => v0 end.
Definition conn_after : Apply.ScriptedConn :=
  Eval vm_compute in match applied with Some (_, (c, _)) => c | None => conn end.
Definition answer : result RpcError ApplyResult := Ok (mkApplyResult true 1 true).
Definition dry_of (v : DemoSvc) : option DryRunState := proposals v !! pid ≫= dry_state.

#[local] Abbreviation demo_run := (run parse Predicate.below Text.to_ascii_lowercase hash (fun k => k) toy_sign to_wire
  toy_verify of_wire of_bytes unhex true (fun _ => "aa"%string) (fun s => s)
  (R:=DryRun.ScriptedRehearsal) (X:=Apply.ScriptedConn) (B:=NoopBarrier) (C:=MockClock) v0).

Lemma applied_is : applied = Some (mkNoopBarrier, (conn_after, (v5, answer))).
Proof. vm_compute. reflexivity. Qed.

Definition demo_request : option Request.ApprovalRequest := Eval vm_compute in Flow.store (flow v3) !! "req-00000001".
Definition demo_grant : option GrantToken := Eval vm_compute in grants v4 !! pid.
Definition signature : label := Signed "req-00000001" "alice" x01 "n-1" 1004 demo_request demo_grant.
Definition demo_trace : list label := [signature; Silent; Silent; Silent].
Definition demo_write : label (SigningKey:=byte) := Eval vm_compute in write_label v4 pid conn conn_after.

Lemma run_to_approved : demo_run demo_trace v4.
Proof.
  apply run_step with (v := v3); [apply run_step with (v := v2);
    [apply run_step with (v := v1); [apply run_step with (v := v0); [constructor|]|]|]|].
  - apply (step_propose _ _ _ _ _ _ _ _ _ _ _ _ _ _ v0 "DELETE FROM t WHERE id = 7" None "pgb_applier" "sess-1" (at_ 1) v1 proposed.2).
    vm_compute. reflexivity.
  - apply (step_dry_run _ _ _ _ _ _ _ _ _ _ _ _ _ _ v1 pid rehearsal rehearsed_.1 (at_ 2) v2 rehearsed_.2.2).
    vm_compute. reflexivity.
  - apply (step_elevate _ _ _ _ _ _ _ _ _ _ _ _ _ _ v2 pid "please" (at_ 3) v3 (Ok elevation)). vm_compute. reflexivity.
  - replace signature with (approval_label v3 v4 "req-00000001" "alice" x01 "n-1" 1000 (at_ 4)
             (Ok (mkApproveResult "req-00000001" "n-1"))) by (vm_compute; reflexivity).
    apply (step_approve _ _ _ _ _ _ _ _ _ _ _ _ _ _ v3 "req-00000001" "alice" x01 "n-1" 1000 (at_ 4) v4
             (Ok (mkApproveResult "req-00000001" "n-1"))). vm_compute. reflexivity.
Qed.

Lemma run_to_applied : demo_run (demo_write :: demo_trace) v5.
Proof.
  eapply run_step; [exact run_to_approved|].
  replace demo_write with (write_label (SigningKey:=byte) v4 pid conn conn_after) by (vm_compute; reflexivity).
  apply (step_write _ _ _ _ _ _ _ _ _ _ _ _ _ _ v4 pid 1 None conn conn_after mkNoopBarrier mkNoopBarrier (at_ 5) v5 answer);
    [exact I|exact applied_is|discriminate].
Qed.

Lemma signed_in_demo rid approver sk nonce expires q g :
  Signed rid approver sk nonce expires (Some q) (Some g) ∈ demo_trace ->
  sk = x01 /\ nonce = "n-1"%string /\ expires = 1004 /\ demo_request = Some q /\ demo_grant = Some g.
Proof.
  unfold demo_trace, signature. intros [E|Hin]%elem_of_cons.
  - by injection E as -> -> -> -> -> -> ->.
  - repeat (apply elem_of_cons in Hin as [Hin|Hin]; [discriminate|]). by apply elem_of_nil in Hin.
Qed.

(** The one write of the demo is alice's signature on the one request of the session. *)
Lemma every_write_has_its_signature_witness :
  written_nonces (demo_write :: demo_trace) = ["n-1"%string] /\
  exists g q, demo_grant = Some g /\ demo_request = Some q /\
    g = Grant.sign hash toy_sign to_wire of_bytes (Request.to_binding (Request.proposal q) "n-1" 1004) x01 /\
    Request.session_id (Request.proposal q) = "sess-1"%string /\ Request.proposal_id (Request.proposal q) = pid.
Proof.
  split; [reflexivity|].
  destruct (every_write_has_its_signature parse Predicate.below Text.to_ascii_lowercase hash (fun k => k) toy_sign to_wire
    toy_verify of_wire of_bytes unhex true (fun _ => "aa"%string) (fun s => s) (R:=DryRun.ScriptedRehearsal)
    (X:=Apply.ScriptedConn) (B:=NoopBarrier) (C:=MockClock)
    (Flow.flow_new Webhook.recording_new x01 ∅) (AuditSink.mkInMemorySink []) ∅ x01 GrantedApply.demo_policy 0
    (demo_write :: demo_trace) v5 Apply.scripted_quiet run_to_applied) as (_ & _ & _ & Hm).
  destruct (Hm [] _ _ _ _ demo_trace eq_refl) as (record & g & tx & rid & approver & sk & nonce & expires & q &
    _ & _ & _ & _ & Hin & _ & Hs & Hp & _).
  apply signed_in_demo in Hin as (-> & -> & -> & Hq & Hg). exists g, q. do 3 (split; [done|]).
  split; [|exact Hp]. by injection Hq as <-.
Defined.

Lemma write_is_what_was_approved_witness :
  Apply.committed conn_after <> Apply.committed conn /\
  exists record dry q, proposals v4 !! pid = Some record /\ dry_state record = Some dry /\ total_rows dry = 1 /\
    demo_request = Some q /\ Request.statement_text (Request.proposal q) = Proposal.statement (proposal record) /\
    Request.session_id (Request.proposal q) = session_id record.
Proof.
  split; [discriminate|].
  destruct (write_is_what_was_approved parse Predicate.below Text.to_ascii_lowercase hash (fun k => k) toy_sign to_wire
    toy_verify of_wire of_bytes unhex true (fun _ => "aa"%string) (fun s => s) (R:=DryRun.ScriptedRehearsal)
    (X:=Apply.ScriptedConn) (B:=NoopBarrier) (C:=MockClock)
    (Flow.flow_new Webhook.recording_new x01 ∅) (AuditSink.mkInMemorySink []) ∅ x01 GrantedApply.demo_policy 0
    demo_trace v4 v5 pid 1 None conn conn_after mkNoopBarrier mkNoopBarrier (at_ 5) answer Apply.scripted_quiet
    run_to_approved I applied_is) as (record & dry & g & rid & approver & sk & nonce & expires & q & changes & wal &
      Hrec & _ & Hdry & Hrows & _ & Hin & _ & Hs & _ & Hb & _);
    [discriminate|].
  apply signed_in_demo in Hin as (_ & -> & -> & Hq & Hg). exists record, dry, q.
  split; [exact Hrec|]. split; [exact Hdry|]. split; [exact (eq_sym Hrows)|]. split; [exact Hq|].
  clear Hs Hb Hg Hrows. vm_compute in Hrec. injection Hrec as <-. injection Hq as <-. split; reflexivity.
Defined.

Definition demo_record : ProposalRecord :=
  Eval vm_compute in match proposals v2 !! pid with
                     | Some r => r
                     | None => mkRecord (Proposal.mkProposal "" "" None 0 0 0) "" "" WDelete "" None
                     end.
Definition demo_dry : DryRunState :=
  Eval vm_compute in match dry_state demo_record with
                     | Some d => d
                     | None => mkDryRunState (Apply.one_row_record (mkOpCounts 0 0 1)) 0 ""
                     end.
Definition guarded :=
  Apply.guarded_apply true (fun _ => "aa"%string) (fun s => s) pid (kind demo_record) (relation demo_record)
    (blast_radius demo_dry) (mkWriteCap (er_cap_max_rows elevation) (er_cap_max_wal_bytes elevation))
    (GrantedApply.bridged_pitr (GrantedApply.from_policy (policy v2))) conn mkNoopBarrier (at_ 5).
Definition applied_write : Apply.AppliedWrite :=
  Eval vm_compute in match guarded with
                     | Some (_, (_, Ok a)) => a
                     | _ => Apply.mkApplied "" 0 "" (Inverse.mkInversePlan "" Inverse.PreimageUpsert [] [] []) Apply.TypedInverseOnly 0
                     end.

Lemma demo_rehearsed : rehearsed pid demo_record demo_dry.
Proof.
  split; [reflexivity|]. split; [reflexivity|]. split; [reflexivity|].
  split; [discriminate|]. by_decide.
Qed.

Lemma approved_proposal_reaches_guards_witness :
  exists v r, applied = Some (mkNoopBarrier, (conn_after, (v, r))) /\ proposals v !! pid = None.
Proof.
  destruct (approved_proposal_reaches_guards parse Predicate.below Text.to_ascii_lowercase hash (fun k => k) toy_sign to_wire
    toy_verify of_wire of_bytes unhex true (fun _ => "aa"%string) (fun s => s)
    (X:=Apply.ScriptedConn) (B:=NoopBarrier) (C:=MockClock) v2 v3 v4 pid "please" "alice" "n-1" 1000 x01
    (at_ 3) (at_ 4) (at_ 5) demo_record demo_dry elevation (mkApproveResult "req-00000001" "n-1")
    conn conn conn_after mkNoopBarrier mkNoopBarrier applied_write) as (v & r & Ha & Hp & _).
  - intros l. unfold unhex. by rewrite as_of_bytes.
  - intros sg. split; [apply length_replicate|reflexivity].
  - intros k m. by apply bool_decide_eq_true.
  - vm_compute. reflexivity.
  - exact demo_rehearsed.
  - vm_compute. reflexivity.
  - vm_compute. reflexivity.
  - reflexivity.
  - reflexivity.
  - reflexivity.
  - vm_compute. reflexivity.
  - vm_compute. reflexivity.
  - exists v, r. split; [exact Ha|exact Hp].
Defined.

(** The lifecycle's chain: the request, the signature, then the commit. *)
Lemma apply_leaves_a_record_witness :
  map (fun r => AuditChain.reason_code (AuditChain.payload r)) (AuditSink.chain (sink v5)) =
    ["approval_required"; "grant_signed"; "apply_committed"]%string /\
  exists record, proposals v4 !! pid = Some record.
Proof.
  split; [vm_compute; reflexivity|].
  destruct (apply_leaves_a_record AuditSink.demo_canonical AuditSink.demo_hash parse Predicate.below Text.to_ascii_lowercase
    hash toy_verify of_wire unhex true (fun _ => "aa"%string) (fun s => s) (X:=Apply.ScriptedConn)
    (H0 := AuditSink.InMemorySink_laws AuditSink.demo_canonical AuditSink.demo_hash)
    v4 v5 pid 1 None conn conn_after mkNoopBarrier mkNoopBarrier (at_ 5) answer (AuditSink.chain (sink v4)))
    as (record & Hrec & _).
  - split; [apply AuditChain.verify_chain_ok; vm_compute; reflexivity|].
    intros i r Hi. do 2 (destruct i as [|i]; [by injection Hi as <-|]). destruct i; discriminate.
  - done.
  - reflexivity.
  - exact applied_is.
  - right. reflexivity.
  - exists record. exact Hrec.
Defined.
End Demo.
End Service.
