(* ===== verification/Daemon.v ===== *)
(** * Daemon: the apply daemon

    Models [src/crates/applyd/src/main.rs]: the configuration it resolves, the socket it
    binds, the dispatch of a request line onto the service ([Applyd]) over the two
    resident database sessions ([Conn]), and the loop that serves a connection.  Threads
    take the one lock for a whole dispatch, so what the daemon does is a sequence of
    dispatches; [served] is such a sequence, whatever connections the lines came from.

    Parameters: those of [Applyd] and [Conn]; [serde_json] ([from_str], the class [Json]
    at the types of the protocol, [response_to_string]); Ed25519 keys; the file system of
    the socket (class [SocketFs]).  A clock state stands for the readings of one dispatch. *)

From Stdlib Require Import SpecFloat.
From stdpp Require Import pretty.
From S2P Require Import Prelude Text Config Predicate PkChecksum Inverse Session BlastRadius Policy Intent.
From S2P Require Import DryRun Apply Grant GrantedApply AuditChain AuditSink Conn Messages Approval Applyd.

Module Daemon.
Import Clock Barrier Protocol Service.
Import AuditChain(Decision, DAllow, DBlock, DReject, AuditRecord).
Import AuditSink(Sink).
Import Grant(NonceStore).
Import Webhook(WebhookSender).
Import Conn(Client, PgRehearsal, PgRehearsal_new, rehearsal_client, PgApplyConn, PgApplyConn_new, client, AssignmentTarget, ImageCell).

(** ** Configuration *)

Definition resolve_backend_target (policy : Config.PolicyConfig) (getenv : string -> option string) :
    result Config.TargetResolutionError Config.ResolvedTarget :=
  Config.resolve (Config.mkResolver (Config.primary policy) (getenv "PGB_BACKEND_HOST"%string)
    (getenv "PGB_BACKEND_PORT"%string) (getenv "PGB_BACKEND_DB"%string) (getenv "PGB_BACKEND_ROLE"%string)
    "postgres" "pgb_applier" "PGB_BACKEND_HOST" "PGB_BACKEND_PORT"
    "policy.yaml `primary:` (the BYO primary target, SPEC §0.5)").

Definition env_secret (getenv : string -> option string) (key : string) : result string string :=
  match getenv key with
  | None => Err (key +:+ " is required and has no default (fail-closed)")
  | Some v => if bool_decide (v = ""%string) then Err (key +:+ " is set but empty; refusing to start") else Ok v
  end.

Section keys.
Context (hex_decode : string -> option (list byte)) (hex_error : string -> string).
Context {SigningKey VerifyingKey : Type}.
Context (verifying_key_from_bytes : list byte -> result string VerifyingKey) (signing_key_from_bytes : list byte -> SigningKey).

Definition parse_pubkey (hex_str : string) : result string VerifyingKey :=
  match hex_decode (Text.trim hex_str) with
  | None => Err ("PGB_APPROVER_PUBKEY is not valid hex: " +:+ hex_error (Text.trim hex_str))
  | Some bytes =>
      if negb (bool_decide (length bytes = 32%nat)) then Err "PGB_APPROVER_PUBKEY must be 32 bytes (64 hex chars)"%string
      else result_map_err (fun e => "invalid Ed25519 public key: " +:+ e) (verifying_key_from_bytes bytes)
  end.

Definition parse_signing_key (hex_str : string) : result string SigningKey :=
  match hex_decode (Text.trim hex_str) with
  | None => Err (hex_error (Text.trim hex_str))
  | Some bytes =>
      if negb (bool_decide (length bytes = 32%nat)) then Err "signing key must be 32 bytes (64 hex chars)"%string
      else Ok (signing_key_from_bytes bytes)
  end.
End keys.

(** ** The socket *)

Class SocketFs (F : Type) : Type := {
  parent : string -> option string;
  create_dir_all : F -> string -> F * result string unit;
  set_permissions : F -> string -> Z -> F * result string unit;
  exists_ : F -> string -> bool;
  symlink_is_socket : F -> string -> result string bool;
  remove_file : F -> string -> F * result string unit;
  bind : F -> string -> F * result string unit
}.

Definition fs_then {F A} (m : F * result string unit) (k : F -> F * result string A) : F * result string A :=
  match m with (f, Ok _) => k f | (f, Err e) => (f, Err e) end.

Definition bind_socket {F} `{SocketFs F} (f : F) (path : string) : F * result string unit :=
  let prepared := match parent path with
                  | Some dir => fs_then (create_dir_all f dir) (fun f => set_permissions f dir 0x1C0)
                  | None => (f, Ok tt)
                  end in
  fs_then prepared (fun f =>
    let cleared := if exists_ f path then
                     match symlink_is_socket f path with
                     | Err e => (f, Err e)
                     | Ok true => remove_file f path
                     | Ok false => (f, Err (path +:+ " exists and is not a socket; refusing to bind"))
                     end
                   else (f, Ok tt) in
    fs_then cleared (fun f => fs_then (bind f path) (fun f => set_permissions f path 0x180))).

(** ** Requests and responses *)

Record Request (Value : Type) : Type := mkRequest { jsonrpc : string; id : Value; method : string; params : Value }.
Arguments mkRequest {Value}.
Arguments jsonrpc {Value}.
Arguments id {Value}.
Arguments method {Value}.
Arguments params {Value}.

Record Response (Value : Type) : Type := mkResponse {
  r_jsonrpc : string; r_id : Value; r_result : option Value; r_error : option RpcError
}.
Arguments mkResponse {Value}.
Arguments r_jsonrpc {Value}.
Arguments r_id {Value}.
Arguments r_result {Value}.
Arguments r_error {Value}.

Definition response_ok {Value} (i r : Value) : Response Value := mkResponse JSONRPC_VERSION i (Some r) None.
Definition response_err {Value} (i : Value) (e : RpcError) : Response Value := mkResponse JSONRPC_VERSION i None (Some e).

(** [serde_json] at a type of the protocol; a failed encoding is answered as [Null]. *)
Class FromJson (Value T : Type) : Type := from_value : Value -> result string T.
Class ToJson (Value T : Type) : Type := to_value : T -> option Value.

Definition to_response {Value T} `{ToJson Value T} (null i : Value) (r : result RpcError T) : Response Value :=
  match r with
  | Ok v => response_ok i (default null (to_value v))
  | Err e => response_err i e
  end.

Definition invalid_params {Value} (i : Value) (e : string) : Response Value :=
  response_err i (mkRpcError INVALID_PARAMS_CODE ("invalid params: " +:+ e)
                    (mkBlock "INVALID_PARAMS" "send the method's required params object" false)).

Definition malformed {Value} (null : Value) (e : string) : Response Value :=
  response_err null (mkRpcError INVALID_REQUEST_CODE ("malformed JSON-RPC line: " +:+ e)
                       (mkBlock "INVALID_REQUEST" "send one JSON-RPC 2.0 object per line" false)).

Definition dq : string := String (Ascii.ascii_of_nat 34) EmptyString.
Definition two_zero : string := dq +:+ JSONRPC_VERSION +:+ dq.

Definition wrong_version {Value} (debug_str : string -> string) (i : Value) (got : string) : Response Value :=
  response_err i (mkRpcError INVALID_REQUEST_CODE ("expected jsonrpc " +:+ two_zero +:+ ", got " +:+ debug_str got)
                    (mkBlock "INVALID_REQUEST" ("set jsonrpc to " +:+ two_zero) false)).

Definition no_such_method {Value} (i : Value) (name : string) : Response Value :=
  response_err i (mkRpcError METHOD_NOT_FOUND_CODE ("no such method: " +:+ name)
                    (mkBlock "METHOD_NOT_FOUND" "call propose/dry_run/request_elevation/approve/apply/get_audit" false)).

Definition wire_decision (d : Decision) : string :=
  match d with DAllow => "ALLOW" | DBlock => "BLOCK" | DReject => "REJECT" end.

Definition wire_record (r : AuditRecord) : AuditRecordWire :=
  mkRecordWire (AuditChain.seq (AuditChain.payload r)) (wire_decision (AuditChain.decision (AuditChain.payload r)))
    (AuditChain.reason_code (AuditChain.payload r)).

Definition audit_limit (p : GetAuditParams) : nat := Z.to_nat (Z.min (default 50 (gp_limit p)) 1000).

(** The two resident sessions; all the state behind the lock. *)
Record Backends (D : Type) : Type := mkBackends { apply_client : D; read_client : D }.
Arguments mkBackends {D}.
Arguments apply_client {D}.
Arguments read_client {D}.

Record SharedState (V D : Type) : Type := mkShared { service : V; backends : Backends D }.
Arguments mkShared {V D}.
Arguments service {V D}.
Arguments backends {V D}.

(** ** Dispatch *)

Section dispatch.
Context (parse_sql : string -> result string (list Predicate.Statement)).
Context (visit_below : Predicate.Expr -> list Predicate.Expr) (to_lowercase : string -> string).
Context (query_where : string -> option Predicate.Expr) (expr_to_string : Predicate.Expr -> string).
Context (update_assignments : string -> result string (option (list AssignmentTarget))) (wrong_type : ImageCell -> string).
Context (sha256 : list byte -> list byte) {SigningKey VerifyingKey Signature : Type}.
Context `{!EqDecision VerifyingKey} (verifying_key_of : SigningKey -> VerifyingKey).
Context (key_sign : SigningKey -> list byte -> Signature) (signature_to_bytes : Signature -> list byte).
Context (verify_strict : VerifyingKey -> list byte -> Signature -> bool).
Context (signature_from_bytes : list byte -> Signature).
Context (signing_key_from_bytes : list byte -> SigningKey).
Context (hex_encode : list byte -> string) (hex_decode : string -> option (list byte)) (hex_error : string -> string).
Context (overflow_checks : bool) (sha256_hex : list byte -> string) (debug_str : string -> string).
Context {S W NA NF C D : Type} `{Sink S, WebhookSender W, NA_store : NonceStore NA, Clock C, Client D}.
Context (now : D -> Z).
Context {Value : Type} (null : Value) (from_str : string -> result string (Request Value)).
Context (response_to_string : Response Value -> result string string).
Context `{FromJson Value ProposeParams, FromJson Value DryRunParams, FromJson Value RequestElevationParams,
          FromJson Value ApproveParams, FromJson Value ApplyParams, FromJson Value GetAuditParams}.
Context `{ToJson Value ProposeResult, ToJson Value DryRunResult, ToJson Value RequestElevationResult,
          ToJson Value ApproveResult, ToJson Value ApplyResult, ToJson Value GetAuditResult}.

#[local] Abbreviation Svc := (Service S W NA NF VerifyingKey).
#[local] Abbreviation State := (SharedState Svc D).

#[local] Instance rehearsal_ : DryRun.Rehearsal PgRehearsal :=
  Conn.PgRehearsal_rehearsal parse_sql query_where expr_to_string update_assignments sha256_hex debug_str now.
#[local] Instance conn_ : Apply.ApplyConn PgApplyConn := Conn.PgApplyConn_conn update_assignments wrong_type.

(** The parsed parameters of a method, or the answer that they do not parse. *)
Definition with_params {T} `{FromJson Value T} (st : State) (req : Request Value)
    (k : T -> option (State * Response Value)) : option (State * Response Value) :=
  match from_value (params req) with
  | Ok p => k p
  | Err e => Some (st, invalid_params (id req) e)
  end.

Definition on_service (st : State) (v : Svc) : State := mkShared v (backends st).

Definition dispatch_method (st : State) (req : Request Value) (m : Method) (clock : C) : option (State * Response Value) :=
  let v := service st in
  let i := id req in
  match m with
  | Propose => with_params st req (fun p : ProposeParams =>
      let '(v, r) := propose parse_sql debug_str v (pp_sql p) (pp_expected_rows p) (pp_role p) (pp_session_id p) clock in
      Some (on_service st v, to_response null i r))
  | DryRun => with_params st req (fun p : DryRunParams =>
      let '(rehearsal, (v, r)) := dry_run parse_sql visit_below to_lowercase debug_str v (dp_proposal_id p)
                                    (PgRehearsal_new (read_client (backends st))) clock in
      Some (mkShared v (mkBackends (apply_client (backends st)) (rehearsal_client rehearsal)), to_response null i r))
  | RequestElevation => with_params st req (fun p : RequestElevationParams =>
      '(v, r) ← request_elevation overflow_checks v (ep_proposal_id p) (ep_reason p) clock;
      Some (on_service st v, to_response null i r))
  | Approve => with_params st req (fun p : ApproveParams =>
      match parse_signing_key hex_decode hex_error signing_key_from_bytes (ap_signing_key_hex p) with
      | Err e => Some (st, response_err i (error GrantRejected ("bad signing key: " +:+ e)))
      | Ok sk =>
          let '(v, r) := approve sha256 verifying_key_of key_sign signature_to_bytes hex_encode v (ap_request_id p)
                           (ap_approver_id p) sk (ap_nonce p) (ap_grant_ttl_millis p) clock in
          Some (on_service st v, to_response null i r)
      end)
  | Apply => with_params st req (fun p : ApplyParams =>
      match apply_sql_for parse_sql query_where expr_to_string v (xp_proposal_id p) clock with
      | None => Some (st, response_err i proposal_not_found)
      | Some (forward_sql, where_sql) =>
          '(_, (conn, (v, r))) ←
            apply parse_sql visit_below to_lowercase sha256 verify_strict signature_from_bytes hex_decode overflow_checks
              sha256_hex debug_str v (xp_proposal_id p) (xp_confirm_rows p) (xp_confirm_token p)
              (PgApplyConn_new (apply_client (backends st)) forward_sql where_sql) mkNoopBarrier clock;
          Some (mkShared v (mkBackends (client conn) (read_client (backends st))), to_response null i r)
      end)
  | GetAudit => with_params st req (fun p : GetAuditParams =>
      let records := map wire_record (audit_records v (audit_limit p)) in
      Some (st, response_ok i (default null (to_value (mkGetAuditResult records)))))
  end.

(** [None] is a panic, which leaves the shared state as it was. *)
Definition dispatch_line (line : string) (st : State) (clock : C) : option (State * Response Value) :=
  match from_str line with
  | Err e => Some (st, malformed null e)
  | Ok req =>
      if negb (bool_decide (jsonrpc req = JSONRPC_VERSION)) then Some (st, wrong_version debug_str (id req) (jsonrpc req))
      else match method_parse (method req) with
           | None => Some (st, no_such_method (id req) (method req))
           | Some m => dispatch_method st req m clock
           end
  end.

(** One connection: the lines read from it, each with the clock of its dispatch, and the
    writer.  A panic ends the thread. *)
Fixpoint serve_connection {O} (write_line : O -> string -> O * result string unit)
    (lines : list (result string string * C)) (st : State) (out : O) : State * O * option (result string unit) :=
  match lines with
  | [] => (st, out, Some (Ok tt))
  | (Err e, _) :: _ => (st, out, Some (Err e))
  | (Ok line, clock) :: lines =>
      if Text.is_blank line then serve_connection write_line lines st out
      else
        match dispatch_line line st clock with
        | None => (st, out, None)
        | Some (st, response) =>
            match response_to_string response with
            | Err e => (st, out, Some (Err e))
            | Ok text =>
                match write_line out text with
                | (out, Err e) => (st, out, Some (Err e))
                | (out, Ok _) => serve_connection write_line lines st out
                end
            end
        end
  end.

(** ** Properties *)

Lemma with_params_spec {T} `{FromJson Value T} (st : State) (req : Request Value) k x :
  with_params (T:=T) st req k = Some x ->
  (exists e, x = (st, invalid_params (id req) e)) \/ exists p : T, k p = Some x.
Proof. unfold with_params. destruct (from_value (params req)); [eauto|]. intros [= <-]. eauto. Qed.

(** What a response may be: of version 2.0, with a result or an error but not both. *)
Definition well_formed (r : Response Value) : Prop :=
  r_jsonrpc r = JSONRPC_VERSION /\ (is_Some (r_result r) <-> r_error r = None).

Lemma ok_well_formed i r : well_formed (response_ok i r).
Proof. split; [done|]. simpl. naive_solver. Qed.
Lemma err_well_formed i e : well_formed (response_err i e).
Proof. split; [done|]. simpl. split; [by intros []|done]. Qed.
Lemma to_response_well_formed {T} `{ToJson Value T} i (r : result RpcError T) :
  well_formed (to_response null i r) /\ r_id (to_response null i r) = i.
Proof. destruct r; [split; [apply ok_well_formed|done]|split; [apply err_well_formed|done]]. Qed.

Lemma dispatch_method_answers st req m clock st' resp :
  dispatch_method st req m clock = Some (st', resp) -> well_formed resp /\ r_id resp = id req.
Proof.
  destruct m; simpl; (intros [[e [= -> ->]]|[p Hp]]%with_params_spec; [split; [apply err_well_formed|done]|]); revert Hp.
  - destruct (propose _ _ _ _ _ _ _ _) as [v r]. intros [= <- <-]. apply to_response_well_formed.
  - destruct (dry_run _ _ _ _ _ _ _ _) as [rh [v r]]. intros [= <- <-]. apply to_response_well_formed.
  - destruct (request_elevation _ _ _ _ _) as [[v r]|]; simpl; [|done]. intros [= <- <-]. apply to_response_well_formed.
  - destruct (parse_signing_key _ _ _ _); [|intros [= <- <-]; split; [apply err_well_formed|done]].
    destruct (approve _ _ _ _ _ _ _ _ _ _ _ _) as [v r]. intros [= <- <-]. apply to_response_well_formed.
  - destruct (apply_sql_for _ _ _ _ _ _) as [[fwd wh]|]; [|intros [= <- <-]; split; [apply err_well_formed|done]].
    destruct (apply _ _ _ _ _ _ _ _ _ _ _ _ _ _ _ _ _) as [[b [c [v r]]]|]; simpl; [|done].
    intros [= <- <-]. apply to_response_well_formed.
  - intros [= <- <-]. split; [apply ok_well_formed|done].
Qed.

(** Every line is answered in form.  Whatever line arrives and whatever the state,
    the response carries protocol version 2.0 and either a result or an error, never both
    and never neither; a line that parses as a request is answered under its own id. *)
Theorem responses_are_well_formed (line : string) (st st' : State) (clock : C) (resp : Response Value) :
  dispatch_line line st clock = Some (st', resp) ->
  well_formed resp /\
  match from_str line with
  | Ok req => r_id resp = id req
  | Err _ => r_id resp = null /\ st' = st
  end.
Proof.
  unfold dispatch_line. destruct (from_str line) as [req|e]; [|intros [= <- <-]; split; [apply err_well_formed|done]].
  case_bool_decide; simpl; [|intros [= <- <-]; split; [apply err_well_formed|done]].
  destruct (method_parse (method req)) as [m|]; [|intros [= <- <-]; split; [apply err_well_formed|done]].
  apply dispatch_method_answers.
Qed.

Context `{!Conn.ServerLaws (Conn.one_write parse_sql) D}.

#[local] Instance laws_ : Apply.ApplyConnLaws PgApplyConn := Conn.PgApplyConn_laws update_assignments wrong_type.

Lemma production_quiet : Apply.quiet (W:=PgApplyConn) (B:=NoopBarrier).
Proof. done. Qed.

#[local] Abbreviation service_step := (step parse_sql visit_below to_lowercase sha256 verifying_key_of key_sign
  signature_to_bytes verify_strict signature_from_bytes hex_encode hex_decode overflow_checks sha256_hex debug_str
  (S:=S) (W:=W) (NA:=NA) (NF:=NF) (C:=C) (R:=PgRehearsal) (X:=PgApplyConn) (B:=NoopBarrier)).
#[local] Abbreviation service_run := (run parse_sql visit_below to_lowercase sha256 verifying_key_of key_sign
  signature_to_bytes verify_strict signature_from_bytes hex_encode hex_decode overflow_checks sha256_hex debug_str
  (S:=S) (W:=W) (NA:=NA) (NF:=NF) (C:=C) (R:=PgRehearsal) (X:=PgApplyConn) (B:=NoopBarrier)).

(** The transactions committed on the apply session, as relation changes and WAL bytes. *)
Definition committed_log (d : D) : list (list Apply.RelationChange * Z) :=
  map (fun '(before, after, n) => (Conn.stat_deltas before after, Z.max n 0)) (Conn.log d).

Definition method_of (line : string) : option (Request Value * Method) :=
  match from_str line with
  | Ok req => if bool_decide (jsonrpc req = JSONRPC_VERSION) then m ← method_parse (method req); Some (req, m) else None
  | Err _ => None
  end.

(** The request a line has approved: it asks for an approval and was not answered with an
    error. *)
Definition approved_by (req : Request Value) (m : Method) (resp : Response Value) : list string :=
  match m, from_value (params req), r_error resp with
  | Approve, Ok p, None => [ap_request_id p]
  | _, _, _ => []
  end.
Definition approved (line : string) (resp : Response Value) : list string :=
  match method_of line with Some (req, m) => approved_by req m resp | None => [] end.

(** The proposal a line asks to apply. *)
Definition applied_by (req : Request Value) (m : Method) : list string :=
  match m, from_value (params req) with Apply, Ok p => [xp_proposal_id p] | _, _ => [] end.
Definition to_apply (line : string) : list string :=
  match method_of line with Some (req, m) => applied_by req m | None => [] end.

(** What a dispatch may do: nothing, or one call of the service, which signs the requests
    [signed], writes for none but the proposals [named], and adds to the log of the apply
    session the transactions of its label. *)
Definition simulated (signed named : list string) (st st' : State) : Prop :=
  (service st' = service st /\ Conn.log (apply_client (backends st')) = Conn.log (apply_client (backends st)) /\ signed = []) \/
  exists l, service_step (service st) l (service st') /\ signed_requests [l] = signed /\ sublist (writes [l]) named /\
    length (written [l]) = length (writes [l]) /\
    committed_log (apply_client (backends st')) = committed_log (apply_client (backends st)) ++ written [l].

Lemma simulated_call signed named (st : State) (v : Svc) bk l :
  service_step (service st) l v -> writes [l] = [] -> written [l] = [] -> signed_requests [l] = signed ->
  apply_client bk = apply_client (backends st) -> simulated signed named st (mkShared v bk).
Proof.
  intros Hs Hw Ht Hm Ha. right. exists l. do 2 (split; [done|]). rewrite Hw, Ht, app_nil_r. simpl. rewrite Ha.
  split; [apply sublist_nil_l|done].
Qed.

Lemma simulated_apply (st : State) pid rows token fwd wh b conn v r clock :
  Conn.txn (apply_client (backends st)) = None -> Conn.one_write parse_sql fwd ->
  apply parse_sql visit_below to_lowercase sha256 verify_strict signature_from_bytes hex_decode overflow_checks sha256_hex
    debug_str (service st) pid rows token (PgApplyConn_new (apply_client (backends st)) fwd wh) mkNoopBarrier clock =
    Some (b, (conn, (v, r))) ->
  simulated [] [pid] st (mkShared v (mkBackends (client conn) (read_client (backends st)))).
Proof.
  intros Htx Hw Ha. right. simpl.
  assert (Apply.ready (PgApplyConn_new (apply_client (backends st)) fwd wh)) as Hrdy by exact (conj Htx Hw).
  pose proof (apply_log _ _ _ _ _ _ _ _ _ _ _ _ _ _ _ _ _ _ _ _ _ production_quiet Hrdy Ha) as Hlog.
  destruct Hlog as [Hc|[x Hc]].
  - exists Silent. split; [by eapply step_apply|]. split; [done|]. split; [apply sublist_nil_l|]. split; [done|].
    simpl. by rewrite app_nil_r.
  - exists (write_label (service st) pid (PgApplyConn_new (apply_client (backends st)) fwd wh) conn). split.
    + eapply step_write; [exact Hrdy|exact Ha|]. rewrite Hc. intros Hn. apply (f_equal length) in Hn.
      rewrite length_app in Hn. simpl in Hn. lia.
    + split; [done|]. unfold write_label. rewrite Hc, drop_app_length. split; [done|]. split; [done|]. exact Hc.
Qed.

(** The statement an apply runs is a recorded one. *)
Lemma apply_sql_certified (v : Svc) pid clock fwd wh :
  certified parse_sql v -> apply_sql_for parse_sql query_where expr_to_string v pid clock = Some (fwd, wh) ->
  Conn.one_write parse_sql fwd.
Proof.
  intros Hc. unfold apply_sql_for. destruct (live_record v pid clock) as [record|] eqn:E; simpl; [|done].
  apply live_record_some in E. intros [= <- _]. exact (Hc _ _ E).
Qed.

Lemma method_simulated m (st st' : State) req clock resp :
  certified parse_sql (service st) ->
  (applied_by req m <> [] -> Conn.txn (apply_client (backends st)) = None) -> dispatch_method st req m clock = Some (st', resp) ->
  simulated (approved_by req m resp) (applied_by req m) st st'.
Proof.
  intros Hcert. unfold approved_by, applied_by, with_params, dispatch_method.
  destruct m; unfold with_params; (destruct (from_value (params req)) as [p|e]; [|intros _ [= <- <-]; by left]); intros Htx.
  - destruct (propose _ _ _ _ _ _ _ _) as [v r] eqn:E. intros [= <- <-].
    eapply simulated_call; [by eapply step_propose|done..].
  - destruct (dry_run _ _ _ _ _ _ _ _) as [rh [v r]] eqn:E. intros [= <- <-].
    eapply simulated_call; [by eapply step_dry_run|done..].
  - destruct (request_elevation _ _ _ _ _) as [[v r]|] eqn:E; simpl; [|done]. intros [= <- <-].
    eapply simulated_call; [by eapply step_elevate|done..].
  - destruct (parse_signing_key _ _ _ _); [|intros [= <- <-]; by left].
    destruct (approve _ _ _ _ _ _ _ _ _ _ _ _) as [v r] eqn:E. intros [= <- <-].
    eapply simulated_call; [by eapply step_approve|by destruct r..|done].
  - destruct (apply_sql_for _ _ _ _ _ _) as [[fwd wh]|] eqn:Es; [|intros [= <- <-]; by left].
    destruct (apply _ _ _ _ _ _ _ _ _ _ _ _ _ _ _ _ _) as [[b [c [v r]]]|] eqn:E; simpl; [|done].
    intros [= <- <-]. eapply simulated_apply; [by apply Htx|by eapply apply_sql_certified|exact E].
  - intros [= <- <-]. by left.
Qed.

Lemma dispatch_simulated line (st st' : State) clock resp :
  certified parse_sql (service st) ->
  (to_apply line <> [] -> Conn.txn (apply_client (backends st)) = None) -> dispatch_line line st clock = Some (st', resp) ->
  simulated (approved line resp) (to_apply line) st st'.
Proof.
  intros Hcert. unfold dispatch_line, approved, to_apply, method_of.
  destruct (from_str line) as [req|e]; [|intros _ [= <- <-]; by left].
  case_bool_decide; simpl; [|intros _ [= <- <-]; by left].
  destruct (method_parse (method req)) as [m|]; simpl; [|intros _ [= <- <-]; by left].
  by apply method_simulated.
Qed.

(** The same apply again, after one that was answered with success, finds no proposal. *)
Lemma second_apply_not_found (st st1 : State) req req' (p : ApplyParams) clock clock' resp :
  from_value (params req) = Ok p -> from_value (params req') = Ok p ->
  dispatch_method st req Apply clock = Some (st1, resp) -> r_error resp = None ->
  dispatch_method st1 req' Apply clock' = Some (st1, response_err (id req') proposal_not_found).
Proof.
  intros Hp Hp' Hd Hok. simpl in *. unfold with_params in *. rewrite Hp in Hd. rewrite Hp'. revert Hd.
  destruct (apply_sql_for _ _ _ _ _ _) as [[fwd wh]|]; [|intros [= <- <-]; done].
  destruct (apply _ _ _ _ _ _ _ _ _ _ _ _ _ _ _ _ _) as [[b [c [v r]]]|] eqn:E; simpl; [|done].
  intros [= <- <-]. destruct r as [x|e]; [|done]. apply apply_ok_consumes in E.
  unfold apply_sql_for, live_record. simpl. by rewrite E.
Qed.

(** The rehearsal of the daemon never runs the predicate gate: it is constructed with the
    gate off, so no dry run is refused for a steerable predicate. *)
Lemma production_rehearsal_is_ungated (q : Proposal.Proposal) (d : D) (clock : C) reason :
  (DryRun.dry_run parse_sql visit_below to_lowercase q (PgRehearsal_new d) clock).2 <>
    Err (DryRun.DNotSelfDetermined reason).
Proof.
  apply (DryRun.dry_run_without_key parse_sql visit_below to_lowercase (fun r => Conn.gate_self_determined r = false)); [| | |done].
  - intros r nm Hr. simpl. unfold Conn.volatility_of. by destruct (Conn.resolve_provolatile _ _).
  - intros r sql k t Hr. exact Hr.
  - intros r t Hr. simpl. unfold Conn.rehearsal_self_determined_pk_column. by rewrite Hr.
Qed.

(** Lines answered from a state, in the order the lock was taken, the latest first: each
    with the state it found and its answer. *)
Inductive served (st0 : State) : list (string * State * Response Value) -> State -> Prop :=
| served_none : served st0 [] st0
| served_line line clock h st st' resp :
    served st0 h st -> dispatch_line line st clock = Some (st', resp) -> served st0 ((line, st, resp) :: h) st'.

(** No line that asks to apply found a transaction open on the apply session. *)
Definition no_leftover (h : list (string * State * Response Value)) : Prop :=
  Forall (fun '(line, st, _) => to_apply line <> [] -> Conn.txn (apply_client (backends st)) = None) h.

(** C3: the daemon refines the service.  However the lines of the agent, the operator and
    anyone else interleave, as long as no line that asks to apply finds a transaction left
    open on the apply session, what the daemon has answered since it started is a run of
    the service.  Its signatures are, in order, the requests named by the approve lines
    answered without an error; its writes are for proposals named by apply lines, in
    order; and the log of the apply session is the one it started with followed by exactly
    the transactions of those writes, one each, which are at most as many as those
    approvals. *)
Theorem daemon_refines_service (f : Flow.ApprovalFlow W NF VerifyingKey) (s : S) (n : NA) (vk : VerifyingKey)
    (p : Config.PolicyConfig) (seq : Z) (bk : Backends D) (h : list (string * State * Response Value)) (st : State) :
  served (mkShared (service_new f s n vk p seq) bk) h st -> no_leftover h ->
  exists tr, service_run (service_new f s n vk p seq) tr (service st) /\
    signed_requests tr = h ≫= (fun '(line, _, resp) => approved line resp) /\
    sublist (writes tr) (h ≫= (fun '(line, _, _) => to_apply line)) /\
    committed_log (apply_client (backends st)) = committed_log (apply_client bk) ++ written tr /\
    length (written tr) = length (writes tr) /\
    (length (writes tr) <= length (h ≫= (fun '(line, _, resp) => approved line resp)))%nat.
Proof.
  intros Hs Ht. cut (exists tr, service_run (service_new f s n vk p seq) tr (service st) /\
    signed_requests tr = h ≫= (fun '(line, _, resp) => approved line resp) /\
    sublist (writes tr) (h ≫= (fun '(line, _, _) => to_apply line)) /\
    committed_log (apply_client (backends st)) = committed_log (apply_client bk) ++ written tr /\
    length (written tr) = length (writes tr)).
  { intros (tr & Hr & Hsg & Hw & Hl & Hn). exists tr. do 5 (split; [done|]). rewrite <- Hsg. eapply books_bound.
    exact (run_books _ _ _ _ _ _ _ _ _ _ _ _ _ _ _ _ _ _ _ _ _ _ production_quiet Hr). }
  induction Hs as [|line clock h st st' resp Hs IH Hd].
  - exists []. split; [constructor|]. split; [done|]. split; [apply sublist_nil_l|]. by rewrite app_nil_r.
  - apply Forall_cons in Ht as [Htx Ht]. destruct (IH Ht) as (tr & Hr & Hsg & Hw & Hl & Hn).
    destruct (dispatch_simulated _ _ _ _ _ (run_certified _ _ _ _ _ _ _ _ _ _ _ _ _ _ _ _ _ (new_certified _ _ _ _ _ _ _) Hr) Htx Hd) as [(Hsv & Hlog & Hno)|(l & Hst & Hl1 & Hl2 & Hl3 & Hl4)].
    + exists tr. rewrite Hsv. simpl. rewrite Hno. split; [done|]. split; [done|]. split; [by apply sublist_inserts_l|].
      split; [|done]. unfold committed_log. by rewrite Hlog.
    + exists (l :: tr). rewrite written_cons, writes_cons, signed_cons, !length_app, !bind_cons, Hl1, Hsg, Hl4, Hl, app_assoc.
      split; [by eapply run_step|]. split; [done|]. split; [by apply sublist_app|]. split; [done|]. lia.
Qed.
End dispatch.

(** ** A daemon to try it on *)

Module Demo.
Import Service.Demo(toy_sign, toy_verify, to_wire, of_wire, hash, unhex, parse).

(** A value is a string; a line names its method, and the parameters are fixed. *)
Definition demo_from_str (line : string) : result string (Request string) := Ok (mkRequest "2.0" "1" line line).
Definition seen : string := "p-f043c93de8483101".
#[local] Instance j1 : FromJson string ProposeParams := fun _ => Ok (mkProposeParams "DELETE FROM t WHERE id = 7" None "pgb_applier" "sess-1").
#[local] Instance j2 : FromJson string DryRunParams := fun _ => Ok (mkDryRunParams seen).
#[local] Instance j3 : FromJson string RequestElevationParams := fun _ => Ok (mkElevationParams seen "please").
#[local] Instance j4 : FromJson string ApproveParams :=
  fun _ => Ok (mkApproveParams "req-00000001" "alice" "01010101010101010101010101010101" "n-1" 1000).
#[local] Instance j5 : FromJson string ApplyParams := fun _ => Ok (mkApplyParams seen 1 None).
#[local] Instance j6 : FromJson string GetAuditParams := fun _ => Ok (mkGetAuditParams None).
#[local] Instance to_json T : ToJson string T := fun _ => Some "ok"%string.
#[local] Instance sink_ : Sink AuditSink.InMemorySink := AuditSink.InMemorySink_sink AuditSink.demo_canonical AuditSink.demo_hash.

Definition server : Conn.Demo.Srv := Conn.Demo.mkSrv [] [] None 0.
Definition vk : byte := x30.
Definition start :=
  mkShared (service_new (Flow.flow_new Webhook.recording_new vk (∅ : gset string)) (AuditSink.mkInMemorySink [])
              (∅ : gset string) vk GrantedApply.demo_policy 0) (mkBackends server server).

#[local] Abbreviation serving :=
  (dispatch_line (Value:=string) parse Predicate.below Text.to_ascii_lowercase (fun _ => None) (fun _ => "id = 7"%string)
     (fun _ => Ok None) (fun _ => ""%string) hash (fun k => k) toy_sign to_wire toy_verify of_wire of_wire
     of_bytes unhex (fun s => s) true (fun _ => "aa"%string) (fun s => s) (fun _ => 0) ""%string demo_from_str).

Definition state_of {A} (x : option (A * Response string)) (d : A) : A := match x with Some (st, _) => st | None => d end.
Definition answer_of {A} (x : option (A * Response string)) : option (Response string) := match x with Some (_, r) => Some r | None => None end.
Definition st1 := Eval vm_compute in state_of (serving "propose" start (starting_at 1)) start.
Definition st2 := Eval vm_compute in state_of (serving "dry_run" st1 (starting_at 2)) start.
Definition st3 := Eval vm_compute in state_of (serving "request_elevation" st2 (starting_at 3)) start.
Definition st4 := Eval vm_compute in state_of (serving "approve" st3 (starting_at 4)) start.
Definition st5 := Eval vm_compute in state_of (serving "apply" st4 (starting_at 5)) start.

Lemma answered line st clock st' :
  state_of (serving line st clock) start = st' -> is_Some (answer_of (serving line st clock)) ->
  exists resp, serving line st clock = Some (st', resp).
Proof. destruct (serving line st clock) as [[x resp]|]; [intros <- _; by exists resp|by intros _ []]. Qed.

#[local] Abbreviation demo_served :=
  (served (Value:=string) parse Predicate.below Text.to_ascii_lowercase (fun _ => None) (fun _ => "id = 7"%string)
     (fun _ => Ok None) (fun _ => ""%string) hash (fun k => k) toy_sign to_wire toy_verify of_wire of_wire
     of_bytes unhex (fun s => s) true (fun _ => "aa"%string) (fun s => s) (fun _ => 0) ""%string demo_from_str start).

Definition answer_or {A} (x : option (A * Response string)) : Response string := default (malformed "" "") (answer_of x).

Lemma served_one line clock h st st' resp :
  demo_served h st -> answer_of (serving line st clock) = Some resp -> state_of (serving line st clock) start = st' ->
  demo_served ((line, st, resp) :: h) st'.
Proof.
  intros Hs Ha He. destruct (answered _ _ _ _ He (mk_is_Some _ _ Ha)) as [r Hd]. rewrite Hd in Ha. injection Ha as <-.
  by eapply served_line.
Qed.

(** The lines of the lifecycle, with their answers. *)
Definition lifecycle :=
  Eval vm_compute in
    [("apply"%string, st4, answer_or (serving "apply" st4 (starting_at 5))); ("approve"%string, st3, answer_or (serving "approve" st3 (starting_at 4)));
     ("request_elevation"%string, st2, answer_or (serving "request_elevation" st2 (starting_at 3)));
     ("dry_run"%string, st1, answer_or (serving "dry_run" st1 (starting_at 2))); ("propose"%string, start, answer_or (serving "propose" start (starting_at 1)))].

Lemma served_lifecycle : demo_served lifecycle st5.
Proof.
  apply (served_one "apply" (starting_at 5)); [apply (served_one "approve" (starting_at 4));
    [apply (served_one "request_elevation" (starting_at 3)); [apply (served_one "dry_run" (starting_at 2));
      [apply (served_one "propose" (starting_at 1)); [constructor|..]|..]|..]|..]|..].
  all: vm_compute; reflexivity.
Qed.

(** The daemon over the production connection commits once, for the one approval. *)
Lemma daemon_refines_service_witness :
  exists (tr : list (label (SigningKey:=byte))) tx,
    signed_requests tr = ["req-00000001"%string] /\ writes tr = [seen] /\ written tr = [tx] /\
    committed_log parse (apply_client (backends st5)) = [tx].
Proof.
  destruct (daemon_refines_service (Value:=string) parse Predicate.below Text.to_ascii_lowercase (fun _ => None) (fun _ => "id = 7"%string)
     (fun _ => Ok None) (fun _ => ""%string) hash (fun k => k) toy_sign to_wire toy_verify of_wire of_wire
     of_bytes unhex (fun s => s) true (fun _ => "aa"%string) (fun s => s) (fun _ => 0) ""%string demo_from_str
     (Flow.flow_new Webhook.recording_new vk (∅ : gset string)) (AuditSink.mkInMemorySink []) (∅ : gset string) vk
     GrantedApply.demo_policy 0 (mkBackends server server) lifecycle st5 served_lifecycle) as (tr & _ & Hsg & Hw & Hl & Hn & _).
  - repeat (apply Forall_cons; split; [intros _; reflexivity|]). constructor.
  - assert (committed_log parse (apply_client (backends st5)) = written tr) as Ht by exact Hl. rewrite <- Ht in Hn.
    exists tr. eexists. split; [exact Hsg|]. split; [|split; [rewrite <- Ht|]; reflexivity].
    change (sublist (writes tr) [seen]) in Hw. change (1%nat = length (writes tr)) in Hn.
    destruct (writes tr) as [|p [|? ?]]; [discriminate| |discriminate]. apply sublist_cons_l in Hw as (k & k' & E & _).
    destruct k as [|? [|? ?]]; [by injection E as <-|discriminate..].
Defined.

Lemma responses_are_well_formed_witness :
  exists resp, serving "apply" st4 (starting_at 5) = Some (st5, resp) /\ r_result resp = Some "ok"%string /\ well_formed resp.
Proof.
  destruct (serving "apply" st4 (starting_at 5)) as [[st resp]|] eqn:E; [|vm_compute in E; discriminate].
  exists resp. destruct (responses_are_well_formed (Value:=string) parse Predicate.below Text.to_ascii_lowercase (fun _ => None)
     (fun _ => "id = 7"%string) (fun _ => Ok None) (fun _ => ""%string) hash (fun k => k) toy_sign to_wire toy_verify of_wire of_wire
     of_bytes unhex (fun s => s) true (fun _ => "aa"%string) (fun s => s) (fun _ => 0) ""%string demo_from_str
     "apply"%string st4 st (starting_at 5) resp E) as [Hw _].
  split; [|split; [|exact Hw]].
  - change st with (state_of (Some (st, resp)) start). rewrite <- E. vm_compute. reflexivity.
  - vm_compute in E. injection E as _ <-. reflexivity.
Defined.
End Demo.
End Daemon.
