(* ===== verification/Mcp.v ===== *)
(** * Mcp: the agent-facing tool server

    Models [src/crates/mcp/src]: [contract.rs] (Module [Contract]), [catalog.rs] (Module
    [Catalog]), the audit reader of [audit.rs], the daemon client of [applyd.rs] and the
    proxy transport of [proxy.rs] (Module [Wires]).  Module [Json] is the [serde_json]
    value the crate builds its answers from: its object is the default [BTreeMap], so
    inserting keeps the keys sorted and replaces.

    The sockets, the Postgres client, TLS roots and the JSON text codec are third-party:
    they are the class [Net] and parameters.  Either wire keeps at most one connection in a
    cell behind a lock held for a whole call, so concurrent tool calls are a sequence of
    calls on the [World] here, which also records what was dialled and sent. *)

From Stdlib Require Import SpecFloat ZifyBool.
From stdpp Require Import pretty.
From S2P Require Import Prelude Text BlastRadius Policy AuditChain AuditSink Messages.

Set Warnings "-register-all".

(** ** JSON values *)

Module Json.
Import BlastRadius.

Inductive Number : Type := PosInt (z : Z) | NegInt (z : Z) | Float (f : f64).

Inductive Value : Type :=
| Null
| Bool (b : bool)
| Num (n : Number)
| Str (s : string)
| Arr (l : list Value)
| Obj (m : list (string * Value)).

(** [Map<String, Value>]: the entries in key order. *)
Abbreviation Map := (list (string * Value)).

Fixpoint insert (k : string) (v : Value) (m : Map) : Map :=
  match m with
  | [] => [(k, v)]
  | (k', v') :: rest =>
      match str_cmp k k' with
      | Lt => (k, v) :: m
      | Eq => (k, v) :: rest
      | Gt => (k', v') :: insert k v rest
      end
  end.

Fixpoint lookup (k : string) (m : Map) : option Value :=
  match m with
  | [] => None
  | (k', v) :: rest => if decide (k = k') then Some v else lookup k rest
  end.

Definition from_entries (l : list (string * Value)) : Map := foldl (fun m e => insert e.1 e.2 m) [] l.

(** [json!({ ... })]. *)
Definition object (l : list (string * Value)) : Value := Obj (from_entries l).

Definition get (k : string) (v : Value) : option Value := match v with Obj m => lookup k m | _ => None end.
Definition as_str (v : Value) : option string := match v with Str s => Some s | _ => None end.
Definition as_bool (v : Value) : option bool := match v with Bool b => Some b | _ => None end.
Definition as_u64 (v : Value) : option Z := match v with Num (PosInt z) => Some z | _ => None end.
Definition as_array (v : Value) : option (list Value) := match v with Arr l => Some l | _ => None end.
Definition as_object (v : Value) : option Map := match v with Obj m => Some m | _ => None end.
Definition as_f64 (v : Value) : option f64 :=
  match v with Num (PosInt z | NegInt z) => Some (f64_of_Z z) | Num (Float f) => Some f | _ => None end.

(** [Value::from] at a signed and at an unsigned integer. *)
Definition from_int (z : Z) : Value := Num (if z <? 0 then NegInt z else PosInt z).
(** [Number::from_f64]: finite values only. *)
Definition from_f64 (f : f64) : option Number := if f64_is_finite f then Some (Float f) else None.

(** *** A map keeps the last value given for a key, and its keys in order *)

Lemma lookup_insert k k' v m : lookup k (insert k' v m) = if decide (k = k') then Some v else lookup k m.
Proof.
  induction m as [|[k0 v0] m IH]; simpl; [by case_decide|].
  destruct (str_cmp k' k0) eqn:E; simpl; [| |rewrite IH].
  - apply cmp_eq in E as ->. by repeat case_decide.
  - done.
  - repeat case_decide; subst; try done. by rewrite (cmp_refl str_cmp) in E.
Qed.

Definition keys_sorted (m : Map) : Prop := StronglySorted (fun a b => str_cmp a b = Lt) m.*1.

Lemma insert_sorted k v m : keys_sorted m -> keys_sorted (insert k v m).
Proof.
  unfold keys_sorted. induction m as [|[k0 v0] m IH]; simpl; [by repeat constructor|].
  intros H; inversion H as [|? ? Hs Hf]; subst. destruct (str_cmp k k0) eqn:E; simpl.
  - apply cmp_eq in E as ->. by constructor.
  - constructor; [done|]. constructor; [done|]. eapply Forall_impl; [done|]. simpl. intros x Hx.
    by eapply cmp_lt_trans.
  - constructor; [by apply IH|]. apply Forall_forall. intros x Hx.
    assert (x = k \/ x ∈ m.*1) as [->|Hm].
    { clear -Hx. induction m as [|[k1 v1] m IH]; simpl in *; [set_solver|].
      destruct (str_cmp k k1); set_solver. }
    + by rewrite (cmp_flip (cmp:=str_cmp)), E.
    + by eapply Forall_forall in Hf.
Qed.
Lemma insert_keys k v m x : x ∈ (insert k v m).*1 <-> x = k \/ x ∈ m.*1.
Proof.
  induction m as [|[k0 v0] m IH]; simpl; [set_solver|].
  destruct (str_cmp k k0) eqn:E; simpl; [apply cmp_eq in E as ->|..]; set_solver.
Qed.

Lemma from_entries_snoc l e : from_entries (l ++ [e]) = insert e.1 e.2 (from_entries l).
Proof. unfold from_entries. by rewrite foldl_app. Qed.

Lemma from_entries_sorted l : keys_sorted (from_entries l).
Proof. induction l as [|e l IH] using rev_ind; [constructor|]. rewrite from_entries_snoc. by apply insert_sorted. Qed.

Lemma from_entries_keys l x : x ∈ (from_entries l).*1 <-> x ∈ l.*1.
Proof.
  induction l as [|e l IH] using rev_ind; [done|]. rewrite from_entries_snoc, insert_keys, IH, fmap_app. set_solver.
Qed.

(** The last entry for a key is the one kept. *)
Lemma from_entries_lookup k l v rest : (k ∉ rest.*1) -> lookup k (from_entries (l ++ (k, v) :: rest)) = Some v.
Proof.
  revert l. induction rest as [|e rest IH] using rev_ind; intros l Hk.
  - rewrite from_entries_snoc, lookup_insert. by case_decide.
  - rewrite app_comm_cons, app_assoc, from_entries_snoc, lookup_insert. rewrite fmap_app in Hk.
    case_decide; [set_solver|]. apply IH. set_solver.
Qed.

Lemma sorted_NoDup m : keys_sorted m -> NoDup m.*1.
Proof.
  unfold keys_sorted. induction 1 as [|k ks Hs IH Hf]; constructor; [|done]. intros Hk.
  eapply Forall_forall in Hf; [|exact Hk]. by rewrite (cmp_refl str_cmp) in Hf.
Qed.

(** One entry per distinct key. *)
Lemma from_entries_length l : length (from_entries l) = length (remove_dups l.*1).
Proof.
  rewrite <- (length_fmap fst (from_entries l)). apply Permutation_length, NoDup_Permutation.
  - apply sorted_NoDup, from_entries_sorted.
  - apply NoDup_remove_dups.
  - intros x. by rewrite from_entries_keys, elem_of_remove_dups.
Qed.
End Json.

(** ** The answers of a tool *)

Module Contract.
Import Json.

Inductive BlockStatus : Type := Blocked.

Record BlockContract : Type := mkContract {
  status : BlockStatus;
  code : string;
  reason : string;
  remedy : string;
  retryable : bool
}.

Definition block_new (code reason remedy : string) (retryable : bool) : BlockContract :=
  mkContract Blocked code reason remedy retryable.

Definition unimplemented (tool tracking : string) : BlockContract :=
  block_new "UNIMPLEMENTED"
    ("the `" +:+ tool +:+ "` tool is not wired yet in this MCP skeleton (EPIC #83 PR1)")
    ("tracked: " +:+ tracking +:+ "; the read paths land in #83 PR2, the write paths in #83 PR3") false.

Definition read_only (detail : string) : BlockContract :=
  block_new "READ_ONLY" ("this tool runs read-only statements; this looks like a " +:+ detail)
    "use propose_write → dry_run → apply_write for changes" false.

Definition proxy_unavailable (detail : string) : BlockContract :=
  block_new "PROXY_UNAVAILABLE" ("the proxy connection is unavailable: " +:+ detail)
    ("the proxy may be down or the backend session ended (e.g. a warden " +:+
     "terminate, restart, or idle reset); retry — the read will re-dial the proxy") true.

Definition wall_denied (detail : string) : BlockContract :=
  block_new "WALL_DENIED" ("the proxy/WALL denied this read (least-privilege default-deny): " +:+ detail)
    ("the hardened agent role has no SELECT on this relation; request access " +:+ "to a whitelisted relation") false.

Definition proxy_blocked (detail : string) : BlockContract :=
  block_new "PROXY_BLOCKED" ("the proxy refused this read at the deterministic floor: " +:+ detail)
    "adjust the statement to a permitted read, or use the write lifecycle for changes" false.

(** The derived [Serialize]. *)
Definition status_value (s : BlockStatus) : Value := match s with Blocked => Str "blocked" end.
Definition contract_value (b : BlockContract) : Value :=
  object [("status", status_value (status b)); ("code", Str (code b)); ("reason", Str (reason b));
          ("remedy", Str (remedy b)); ("retryable", Bool (retryable b))].

Record WhoamiResult : Type := mkWhoami {
  wh_role : string;
  wh_session_id : string;
  security_boundary : bool;
  boundary : string;
  wh_tools : list string
}.

Definition whoami_new (role session_id : string) (tools : list string) : WhoamiResult :=
  mkWhoami role session_id false
    ("the deterministic floor (proxy + WALL + applyd + warden) is the real " +:+
     "security boundary; this MCP layer is cooperative and adds no privilege") tools.

Definition whoami_value (w : WhoamiResult) : Value :=
  object [("role", Str (wh_role w)); ("session_id", Str (wh_session_id w));
          ("security_boundary", Bool (security_boundary w)); ("boundary", Str (boundary w));
          ("tools", Arr (map Str (wh_tools w)))].
End Contract.

(** ** The catalogue *)

Module Catalog.
Import Json.

Definition TOOL_NAMES : list string :=
  ["whoami"; "discover_schema"; "query"; "explain_plan"; "propose_write"; "dry_run"; "apply_write";
   "request_elevation"; "get_audit"]%string.

Record ToolSpec : Type := mkSpec { ts_name : string; ts_description : string; input_schema : Value }.

Definition string_prop (description : string) : Value :=
  object [("type", Str "string"); ("description", Str description)].
Definition integer_prop (description : string) : Value :=
  object [("type", Str "integer"); ("description", Str description)].

Definition object_schema (props : list (string * Value)) (required : list string) : Value :=
  object [("type", Str "object"); ("properties", Obj (from_entries props));
          ("required", Arr (map Str required)); ("additionalProperties", Bool false)].

Definition catalog : list ToolSpec := [
  mkSpec "whoami" "Report the agent's role and posture (MCP is not a security boundary)." (object_schema [] []);
  mkSpec "discover_schema" "List accessible schema (tables/columns) through the proxy." (object_schema [] []);
  mkSpec "query" "Run a read-only statement through the proxy (cost/byte budgeted)."
    (object_schema
       [("sql", string_prop "The read-only statement to execute through the proxy.");
        ("application_name", string_prop "Optional application_name tag carried to the proxy/warden.")] ["sql"%string]);
  mkSpec "explain_plan" "EXPLAIN (never ANALYZE) a statement through the proxy."
    (object_schema [("sql", string_prop "The read-only statement to EXPLAIN (never EXPLAIN ANALYZE).")] ["sql"%string]);
  mkSpec "propose_write" "Create a TTL'd write proposal in core (state lives in core)."
    (object_schema
       [("sql", string_prop "The candidate write statement to rehearse + later apply.");
        ("expected_rows", integer_prop "Optional row-count expectation (the confirm_rows seed).");
        ("application_name", string_prop "Optional application_name tag carried to the proxy/warden.")] ["sql"%string]);
  mkSpec "dry_run" "Rehearse a proposal → blast radius (bounded row/WAL-byte estimate vs the WriteCap)."
    (object_schema [("proposal_id", string_prop "The proposal id minted by propose_write.")] ["proposal_id"%string]);
  mkSpec "apply_write" "Apply a dry-run proposal under the grant-gated WriteCap floor (needs confirm_rows)."
    (object_schema
       [("proposal_id", string_prop "The dry-run proposal to apply.");
        ("confirm_rows", integer_prop "The confirm_rows forcing function: must equal the dry-run total.");
        ("confirm_token", string_prop "The opaque token returned by dry_run (echoed back).")] ["proposal_id"%string]);
  mkSpec "request_elevation" "Open an approval-request ticket for a blocked action (§14)."
    (object_schema
       [("proposal_id", string_prop "The dry-run proposal to elevate.");
        ("reason", string_prop "A human-readable reason recorded in the request.")]
       ["proposal_id"; "reason"]%string);
  mkSpec "get_audit" "Read the hash-chained audit for this session."
    (object_schema [("limit", integer_prop "Max records to return (clamped to a sane window).")] [])
].
End Catalog.

(** ** The wires: daemon client, proxy transport, audit reader *)

Module Wires.
Import BlastRadius Json Contract.

Definition DEFAULT_TIMEOUT_MS : Z := 30000.

Record ApplydConfig : Type := mkApplydConfig {
  socket_path : string;
  ac_role : string;
  ac_session_id : string;
  timeout_ms : Z
}.

Record BlockData : Type := mkBlockData { bd_code : string; bd_remedy : string; bd_retryable : bool }.
Record RpcErrorWire : Type := mkErrorWire { ew_message : string; ew_data : option BlockData }.
Record RpcResponse : Type := mkRpcResponse { rr_result : option Value; rr_error : option RpcErrorWire }.

Inductive ApplydOutcome : Type := AOk (v : Value) | ABlocked (b : BlockContract).
Inductive WireError : Type := Lost (detail : string) | TimedOut.

Definition applyd_unavailable (detail : string) : BlockContract :=
  block_new "APPLYD_UNAVAILABLE" ("the applyd write daemon is unavailable: " +:+ detail)
    ("the applyd daemon may be down or the socket was reset; retry — the write " +:+ "will re-dial the applyd socket") true.

Definition applyd_timeout (method : string) (timeout_ms : Z) : BlockContract :=
  block_new "APPLYD_UNAVAILABLE" ("the applyd `" +:+ method +:+ "` call timed out after " +:+ pretty timeout_ms +:+ "ms")
    "the applyd daemon did not respond in time; retry — the write will re-dial" true.

Definition block_of (err : RpcErrorWire) : BlockContract :=
  match ew_data err with
  | Some d =>
      block_new (bd_code d) (ew_message err)
        (if bool_decide (bd_remedy d = EmptyString) then "see the applyd error for the next step" else bd_remedy d)
        (bd_retryable d)
  | None =>
      block_new "APPLYD_ERROR"
        (if bool_decide (ew_message err = EmptyString) then "applyd returned an error with no recoverable data"
         else ew_message err)
        "retry; if it persists, inspect the applyd daemon logs" false
  end.

Definition map_response (resp : RpcResponse) : ApplydOutcome :=
  match rr_error resp with
  | Some err => ABlocked (block_of err)
  | None =>
      match rr_result resp with
      | Some v => AOk v
      | None => ABlocked (block_new "APPLYD_ERROR" "applyd returned a response with neither result nor error"
                            "retry; if it persists, inspect the applyd daemon logs" false)
      end
  end.

(** *** The proxy side *)

Definition DEFAULT_APP_NAME : string := "pgb_mcp".

Inductive TlsMode : Type := Disabled | Rustls (roots_der : list (list byte)).

Record ProxyConfig : Type := mkProxyConfig {
  pc_host : string;
  pc_port : Z;
  pc_database : string;
  pc_user : string;
  pc_password : string;
  pc_application_name : string;
  pc_tls : TlsMode;
  statement_timeout_ms : Z
}.

(** The settings a [tokio_postgres::Config] carries. *)
Record PgConfig : Type := mkPgConfig {
  cfg_host : string; cfg_port : Z; cfg_dbname : string; cfg_user : string; cfg_password : string;
  cfg_application_name : string; cfg_options : option string
}.

Definition pg_config (p : ProxyConfig) : PgConfig :=
  mkPgConfig (pc_host p) (pc_port p) (pc_database p) (pc_user p) (pc_password p) (pc_application_name p)
    (if 0 <? statement_timeout_ms p then Some ("-c statement_timeout=" +:+ pretty (statement_timeout_ms p)) else None).

Inductive ReadError : Type := ConnectionLost (detail : string) | Denied (b : BlockContract).

(** A [tokio_postgres::Error]: the server's error with its SQLSTATE, if there is one. *)
Record PgError : Type := mkPgError { db_error : option (string * string); pg_text : string }.

Definition classify_pg_error (err : PgError) : ReadError :=
  match db_error err with
  | Some (code, message) =>
      if bool_decide (code = "42501"%string) then Denied (wall_denied message)
      else if String.prefix "08" code || bool_decide (code ∈ ["57P01"; "57P02"; "57P03"]%string)
      then ConnectionLost message
      else Denied (proxy_blocked message)
  | None => ConnectionLost (pg_text err)
  end.

Abbreviation RowJson := Map.
Inductive ReadOutcome : Type := Rows (rows : list RowJson) (row_count : nat) | RBlocked (b : BlockContract).

Record SchemaColumn : Type := mkColumn { sc_schema : string; sc_table : string; sc_column : string; sc_data_type : string }.
Record PlanJson : Type := mkPlan { pj_plan : string; pj_cost : f64 }.

(** A row of the client library: its columns by name and type name, and [try_get] at the
    types the source asks for ([None]: the conversion is refused; [Some None]: NULL).
    [row_get] is [Row::get] at [String], which panics where this is [None]. *)
Class PgRow (R : Type) : Type := {
  row_columns : R -> list (string * string);
  try_bool : R -> nat -> option (option bool);
  try_i64 : R -> nat -> option (option Z);
  try_i32 : R -> nat -> option (option Z);
  try_i16 : R -> nat -> option (option Z);
  try_f64 : R -> nat -> option (option f64);
  try_f32 : R -> nat -> option (option f64);
  try_json : R -> nat -> option (option Value);
  try_string : R -> nat -> option (option string);
  row_get : R -> string -> option string
}.

Section rows.
Context {R : Type} `{PgRow R}.

Definition or_null {A} (f : A -> Value) (o : option A) : Value := from_option f Null o.
Definition float_value (o : option f64) : Value := or_null Num (o ≫= from_f64).

Definition column_value_to_json (row : R) (idx : nat) (type_name : string) : Value :=
  match try_bool row idx with Some v => or_null Bool v | None =>
  match try_i64 row idx with Some v => or_null from_int v | None =>
  match try_i32 row idx with Some v => or_null from_int v | None =>
  match try_i16 row idx with Some v => or_null from_int v | None =>
  match try_f64 row idx with Some v => float_value v | None =>
  match try_f32 row idx with Some v => float_value v | None =>
  match try_json row idx with Some v => default Null v | None =>
  match try_string row idx with Some v => or_null Str v | None =>
  Str ("<unrepresentable " +:+ type_name +:+ ">")
  end end end end end end end end.

Definition row_entries (row : R) : list (string * Value) :=
  imap (fun i col => (col.1, column_value_to_json row i col.2)) (row_columns row).
Definition row_to_json (row : R) : RowJson := from_entries (row_entries row).

Context (json_display : Value -> string).

Definition plan_value (rows : list R) : Value :=
  match rows with
  | r :: _ => match try_json r 0 with Some (Some v) => v | _ => Null end
  | [] => Null
  end.
Definition plan_cost (v : Value) : option f64 :=
  as_array v ≫= fun a => head a ≫= fun top => get "Plan" top ≫= fun p => get "Total Cost" p ≫= as_f64.
Definition plan_from_rows (rows : list R) : PlanJson :=
  mkPlan (json_display (plan_value rows)) (default f64_zero (plan_cost (plan_value rows))).

Definition schema_column (r : R) : option SchemaColumn :=
  s ← row_get r "schema"; t ← row_get r "table"; c ← row_get r "column"; d ← row_get r "type";
  Some (mkColumn s t c d).
End rows.

Definition clamp_limit (limit : Z) : Z := if limit =? 0 then 50 else Z.min limit 1000.

Record AuditRecordView : Type := mkView { v_seq : Z; v_decision : string; v_statement_class : string }.

(** [format!] of the [Debug] form, upper-cased. *)
Definition decision_upper (d : AuditChain.Decision) : string :=
  match d with AuditChain.DAllow => "ALLOW" | AuditChain.DBlock => "BLOCK" | AuditChain.DReject => "REJECT" end.
Definition view_of (rec : AuditChain.AuditRecord) : AuditRecordView :=
  mkView (AuditChain.seq (AuditChain.payload rec)) (decision_upper (AuditChain.decision (AuditChain.payload rec)))
    (AuditChain.reason_code (AuditChain.payload rec)).
Definition tail_view (limit : Z) (chain : list AuditChain.AuditRecord) : list AuditRecordView :=
  map view_of (drop (length chain - Z.to_nat (clamp_limit limit)) chain).
(** *** What the agent is shown of a result *)

(** A row is shown with one value per distinct column name: of columns that share a name
    all but the last are lost. *)
Lemma row_shows_distinct_names {R : Type} `{PgRow R} (row : R) :
  length (row_to_json row) = length (remove_dups (row_columns row).*1).
Proof.
  unfold row_to_json. rewrite from_entries_length. do 2 f_equal. unfold row_entries. rewrite fmap_imap.
  apply list_eq. intros i. rewrite list_lookup_imap, list_lookup_fmap. by destruct (row_columns row !! i).
Qed.

Lemma clamp_limit_range limit : 0 <= limit -> 1 <= clamp_limit limit <= 1000.
Proof. unfold clamp_limit. destruct (Z.eqb_spec limit 0); lia. Qed.

(** The audit tool shows the end of the chain, oldest first. *)
Lemma tail_view_spec limit chain :
  exists older newer, chain = older ++ newer /\ tail_view limit chain = map view_of newer /\
    length newer = Nat.min (length chain) (Z.to_nat (clamp_limit limit)).
Proof.
  exists (take (length chain - Z.to_nat (clamp_limit limit)) chain), (drop (length chain - Z.to_nat (clamp_limit limit)) chain).
  rewrite take_drop. do 2 (split; [done|]). rewrite length_drop. lia.
Qed.
End Wires.
