(* ===== verification/McpServer.v ===== *)
(** * McpServer: calls over the wires and the dispatch of the tools

    Models the effectful half of [src/crates/mcp/src]: [ApplydClient::call] and
    [ProxyTransport::with_client] with what is built on them, [AuditReader::tail] (Module
    [Calls]), the tools and their dispatch in [server.rs] (Module [Server]), and the
    settings of [bin/pgb_mcp.rs] (Module [Main]).

    A program acts on a [World]: the network behind the class [Net], the two cells that hold
    a connection between calls, the id counter and the trace of what was dialled, sent
    and run.  A panic is a value, so that the [expect]s of the source can be shown
    unreachable. *)

From Stdlib Require Import SpecFloat ZifyBool.
From stdpp Require Import pretty.
From S2P Require Import Prelude Text BlastRadius Policy Classifier Config AuditChain AuditSink Messages Mcp.

(** ** Calls *)

Module Calls.
Import BlastRadius Json Contract Wires.

(** What a socket operation under a timer comes back with. *)
Inductive io (A : Type) : Type := Done (a : A) | Failed (e : string) | Elapsed.
Arguments Done {A}. Arguments Failed {A}. Arguments Elapsed {A}.

Class Net (K H C R S : Type) : Type := {
  unix_connect : K -> string -> K * result string H;
  set_timer : K -> Z -> K;
  write_all : K -> H -> string -> K * io unit;
  flush : K -> H -> K * io unit;
  (* the line read, empty at the end of the stream *)
  read_line : K -> H -> K * io string;
  (* [RootCertStore::add] of one trust anchor *)
  add_root : list byte -> result string unit;
  (* in clear, or verifying the peer against the roots *)
  pg_connect : K -> PgConfig -> option (list (list byte)) -> K * result string C;
  pg_query : K -> C -> string -> K * result PgError (list R);
  sink_connect : K -> string -> K * result AuditSink.SinkError S;
  (* how the blocking task ended: its [JoinError], if any *)
  join_error : K -> K * option string
}.

Inductive Event : Type :=
| DialApplyd (path : string) (up : bool)
| Sent (line : string)
| Got (line : string)
| DialProxy (cfg : PgConfig) (tls : bool)
| Ran (sql : string)
| ReadAudit (dsn : string).

Record World (K H C : Type) : Type := mkWorld {
  net : K; conn : option H; next_id : Z; client : option C; trace : list Event
}.
Arguments mkWorld {K H C}.
Arguments net {K H C}. Arguments conn {K H C}. Arguments next_id {K H C}.
Arguments client {K H C}. Arguments trace {K H C}.

Inductive outcome (A : Type) : Type := Returned (a : A) | Panicked.
Arguments Returned {A}. Arguments Panicked {A}.

Section calls.
Context {K H C R S : Type} `{Net K H C R S, PgRow R, AuditSink.Sink S}.
(** The JSON text codec: [to_string] of a request, [from_str] at the response type,
    [Display] of a value. *)
Context (to_string : Value -> result string string) (from_str : string -> result string RpcResponse).
Context (json_display : Value -> string) (debug_str : string -> string).

#[local] Abbreviation W := (World K H C).
Definition M (A : Type) : Type := W -> W * outcome A.

Definition ret {A} (a : A) : M A := fun w => (w, Returned a).
Definition panic {A} : M A := fun w => (w, Panicked).
Definition bind {A B} (m : M A) (k : A -> M B) : M B :=
  fun w => match m w with (w, Returned a) => k a w | (w, Panicked) => (w, Panicked) end.

Definition on_net (k : K) (w : W) : W := mkWorld k (conn w) (next_id w) (client w) (trace w).
Definition log (e : Event) (w : W) : W := mkWorld (net w) (conn w) (next_id w) (client w) (trace w ++ [e]).

Definition net_op {A} (f : K -> K * A) : M A := fun w => let (k, a) := f (net w) in (on_net k w, Returned a).
Definition emit (e : Event) : M unit := fun w => (log e w, Returned tt).
Definition set_conn (h : option H) : M unit :=
  fun w => (mkWorld (net w) h (next_id w) (client w) (trace w), Returned tt).
Definition set_client (c : option C) : M unit :=
  fun w => (mkWorld (net w) (conn w) (next_id w) c (trace w), Returned tt).
Definition get_conn : M (option H) := fun w => (w, Returned (conn w)).
Definition get_client : M (option C) := fun w => (w, Returned (client w)).
(** [AtomicU64::fetch_add(1)]. *)
Definition fetch_id : M Z :=
  fun w => (mkWorld (net w) (conn w) (wrap_u 64 (next_id w + 1)) (client w) (trace w), Returned (next_id w)).

#[local] Notation "'let!' x := m 'in' k" := (bind m (fun x => k)) (at level 10, x name, m at level 100, k at level 200).
#[local] Notation "m ;! k" := (bind m (fun _ => k)) (at level 100, k at level 200, right associativity).

(** [for attempt in i..i+n { body }; fallback]: the body returns, or continues. *)
Fixpoint attempts {A} (body : nat -> M (option A)) (fallback : A) (n i : nat) : M A :=
  match n with
  | O => ret fallback
  | Datatypes.S n =>
      let! r := body i in
      match r with Some a => ret a | None => attempts body fallback n (Datatypes.S i) end
  end.

(** *** The daemon client *)

Definition dial (cfg : ApplydConfig) : M (result BlockContract H) :=
  let! r := net_op (fun k => unix_connect k (socket_path cfg)) in
  emit (DialApplyd (socket_path cfg) (is_ok r)) ;!
  ret (result_map_err (fun e => applyd_unavailable
         ("could not connect to the applyd socket at " +:+ socket_path cfg +:+ ": " +:+ e)) r).

(** One awaited operation inside [timeout(dur, exchange)]. *)
Definition awaited {A B} (f : K -> K * io A) (k : A -> M (result WireError B)) : M (result WireError B) :=
  let! r := net_op f in
  match r with
  | Done a => k a
  | Failed e => ret (Err (Lost e))
  | Elapsed => ret (Err TimedOut)
  end.

Definition request_value (id : Z) (method : string) (params : Value) : Value :=
  object [("jsonrpc", Str "2.0"); ("id", Num (PosInt id)); ("method", Str method); ("params", params)].

Definition newline : string := String (Ascii.ascii_of_nat 10) EmptyString.

Definition exchange (h : H) (line : string) : M (result WireError RpcResponse) :=
  emit (Sent line) ;!
  awaited (fun k => write_all k h line) (fun _ =>
  awaited (fun k => flush k h) (fun _ =>
  awaited (fun k => read_line k h) (fun resp_line =>
  if bool_decide (resp_line = EmptyString) then ret (Err (Lost "applyd socket closed (EOF)"))
  else
    emit (Got resp_line) ;!
    ret (result_map_err (fun e => Lost ("unparseable applyd response line: " +:+ e))
           (from_str (Text.trim resp_line)))))).

Definition round_trip (cfg : ApplydConfig) (h : H) (method : string) (params : Value) :
    M (result WireError RpcResponse) :=
  let! id := fetch_id in
  match to_string (request_value id method params) with
  | Err e => ret (Err (Lost e))
  | Ok text =>
      net_op (fun k => (set_timer k (timeout_ms cfg), tt)) ;!
      exchange h (text +:+ newline)
  end.

Definition call_attempt (cfg : ApplydConfig) (method : string) (params : Value) (attempt : nat) : M (option ApplydOutcome) :=
  let! held := get_conn in
  let! dialled :=
    match held with
    | Some _ => ret (Ok tt)
    | None =>
        let! r := dial cfg in
        match r with
        | Ok h => set_conn (Some h) ;! ret (Ok tt)
        | Err block => ret (Err block)
        end
    end in
  match dialled with
  | Err block => ret (Some (ABlocked block))
  | Ok _ =>
      let! present := get_conn in
      match present with
      | None => panic
      | Some h =>
          let! r := round_trip cfg h method params in
          match r with
          | Ok resp => ret (Some (map_response resp))
          | Err (Lost detail) =>
              set_conn None ;!
              (if Nat.eqb attempt 0 then ret None else ret (Some (ABlocked (applyd_unavailable detail))))
          | Err TimedOut =>
              set_conn None ;! ret (Some (ABlocked (applyd_timeout method (timeout_ms cfg))))
          end
      end
  end.

Definition call (cfg : ApplydConfig) (method : string) (params : Value) : M ApplydOutcome :=
  attempts (call_attempt cfg method params) (ABlocked (applyd_unavailable "exhausted reconnect attempts")) 2 0.

(** [params[k] = v] on an object; nothing for [None]. *)
Definition with_field (k : string) (o : option Value) (params : Value) : Value :=
  match o, params with
  | Some v, Obj m => Obj (Json.insert k v m)
  | _, _ => params
  end.

Definition propose_params (cfg : ApplydConfig) (sql : string) (expected_rows : option Z) : Value :=
  with_field "expected_rows" ((fun n => Num (PosInt n)) <$> expected_rows)
    (object [("sql", Str sql); ("role", Str (ac_role cfg)); ("session_id", Str (ac_session_id cfg))]).
Definition propose (cfg : ApplydConfig) (sql : string) (expected_rows : option Z) : M ApplydOutcome :=
  call cfg "propose" (propose_params cfg sql expected_rows).

Definition dry_run (cfg : ApplydConfig) (proposal_id : string) : M ApplydOutcome :=
  call cfg "dry_run" (object [("proposal_id", Str proposal_id)]).

Definition request_elevation (cfg : ApplydConfig) (proposal_id reason : string) : M ApplydOutcome :=
  call cfg "request_elevation" (object [("proposal_id", Str proposal_id); ("reason", Str reason)]).

Definition apply_params (proposal_id : string) (confirm_rows : Z) (confirm_token : option string) : Value :=
  with_field "confirm_token" (Str <$> confirm_token)
    (object [("proposal_id", Str proposal_id); ("confirm_rows", Num (PosInt confirm_rows))]).
Definition apply (cfg : ApplydConfig) (proposal_id : string) (confirm_rows : Z) (confirm_token : option string) :
    M ApplydOutcome :=
  call cfg "apply" (apply_params proposal_id confirm_rows confirm_token).

(** *** The proxy transport *)

Fixpoint add_roots (ders : list (list byte)) : result BlockContract unit :=
  match ders with
  | [] => Ok tt
  | der :: ders =>
      let? _ := result_map_err (fun e => proxy_unavailable ("bad proxy trust anchor: " +:+ e)) (add_root der) in
      add_roots ders
  end.

Definition connect_proxy (cfg : ProxyConfig) (roots : option (list (list byte))) : M (result BlockContract C) :=
  emit (DialProxy (pg_config cfg) (bool_decide (is_Some roots))) ;!
  let! r := net_op (fun k => pg_connect k (pg_config cfg) roots) in
  ret (result_map_err proxy_unavailable r).

Definition dial_proxy (cfg : ProxyConfig) : M (result BlockContract C) :=
  match pc_tls cfg with
  | Disabled => connect_proxy cfg None
  | Rustls roots_der =>
      match add_roots roots_der with
      | Err block => ret (Err block)
      | Ok _ => connect_proxy cfg (Some roots_der)
      end
  end.

Definition client_attempt {T} (cfg : ProxyConfig) (f : C -> M (result ReadError T)) (attempt : nat) :
    M (option (result BlockContract T)) :=
  let! held := get_client in
  let! dialled :=
    match held with
    | Some _ => ret (Ok tt)
    | None =>
        let! r := dial_proxy cfg in
        match r with
        | Ok c => set_client (Some c) ;! ret (Ok tt)
        | Err block => ret (Err block)
        end
    end in
  match dialled with
  | Err block => ret (Some (Err block))
  | Ok _ =>
      let! present := get_client in
      match present with
      | None => panic
      | Some c =>
          let! r := f c in
          match r with
          | Ok v => ret (Some (Ok v))
          | Err (ConnectionLost detail) =>
              set_client None ;!
              (if Nat.eqb attempt 0 then ret None else ret (Some (Err (proxy_unavailable detail))))
          | Err (Denied block) => ret (Some (Err block))
          end
      end
  end.

Definition with_client {T} (cfg : ProxyConfig) (f : C -> M (result ReadError T)) : M (result BlockContract T) :=
  attempts (client_attempt cfg f) (Err (proxy_unavailable "exhausted reconnect attempts")) 2 0.

(** [client.query(sql, &[]).await.map_err(classify_pg_error)]. *)
Definition run_query (c : C) (sql : string) : M (result ReadError (list R)) :=
  emit (Ran sql) ;!
  let! r := net_op (fun k => pg_query k c sql) in
  ret (result_map_err classify_pg_error r).

Definition on_rows {T} (c : C) (sql : string) (k : list R -> M T) : M (result ReadError T) :=
  let! r := run_query c sql in
  match r with
  | Ok rows => let! v := k rows in ret (Ok v)
  | Err e => ret (Err e)
  end.

Definition query (cfg : ProxyConfig) (sql : string) : M ReadOutcome :=
  let! r := with_client cfg (fun c => on_rows c sql (fun rows =>
              let json := map row_to_json rows in ret (Rows json (length json)))) in
  ret match r with Ok o => o | Err block => RBlocked block end.

Definition explain_text (inner_sql : string) : string := "EXPLAIN (FORMAT JSON) " +:+ inner_sql.
Definition explain (cfg : ProxyConfig) (inner_sql : string) : M (result BlockContract PlanJson) :=
  with_client cfg (fun c => on_rows c (explain_text inner_sql) (fun rows => ret (plan_from_rows json_display rows))).

Definition dq : string := String (Ascii.ascii_of_nat 34) EmptyString.
Definition quoted (s : string) : string := dq +:+ s +:+ dq.
Definition DISCOVER_SQL : string :=
  "SELECT table_schema AS schema, table_name AS " +:+ quoted "table" +:+ ", column_name AS " +:+ quoted "column" +:+
  ", data_type AS " +:+ quoted "type" +:+
  " FROM information_schema.columns WHERE table_schema NOT IN ('pg_catalog', 'information_schema') ORDER BY table_schema, table_name, ordinal_position".

Definition discover_schema (cfg : ProxyConfig) : M (result BlockContract (list SchemaColumn)) :=
  with_client cfg (fun c => on_rows c DISCOVER_SQL (fun rows =>
    match mapM schema_column rows with Some cols => ret cols | None => panic end)).

(** *** The audit reader *)

Definition audit_unavailable (reason remedy : string) : BlockContract := block_new "AUDIT_UNAVAILABLE" reason remedy true.

Definition tail (dsn : string) (limit : Z) : M (result BlockContract (list AuditRecordView)) :=
  emit (ReadAudit dsn) ;!
  let! sink := net_op (fun k => sink_connect k dsn) in
  let result := let? s := sink in let? chain := AuditSink.load_chain_mut s in Ok (tail_view limit chain) in
  let! joined := net_op join_error in
  ret match joined, result with
      | Some join_err, _ =>
          Err (audit_unavailable ("the audit read task failed: " +:+ join_err) "retry the get_audit call")
      | None, Ok records => Ok records
      | None, Err e =>
          Err (audit_unavailable ("the `_meta` audit tail could not be read: " +:+ Messages.SinkError_fmt debug_str e)
                 ("the audit `_meta` DB may be unreachable or unconfigured; retry, " +:+
                  "or check PGB_META_DSN / the reader role's SELECT grant"))
      end.
(** *** What a program records and how it ends *)

(** Everything [m] adds to the trace satisfies [P]. *)
Definition emits {A} (P : Event -> Prop) (m : M A) : Prop :=
  forall w, exists l, trace (m w).1 = trace w ++ l /\ Forall P l.

Lemma logs_same {A} P (m : M A) : (forall w, trace (m w).1 = trace w) -> emits P m.
Proof. intros Hs w. exists []. by rewrite Hs, app_nil_r. Qed.

Lemma logs_net {A} P (f : K -> K * A) : emits P (net_op f).
Proof. apply logs_same. intros w. unfold net_op. by destruct (f _). Qed.

Lemma logs_emit (P : Event -> Prop) e : P e -> emits P (emit e).
Proof. intros He w. exists [e]. by split; [|constructor]. Qed.

Lemma logs_bind {A B} P (m : M A) (k : A -> M B) : emits P m -> (forall a, emits P (k a)) -> emits P (bind m k).
Proof.
  intros Hm Hk w. destruct (Hm w) as (l & Hl & HP). unfold bind. destruct (m w) as [w1 [a|]]; simpl in *; [|by exists l].
  destruct (Hk a w1) as (l2 & Hl2 & HP2). exists (l ++ l2). rewrite Hl2, Hl, app_assoc. by split; [|apply Forall_app].
Qed.

Lemma logs_attempts {A} P (body : nat -> M (option A)) fallback n i :
  (forall i, emits P (body i)) -> emits P (attempts body fallback n i).
Proof.
  intros Hb. revert i. induction n as [|n IH]; intros i; simpl; [by apply logs_same|].
  apply logs_bind; [done|]. intros [a|]; [by apply logs_same|done].
Qed.

Lemma logs_weaken {A} (P Q : Event -> Prop) (m : M A) : (forall e, P e -> Q e) -> emits P m -> emits Q m.
Proof. intros HPQ Hm w. destruct (Hm w) as (l & ? & ?). exists l. split; [done|]. by eapply Forall_impl. Qed.

#[local] Ltac emitting :=
  repeat first
    [ apply logs_bind; [|intros ?] | apply logs_net | apply logs_emit | apply logs_attempts; intros ?
    | match goal with |- emits _ (match ?x with _ => _ end) => destruct x eqn:? end
    | by apply logs_same ].

(** A line the client sends for a method and its parameters. *)
Definition line_of (method : string) (params : Value) (line : string) : Prop :=
  exists id text, to_string (request_value id method params) = Ok text /\ line = text +:+ newline.

Definition call_event (cfg : ApplydConfig) (method : string) (params : Value) (e : Event) : Prop :=
  match e with
  | DialApplyd path _ => path = socket_path cfg
  | Sent line => line_of method params line
  | Got _ => True
  | _ => False
  end.

Lemma call_emits cfg method params : emits (call_event cfg method params) (call cfg method params).
Proof.
  unfold call, call_attempt, dial, round_trip, exchange, awaited. emitting; simpl; first [done|by eexists _, _].
Qed.
Definition read_event (cfg : ProxyConfig) (sql : string) (e : Event) : Prop :=
  match e with
  | DialProxy c tls => c = pg_config cfg /\ (tls = false <-> pc_tls cfg = Disabled)
  | Ran q => q = sql
  | _ => False
  end.

Lemma dial_proxy_emits cfg sql : emits (read_event cfg sql) (dial_proxy cfg).
Proof. unfold dial_proxy, connect_proxy. destruct (pc_tls cfg) eqn:E; emitting; simpl; rewrite E; by split; [|split]. Qed.

Lemma with_client_emits {T} cfg sql (k : list R -> M T) :
  (forall rows, emits (read_event cfg sql) (k rows)) ->
  emits (read_event cfg sql) (with_client cfg (fun c => on_rows c sql k)).
Proof.
  intros Hk. unfold with_client, client_attempt, on_rows, run_query.
  emitting; first [apply dial_proxy_emits|apply Hk|done].
Qed.

(** *** Every request goes out on a connection that owes no answer *)

Inductive phase : Type := NoConnection | Idle | Waiting.

Definition feed (p : phase) (e : Event) : option phase :=
  match e, p with
  | DialApplyd _ up, _ => Some (if up then Idle else NoConnection)
  | Sent _, Idle => Some Waiting
  | Got _, Waiting => Some Idle
  | Sent _, _ | Got _, _ => None
  | _, _ => Some p
  end.
Definition phase_of (l : list Event) : option phase := foldl (fun o e => o ≫= fun p => feed p e) (Some NoConnection) l.

Lemma phase_snoc l e : phase_of (l ++ [e]) = phase_of l ≫= fun p => feed p e.
Proof. unfold phase_of. by rewrite foldl_app. Qed.

(** The connection held, if any, is idle. *)
Definition in_step (w : W) : Prop := exists p, phase_of (trace w) = Some p /\ (is_Some (conn w) -> p = Idle).

(** Pre- and postcondition, with what holds should the program panic. *)
Definition hoare {A} (P : W -> Prop) (m : M A) (Q : A -> W -> Prop) (E : W -> Prop) : Prop :=
  forall w, P w -> match m w with (w', Returned a) => Q a w' | (w', Panicked) => E w' end.

Lemma hoare_bind {A B} P (m : M A) R' (k : A -> M B) Q E :
  hoare P m R' E -> (forall a, hoare (R' a) (k a) Q E) -> hoare P (bind m k) Q E.
Proof.
  intros Hm Hk w HP. specialize (Hm w HP). unfold bind. destruct (m w) as [w1 [a|]]; [|done]. by apply Hk.
Qed.

Lemma hoare_ret {A} (P : W -> Prop) (a : A) (Q : A -> W -> Prop) E : (forall w, P w -> Q a w) -> hoare P (ret a) Q E.
Proof. intros HPQ w HP. by apply HPQ. Qed.

Lemma hoare_attempts {A} (I : W -> Prop) (Q : A -> W -> Prop) E body fallback n i :
  (forall i, hoare I (body i) (fun o w => match o with Some a => Q a w | None => I w end) E) ->
  (forall w, I w -> Q fallback w) -> hoare I (attempts body fallback n i) Q E.
Proof.
  intros Hb Hf. revert i. induction n as [|n IH]; intros i; simpl; [by apply hoare_ret|].
  eapply hoare_bind; [apply Hb|]. intros [a|]; [by apply hoare_ret|apply IH].
Qed.
Lemma dial_hoare cfg :
  hoare (fun w => in_step w /\ conn w = None) (dial cfg)
    (fun r w => match r with Ok _ => phase_of (trace w) = Some Idle | Err _ => in_step w end) (fun _ => False).
Proof.
  intros w [(p & Hp & _) Hc]. unfold dial, bind, net_op, emit. destruct (unix_connect _ _) as [k [h|e]]; simpl.
  - by rewrite phase_snoc, Hp.
  - exists NoConnection. simpl. rewrite phase_snoc, Hp, Hc. split; [done|]. by intros [].
Qed.

Lemma awaited_hoare {A B} (P : W -> Prop) (f : K -> K * io A) (k : A -> M (result WireError B)) Q E :
  (forall w k', P w -> P (on_net k' w)) -> (forall w e, P w -> Q (Err e) w) ->
  (forall a, hoare P (k a) Q E) -> hoare P (awaited f k) Q E.
Proof.
  intros Hn He Hk w HP. unfold awaited, bind, net_op. destruct (f (net w)) as [k' [a|e|]]; simpl; [|by apply He, Hn..].
  by apply Hk, Hn.
Qed.

Definition at_phase (p : phase) (w : W) : Prop := phase_of (trace w) = Some p.

Definition traded (r : result WireError RpcResponse) (w : W) : Prop :=
  match r with Ok _ => at_phase Idle w | Err _ => exists p, at_phase p w end.

Lemma exchange_hoare h line : hoare (at_phase Idle) (exchange h line) traded (fun _ => False).
Proof.
  apply hoare_bind with (fun _ => at_phase Waiting).
  { intros w Hp. unfold at_phase. simpl. by rewrite phase_snoc, Hp. }
  intros _. do 3 (apply awaited_hoare; [done|by eexists|intros ?]).
  case_bool_decide; [apply hoare_ret; by eexists|].
  apply hoare_bind with (fun _ => at_phase Idle).
  { intros w Hp. unfold at_phase. simpl. by rewrite phase_snoc, Hp. }
  intros _. apply hoare_ret. intros w Hp. destruct (from_str _); [done|by eexists].
Qed.

Lemma round_trip_hoare cfg h method params :
  hoare (at_phase Idle) (round_trip cfg h method params) traded (fun _ => False).
Proof.
  apply hoare_bind with (fun _ => at_phase Idle); [by intros w Hp|]. intros id.
  destruct (to_string _); [|apply hoare_ret; by eexists].
  apply hoare_bind with (fun _ => at_phase Idle); [by intros w Hp|]. intros _. apply exchange_hoare.
Qed.

Lemma call_attempt_hoare cfg method params i :
  hoare in_step (call_attempt cfg method params i) (fun _ => in_step) (fun _ => False).
Proof.
  apply hoare_bind with (fun held w => in_step w /\ conn w = held); [by intros w Hw|]. intros held.
  apply hoare_bind with (fun r w => match r with Ok _ => at_phase Idle w /\ is_Some (conn w) | Err _ => in_step w end).
  { destruct held as [h|].
    - apply hoare_ret. intros w [(p & Hp & Hc) Hh]. unfold at_phase. rewrite Hp, Hh. split; [|by eexists].
      f_equal. apply Hc. rewrite Hh. by eexists.
    - eapply hoare_bind; [apply dial_hoare|]. intros [h|b]; [|by apply hoare_ret].
      intros w Hw. split; [done|by eexists]. }
  intros [[]|b]; [|by apply hoare_ret].
  apply hoare_bind with (fun present w => at_phase Idle w /\ is_Some present); [by intros w Hw|].
  intros [h|]; [|by intros w [_ []]].
  eapply hoare_bind with traded; [intros w [Hw _]; by apply round_trip_hoare|].
  intros [resp|[detail|]].
  - apply hoare_ret. intros w Hw. exists Idle. by split.
  - intros w (p & Hp). unfold bind. simpl.
    destruct (Nat.eqb i 0); simpl; exists p; (split; [done|by intros []]).
  - intros w (p & Hp). simpl. exists p. split; [done|by intros []].
Qed.

Lemma call_hoare cfg method params : hoare in_step (call cfg method params) (fun _ => in_step) (fun _ => False).
Proof.
  apply hoare_attempts; [|done]. intros i w Hw. pose proof (call_attempt_hoare cfg method params i w Hw) as Hi.
  by destruct (call_attempt _ _ _ _ _) as [w' [[a|]|]].
Qed.

(** The rest of the server leaves the daemon's connection alone, whether it panics or not. *)
Definition stays {A} (m : M A) : Prop := forall w, in_step w -> in_step (m w).1.

Lemma stays_same {A} (m : M A) : (forall w, trace (m w).1 = trace w /\ conn (m w).1 = conn w) -> stays m.
Proof. intros Hs w. unfold in_step. by destruct (Hs w) as [-> ->]. Qed.

Lemma stays_net {A} (f : K -> K * A) : stays (net_op f).
Proof. apply stays_same. intros w. unfold net_op. by destruct (f _). Qed.

Lemma stays_emit e : (forall p, feed p e = Some p) -> stays (emit e).
Proof. intros He w (p & Hp & Hc). exists p. simpl. rewrite phase_snoc, Hp. simpl. by rewrite He. Qed.

Lemma stays_bind {A B} (m : M A) (k : A -> M B) : stays m -> (forall a, stays (k a)) -> stays (bind m k).
Proof.
  intros Hm Hk w Hw. specialize (Hm w Hw). unfold bind. destruct (m w) as [w1 [a|]]; [|done]. by apply Hk.
Qed.

Lemma stays_attempts {A} (body : nat -> M (option A)) fallback n i :
  (forall i, stays (body i)) -> stays (attempts body fallback n i).
Proof.
  intros Hb. revert i. induction n as [|n IH]; intros i; simpl; [by apply stays_same|].
  apply stays_bind; [done|]. intros [a|]; [by apply stays_same|done].
Qed.

#[local] Ltac staying :=
  repeat first
    [ apply stays_bind; [|intros ?] | apply stays_net | apply stays_emit; by intros []
    | apply stays_attempts; intros ?
    | match goal with |- stays (match ?x with _ => _ end) => destruct x end
    | by apply stays_same ].

Lemma call_stays cfg method params : stays (call cfg method params).
Proof.
  intros w Hw. pose proof (call_hoare cfg method params w Hw) as Hc. by destruct (call _ _ _ _) as [w' [o|]].
Qed.

Lemma with_client_stays {T} cfg sql (k : list R -> M T) :
  (forall rows, stays (k rows)) -> stays (with_client cfg (fun c => on_rows c sql k)).
Proof.
  intros Hk. unfold with_client, client_attempt, on_rows, run_query, dial_proxy, connect_proxy.
  staying; apply Hk.
Qed.

Lemma query_stays cfg sql : stays (query cfg sql).
Proof. unfold query. apply stays_bind; [apply with_client_stays|]; intros; by apply stays_same. Qed.
Lemma explain_stays cfg sql : stays (explain cfg sql).
Proof. apply with_client_stays. intros. by apply stays_same. Qed.
Lemma discover_schema_stays cfg : stays (discover_schema cfg).
Proof. apply with_client_stays. intros. destruct (mapM _ _); by apply stays_same. Qed.
Lemma tail_stays dsn limit : stays (tail dsn limit).
Proof. unfold tail. staying. Qed.

(** *** Panics *)

Lemma hoare_conseq {A} (P P' : W -> Prop) (m : M A) (Q Q' : A -> W -> Prop) (E E' : W -> Prop) :
  hoare P' m Q' E' -> (forall w, P w -> P' w) -> (forall a w, Q' a w -> Q a w) -> (forall w, E' w -> E w) -> hoare P m Q E.
Proof. intros Hm HP HQ HE w Hw. specialize (Hm w (HP w Hw)). destruct (m w) as [w' [a|]]; auto. Qed.

(** [m] panics only if [E]. *)
Definition panics_only {A} (E : Prop) (m : M A) : Prop := hoare (fun _ => True) m (fun _ _ => True) (fun _ => E).

Lemma panics_ret {A} E (a : A) : panics_only E (ret a).
Proof. by apply hoare_ret. Qed.
Lemma panics_net {A} E (f : K -> K * A) : panics_only E (net_op f).
Proof. intros w _. unfold net_op. by destruct (f _). Qed.
Lemma panics_emit E e : panics_only E (emit e).
Proof. by intros w _. Qed.
Lemma panics_bind {A B} E (m : M A) (k : A -> M B) : panics_only E m -> (forall a, panics_only E (k a)) -> panics_only E (bind m k).
Proof. intros Hm Hk. eapply hoare_bind; [apply Hm|apply Hk]. Qed.

Lemma dial_proxy_panics E cfg : panics_only E (dial_proxy cfg).
Proof.
  unfold dial_proxy, connect_proxy. destruct (pc_tls cfg); [|destruct (add_roots _)]; try apply panics_ret;
    repeat (apply panics_bind; [|intros ?]); first [apply panics_emit|apply panics_net|apply panics_ret].
Qed.

(** The [expect] on the client is never reached. *)
Lemma with_client_panics {T} E cfg sql (k : list R -> M T) :
  (forall c k0 k1 rows, pg_query k0 c sql = (k1, Ok rows) -> panics_only E (k rows)) ->
  panics_only E (with_client cfg (fun c => on_rows c sql k)).
Proof.
  intros Hk. apply hoare_attempts; [|done]. intros i.
  apply hoare_conseq with (fun _ => True) (fun _ _ => True) (fun _ => E); [|done| |done].
  2: { by intros [a|] w. }
  apply hoare_bind with (fun held w => client w = held); [by intros w Hw|]. intros held.
  apply hoare_bind with (fun r w => match r with Ok _ => is_Some (client w) | Err _ => True end).
  { destruct held as [c|]; [apply hoare_ret; intros w ->; by eexists|].
    eapply hoare_conseq with (P' := fun _ => True) (Q' := fun r w => match r with Ok _ => is_Some (client w) | Err _ => True end)
      (E' := fun _ => E); try done.
    eapply hoare_bind; [apply dial_proxy_panics|]. intros [c|b]; [|by apply hoare_ret]. intros w _. by eexists. }
  intros [u|b]; [|by apply hoare_ret].
  apply hoare_bind with (fun present _ => is_Some present); [by intros w Hw|].
  intros [c|]; [|by intros w []].
  apply hoare_conseq with (fun _ => True) (fun _ _ => True) (fun _ => E); [|done..].
  apply panics_bind.
  - intros w _. unfold on_rows, run_query, bind, emit, net_op. simpl. destruct (pg_query _ _ _) as [k1 [rows|e]] eqn:Eq; simpl; [|done].
    specialize (Hk _ _ _ _ Eq). specialize (Hk (on_net k1 (log (Ran sql) w)) I). by destruct (k rows _) as [w' [a|]].
  - intros [v|[d|b]]; [apply panics_ret| |apply panics_ret]. intros w _. unfold bind. simpl. by destruct (Nat.eqb i 0).
Qed.

(** A row of [information_schema] that lacks one of the four columns. *)
Definition odd_row : Prop :=
  exists (c : C) (k0 k1 : K) rows, pg_query k0 c DISCOVER_SQL = (k1, Ok rows) /\ mapM schema_column rows = None.

Lemma query_panics cfg sql : panics_only False (query cfg sql).
Proof. apply panics_bind; [apply with_client_panics|]; intros; apply panics_ret. Qed.
Lemma explain_panics cfg sql : panics_only False (explain cfg sql).
Proof. apply with_client_panics. intros. apply panics_ret. Qed.
Lemma discover_schema_panics cfg : panics_only odd_row (discover_schema cfg).
Proof.
  apply with_client_panics. intros c k0 k1 rows Hq. destruct (mapM _ _) eqn:Em; [apply panics_ret|].
  intros w _. by exists c, k0, k1, rows.
Qed.
Lemma tail_panics dsn limit : panics_only False (tail dsn limit).
Proof. unfold tail. repeat (apply panics_bind; [|intros ?]); first [apply panics_emit|apply panics_net|apply panics_ret]. Qed.
End calls.
End Calls.

(** ** The server *)

Module Server.
Import BlastRadius Json Contract Catalog Wires Calls.

Definition SERVER_NAME : string := "pg-brakes-mcp".

Record PgBrakesMcp : Type := mkMcp {
  role : string;
  session_id : string;
  proxy : option ProxyConfig;
  applyd : option ApplydConfig;
  audit : option string
}.

Definition mcp_new (role session_id : string) : PgBrakesMcp := mkMcp role session_id None None None.
Definition with_proxy (s : PgBrakesMcp) (p : ProxyConfig) : PgBrakesMcp :=
  mkMcp (role s) (session_id s) (Some p) (applyd s) (audit s).
Definition with_applyd (s : PgBrakesMcp) (a : ApplydConfig) : PgBrakesMcp :=
  mkMcp (role s) (session_id s) (proxy s) (Some a) (audit s).
Definition with_audit (s : PgBrakesMcp) (dsn : string) : PgBrakesMcp :=
  mkMcp (role s) (session_id s) (proxy s) (applyd s) (Some dsn).

(** What the protocol library carries of a result, an error and a listed tool. *)
Record CallToolResult : Type := mkResult {
  content : list string; structured_content : option Value; is_error : option bool
}.
Record McpError : Type := mkMcpError { me_code : Z; me_message : string }.
Definition invalid_params (message : string) : McpError := mkMcpError (-32602) message.
Record Tool : Type := mkTool { t_name : string; t_description : string; t_schema : Map }.

Definition tool_from_spec (spec : ToolSpec) : Tool :=
  mkTool (ts_name spec) (ts_description spec) (default [] (as_object (input_schema spec))).
Definition list_tools : list Tool := map tool_from_spec catalog.

Definition arg_str (args : Map) (key : string) : string := default EmptyString (lookup key args ≫= as_str).

Definition whoami (s : PgBrakesMcp) : WhoamiResult := whoami_new (role s) (session_id s) TOOL_NAMES.

Definition no_proxy_block : BlockContract :=
  proxy_unavailable "no proxy endpoint is configured (set PGB_PROXY_HOST/PORT/DB/USER/PASSWORD)".
Definition no_applyd_block : BlockContract :=
  block_new "APPLYD_UNAVAILABLE" "no applyd write daemon is configured (set PGB_APPLYD_SOCKET)"
    "configure the applyd socket path; retry once the write daemon is up" true.
Definition confirm_required : BlockContract :=
  block_new "CONFIRM_REQUIRED" "apply requires confirm_rows: confirm the dry-run's affected row count first"
    "re-call apply_write with confirm_rows set to the dry_run blast_radius.total_rows" true.

Definition column_value (c : SchemaColumn) : Value :=
  object [("schema", Str (sc_schema c)); ("table", Str (sc_table c)); ("column", Str (sc_column c));
          ("data_type", Str (sc_data_type c))].
Definition record_value (v : AuditRecordView) : Value :=
  object [("seq", Num (PosInt (v_seq v))); ("decision", Str (v_decision v)); ("statement_class", Str (v_statement_class v))].

(** [result.get(k).cloned().unwrap_or(Null)]. *)
Definition field (k : string) (v : Value) : Value := default Null (get k v).
Definition f64_value (f : f64) : Value := from_option Num Null (from_f64 f).

Definition verdict_upper (v : Policy.Verdict) : string :=
  match v with
  | Policy.Allow => "ALLOW" | Policy.Escalate => "ESCALATE" | Policy.Hold => "HOLD" | Policy.Block => "BLOCK"
  end.

Section server.
Context {K H C R S : Type} `{Net K H C R S, PgRow R, AuditSink.Sink S}.
Context (to_string : Value -> result string string) (from_str : string -> result string RpcResponse).
Context (json_display : Value -> string) (debug_str : string -> string).
Context (parse_sql : string -> option (list Classifier.Statement)).
Context (visit_expressions : Classifier.Statement -> list Classifier.Expr).

#[local] Abbreviation M := (Calls.M (K:=K) (H:=H) (C:=C)).
#[local] Abbreviation ret := (Calls.ret (K:=K) (H:=H) (C:=C)).
#[local] Notation "'let!' x := m 'in' k" := (Calls.bind m (fun x => k)) (at level 10, x name, m at level 100, k at level 200).

Definition structured_ok (v : Value) : CallToolResult := mkResult [json_display v] (Some v) (Some false).
Definition structured_block (b : BlockContract) : CallToolResult :=
  mkResult [json_display (contract_value b)] (Some (contract_value b)) (Some true).

Definition is_read (sql : string) : bool :=
  match Classifier.classify parse_sql visit_expressions sql with Classifier.Read => true | Classifier.NotRead => false end.

Definition tool_query (s : PgBrakesMcp) (sql : string) : M CallToolResult :=
  if negb (is_read sql) then ret (structured_block (read_only "write/DDL or stacked statement"))
  else match proxy s with
       | None => ret (structured_block no_proxy_block)
       | Some p =>
           let! r := Calls.query p sql in
           ret match r with
               | Rows rows row_count =>
                   structured_ok (object [("status", Str "ok"); ("rows", Arr (map Obj rows));
                                          ("rowCount", Num (PosInt (Z.of_nat row_count)))])
               | RBlocked block => structured_block block
               end
       end.

Definition tool_explain (s : PgBrakesMcp) (sql : string) : M CallToolResult :=
  if negb (is_read sql)
  then ret (structured_block (read_only "write/DDL or stacked statement (explain_plan plans read-only statements)"))
  else match proxy s with
       | None => ret (structured_block no_proxy_block)
       | Some p =>
           let! r := Calls.explain json_display p sql in
           ret match r with
               | Ok j => structured_ok (object [("status", Str "ok"); ("plan", Str (pj_plan j)); ("cost", f64_value (pj_cost j))])
               | Err block => structured_block block
               end
       end.

Definition tool_discover_schema (s : PgBrakesMcp) : M CallToolResult :=
  match proxy s with
  | None => ret (structured_block no_proxy_block)
  | Some p =>
      let! r := Calls.discover_schema p in
      ret match r with
          | Ok columns => structured_ok (object [("status", Str "ok"); ("columns", Arr (map column_value columns))])
          | Err block => structured_block block
          end
  end.

Definition tool_get_audit (s : PgBrakesMcp) (limit : Z) : M CallToolResult :=
  match audit s with
  | None => ret (structured_block (audit_unavailable "no `_meta` audit reader is configured (set PGB_META_DSN)"
                   "configure the `_meta` reader DSN to read the audit tail"))
  | Some dsn =>
      let! r := Calls.tail debug_str dsn limit in
      ret match r with
          | Ok records => structured_ok (object [("status", Str "ok"); ("records", Arr (map record_value records))])
          | Err block => structured_block block
          end
  end.

(** A write tool: the daemon's outcome, its success turned into an answer. *)
Definition relayed (m : M ApplydOutcome) (ok : Value -> Value) : M CallToolResult :=
  let! r := m in
  ret match r with AOk result => structured_ok (ok result) | ABlocked block => structured_block block end.

Definition proposed_value (result : Value) : Value :=
  object [("status", Str "ok"); ("proposal_id", field "proposal_id" result); ("ttl_millis", field "ttl_millis" result)].

Definition tool_propose_write (s : PgBrakesMcp) (sql : string) (expected_rows : option Z) (_application_name : option string) :
    M CallToolResult :=
  match applyd s with
  | None => ret (structured_block no_applyd_block)
  | Some a => relayed (Calls.propose to_string from_str a sql expected_rows) proposed_value
  end.

Definition rehearsed_value (result : Value) : Value :=
  let total_rows := default 0 (get "total_rows" result ≫= as_u64) in
  let reversible := default false (get "reversible" result ≫= as_bool) in
  let risk := Policy.assess Policy.allow_stub
                (Policy.mkRiskInput EmptyString EmptyString (Policy.mkStats (Some total_rows) None None None) Policy.intent_default) in
  object
    [("status", Str "ok");
     ("blast_radius", object [("total_rows", Num (PosInt total_rows)); ("pk_set_checksum", field "pk_set_checksum" result);
                              ("reversible", Bool reversible)]);
     ("risk", object [("verdict", Str (verdict_upper (Policy.rv_verdict risk))); ("reason", Str (Policy.rv_reason risk));
                      ("confidence", f64_value (Policy.rv_confidence risk))]);
     ("confirm_token", field "confirm_token" result)].

Definition tool_dry_run (s : PgBrakesMcp) (proposal_id : string) : M CallToolResult :=
  match applyd s with
  | None => ret (structured_block no_applyd_block)
  | Some a => relayed (Calls.dry_run to_string from_str a proposal_id) rehearsed_value
  end.

Definition elevated_value (result : Value) : Value :=
  object [("status", Str "ok"); ("request_id", field "request_id" result); ("ttl_millis", field "ttl_millis" result);
          ("cap_max_rows", field "cap_max_rows" result); ("cap_max_wal_bytes", field "cap_max_wal_bytes" result);
          ("side_effecting_triggers", default (Arr []) (get "side_effecting_triggers" result))].

Definition tool_request_elevation (s : PgBrakesMcp) (proposal_id reason : string) : M CallToolResult :=
  match applyd s with
  | None => ret (structured_block no_applyd_block)
  | Some a => relayed (Calls.request_elevation to_string from_str a proposal_id reason) elevated_value
  end.

Definition applied_value (result : Value) : Value :=
  object [("status", Str "ok"); ("applied", Bool (default true (get "applied" result ≫= as_bool)));
          ("reversible", Bool (default false (get "reversible" result ≫= as_bool)))].

Definition tool_apply_write (s : PgBrakesMcp) (proposal_id : string) (confirm_rows : option Z) (confirm_token : option string) :
    M CallToolResult :=
  match confirm_rows with
  | None => ret (structured_block confirm_required)
  | Some rows =>
      match applyd s with
      | None => ret (structured_block no_applyd_block)
      | Some a => relayed (Calls.apply to_string from_str a proposal_id rows confirm_token) applied_value
      end
  end.

Definition answered (m : M CallToolResult) : M (result McpError CallToolResult) := let! r := m in ret (Ok r).

Definition dispatch (s : PgBrakesMcp) (name : string) (args : Map) : M (result McpError CallToolResult) :=
  if decide (name = "whoami"%string) then ret (Ok (structured_ok (whoami_value (whoami s))))
  else if decide (name = "query"%string) then answered (tool_query s (arg_str args "sql"))
  else if decide (name = "explain_plan"%string) then answered (tool_explain s (arg_str args "sql"))
  else if decide (name = "discover_schema"%string) then answered (tool_discover_schema s)
  else if decide (name = "get_audit"%string) then
    answered (tool_get_audit s (default 0 (lookup "limit" args ≫= as_u64)))
  else if decide (name = "propose_write"%string) then
    answered (tool_propose_write s (arg_str args "sql") (lookup "expected_rows" args ≫= as_u64)
                (lookup "application_name" args ≫= as_str))
  else if decide (name = "dry_run"%string) then answered (tool_dry_run s (arg_str args "proposal_id"))
  else if decide (name = "request_elevation"%string) then
    answered (tool_request_elevation s (arg_str args "proposal_id") (arg_str args "reason"))
  else if decide (name = "apply_write"%string) then
    answered (tool_apply_write s (arg_str args "proposal_id") (lookup "confirm_rows" args ≫= as_u64)
                (lookup "confirm_token" args ≫= as_str))
  else ret (Err (invalid_params ("no such tool: " +:+ name))).

Definition call_tool (s : PgBrakesMcp) (name : string) (arguments : option Map) : M (result McpError CallToolResult) :=
  dispatch s name (default [] arguments).
(** A session: tool calls one after the other.  A call that panics takes its own task down
    and the next one is served. *)
Definition session (s : PgBrakesMcp) (calls : list (string * option Map)) (w : World K H C) : World K H C :=
  foldl (fun w c => (call_tool s c.1 c.2 w).1) w calls.

(** *** What a tool may do to the outside *)

(** The request a write tool is for. *)
Definition asked (a : ApplydConfig) (name : string) (args : Map) : option (string * Value) :=
  if decide (name = "propose_write"%string) then
    Some ("propose"%string, propose_params a (arg_str args "sql") (lookup "expected_rows" args ≫= as_u64))
  else if decide (name = "dry_run"%string) then
    Some ("dry_run"%string, object [("proposal_id", Str (arg_str args "proposal_id"))])
  else if decide (name = "request_elevation"%string) then
    Some ("request_elevation"%string,
          object [("proposal_id", Str (arg_str args "proposal_id")); ("reason", Str (arg_str args "reason"))])
  else if decide (name = "apply_write"%string) then
    rows ← lookup "confirm_rows" args ≫= as_u64;
    Some ("apply"%string, apply_params (arg_str args "proposal_id") rows (lookup "confirm_token" args ≫= as_str))
  else None.

Definition reads (name : string) (args : Map) (sql : string) : Prop :=
  (name = "query"%string /\ sql = arg_str args "sql" /\ is_read sql = true) \/
  (name = "explain_plan"%string /\ sql = explain_text (arg_str args "sql") /\ is_read (arg_str args "sql") = true) \/
  (name = "discover_schema"%string /\ sql = DISCOVER_SQL).

Definition permitted (s : PgBrakesMcp) (name : string) (args : Map) (e : Event) : Prop :=
  match e with
  | DialApplyd path _ => exists a, applyd s = Some a /\ path = socket_path a
  | Sent line => exists a m params, applyd s = Some a /\ asked a name args = Some (m, params) /\ line_of to_string m params line
  | Got _ => is_Some (applyd s)
  | DialProxy cfg tls => exists p, proxy s = Some p /\ cfg = pg_config p /\ (tls = false <-> pc_tls p = Disabled)
  | Ran sql => is_Some (proxy s) /\ reads name args sql
  | ReadAudit dsn => audit s = Some dsn /\ name = "get_audit"%string
  end.

Lemma read_permitted s name args p sql e :
  proxy s = Some p -> reads name args sql -> read_event p sql e -> permitted s name args e.
Proof.
  intros Hp Hr. destruct e; simpl; try done; [intros [-> Ht]; by exists p|]. intros ->. split; [by eexists|done].
Qed.

Lemma write_permitted s name args a m params e :
  applyd s = Some a -> asked a name args = Some (m, params) -> call_event to_string a m params e -> permitted s name args e.
Proof.
  intros Ha Hq. destruct e; simpl; intros He; try done; first [by exists a|by exists a, m, params|by eexists].
Qed.

Lemma logs_ret P {A} (a : A) : emits P (ret a).
Proof. by apply logs_same. Qed.

Lemma relayed_emits P (m : M ApplydOutcome) ok : emits P m -> emits P (relayed m ok).
Proof. intros Hm. apply logs_bind; [done|]. intros. apply logs_ret. Qed.

Lemma answered_emits P m : emits P m -> emits P (answered m).
Proof. intros Hm. apply logs_bind; [done|]. intros. apply logs_ret. Qed.

Lemma write_emits s name args (m : ApplydConfig -> M ApplydOutcome) ok :
  (forall a, applyd s = Some a -> exists meth params, asked a name args = Some (meth, params) /\
     m a = Calls.call to_string from_str a meth params) ->
  emits (permitted s name args)
    match applyd s with None => ret (structured_block no_applyd_block) | Some a => relayed (m a) ok end.
Proof.
  intros Hm. destruct (applyd s) as [a|] eqn:Ha; [|apply logs_ret]. destruct (Hm a eq_refl) as (meth & params & Hq & ->).
  apply relayed_emits. eapply logs_weaken; [|apply call_emits]. intros e. by eapply write_permitted.
Qed.

Lemma read_emits {T} s name args sql (m : ProxyConfig -> M T) (k : T -> CallToolResult) :
  reads name args sql -> (forall p, emits (read_event p sql) (m p)) ->
  emits (permitted s name args)
    match proxy s with None => ret (structured_block no_proxy_block) | Some p => Calls.bind (m p) (fun r => ret (k r)) end.
Proof.
  intros Hr Hm. destruct (proxy s) as [p|] eqn:Hp; [|apply logs_ret]. apply logs_bind; [|intros; apply logs_ret].
  eapply logs_weaken; [|apply Hm]. intros e. by eapply read_permitted.
Qed.

#[local] Opaque Calls.call.

Lemma dispatch_emits s name args : emits (permitted s name args) (dispatch s name args).
Proof.
  unfold dispatch. repeat (case_decide as Hn; [subst name|clear Hn]); try apply logs_ret; apply answered_emits.
  - unfold tool_query. destruct (is_read _) eqn:E; [|apply logs_ret].
    eapply read_emits; [by left|]. intros p. unfold query. apply logs_bind; [|intros; apply logs_ret].
    apply with_client_emits. intros. apply logs_ret.
  - unfold tool_explain. destruct (is_read _) eqn:E; [|apply logs_ret].
    eapply read_emits; [by right; left|]. intros p. apply with_client_emits. intros. apply logs_ret.
  - eapply read_emits; [by right; right|]. intros p. apply with_client_emits. intros.
    destruct (mapM _ _); by apply logs_same.
  - unfold tool_get_audit, tail. destruct (audit s) as [dsn|] eqn:E; [|apply logs_ret].
    repeat (apply logs_bind; [|intros ?]); first [apply logs_net|by apply logs_ret|by apply logs_emit].
  - apply (write_emits _ _ _ (fun a => propose to_string from_str a _ _)). intros a _. by eexists _, _.
  - apply (write_emits _ _ _ (fun a => dry_run to_string from_str a _)). intros a _. by eexists _, _.
  - apply (write_emits _ _ _ (fun a => request_elevation to_string from_str a _ _)). intros a _. by eexists _, _.
  - unfold tool_apply_write. destruct (lookup "confirm_rows" args ≫= as_u64) as [rows|] eqn:E; [|apply logs_ret].
    apply (write_emits _ _ _ (fun a => apply to_string from_str a _ _ _)). intros a _. unfold asked. rewrite E. by eexists _, _.
Qed.

#[local] Transparent Calls.call.

Lemma call_tool_stays s name args : stays (call_tool s name args).
Proof.
  assert (forall A (a : A), stays (K:=K) (H:=H) (C:=C) (ret a)) as Hret by (intros; by apply stays_same).
  assert (forall m ok, stays m -> stays (relayed m ok)) as Hrel.
  { intros m ok Hm. apply stays_bind; [done|]. intros. apply Hret. }
  unfold call_tool, dispatch, tool_query, tool_explain, tool_discover_schema, tool_get_audit, tool_propose_write,
    tool_dry_run, tool_request_elevation, tool_apply_write.
  repeat case_decide; try apply Hret; apply stays_bind; intros; try apply Hret;
    repeat match goal with |- stays (match ?x with _ => _ end) => destruct x end; try apply Hret;
    first [apply Hrel, call_stays|apply stays_bind; [|intros; apply Hret]].
  - apply query_stays.
  - apply explain_stays.
  - apply discover_schema_stays.
  - apply tail_stays.
Qed.

(** *** The answers *)

(** What the agent is told: a value as text and as structure, and either a success that no
    data in it makes look like a block, or a block under its contract. *)
Definition envelope (r : CallToolResult) : Prop :=
  exists v, content r = [json_display v] /\ structured_content r = Some v /\
    ((is_error r = Some false /\ get "status" v <> Some (Str "blocked")) \/
     (exists b, is_error r = Some true /\ v = contract_value b)).

Lemma block_envelope b : envelope (structured_block b).
Proof. exists (contract_value b). do 2 (split; [done|]). right. by exists b. Qed.

Lemma ok_envelope v : get "status" v <> Some (Str "blocked") -> envelope (structured_ok v).
Proof. intros Hv. exists v. do 2 (split; [done|]). by left. Qed.

#[local] Abbreviation answers E m := (hoare in_step m (fun r (_ : World K H C) => envelope r) (fun _ => E)).

Lemma answers_block E b : answers E (ret (structured_block b)).
Proof. apply hoare_ret. intros. apply block_envelope. Qed.

Lemma answers_bind {T} E (m : M T) k : panics_only E m -> (forall r, envelope (k r)) -> answers E (Calls.bind m (fun r => ret (k r))).
Proof.
  intros Hm Hk. eapply hoare_bind with (fun _ _ => True); [|intros a; by apply hoare_ret].
  eapply hoare_conseq; [apply Hm|done..].
Qed.

Lemma answers_call E a m params ok :
  (forall v, get "status" (ok v) <> Some (Str "blocked")) -> answers E (relayed (Calls.call to_string from_str a m params) ok).
Proof.
  intros Hok. eapply hoare_bind with (fun _ _ => True).
  - eapply hoare_conseq; [apply call_hoare|done..].
  - intros o. apply hoare_ret. intros _ _. destruct o; [by apply ok_envelope|apply block_envelope].
Qed.

Lemma tool_query_answers s sql : answers False (tool_query s sql).
Proof.
  unfold tool_query. destruct (negb _); [apply answers_block|]. destruct (proxy s); [|apply answers_block].
  apply answers_bind; [apply query_panics|]. intros []; [by apply ok_envelope|apply block_envelope].
Qed.
Lemma tool_explain_answers s sql : answers False (tool_explain s sql).
Proof.
  unfold tool_explain. destruct (negb _); [apply answers_block|]. destruct (proxy s); [|apply answers_block].
  apply answers_bind; [apply explain_panics|]. intros []; [by apply ok_envelope|apply block_envelope].
Qed.
Lemma tool_discover_answers s : answers (odd_row (K:=K) (C:=C) (R:=R)) (tool_discover_schema s).
Proof.
  unfold tool_discover_schema. destruct (proxy s); [|apply answers_block].
  apply answers_bind; [apply discover_schema_panics|]. intros []; [by apply ok_envelope|apply block_envelope].
Qed.
Lemma tool_get_audit_answers s limit : answers False (tool_get_audit s limit).
Proof.
  unfold tool_get_audit. destruct (audit s); [|apply answers_block].
  apply answers_bind; [apply tail_panics|]. intros []; [by apply ok_envelope|apply block_envelope].
Qed.
Lemma tool_apply_answers s pid rows token : answers False (tool_apply_write s pid rows token).
Proof.
  unfold tool_apply_write. destruct rows; [|apply answers_block]. destruct (applyd s); [by apply answers_call|apply answers_block].
Qed.

(** What a call of a tool comes back with. *)
Definition told (name : string) (r : result McpError CallToolResult) : Prop :=
  match r with
  | Ok r => name ∈ TOOL_NAMES /\ envelope r
  | Err e => (name ∉ TOOL_NAMES) /\ e = invalid_params ("no such tool: " +:+ name)
  end.
Definition odd_discovery (name : string) : Prop := name = "discover_schema"%string /\ odd_row (K:=K) (C:=C) (R:=R).

Lemma answered_told name m (E : Prop) :
  name ∈ TOOL_NAMES -> answers E m -> (E -> odd_discovery name) ->
  hoare in_step (answered m) (fun r _ => told name r) (fun _ => odd_discovery name).
Proof.
  intros Hn Hm HE. eapply hoare_bind with (fun r _ => envelope r); [|intros r; by apply hoare_ret].
  by eapply hoare_conseq; [apply Hm|..].
Qed.

Lemma dispatch_told s name args :
  hoare in_step (dispatch s name args) (fun r _ => told name r) (fun _ => odd_discovery name).
Proof.
  unfold dispatch. repeat (case_decide; [subst name|]);
    [apply hoare_ret; intros _ _; split; [by_decide|by apply ok_envelope]
    |eapply answered_told; [by_decide| |]..|].
  - apply tool_query_answers.
  - done.
  - apply tool_explain_answers.
  - done.
  - apply tool_discover_answers.
  - by intros.
  - apply tool_get_audit_answers.
  - done.
  - unfold tool_propose_write. instantiate (1 := False). destruct (applyd s); [by apply answers_call|apply answers_block].
  - done.
  - unfold tool_dry_run. instantiate (1 := False). destruct (applyd s); [by apply answers_call|apply answers_block].
  - done.
  - unfold tool_request_elevation. instantiate (1 := False). destruct (applyd s); [by apply answers_call|apply answers_block].
  - done.
  - apply tool_apply_answers.
  - done.
  - apply hoare_ret. intros _ _. split; [|done]. unfold TOOL_NAMES. set_solver.
Qed.

(** *** Sessions *)

Lemma session_snoc s calls c w : session s (calls ++ [c]) w = (call_tool s c.1 c.2 (session s calls w)).1.
Proof. unfold session. by rewrite foldl_app. Qed.

(** What was recorded during a session was permitted to one of its calls. *)
Lemma session_emits s calls w :
  exists l, trace (session s calls w) = trace w ++ l /\
    Forall (fun e => exists c, c ∈ calls /\ permitted s c.1 (default [] c.2) e) l.
Proof.
  induction calls as [|c calls IH] using rev_ind; [exists []; by rewrite app_nil_r|].
  destruct IH as (l & Hl & HP). rewrite session_snoc.
  destruct (dispatch_emits s c.1 (default [] c.2) (session s calls w)) as (l2 & Hl2 & HP2).
  exists (l ++ l2). unfold call_tool. rewrite Hl2, Hl, app_assoc. split; [done|]. apply Forall_app. split.
  - eapply Forall_impl; [done|]. intros e (c' & Hc & He). exists c'. split; [set_solver|done].
  - eapply Forall_impl; [done|]. intros e He. exists c. split; [set_solver|done].
Qed.

Definition fresh (k : K) : World K H C := mkWorld k None 1 None [].

Lemma session_in_step s calls k : in_step (session s calls (fresh k)).
Proof.
  induction calls as [|c calls IH] using rev_ind; [exists NoConnection; split; [done|by intros []]|].
  rewrite session_snoc. by apply call_tool_stays.
Qed.

(** C7: whatever tools an agent calls with whatever arguments, and whatever the proxy, the
    daemon and the audit database answer, the server runs on the proxy only the statement
    of a query that classifies as a read, the plain EXPLAIN of such a statement, and the
    schema query; it sends the daemon only the request of the write tool called, the
    proposal under the configured role and session and the apply only with confirmed rows;
    and it dials only the configured endpoints, in clear only where TLS is disabled. *)
Theorem tools_do_only_what_they_say (s : PgBrakesMcp) (calls : list (string * option Map)) (k : K) :
  Forall (fun e => exists name args, (name, args) ∈ calls /\ permitted s name (default [] args) e)
    (trace (session s calls (fresh k))).
Proof.
  destruct (session_emits s calls (fresh k)) as (l & -> & Hl). eapply Forall_impl; [exact Hl|].
  intros e ([name args] & Hc & He). by exists name, args.
Qed.

(** C24: at every point of a session each request to the daemon goes out on a connection on
    which every earlier request was answered, each answer read is the first since the
    request it is taken for, and the connection kept for the next call owes nothing: so
    taking the next line for the answer, without looking at its id, is right. *)
Theorem requests_are_paired_with_answers (s : PgBrakesMcp) (calls : list (string * option Map)) (k : K) :
  exists p, phase_of (trace (session s calls (fresh k))) = Some p /\
    (is_Some (conn (session s calls (fresh k))) -> p = Idle).
Proof. apply session_in_step. Qed.

(** C25: every call of a tool in a session is answered: one of the nine tools with a success
    no data in it can make look like a block, or with a block under the contract; any
    other name with an error, nothing having been done; the one panic left is a row of the
    schema query without one of its four columns.  The two [expect]s are not reached. *)
Theorem every_tool_call_is_told (s : PgBrakesMcp) (calls : list (string * option Map)) (k : K)
    (name : string) (args : option Map) :
  match call_tool s name args (session s calls (fresh k)) with
  | (w, Returned (Ok r)) => name ∈ TOOL_NAMES /\ envelope r
  | (w, Returned (Err e)) =>
      (name ∉ TOOL_NAMES) /\ e = invalid_params ("no such tool: " +:+ name) /\ w = session s calls (fresh k)
  | (w, Panicked) => name = "discover_schema"%string /\ odd_row (K:=K) (C:=C) (R:=R)
  end.
Proof.
  pose proof (dispatch_told s name (default [] args) _ (session_in_step s calls k)) as Ht. unfold call_tool.
  destruct (dispatch _ _ _ _) as [w [[r|e]|]] eqn:E; simpl in *; [done| |done]. destruct Ht as [Hn ->].
  do 2 (split; [done|]). revert E. unfold dispatch.
  repeat (case_decide; [subst name; destruct Hn; by_decide|]). by intros [= <-].
Qed.
End server.
End Server.

(** ** The settings *)

Module Main.
Import Wires Server.
Import Config(PolicyConfig, PolicyError, load_from_yaml, to_credential_less_dsn, audit_target, parse_u16, parse_unsigned, ok_or).

Inductive SettingsError : Type :=
| PolicyUnreadable (path e : string)
| PolicyInvalid (path : string) (e : PolicyError)
| NotAPort (text : string)
| NotANumber (key text : string)
| CaUnset
| CaUnreadable (path e : string)
| CaUnparseable (e : string)
| CaEmpty (path : string).

Section main.
Context (getenv : string -> option string) (pid : Z).
Context (read_to_string : string -> result string string) (read_bytes : string -> result string (list byte)).
Context (pem_certificates : list byte -> result string (list (list byte))).
Context (from_yaml : string -> option PolicyConfig).

Definition nonempty (o : option string) : option string :=
  match o with Some v => if bool_decide (v = EmptyString) then None else Some v | None => None end.

Definition env_or (key fallback : string) : string := default fallback (nonempty (getenv key)).

Definition env_bool (key : string) : option bool :=
  match getenv key with
  | Some v =>
      let t := Text.to_ascii_lowercase (Text.trim v) in
      if bool_decide (t ∈ ["true"; "1"; "yes"; "on"]%string) then Some true
      else if bool_decide (t ∈ ["false"; "0"; "no"; "off"]%string) then Some false
      else None
  | None => None
  end.

Definition resolve_meta_dsn (policy : option PolicyConfig) : option string :=
  match nonempty (getenv "PGB_META_DSN") with
  | Some dsn => Some dsn
  | None =>
      c ← policy; target ← audit_target (Config.audit c);
      let base := to_credential_less_dsn target in
      match nonempty (getenv "PGB_META_PASSWORD") with
      | Some pw => Some (base +:+ " password=" +:+ pw)
      | None => Some base
      end
  end.

Definition load_policy : result SettingsError (option PolicyConfig) :=
  match getenv "PGB_POLICY_PATH" with
  | None => Ok None
  | Some path =>
      if bool_decide (path = EmptyString) then Ok None
      else
        let? yaml := result_map_err (PolicyUnreadable path) (read_to_string path) in
        let? cfg := result_map_err (PolicyInvalid path) (load_from_yaml from_yaml yaml) in
        Ok (Some cfg)
  end.

Definition build_tls : result SettingsError TlsMode :=
  let ca_path := nonempty (getenv "PGB_PROXY_TLS_CA") in
  let require_tls := default (bool_decide (is_Some ca_path)) (env_bool "PGB_PROXY_REQUIRE_TLS") in
  if negb require_tls then Ok Disabled
  else
    let? path := ok_or CaUnset ca_path in
    let? pem := result_map_err (CaUnreadable path) (read_bytes path) in
    let? roots_der := result_map_err CaUnparseable (pem_certificates pem) in
    if bool_decide (roots_der = []) then Err (CaEmpty path) else Ok (Rustls roots_der).

Definition build_server : result SettingsError PgBrakesMcp :=
  let role := env_or "PGB_ROLE" "pgb_agent" in
  let session_id := env_or "PGB_SESSION_ID" ("mcp-" +:+ pretty pid) in
  let? policy := load_policy in
  let host := env_or "PGB_PROXY_HOST" "127.0.0.1" in
  let port_text := env_or "PGB_PROXY_PORT" "6432" in
  let? port := ok_or (NotAPort port_text) (parse_u16 port_text) in
  let? tls := build_tls in
  let timeout_text := env_or "PGB_STATEMENT_TIMEOUT_MS" "30000" in
  let? timeout := ok_or (NotANumber "PGB_STATEMENT_TIMEOUT_MS" timeout_text) (parse_unsigned u64_max timeout_text) in
  let proxy_cfg := mkProxyConfig host port (env_or "PGB_PROXY_DB" "postgres") (env_or "PGB_PROXY_USER" "pgb_agent")
                     (env_or "PGB_PROXY_PASSWORD" EmptyString) (env_or "PGB_PROXY_APP_NAME" DEFAULT_APP_NAME) tls timeout in
  let server := with_proxy (mcp_new role session_id) proxy_cfg in
  let? server :=
    match nonempty (getenv "PGB_APPLYD_SOCKET") with
    | Some socket_path =>
        let text := env_or "PGB_APPLYD_TIMEOUT_MS" (pretty DEFAULT_TIMEOUT_MS) in
        let? timeout_ms := ok_or (NotANumber "PGB_APPLYD_TIMEOUT_MS" text) (parse_unsigned u64_max text) in
        Ok (with_applyd server (mkApplydConfig socket_path role session_id timeout_ms))
    | None => Ok server
    end in
  match resolve_meta_dsn policy with
  | Some dsn => Ok (with_audit server dsn)
  | None => Ok server
  end.
(** *** What a server that starts is *)

Lemma nonempty_some o v : nonempty o = Some v <-> o = Some v /\ v <> EmptyString.
Proof. unfold nonempty. destruct o; [case_bool_decide|]; naive_solver. Qed.

(** The wire to the proxy is in clear exactly when an override says so, or when nothing
    that reads as a boolean is set and no trust anchors are configured: so an override
    that does not read as one turns TLS off where there are none. *)
Lemma plaintext_iff :
  build_tls = Ok Disabled <->
  env_bool "PGB_PROXY_REQUIRE_TLS" = Some false \/
  (env_bool "PGB_PROXY_REQUIRE_TLS" = None /\ nonempty (getenv "PGB_PROXY_TLS_CA") = None).
Proof.
  unfold build_tls. destruct (env_bool _) as [[]|], (nonempty _) as [path|]; simpl;
    try (destruct (read_bytes path) as [pem|]; simpl; [destruct (pem_certificates pem); simpl; [case_bool_decide|]|]); naive_solver.
Qed.

(** A wire that is not in clear verifies against at least one trust anchor. *)
Lemma tls_has_roots roots : build_tls = Ok (Rustls roots) -> roots <> [].
Proof.
  unfold build_tls. destruct (negb _); [done|]. intros (path & _ & H)%result_bind_ok. revert H.
  intros (pem & _ & H)%result_bind_ok. revert H. intros (ders & _ & H)%result_bind_ok. revert H.
  case_bool_decide; naive_solver.
Qed.

(** The identity [whoami] reports is the one proposals are made under. *)
Lemma proposals_bind_to_whoami s a :
  build_server = Ok s -> applyd s = Some a ->
  ac_role a = Contract.wh_role (whoami s) /\ ac_session_id a = Contract.wh_session_id (whoami s).
Proof.
  unfold build_server. intros (pol & _ & H)%result_bind_ok. revert H.
  intros (port & _ & H)%result_bind_ok. revert H. intros (tls & _ & H)%result_bind_ok. revert H.
  intros (tm & _ & H)%result_bind_ok. revert H. intros (sv & Hs & H)%result_bind_ok Ha.
  assert (applyd sv = Some a /\ role s = role sv /\ session_id s = session_id sv) as (Hv & Hr & Hi).
  { by destruct (resolve_meta_dsn pol); simplify_eq. }
  unfold whoami. simpl. rewrite Hr, Hi. destruct (nonempty (getenv "PGB_APPLYD_SOCKET")).
  - apply result_bind_ok in Hs as (ms & _ & [= <-]). simpl in *. by simplify_eq.
  - by simplify_eq.
Qed.
End main.
End Main.
