(* ===== verification/Agent.v ===== *)
(** * Agent: the tool server against the daemon

    The composition of [McpServer] and [Daemon]: what reaches the database when the lines
    the daemon serves are those an agent's session makes the tool server send, and what an
    answer lost on the way does to an apply.  [Link] is the socket between the two with a
    schedule of lost answers. *)

From Stdlib Require Import SpecFloat.
From stdpp Require Import pretty.
From S2P Require Import Prelude Text Config Predicate PkChecksum Inverse Session BlastRadius Policy Intent.
From S2P Require Import DryRun Apply Grant GrantedApply AuditChain AuditSink Conn Messages Approval Applyd Daemon.
From S2P Require Import Classifier Mcp McpServer.

Module Agent.
Import Clock Barrier Applyd.Protocol Applyd.Service Conn(PgRehearsal, PgApplyConn, Client) Webhook(WebhookSender).
Import Json Contract Wires Calls Server Daemon.

(** ** The daemon behind the socket *)

Section agent.
Context (parse_sql : string -> result string (list Predicate.Statement)).
Context (visit_below : Predicate.Expr -> list Predicate.Expr) (to_lowercase : string -> string).
Context (query_where : string -> option Predicate.Expr) (expr_to_string : Predicate.Expr -> string).
Context (update_assignments : string -> result string (option (list Conn.AssignmentTarget))) (wrong_type : Conn.ImageCell -> string).
Context (sha256 : list byte -> list byte) {SigningKey VerifyingKey Signature : Type}.
Context `{!EqDecision VerifyingKey} (verifying_key_of : SigningKey -> VerifyingKey).
Context (key_sign : SigningKey -> list byte -> Signature) (signature_to_bytes : Signature -> list byte).
Context (verify_strict : VerifyingKey -> list byte -> Signature -> bool).
Context (signature_from_bytes : list byte -> Signature).
Context (signing_key_from_bytes : list byte -> SigningKey).
Context (hex_encode : list byte -> string) (hex_decode : string -> option (list byte)) (hex_error : string -> string).
Context (overflow_checks : bool) (sha256_hex : list byte -> string) (debug_str : string -> string).
Context {S W NA NF C D : Type} `{AuditSink.Sink S, WebhookSender W, NA_store : Grant.NonceStore NA, Clock C, Client D}.
Context (now : D -> Z) (read_request : string -> result string (Daemon.Request Value)).
Context `{FromJson Value ProposeParams, FromJson Value DryRunParams, FromJson Value RequestElevationParams,
          FromJson Value ApproveParams, FromJson Value ApplyParams, FromJson Value GetAuditParams}.
Context `{ToJson Value ProposeResult, ToJson Value DryRunResult, ToJson Value RequestElevationResult,
          ToJson Value ApproveResult, ToJson Value ApplyResult, ToJson Value GetAuditResult}.
Context `{!Conn.ServerLaws (Conn.one_write parse_sql) D}.

#[local] Abbreviation Svc := (Service S W NA NF VerifyingKey).
#[local] Abbreviation State := (Daemon.SharedState Svc D).
#[local] Abbreviation serving := (Daemon.dispatch_line parse_sql visit_below to_lowercase query_where expr_to_string
  update_assignments wrong_type sha256 verifying_key_of key_sign signature_to_bytes verify_strict signature_from_bytes
  signing_key_from_bytes hex_encode hex_decode hex_error overflow_checks sha256_hex debug_str now Null read_request
  (S:=S) (W:=W) (NA:=NA) (NF:=NF) (C:=C) (D:=D)).


#[local] Instance rehearsal_ : DryRun.Rehearsal PgRehearsal :=
  Conn.PgRehearsal_rehearsal parse_sql query_where expr_to_string update_assignments sha256_hex debug_str now.
#[local] Instance conn_ : Apply.ApplyConn PgApplyConn := Conn.PgApplyConn_conn update_assignments wrong_type.
#[local] Instance laws_ : Apply.ApplyConnLaws PgApplyConn := Conn.PgApplyConn_laws update_assignments wrong_type.

#[local] Abbreviation service_run := (run parse_sql visit_below to_lowercase sha256 verifying_key_of key_sign
  signature_to_bytes verify_strict signature_from_bytes hex_encode hex_decode overflow_checks sha256_hex debug_str
  (S:=S) (W:=W) (NA:=NA) (NF:=NF) (C:=C) (R:=PgRehearsal) (X:=PgApplyConn) (B:=NoopBarrier)).

(** Lines served from a state, every one of which satisfies [P]. *)
Inductive served_from (P : string -> Prop) (st0 : State) : State -> Prop :=
| from_none : served_from P st0 st0
| from_line line clock st st' resp :
    P line -> served_from P st0 st -> Conn.txn (apply_client (backends st)) = None ->
    serving line st clock = Some (st', resp) -> served_from P st0 st'.

(** Lines that do not ask for an approval sign nothing. *)
Lemma unsigned_run P st0 st :
  (forall line req, P line -> read_request line = Ok req -> method_parse (method req) <> Some Approve) ->
  certified parse_sql (service st0) -> served_from P st0 st ->
  exists tr, service_run (service st0) tr (service st) /\ signed_requests tr = [] /\
    length (Conn.log (apply_client (backends st))) =
      (length (Conn.log (apply_client (backends st0))) + length (writes tr))%nat.
Proof.
  intros HP Hcert. induction 1 as [|line clock st st' resp Hl Hs (tr & Hr & Hn & Hlen) Htx Hd].
  - exists []. split; [constructor|]. split; [done|]. simpl. lia.
  - assert (Daemon.approved read_request line resp = []) as Hno.
    { unfold Daemon.approved, Daemon.method_of, Daemon.approved_by. destruct (read_request line) as [req|] eqn:E; [|done].
      case_bool_decide; [|done]. simpl. specialize (HP line req Hl E). destruct (method_parse (method req)) as [[]|]; done. }
    destruct (dispatch_simulated _ _ _ _ _ _ _ _ _ _ _ _ _ _ _ _ _ _ _ _ _ _ _ _ _ _ _ _ (run_certified _ _ _ _ _ _ _ _ _ _ _ _ _ _ _ _ _ Hcert Hr) (fun _ => Htx) Hd)
      as [(-> & -> & _)|(l & Hst & Hsig & _ & Hone & Hlog)]; [by exists tr|]. rewrite Hno in Hsig.
    exists (l :: tr). rewrite signed_cons, writes_cons, Hsig, Hn, length_app. split; [by eapply run_step|]. split; [done|].
    apply (f_equal length) in Hlog. unfold Daemon.committed_log in Hlog. rewrite length_app, !length_map in Hlog. lia.
Qed.

(** ** A socket that loses answers *)

Context (response_to_string : Daemon.Response Value -> result string string).

(** The daemon at the other end, with the clock of each line to come, which of its answers
    are lost with the connection, and the answer waiting to be read. *)
Record Link : Type := mkLink { daemon : State; clocks : list C; lost : list bool; inbox : option string }.

Definition without_newline (line : string) : string := of_bytes (removelast (as_bytes line)).

(** [serve_connection] of the daemon on one line. *)
Definition link_write (k : Link) (line : string) : Link * io unit :=
  match clocks k with
  | [] => (k, Failed "broken pipe")
  | clock :: clocks =>
      let '(st, out, _) :=
        Daemon.serve_connection parse_sql visit_below to_lowercase query_where expr_to_string
          update_assignments wrong_type sha256 verifying_key_of key_sign signature_to_bytes verify_strict signature_from_bytes
          signing_key_from_bytes hex_encode hex_decode hex_error overflow_checks sha256_hex debug_str now Null read_request
          response_to_string (fun _ text => (Some (text +:+ newline), Ok tt))
          [(Ok (without_newline line), clock)] (daemon k) None in
      (mkLink st clocks (tl (lost k)) (if default false (head (lost k)) then None else out), Done tt)
  end.

Definition link_read (k : Link) : Link * io string :=
  (mkLink (daemon k) (clocks k) (lost k) None, Done (default EmptyString (inbox k))).

#[export] Instance Link_net : Net Link unit unit unit unit := {|
  unix_connect := fun k _ => (mkLink (daemon k) (clocks k) (lost k) None, Ok tt);
  set_timer := fun k _ => k;
  write_all := fun k _ line => link_write k line;
  flush := fun k _ => (k, Done tt);
  read_line := fun k _ => link_read k;
  add_root := fun _ => Ok tt;
  pg_connect := fun k _ _ => (k, Err "connection refused"%string);
  pg_query := fun k _ _ => (k, Err (mkPgError None "closed"%string));
  sink_connect := fun k _ => (k, Err (AuditSink.Backend "connection refused"%string));
  join_error := fun k => (k, None)
|}.

(** ** The agent's session *)

Context {K Sock Cl Rw Sk : Type} `{Net K Sock Cl Rw Sk, PgRow Rw, AuditSink.Sink Sk}.
Context (to_string : Value -> result string string) (from_str : string -> result string RpcResponse).
Context (json_display : Value -> string).
Context (read_sql : string -> option (list Classifier.Statement)).
Context (visit_expressions : Classifier.Statement -> list Classifier.Expr).

#[local] Abbreviation calling := (Server.session to_string from_str json_display debug_str read_sql visit_expressions
  (K:=K) (H:=Sock) (C:=Cl) (R:=Rw) (S:=Sk)).

(** The line the daemon reads is one the tool server wrote during the session. *)
Definition from_the_agent (s : PgBrakesMcp) (calls : list (string * option Map)) (k : K) (line : string) : Prop :=
  Sent (line +:+ newline) ∈ trace (calling s calls (fresh k)).

Lemma append_newline_inj a b : a +:+ newline = b +:+ newline -> a = b.
Proof.
  intros E%(f_equal as_bytes). rewrite !Config.as_bytes_app in E. apply app_inv_tail in E. by apply as_bytes_inj.
Qed.

Lemma asked_no_approval a name args m params : asked a name args = Some (m, params) -> method_parse m <> Some Approve.
Proof.
  unfold asked. repeat case_decide; [by intros [= <- <-]..| |done].
  intros (rows & _ & [= <- <-])%bind_Some. done.
Qed.

(** The daemon reads off a line the method the client wrote on it. *)
Definition methods_survive : Prop :=
  forall id m params text req, to_string (request_value id m params) = Ok text -> read_request text = Ok req -> method req = m.

Lemma agent_lines_approve_nothing s calls k line req :
  methods_survive -> from_the_agent s calls k line -> read_request line = Ok req -> method_parse (method req) <> Some Approve.
Proof.
  intros Hm Hl Hr. unfold from_the_agent in Hl.
  destruct (session_emits to_string from_str json_display debug_str read_sql visit_expressions s calls (fresh k)) as (l & El & HP).
  rewrite El in Hl. simpl in Hl. rewrite Forall_forall in HP.
  destruct (HP _ Hl) as (c & _ & a & m & params & _ & Hq & id & text & Ht & E).
  apply append_newline_inj in E as ->. rewrite (Hm _ _ _ _ _ Ht Hr). by eapply asked_no_approval.
Qed.

(** C4: an agent alone commits nothing.  Whatever tools it calls with whatever arguments,
    and however often and in whatever order the daemon serves the lines the tool server
    sent for them, a daemon that starts with no approval has committed nothing, as long as
    no line finds a transaction left open on the apply session. *)
Theorem agent_alone_commits_nothing (s : PgBrakesMcp) (calls : list (string * option Map)) (k : K)
    (f : Flow.ApprovalFlow W NF VerifyingKey) (s0 : S) (n : NA) (vk : VerifyingKey) (p : Config.PolicyConfig) (seq : Z)
    (bk : Backends D) (st : State) :
  methods_survive ->
  served_from (from_the_agent s calls k) (mkShared (service_new f s0 n vk p seq) bk) st ->
  length (Conn.log (apply_client (backends st))) = length (Conn.log (apply_client bk)).
Proof.
  intros Hm Hs. pose proof (new_certified parse_sql f s0 n vk p seq) as Hcert.
  destruct (unsigned_run _ (mkShared (service_new f s0 n vk p seq) bk) _
              (fun line req => agent_lines_approve_nothing s calls k line req Hm) Hcert Hs)
    as (tr & Hr & Hn & Hl). simpl in *. rewrite Hl.
  assert (length (writes tr) <= length (signed_requests tr))%nat as Hle.
  { eapply books_bound. exact (run_books _ _ _ _ _ _ _ _ _ _ _ _ _ _ _ _ _ _ _ _ _ _ (production_quiet parse_sql update_assignments wrong_type) Hr). }
  rewrite Hn in Hle. simpl in Hle. lia.
Qed.
(** ** An answer lost *)

Lemma without_newline_append t : without_newline (t +:+ newline) = t.
Proof.
  unfold without_newline. rewrite Config.as_bytes_app. change (as_bytes newline) with [x0a].
  rewrite removelast_last. apply of_as_bytes.
Qed.

Lemma link_write_line st c cs l ls ib t st' resp :
  Text.is_blank t = false -> serving t st c = Some (st', resp) ->
  link_write (mkLink st (c :: cs) (l :: ls) ib) (t +:+ newline) =
    (mkLink st' cs ls
       (if l then None else match response_to_string resp with Ok text => Some (text +:+ newline) | Err _ => None end), Done tt).
Proof.
  intros Hb Hd. unfold link_write. rewrite without_newline_append. simpl. rewrite Hb, Hd.
  by destruct (response_to_string resp), l.
Qed.

(** The text of an apply under an id, as the daemon reads it. *)
Definition apply_line (id : Z) (v params : Value) (text : string) : Prop :=
  to_string (request_value id "apply" params) = Ok text /\ Text.is_blank text = false /\
  read_request text = Ok (mkRequest JSONRPC_VERSION v "apply" params).

(** A denial of the daemon as the client decodes it. *)
Definition wire_error (e : RpcError) : RpcResponse :=
  mkRpcResponse None (Some (mkErrorWire (message e)
    (Some (mkBlockData (block_code (data e)) (Protocol.remedy (data e)) (Protocol.retryable (data e)))))).

#[local] Abbreviation dispatching := (Daemon.dispatch_method parse_sql visit_below to_lowercase query_where expr_to_string
  update_assignments wrong_type sha256 verifying_key_of key_sign signature_to_bytes verify_strict signature_from_bytes
  signing_key_from_bytes hex_encode hex_decode hex_error overflow_checks sha256_hex debug_str now Null
  (S:=S) (W:=W) (NA:=NA) (NF:=NF) (C:=C) (D:=D)).

Lemma apply_line_serving i v params text st c :
  apply_line i v params text ->
  serving text st c = dispatching st (mkRequest JSONRPC_VERSION v "apply" params) Protocol.Apply c.
Proof. intros (_ & _ & E). unfold Daemon.dispatch_line. by rewrite E. Qed.

Lemma second_serving st st1 c1 c2 v1 v2 params (p : ApplyParams) t1 t2 i1 i2 resp :
  apply_line i1 v1 params t1 -> apply_line i2 v2 params t2 -> from_value params = Ok p ->
  serving t1 st c1 = Some (st1, resp) -> r_error resp = None ->
  serving t2 st1 c2 = Some (st1, response_err v2 proposal_not_found).
Proof.
  intros L1 L2 Hp. rewrite (apply_line_serving _ _ _ _ _ _ L1), (apply_line_serving _ _ _ _ _ _ L2). intros Hs Hok.
  set (r1 := mkRequest _ _ _ _) in Hs. set (r2 := mkRequest _ _ _ _).
  assert (from_value (Daemon.params r1) = Ok p) as P1 by exact Hp.
  assert (from_value (Daemon.params r2) = Ok p) as P2 by exact Hp.
  by rewrite (second_apply_not_found _ _ _ _ _ _ _ _ _ _ _ _ _ _ _ _ _ _ _ _ _ _ _ _ _ _ _ _ c2 _ P1 P2 Hs Hok).
Qed.

#[local] Abbreviation linked i cell st cs ls tr := (mkWorld (mkLink st cs ls None) cell i (None : option unit) tr).

(** The first attempt loses the answer and drops the socket; the second asks again. *)
Lemma lost_attempt a params st st1 c1 cs ls i v1 t1 resp tr :
  apply_line i v1 params t1 -> serving t1 st c1 = Some (st1, resp) ->
  Calls.call_attempt to_string from_str a "apply" params 0 (linked i (Some tt) st (c1 :: cs) (true :: ls) tr) =
    (linked (wrap_u 64 (i + 1)) None st1 cs ls (tr ++ [Sent (t1 +:+ newline)]), Returned None).
Proof.
  intros (Ht & Hb & _) Hs. unfold Calls.call_attempt, Calls.round_trip, Calls.bind. simpl. rewrite Ht. simpl.
  unfold Calls.exchange, Calls.awaited, Calls.bind, Calls.net_op. simpl.
  unfold Calls.log, Calls.on_net. simpl. rewrite (link_write_line _ _ _ _ _ _ _ _ _ Hb Hs). simpl. done.
Qed.

Lemma redialled_attempt a params st st1 c cs ls i v t resp text r tr :
  apply_line i v params t -> serving t st c = Some (st1, resp) -> response_to_string resp = Ok text ->
  from_str (Text.trim (text +:+ newline)) = Ok r ->
  exists tr', Calls.call_attempt to_string from_str a "apply" params 1 (linked i None st (c :: cs) (false :: ls) tr) =
    (linked (wrap_u 64 (i + 1)) (Some tt) st1 cs ls tr', Returned (Some (map_response r))).
Proof.
  intros (Ht & Hb & _) Hs Hr Hf. unfold Calls.call_attempt, Calls.dial, Calls.round_trip, Calls.bind. simpl. rewrite Ht. simpl.
  unfold Calls.exchange, Calls.awaited, Calls.bind, Calls.net_op. simpl.
  unfold Calls.log, Calls.on_net. simpl. rewrite (link_write_line _ _ _ _ _ _ _ _ _ Hb Hs), Hr. simpl.
  rewrite bool_decide_false by (destruct text; done). simpl. rewrite Hf. eexists. reflexivity.
Qed.

#[local] Abbreviation tool_call := (Server.call_tool to_string from_str json_display debug_str read_sql visit_expressions
  (K:=Link) (H:=unit) (C:=unit) (R:=unit) (S:=unit)).

Lemma apply_tool `{PgRow unit, AuditSink.Sink unit} s a args params w :
  applyd s = Some a -> asked a "apply_write" args = Some ("apply"%string, params) ->
  tool_call s "apply_write" (Some args) w =
    Server.answered (Server.relayed json_display (Calls.call to_string from_str a "apply" params) applied_value) w.
Proof.
  intros Ha Hq. unfold asked in Hq. simpl in Hq.
  apply bind_Some in Hq as (rows & Hr & [= <-]).
  change (tool_call s "apply_write" (Some args) w) with
    (Server.answered (Server.tool_apply_write to_string from_str json_display s (arg_str args "proposal_id")
       (Json.lookup "confirm_rows" args ≫= as_u64) (Json.lookup "confirm_token" args ≫= Json.as_str)) w).
  unfold Server.tool_apply_write. by rewrite Hr, Ha.
Qed.

(** C26: when the daemon has applied a write and answered with success but the answer is
    lost with the connection, the client asks again on a new one, and the agent is told
    that there is no such proposal, not to be retried: the write it confirmed is in the
    database and reported as refused. *)
Theorem lost_answer_hides_the_commit `{PgRow unit, AuditSink.Sink unit} (s : PgBrakesMcp) (a : ApplydConfig) (args : Map)
    (params v1 v2 : Value) (p : ApplyParams) (st st1 : State) (c1 c2 : C) (i : Z) (t1 t2 text : string)
    (resp : Daemon.Response Value) (tr : list Event) :
  applyd s = Some a -> asked a "apply_write" args = Some ("apply"%string, params) -> from_value params = Ok p ->
  apply_line i v1 params t1 -> apply_line (wrap_u 64 (i + 1)) v2 params t2 ->
  serving t1 st c1 = Some (st1, resp) -> r_error resp = None ->
  response_to_string (response_err v2 proposal_not_found) = Ok text ->
  from_str (Text.trim (text +:+ newline)) = Ok (wire_error proposal_not_found) ->
  exists w b, tool_call s "apply_write" (Some args) (linked i (Some tt) st [c1; c2] [true; false] tr) =
      (w, Returned (Ok (structured_block json_display b))) /\
    code b = "PROPOSAL_NOT_FOUND"%string /\ retryable b = false /\ daemon (net w) = st1.
Proof.
  intros Ha Hq Hp L1 L2 Hs Hok Htext Hdec. rewrite (apply_tool s a args params _ Ha Hq).
  pose proof (second_serving _ _ _ c2 _ _ _ _ _ _ _ _ _ L1 L2 Hp Hs Hok) as Hs2.
  destruct (redialled_attempt a params st1 st1 c2 [] [] _ _ _ _ _ _ (tr ++ [Sent (t1 +:+ newline)]) L2 Hs2 Htext Hdec) as [tr' E2].
  unfold Server.answered, Server.relayed, Calls.call, Calls.attempts, Calls.bind.
  rewrite (lost_attempt a params st st1 c1 [c2] [false] i v1 t1 resp tr L1 Hs). cbv beta iota. rewrite E2.
  simpl. by eexists _, _.
Qed.
End agent.

(** ** A session to try it on *)

Module Demo.
Import Service.Demo(toy_sign, toy_verify, to_wire, of_wire, hash, unhex, parse).
Import Daemon.Demo(seen, server, vk, start, st1, st2, st3, st4, st5).

(** A request is written as its method, an answer as its code. *)
Definition demo_params : Value := apply_params seen 1 None.
Definition demo_to_string (v : Value) : result string string :=
  match get "method" v with Some (Str m) => Ok m | _ => Err "no method"%string end.
Definition demo_read (line : string) : result string (Daemon.Request Value) :=
  Ok (mkRequest "2.0" Null line (if bool_decide (line = "apply"%string) then demo_params else Null)).
Definition demo_response (r : Daemon.Response Value) : result string string :=
  Ok match r_error r with Some e => block_code (data e) | None => "ok"%string end.
Definition demo_from_str (t : string) : result string RpcResponse :=
  if bool_decide (t = "ok"%string) then Ok (mkRpcResponse (Some (object [])) None)
  else if bool_decide (t = "PROPOSAL_NOT_FOUND"%string) then Ok (wire_error proposal_not_found)
  else Ok (mkRpcResponse None (Some (mkErrorWire t (Some (mkBlockData t EmptyString false))))).

#[local] Instance j1 : FromJson Value ProposeParams := fun _ => Ok (mkProposeParams "DELETE FROM t WHERE id = 7" None "pgb_applier" "sess-1").
#[local] Instance j2 : FromJson Value DryRunParams := fun _ => Ok (mkDryRunParams seen).
#[local] Instance j3 : FromJson Value RequestElevationParams := fun _ => Ok (mkElevationParams seen "please").
#[local] Instance j4 : FromJson Value ApproveParams := fun _ => Err "not sent by an agent"%string.
#[local] Instance j5 : FromJson Value ApplyParams := fun _ => Ok (mkApplyParams seen 1 None).
#[local] Instance j6 : FromJson Value GetAuditParams := fun _ => Ok (mkGetAuditParams None).
#[local] Instance to_json T : ToJson Value T := fun _ => Some Null.
#[local] Instance sink_ : AuditSink.Sink AuditSink.InMemorySink := AuditSink.InMemorySink_sink AuditSink.demo_canonical AuditSink.demo_hash.

(** The proxy and the audit database are not there. *)
#[local] Instance no_rows : PgRow unit := {|
  row_columns := fun _ => []; try_bool := fun _ _ => None; try_i64 := fun _ _ => None; try_i32 := fun _ _ => None;
  try_i16 := fun _ _ => None; try_f64 := fun _ _ => None; try_f32 := fun _ _ => None; try_json := fun _ _ => None;
  try_string := fun _ _ => None; row_get := fun _ _ => None
|}.
#[local] Instance no_sink : AuditSink.Sink unit := {|
  AuditSink.sink_append := fun s _ _ => (s, Err (AuditSink.Backend "gone"%string));
  AuditSink.load_chain := fun _ => Err (AuditSink.Backend "gone"%string);
  AuditSink.load_chain_mut := fun _ => Err (AuditSink.Backend "gone"%string)
|}.

#[local] Instance link_ : Net (Link (VerifyingKey:=byte) (S:=AuditSink.InMemorySink) (W:=Webhook.RecordingWebhookSender) (NA:=gset string) (NF:=gset string) (C:=MockClock) (D:=Conn.Demo.Srv)) unit unit unit unit :=
  Link_net parse Predicate.below Text.to_ascii_lowercase (fun _ => None) (fun _ => "id = 7"%string)
     (fun _ => Ok None) (fun _ => ""%string) hash (fun k => k) toy_sign to_wire toy_verify of_wire of_wire
     of_bytes unhex (fun s => s) true (fun _ => "aa"%string) (fun s => s) (fun _ => 0) demo_read demo_response.

Definition mcp : PgBrakesMcp :=
  with_applyd (mcp_new "pgb_agent" "sess-1") (mkApplydConfig "/run/applyd.sock" "pgb_agent" "sess-1" 1000).
Definition confirmed : Map := from_entries [("proposal_id", Str seen); ("confirm_rows", Num (PosInt 1))].
Definition calls : list (string * option Map) :=
  [("propose_write", Some (from_entries [("sql", Str "DELETE FROM t WHERE id = 7")]));
   ("dry_run", Some (from_entries [("proposal_id", Str seen)]));
   ("request_elevation", Some (from_entries [("proposal_id", Str seen); ("reason", Str "please")]));
   ("apply_write", Some confirmed)]%string.

(** The answer to an apply the daemon has made is lost: the agent is told there was none. *)
Lemma lost_answer_hides_the_commit_witness :
  length (Conn.Demo.srv_log (apply_client (backends st4))) = 0%nat /\ length (Conn.Demo.srv_log (apply_client (backends st5))) = 1%nat /\
  exists w b, Server.call_tool demo_to_string demo_from_str (fun _ => ""%string) (fun s => s) (fun _ => None) (fun _ => [])
      mcp "apply_write" (Some confirmed)
      (mkWorld (mkLink st4 [starting_at 5; starting_at 6] [true; false] None) (Some tt) 1 (None : option unit) []) =
      (w, Returned (Ok (structured_block (fun _ => ""%string) b))) /\
    code b = "PROPOSAL_NOT_FOUND"%string /\ retryable b = false /\ daemon (net w) = st5.
Proof.
  do 2 (split; [reflexivity|]).
  apply (lost_answer_hides_the_commit parse Predicate.below Text.to_ascii_lowercase (fun _ => None) (fun _ => "id = 7"%string)
     (fun _ => Ok None) (fun _ => ""%string) hash (fun k => k) toy_sign to_wire toy_verify of_wire of_wire
     of_bytes unhex (fun s => s) true (fun _ => "aa"%string) (fun s => s) (fun _ => 0) demo_read demo_response
     demo_to_string demo_from_str (fun _ => ""%string) (fun _ => None) (fun _ => [])
     mcp (mkApplydConfig "/run/applyd.sock" "pgb_agent" "sess-1" 1000) confirmed demo_params Null Null
     (mkApplyParams seen 1 None) st4 st5 (starting_at 5) (starting_at 6) 1 "apply" "apply" "PROPOSAL_NOT_FOUND"
     (response_ok Null Null) []); vm_compute; try reflexivity; split_and!; reflexivity.
Defined.
(** The four tools, against the daemon: proposed, rehearsed, elevated, and refused. *)
#[local] Abbreviation demo_agent := (from_the_agent (fun s => s) demo_to_string demo_from_str (fun _ => ""%string) (fun _ => None)
  (fun _ => []) mcp calls (mkLink start [starting_at 1; starting_at 2; starting_at 3; starting_at 4] [] None)).

Definition agent_methods : list string := ["propose"; "dry_run"; "request_elevation"; "apply"]%string.

Lemma agent_lines line : line ∈ agent_methods -> demo_agent line.
Proof.
  intros Hl. unfold from_the_agent.
  set (tr := trace _). replace tr with
    (DialApplyd "/run/applyd.sock" true ::
     flat_map (fun '(m, got) => [Sent (m +:+ newline); Got (got +:+ newline)])
       [("propose", "ok"); ("dry_run", "ok"); ("request_elevation", "ok"); ("apply", "APPROVAL_REQUIRED")]%string)
    by (vm_compute; reflexivity).
  unfold agent_methods in Hl. rewrite !elem_of_cons, elem_of_nil in Hl.
  destruct Hl as [->|[->|[->|[->|[]]]]]; rewrite list_elem_of_In; simpl; auto 10.
Qed.

#[local] Abbreviation demo_serving := (Daemon.dispatch_line parse Predicate.below Text.to_ascii_lowercase (fun _ => None)
  (fun _ => "id = 7"%string) (fun _ => Ok None) (fun _ => ""%string) hash (fun k => k) toy_sign to_wire toy_verify of_wire of_wire
  of_bytes unhex (fun s => s) true (fun _ => "aa"%string) (fun s => s) (fun _ => 0) Null demo_read).

#[local] Abbreviation demo_served := (served_from parse Predicate.below Text.to_ascii_lowercase (fun _ => None)
  (fun _ => "id = 7"%string) (fun _ => Ok None) (fun _ => ""%string) hash (fun k => k) toy_sign to_wire toy_verify of_wire of_wire
  of_bytes unhex (fun s => s) true (fun _ => "aa"%string) (fun s => s) (fun _ => 0) demo_read demo_agent start).

Lemma agent_served line clock st st' :
  line ∈ agent_methods -> demo_served st -> Conn.Demo.srv_txn (apply_client (backends st)) = None ->
  fst <$> demo_serving line st clock = Some st' -> demo_served st'.
Proof.
  intros Hl Hs Ht He. destruct (demo_serving line st clock) as [[x resp]|] eqn:E; [|done]. injection He as <-.
  by eapply from_line; [apply agent_lines|..].
Qed.

Lemma agent_served_all : demo_served st3.
Proof.
  apply (agent_served "apply" (starting_at 4) st3); [by_decide| |done|by vm_compute].
  apply (agent_served "request_elevation" (starting_at 3) st2); [by_decide| |done|by vm_compute].
  apply (agent_served "dry_run" (starting_at 2) st1); [by_decide| |done|by vm_compute].
  apply (agent_served "propose" (starting_at 1) start); [by_decide|constructor|done|by vm_compute].
Qed.

Lemma agent_alone_commits_nothing_witness :
  length (Conn.log (dml:=Conn.one_write parse) (apply_client (backends st3))) = length (Conn.log (dml:=Conn.one_write parse) server).
Proof.
  apply (agent_alone_commits_nothing parse Predicate.below Text.to_ascii_lowercase (fun _ => None)
    (fun _ => "id = 7"%string) (fun _ => Ok None) (fun _ => ""%string) hash (fun k => k) toy_sign to_wire toy_verify of_wire of_wire
    of_bytes unhex (fun s => s) true (fun _ => "aa"%string) (fun s => s) (fun _ => 0) demo_read
    demo_to_string demo_from_str (fun _ => ""%string) (fun _ => None) (fun _ => []) mcp calls
    (mkLink start [starting_at 1; starting_at 2; starting_at 3; starting_at 4] [] None)
    (Flow.flow_new Webhook.recording_new vk (∅ : gset string)) (AuditSink.mkInMemorySink []) (∅ : gset string) vk
    GrantedApply.demo_policy 0 (mkBackends server server) st3); [|exact agent_served_all].
  intros id m params text req. change (demo_to_string (request_value id m params)) with (Ok (E:=string) m).
  intros [= <-] [= <-]. reflexivity.
Defined.
End Demo.
End Agent.
