(* ===== verification/Cli.v ===== *)
(** * Cli: the chain verifier and the preflight of the command line

    Models [src/crates/cli/src/verify.rs] and the [verify] command (Module [Verify]), and
    [doctor.rs] with the [doctor] command (Module [Doctor]) of [cli/src/main.rs].  What is
    printed is what the functions return; the environment, the file of anchors, the audit
    database and the session with the primary are parameters; [CatalogLaws] is what
    PostgreSQL documents of each text the preflight sends, over a catalogue of roles,
    memberships and grants.  A panic of the client library on a null or on a cell of another
    type is [None]. *)

From stdpp Require Import pretty.
From S2P Require Import Prelude Text Config AuditChain AuditSink AuditAnchor Messages.

(** ** The verifier *)

Module Verify.
Import AuditChain AuditSink Secret Kms Anchor Boot.

Record ChainSummary : Type := mkSummary {
  cs_len : nat;
  cs_head : string;
  reason_code_counts : gmap string nat
}.

Definition count_code (m : gmap string nat) (r : AuditRecord) : gmap string nat :=
  <[reason_code (payload r) := Datatypes.S (default 0%nat (m !! reason_code (payload r)))]> m.

Definition nonempty (o : option string) : option string :=
  match o with Some v => if bool_decide (v = EmptyString) then None else Some v | None => None end.

(** *** The texts of the errors *)

Definition SecretError_fmt (e : SecretError) : string :=
  match e with
  | NotFound id => "secret not found: " +:+ id
  | AlreadyExists id => "secret already exists (use rotate to replace): " +:+ id
  | RotateMissing id => "cannot rotate a secret that does not exist: " +:+ id
  | Empty id => "refusing to store an empty secret: " +:+ id
  end.

Definition KmsError_fmt (e : KmsError) : string :=
  match e with
  | OperatorPrincipalDenied p => "audited/operator principal '" +:+ p +:+ "' is denied the audit signing capability"
  | SecretErr e => "kms: " +:+ SecretError_fmt e
  end.

Definition AnchorError_fmt (e : AnchorError) : string :=
  match e with
  | NoAnchor => "no anchor has been published yet"
  | BadSignature q => "anchored head signature is invalid (anchor tampered): seq " +:+ pretty q
  | NoVerifier => "no KMS verifier available; call verify_against_anchor_with(.., verifier)"
  end.

(** [io_text] is the [Display] of the file error, [debug_str] the [Debug] of a string. *)
Definition WormAnchorError_fmt (io_text : string) (e : WormAnchorError) : string :=
  match e with
  | Io => "worm anchor file io error: " +:+ io_text
  | Corrupt m => "corrupt worm anchor file (bad entry json): " +:+ m
  end.

Definition BootError_fmt (io_text : string) (debug_str : string -> string) (e : BootError) : string :=
  match e with
  | Connect m => "audit _meta connect failed: " +:+ m
  | KmsFailed e => "audit signing key load failed: " +:+ KmsError_fmt e
  | SinkFailed e => Messages.SinkError_fmt debug_str e
  | WormFailed e => "audit anchor publish failed: " +:+ WormAnchorError_fmt io_text e
  | ChainIntegrity b => "persisted _meta chain integrity broken: " +:+ Messages.ChainBreak_debug debug_str b
  | AnchorHeadMismatch anchored_head actual_head anchored_seq =>
      "FAIL-CLOSED: _meta chain head does not match the anchored head (full-chain rewrite detected): anchored seq " +:+
      pretty anchored_seq +:+ ", anchored_head " +:+ anchored_head +:+ ", actual_head " +:+ actual_head
  | AnchorFailed e => "FAIL-CLOSED: anchor verification error at startup: " +:+ AnchorError_fmt e
  end.

Inductive VerifyError : Type :=
| EnvMissing (key : string)
| EnvEmpty (key : string)
| KeyRefused (e : SecretError)
| BootFailed (e : BootError)
| LoadFailed (e : BootError)
| ChainBroken (b : ChainBreak)
| AnchorRefused (e : BootError)
| NothingAnchored
| HeadsDiffer (anchored chain : string).

Section verify.
Context (canonical : AuditPayload -> list byte) (sha256_hex : list byte -> string).

Definition verify_meta_chain (records : list AuditRecord) : result ChainBreak ChainSummary :=
  let? _ := verify_chain canonical sha256_hex records in
  Ok (mkSummary (length records) (from_option record_hash GENESIS_PREV_HASH (last records))
        (foldl count_code ∅ records)).

Context `{!Kms LocalKms}.
Context (entry_to_json : AnchorEntry -> result string string) (entry_of_json : string -> result string AnchorEntry).
Context (getenv : string -> option string).
Context {S : Type} `{!Sink S} (connect : string -> result string S).

Definition required (key : string) : result VerifyError string :=
  match getenv key with Some v => Ok v | None => Err (EnvMissing key) end.
Definition refuse_empty (key v : string) : result VerifyError unit :=
  if bool_decide (v = EmptyString) then Err (EnvEmpty key) else Ok tt.

Definition anchor_interval : Z :=
  default 60000 (getenv "PGB_ANCHOR_INTERVAL_MS" ≫= Config.parse_unsigned u64_max).

(** The settings of the command. *)
Definition verify_settings : result VerifyError (string * string * string) :=
  let? dsn := required "PGB_META_DSN" in
  let? _ := refuse_empty "PGB_META_DSN" dsn in
  let? key := required "PGB_AUDIT_SIGNING_KEY" in
  let? anchor_path := required "PGB_ANCHOR_PATH" in
  let? _ := refuse_empty "PGB_ANCHOR_PATH" anchor_path in
  Ok (dsn, key, anchor_path).

(** What [run_verify] prints: the summary, and the anchored entry. *)
Definition run_verify (fs : Files) (now : Z) : Files * result VerifyError (ChainSummary * AnchorEntry) :=
  match verify_settings with
  | Err e => (fs, Err e)
  | Ok (dsn, key, anchor_path) =>
      match local_put ∅ AUDIT_SIGNING_KEY_ID (as_bytes key) with
      | (_, Err e) => (fs, Err (KeyRefused e))
      | (store, Ok _) =>
          match connect_with_anchor entry_of_json fs (connect dsn) store anchor_interval anchor_path with
          | (fs, Err e) => (fs, Err (BootFailed e))
          | (fs, Ok boot) =>
              match (let? records := result_map_err LoadFailed (boot_load_chain boot) in
                     result_map_err ChainBroken (verify_meta_chain records)) with
              | Err e => (fs, Err e)
              | Ok summary =>
                  match verify_then_anchor canonical sha256_hex entry_to_json fs boot now with
                  | (fs, _, Err e) => (fs, Err (AnchorRefused e))
                  | (fs, boot, Ok _) =>
                      (fs, match latest (worm boot) with
                           | None => Err NothingAnchored
                           | Some anchored =>
                               if bool_decide (a_head_hash anchored = cs_head summary) then Ok (summary, anchored)
                               else Err (HeadsDiffer (a_head_hash anchored) (cs_head summary))
                           end)
                  end
              end
          end
      end
  end.
(** *** What a verified chain is *)

Definition occurrences (code : string) (rs : list AuditRecord) : nat :=
  length (filter (fun r => reason_code (payload r) = code) rs).

Lemma counts_spec rs code :
  foldl count_code ∅ rs !! code = if decide (occurrences code rs = 0%nat) then None else Some (occurrences code rs).
Proof.
  induction rs as [|r rs IH] using rev_ind; [done|]. rewrite foldl_app. simpl. unfold count_code at 1, occurrences.
  rewrite filter_app, length_app. destruct (decide (reason_code (payload r) = code)) as [<-|Hne].
  - rewrite lookup_insert_eq, IH, filter_cons_True, filter_nil by done. simpl. unfold occurrences.
    repeat case_decide; simpl; f_equal; lia.
  - rewrite lookup_insert_ne, IH, filter_cons_False, filter_nil by done. simpl. unfold occurrences. by rewrite Nat.add_0_r.
Qed.

Lemma verify_meta_chain_ok rs sum :
  verify_meta_chain rs = Ok sum ->
  chain_ok canonical sha256_hex rs /\ cs_len sum = length rs /\ cs_head sum = head_hash rs /\
  forall code, reason_code_counts sum !! code =
    if decide (occurrences code rs = 0%nat) then None else Some (occurrences code rs).
Proof.
  unfold verify_meta_chain. intros ([] & Hv%verify_chain_ok & [= <-])%result_bind_ok. simpl.
  unfold head_hash. split_and!; [done|done|by destruct (last rs)|apply counts_spec].
Qed.
(** The anchors at the path before the run, if the file was there. *)
Definition anchors_before (fs : Files) (path : string) (es : list AnchorEntry) : Prop :=
  exists lines, fs !! path = Some lines /\ read_entries entry_of_json lines = Ok es.

Lemma settings_ok dsn key path :
  verify_settings = Ok (dsn, key, path) <->
  getenv "PGB_META_DSN" = Some dsn /\ dsn <> EmptyString /\ getenv "PGB_AUDIT_SIGNING_KEY" = Some key /\
  getenv "PGB_ANCHOR_PATH" = Some path /\ path <> EmptyString.
Proof.
  unfold verify_settings, required, refuse_empty. destruct (getenv "PGB_META_DSN") as [d|]; simpl; [|naive_solver].
  case_bool_decide; simpl; [naive_solver|]. destruct (getenv "PGB_AUDIT_SIGNING_KEY"); simpl; [|naive_solver].
  destruct (getenv "PGB_ANCHOR_PATH"); simpl; [|naive_solver]. case_bool_decide; simpl; naive_solver.
Qed.

Lemma connect_ok fs (client : result string S) store interval path fs1 (boot : AuditBoot S) :
  connect_with_anchor entry_of_json fs client (store : LocalSecretStore) interval path = (fs1, Ok boot) ->
  client = Ok (sink boot) /\ last_anchor_at (anchorer boot) = None /\
  (forall es, anchors_before fs path es -> entries (worm boot) = es).
Proof.
  unfold connect_with_anchor. destruct (from_secret_store _ _) as [sg|]; [|done]. unfold open_file.
  destruct (fs !! path) as [lines|] eqn:Ef.
  - destruct (read_entries _ lines) as [es0|] eqn:Er; simpl; [|done]. destruct client as [s|]; simpl; [|done].
    intros [= <- <-]. do 2 (split; [done|]). intros es (l & Hl & Hr). simpl. congruence.
  - destruct client as [s|]; simpl; [|done]. intros [= <- <-]. do 2 (split; [done|]). intros es (l & Hl & _). congruence.
Qed.

(** When the verifier reports success, the chain it read is well formed, what it
    prints of it (length, head, how often each reason code occurs) is so, the entry it
    anchored is for that head, and if the anchor file held anchors before, the last of
    them was for that head too. *)
Theorem verified_chain_is_as_reported (fs fs' : Files) (now : Z) (sum : ChainSummary) (anchored : AnchorEntry) :
  run_verify fs now = (fs', Ok (sum, anchored)) ->
  exists dsn path sink rs,
    getenv "PGB_META_DSN" = Some dsn /\ getenv "PGB_ANCHOR_PATH" = Some path /\ connect dsn = Ok sink /\
    load_chain_mut sink = Ok rs /\ chain_ok canonical sha256_hex rs /\
    cs_len sum = length rs /\ cs_head sum = head_hash rs /\ a_head_hash anchored = head_hash rs /\
    (forall code, reason_code_counts sum !! code =
       if decide (occurrences code rs = 0%nat) then None else Some (occurrences code rs)) /\
    (forall es e, anchors_before fs path es -> last es = Some e -> a_head_hash e = head_hash rs).
Proof.
  unfold run_verify. destruct verify_settings as [[[dsn key] path]|] eqn:Es; [|done].
  apply settings_ok in Es as (Hd & _ & _ & Hp & _).
  destruct (local_put _ _ _) as [store [[]|]]; [|done].
  destruct (connect_with_anchor _ _ _ _ _ _) as [fs1 [bt|]] eqn:Ec; [|done]. apply connect_ok in Ec as (Hs & Hn & He).
  destruct (let? records := _ in _) as [sum0|] eqn:Ev; [|done].
  apply result_bind_ok in Ev as (rs & Hl & Hv). unfold boot_load_chain in Hl.
  destruct (load_chain_mut (sink bt)) as [rs0|] eqn:El; [|done]. simpl in Hl. injection Hl as ->.
  destruct (verify_meta_chain rs) as [sum1|] eqn:Em; [|done]. simpl in Hv. injection Hv as ->.
  apply verify_meta_chain_ok in Em as (Hc & Hlen & Hh & Hcode).
  destruct (verify_then_anchor _ _ _ _ _ _) as [[fs2 bt'] [[]|]] eqn:Ea; [|done].
  destruct (latest (worm bt')) as [an|] eqn:Elat; [|done]. case_bool_decide as Heq; [|done]. intros [= <- <- <-].
  exists dsn, path, (sink bt), rs. rewrite Heq, Hh. split_and!; auto. intros es e Hb Hlast.
  destruct (boot_ok_head canonical sha256_hex entry_to_json fs1 bt Owner now fs2 bt' rs Ea El) as [_ Hold].
  apply Hold. unfold latest. by rewrite (He _ Hb).
Qed.
(** On a fresh anchor path, which is what the command asks for, every chain that is
    well formed passes: the anchored head it is compared with is the one the run has just
    published for it.  So a chain rewritten from its first record passes too. *)
Theorem fresh_anchor_trusts_the_chain (fs : Files) (now : Z) (dsn key path : string) (sink : S) (rs : list AuditRecord) :
  verify_settings = Ok (dsn, key, path) -> key <> EmptyString -> fs !! path = None ->
  connect dsn = Ok sink -> load_chain_mut sink = Ok rs -> chain_ok canonical sha256_hex rs ->
  (forall e, is_ok (entry_to_json e) = true) ->
  exists fs' sum anchored, run_verify fs now = (fs', Ok (sum, anchored)).
Proof.
  intros Hset Hkey Hf Hc Hl Hok Hj. unfold run_verify. rewrite Hset.
  assert (local_put ∅ AUDIT_SIGNING_KEY_ID (as_bytes key) = (<[AUDIT_SIGNING_KEY_ID := as_bytes key]> ∅, Ok tt)) as ->.
  { unfold local_put. destruct (as_bytes key) eqn:E; [|by rewrite lookup_empty].
    destruct Hkey. apply as_bytes_inj. by rewrite E. }
  unfold connect_with_anchor, from_secret_store. simpl. unfold local_get. rewrite lookup_insert_eq. simpl.
  unfold open_file. rewrite Hf, Hc. simpl. unfold boot_load_chain. simpl. rewrite Hl. simpl.
  unfold verify_meta_chain. apply verify_chain_ok in Hok. rewrite Hok. simpl.
  unfold verify_then_anchor, check_chain, boot_load_chain. simpl. rewrite Hl. simpl. rewrite Hok. simpl.
  unfold maybe_anchor_records. simpl. pose proof (head_of_hash rs) as Hh. destruct (head_of rs) as [[h sq] ts]. simpl in Hh.
  unfold worm_append. simpl. rewrite lookup_insert_eq.
  match goal with |- context [entry_to_json ?e] => specialize (Hj e); destruct (entry_to_json e); [|done] end.
  simpl. rewrite bool_decide_true; [by eexists _, _, _|]. rewrite Hh. unfold head_hash. by destruct (last rs).
Qed.
End verify.

(** *** Runs over the sample chain *)

Definition demo_env (key : string) : option string :=
  list_to_map (M := gmap string string)
    [("PGB_META_DSN", "host=meta"); ("PGB_AUDIT_SIGNING_KEY", "k"); ("PGB_ANCHOR_PATH", "anchor")]%string !! key.
Definition demo_verify (n : nat) (fs : Files) : Files * result VerifyError (ChainSummary * AnchorEntry) :=
  @run_verify toy_canonical toy_hash demo_kms demo_to_json demo_of_json demo_env InMemorySink
    (InMemorySink_sink toy_canonical toy_hash) (fun _ => Ok (demo_sink n)) fs 5.

Lemma fresh_anchor_trusts_the_chain_witness : exists fs' sum anchored, demo_verify 2 ∅ = (fs', Ok (sum, anchored)).
Proof.
  apply (@fresh_anchor_trusts_the_chain toy_canonical toy_hash demo_kms demo_to_json demo_of_json demo_env InMemorySink
           (InMemorySink_sink toy_canonical toy_hash) (fun _ => Ok (demo_sink 2)) ∅ 5 "host=meta" "k" "anchor"
           (demo_sink 2) [sample_r0; sample_r1]).
  - vm_compute. reflexivity.
  - discriminate.
  - reflexivity.
  - reflexivity.
  - reflexivity.
  - apply verify_chain_ok. vm_compute. reflexivity.
  - reflexivity.
Defined.

Definition demo_verified : Files * result VerifyError (ChainSummary * AnchorEntry) := Eval vm_compute in demo_verify 2 ∅.

(** The second run over the same chain, against the anchor of the first. *)
Example second_run_agrees :
  match (demo_verify 2 demo_verified.1).2 with
  | Ok (sum, anchored) => cs_len sum = 2%nat /\ a_head_hash anchored = record_hash sample_r1
  | Err _ => False
  end.
Proof. vm_compute. split; reflexivity. Qed.

(** A chain that has grown since, or one cut short, does not pass against that anchor. *)
Example later_chain_is_refused :
  is_ok (demo_verify 3 demo_verified.1).2 = false /\ is_ok (demo_verify 1 demo_verified.1).2 = false.
Proof. vm_compute. done. Qed.
End Verify.

(** ** The preflight *)

Module Doctor.
Import Config(PolicyConfig, PolicyError, DsnTarget, ResolvedTarget, TargetResolutionError, mkResolver, resolve,
  load_from_yaml, to_credential_less_dsn, resolved_dsn, primary, replica, replica_target, dsn_host, dsn_port,
  r_host, r_port, r_database, r_role).
Import AuditSink(Sink).

Inductive CheckStatus : Type := Pass | Fail | Warn.

#[global] Instance CheckStatus_eq_dec : EqDecision CheckStatus.
Proof. solve_decision. Defined.

Definition status_str (s : CheckStatus) : string := match s with Pass => "PASS" | Fail => "FAIL" | Warn => "WARN" end.

Record CheckResult : Type := mkCheck { ck_name : string; ck_status : CheckStatus; ck_detail : string; ck_advisory : bool }.

Definition pass (name detail : string) : CheckResult := mkCheck name Pass detail false.
Definition fail (name detail : string) : CheckResult := mkCheck name Fail detail false.
Definition advisory (name : string) (status : CheckStatus) (detail : string) : CheckResult := mkCheck name status detail true.
Definition is_blocking (c : CheckResult) : bool := negb (ck_advisory c) && negb (bool_decide (ck_status c = Pass)).

Record DoctorReport : Type := mkReport { checks : list CheckResult }.
Definition report_passed (r : DoctorReport) : bool :=
  negb (bool_decide (checks r = [])) && negb (existsb is_blocking (checks r)).

(** [{:>16}]. *)
Definition pad16 (s : string) : string :=
  String.concat EmptyString (repeat " "%string (16 - String.length s)) +:+ s.
Definition newline : string := String (Ascii.ascii_of_nat 10) EmptyString.

Definition render_check (c : CheckResult) : string :=
  let tag := if ck_advisory c && negb (bool_decide (ck_status c = Pass)) then status_str (ck_status c) +:+ " (advisory)"
             else status_str (ck_status c) in
  "  [" +:+ pad16 tag +:+ "] " +:+ ck_name c +:+ ": " +:+ ck_detail c +:+ newline.

Definition render (r : DoctorReport) : string :=
  String.concat EmptyString (map render_check (checks r)) +:+
  (if report_passed r
   then "doctor: PREFLIGHT PASSED — the deterministic floor is in place; safe to point an agent at this database."
   else "doctor: PREFLIGHT FAILED (fail-closed) — do NOT point an agent at this database until every check above passes.").

Record RoleAttrs : Type := mkAttrs {
  is_superuser : bool; can_create_db : bool; can_create_role : bool; can_replicate : bool; can_bypass_rls : bool
}.

Definition escalations (a : RoleAttrs) : list string :=
  (if can_create_db a then ["CREATEDB"%string] else []) ++ (if can_create_role a then ["CREATEROLE"%string] else []) ++
  (if can_replicate a then ["REPLICATION"%string] else []) ++ (if can_bypass_rls a then ["BYPASSRLS"%string] else []).

Definition attr_checks (role : string) (a : RoleAttrs) : list CheckResult :=
  [ (let name := role +:+ "_not_superuser" in
     if is_superuser a then fail name ("`" +:+ role +:+ "` is SUPERUSER — the floor requires NOSUPERUSER")
     else pass name ("`" +:+ role +:+ "` is NOSUPERUSER"));
    (let name := role +:+ "_no_escalation_attrs" in
     if bool_decide (escalations a = [])
     then pass name ("`" +:+ role +:+ "` is NOCREATEDB/NOCREATEROLE/NOREPLICATION/NOBYPASSRLS")
     else fail name ("`" +:+ role +:+ "` still has: " +:+ String.concat ", " (escalations a) +:+ " (all must be cleared)")) ].

Definition check_agent_hardening (role : string) (attrs : option RoleAttrs) (membership_count write_grant_count : Z) :
    list CheckResult :=
  match attrs with
  | None => [fail "agent_role_present" ("role `" +:+ role +:+ "` does NOT exist (apply deploy/sql/10_hardened_role.sql)")]
  | Some a =>
      [pass "agent_role_present" ("role `" +:+ role +:+ "` exists")] ++ attr_checks role a ++
      [ (if membership_count =? 0
         then pass "agent_member_of_nothing" ("`" +:+ role +:+ "` is a member of no roles (no predefined-role grants)")
         else fail "agent_member_of_nothing"
                ("`" +:+ role +:+ "` is a member of " +:+ pretty membership_count +:+
                 " role(s) — the WALL requires member-of-nothing (strip every pg_* predefined role)"));
        (if write_grant_count =? 0
         then pass "agent_no_write_grant" ("`" +:+ role +:+ "` holds NO INSERT/UPDATE/DELETE/TRUNCATE grant on any user table")
         else fail "agent_no_write_grant"
                ("`" +:+ role +:+ "` holds " +:+ pretty write_grant_count +:+
                 " write grant(s) on user tables — the read WALL must have NO write grant anywhere")) ]
  end.

Definition check_applier_dml (role : string) (attrs : option RoleAttrs) (membership_count : Z) (has_create_on_schema : bool) :
    list CheckResult :=
  match attrs with
  | None => [fail "applier_role_present" ("role `" +:+ role +:+ "` does NOT exist (apply deploy/sql/10_hardened_role.sql)")]
  | Some a =>
      [pass "applier_role_present" ("role `" +:+ role +:+ "` exists")] ++ attr_checks role a ++
      [ (if membership_count =? 0
         then pass "applier_member_of_nothing" ("`" +:+ role +:+ "` is a member of no roles")
         else fail "applier_member_of_nothing"
                ("`" +:+ role +:+ "` is a member of " +:+ pretty membership_count +:+
                 " role(s) — the applier must be member-of-nothing"));
        (if has_create_on_schema
         then fail "applier_no_ddl"
                ("`" +:+ role +:+ "` has CREATE on the application schema — the applier is DML-only and must NOT be able to DDL (REVOKE CREATE ON SCHEMA … FROM " +:+ role +:+ ")")
         else pass "applier_no_ddl" ("`" +:+ role +:+ "` has NO CREATE on the application schema (cannot DDL)")) ]
  end.

Record HbaRule : Type := mkHba { conn_type : string; user_name : list string; address : string }.

Definition eq_ignore_ascii_case (a b : string) : bool :=
  bool_decide (Text.to_ascii_lowercase a = Text.to_ascii_lowercase b).
Definition wide_open (addr : string) : bool :=
  let a := Text.trim addr in
  bool_decide (a = "0.0.0.0/0"%string) || bool_decide (a = "::/0"%string) || eq_ignore_ascii_case a "all".

Definition offending (agent : string) (r : HbaRule) : bool :=
  bool_decide (conn_type r ∈ ["host"; "hostssl"; "hostnossl"]%string) &&
  existsb (fun u => bool_decide (u = agent) || eq_ignore_ascii_case u "all") (user_name r) && wide_open (address r).

Definition check_hba_boundary (agent_role : string) (rules : option (list HbaRule)) : CheckResult :=
  match rules with
  | None => advisory "hba_origin_restricted" Warn
      "pg_hba_file_rules is not readable here (needs elevated privileges) — verify the agent role is permitted ONLY from the proxy host out-of-band (deploy/hba/)"
  | Some [] => advisory "hba_origin_restricted" Warn
      "no readable pg_hba host rules — verify the agent-role boundary out-of-band (deploy/hba/)"
  | Some rules =>
      match List.filter (offending (Text.to_ascii_lowercase agent_role)) rules with
      | [] => advisory "hba_origin_restricted" Pass
          ("no wide-open pg_hba host rule reaches `" +:+ agent_role +:+
           "` (the proxy-host boundary is the deploy-time pg_hba's job; this is a best-effort sanity check)")
      | bad => advisory "hba_origin_restricted" Warn
          ("a wide-open pg_hba host rule appears to reach `" +:+ agent_role +:+ "` (" +:+ pretty (length bad) +:+
           " rule(s) from 0.0.0.0/0 · ::/0 · all) — restrict the agent role to the proxy host (deploy/hba/)")
      end
  end.

(** *** The queries *)

Inductive Cell : Type := CNull | CBool (b : bool) | CInt (z : Z) | CText (t : string) | CTexts (l : list string).

(** A session with the primary: what it answers to a query and its parameters.  The run
    only reads, and the answers are those of one catalogue. *)
Class CatalogDb (D : Type) : Type := db_query : D -> string -> list string -> result string (list (list Cell)).

(** [Row::get], which panics on a null and on a cell of another type. *)
Definition get_bool (row : list Cell) (i : nat) : option bool := match row !! i with Some (CBool b) => Some b | _ => None end.
Definition get_int (row : list Cell) (i : nat) : option Z := match row !! i with Some (CInt z) => Some z | _ => None end.
Definition get_text (row : list Cell) (i : nat) : option string := match row !! i with Some (CText t) => Some t | _ => None end.
Definition get_texts (row : list Cell) (i : nat) : option (list string) := match row !! i with Some (CTexts l) => Some l | _ => None end.

Definition row_attrs (row : list Cell) : option RoleAttrs :=
  a ← get_bool row 0; b ← get_bool row 1; c ← get_bool row 2; d ← get_bool row 3; e ← get_bool row 4;
  Some (mkAttrs a b c d e).
Definition row_hba (row : list Cell) : option HbaRule :=
  users ← get_texts row 1; t ← get_text row 0; addr ← get_text row 2;
  Some (mkHba t (map Text.to_ascii_lowercase users) addr).

Definition SQL_ATTRS : string :=
  "SELECT rolsuper, rolcreatedb, rolcreaterole, rolreplication, rolbypassrls FROM pg_roles WHERE rolname = $1".
Definition SQL_MEMBERS : string :=
  "SELECT count(*)::bigint FROM pg_auth_members m JOIN pg_roles a ON a.oid = m.member WHERE a.rolname = $1".
Definition SQL_WRITE_GRANTS : string :=
  "SELECT count(*)::bigint FROM ( SELECT DISTINCT table_schema, table_name FROM information_schema.role_table_grants WHERE grantee = $1 AND privilege_type IN ('INSERT','UPDATE','DELETE','TRUNCATE') AND table_schema NOT IN ('pg_catalog','information_schema') ) g".
Definition SQL_CREATE : string := "SELECT coalesce(has_schema_privilege($1, $2, 'CREATE'), false)".
Definition SQL_HBA : string :=
  "SELECT type, coalesce(user_name, ARRAY[]::text[]), coalesce(address, '') FROM pg_hba_file_rules".

(** *** The catalogue behind the queries *)

(** A privilege on a table, the name of a role it was granted to and of the one that did. *)
Record TableGrant : Type := mkTableGrant {
  grantor : string; grantee : string; on_schema : string; on_table : string; privilege : string
}.

(** A line of [pg_hba.conf]; one that does not parse has no type. *)
Record HbaLine : Type := mkHbaLine { line_type : option string; line_users : option (list string); line_address : option string }.

(** What a cluster holds of its roles: their attributes, who is a member of which, the
    grants on tables, who may create in which schema (by a grant, through PUBLIC or by a
    membership), the lines of [pg_hba.conf]; and the roles the session has the rights of. *)
Record Catalog : Type := mkCatalog {
  cat_roles : gmap string RoleAttrs;
  cat_members : list (string * string);
  cat_grants : list TableGrant;
  cat_creators : list (string * string);
  cat_hba : list HbaLine;
  enabled_roles : list string
}.

(** The write privileges on tables outside the system's schemas that
    [information_schema.role_table_grants] shows of a role: those granted to that very role,
    where the session has the rights of the role or of the grantor. *)
Definition write_granted (c : Catalog) (role : string) (g : TableGrant) : Prop :=
  grantee g = role /\ privilege g ∈ ["INSERT"; "UPDATE"; "DELETE"; "TRUNCATE"]%string /\
  (on_schema g ∉ ["pg_catalog"; "information_schema"]%string) /\ (grantor g ∈ enabled_roles c \/ grantee g ∈ enabled_roles c).
#[global] Instance write_granted_dec c role g : Decision (write_granted c role g).
Proof. unfold write_granted. apply _. Defined.

Definition attrs_row (a : RoleAttrs) : list Cell :=
  [CBool (is_superuser a); CBool (can_create_db a); CBool (can_create_role a); CBool (can_replicate a); CBool (can_bypass_rls a)].
Definition hba_row (l : HbaLine) : list Cell :=
  [(from_option CText CNull (line_type l)); CTexts (default [] (line_users l)); CText (default EmptyString (line_address l))].

Definition memberships (c : Catalog) (role : string) : list (string * string) := filter (fun m => m.1 = role) (cat_members c).
Definition written_tables (c : Catalog) (role : string) : list (string * string) :=
  remove_dups (map (fun g => (on_schema g, on_table g)) (filter (write_granted c role) (cat_grants c))).

(** What PostgreSQL documents of each text the preflight sends, where it answers at all. *)
Class CatalogLaws (D : Type) `{!CatalogDb D} : Type := {
  view : D -> Catalog;
  attributes_read d role rows :
    db_query d "SELECT rolsuper, rolcreatedb, rolcreaterole, rolreplication, rolbypassrls FROM pg_roles WHERE rolname = $1"
      [role] = Ok rows -> rows = option_list (attrs_row <$> cat_roles (view d) !! role);
  memberships_counted d role rows :
    db_query d "SELECT count(*)::bigint FROM pg_auth_members m JOIN pg_roles a ON a.oid = m.member WHERE a.rolname = $1"
      [role] = Ok rows -> rows = [[CInt (Z.of_nat (length (memberships (view d) role)))]];
  write_grants_counted d role rows :
    db_query d "SELECT count(*)::bigint FROM ( SELECT DISTINCT table_schema, table_name FROM information_schema.role_table_grants WHERE grantee = $1 AND privilege_type IN ('INSERT','UPDATE','DELETE','TRUNCATE') AND table_schema NOT IN ('pg_catalog','information_schema') ) g"
      [role] = Ok rows ->
    rows = [[CInt (Z.of_nat (length (written_tables (view d) role)))]];
  create_privilege_read d role schema rows :
    db_query d "SELECT coalesce(has_schema_privilege($1, $2, 'CREATE'), false)" [role; schema] = Ok rows ->
    rows = [[CBool (bool_decide ((role, schema) ∈ cat_creators (view d)))]];
  hba_lines_read d rows :
    db_query d "SELECT type, coalesce(user_name, ARRAY[]::text[]), coalesce(address, '') FROM pg_hba_file_rules" [] = Ok rows ->
    rows = map hba_row (cat_hba (view d))
}.

Inductive DoctorError : Type :=
| PolicyUnreadable (path e : string)
| PolicyInvalid (path : string) (e : PolicyError)
| Unresolved (e : TargetResolutionError)
| NoPassword
| Unreachable (host : string) (port : Z) (role e : string)
| QueryFailed (what e : string).

Section doctor.
Context (canonical : AuditChain.AuditPayload -> list byte) (sha256_hex : list byte -> string).
Context `{!Kms.Kms Kms.LocalKms}.
Context (entry_of_json : string -> result string Anchor.AnchorEntry) (io_text : string) (debug_str : string -> string).
Context (getenv : string -> option string) (read_to_string : string -> result string string).
Context (from_yaml : string -> option PolicyConfig).
Context {S : Type} `{!Sink S} (meta_connect : string -> result string S).
Context {D : Type} `{!CatalogDb D} (db_connect : string -> result string D).

(** A step of the preflight: [None] is a panic, [Err] a preflight that could not run. *)
Definition P (A : Type) : Type := option (result DoctorError A).
Definition pret {A} (a : A) : P A := Some (Ok a).
Definition pbind {A B} (m : P A) (k : A -> P B) : P B :=
  match m with
  | None => None
  | Some (Err e) => Some (Err e)
  | Some (Ok a) => k a
  end.
Definition reading {A} (o : option A) : P A := match o with Some a => Some (Ok a) | None => None end.
Definition ask (d : D) (what sql : string) (params : list string) : P (list (list Cell)) :=
  Some (result_map_err (QueryFailed what) (db_query d sql params)).
Definition ask_one (d : D) (what sql : string) (params : list string) : P (list Cell) :=
  Some match db_query d sql params with
       | Ok [row] => Ok row
       | Ok _ => Err (QueryFailed what "query returned an unexpected number of rows")
       | Err e => Err (QueryFailed what e)
       end.

#[local] Notation "'let!' x := m 'in' k" := (pbind m (fun x => k)) (at level 10, x name, m at level 100, k at level 200).

Definition doctor_role_checks (d : D) (role app_schema : string) (is_agent : bool) : P (list CheckResult) :=
  let! attr_rows := ask d ("querying pg_roles for `" +:+ role +:+ "`") SQL_ATTRS [role] in
  let! attrs := match attr_rows with
                | [] => pret None
                | r :: _ => let! a := reading (row_attrs r) in pret (Some a)
                end in
  let! members := ask_one d ("counting role memberships for `" +:+ role +:+ "`") SQL_MEMBERS [role] in
  let! membership_count := reading (get_int members 0) in
  if is_agent then
    let! grants := ask_one d ("counting write grants for `" +:+ role +:+ "`") SQL_WRITE_GRANTS [role] in
    let! write_grant_count := reading (get_int grants 0) in
    pret (check_agent_hardening role attrs membership_count write_grant_count)
  else
    let! create := ask_one d ("checking schema CREATE for `" +:+ role +:+ "`") SQL_CREATE [role; app_schema] in
    let! has_create := reading (get_bool create 0) in
    pret (check_applier_dml role attrs membership_count has_create).

Definition doctor_hba_check (d : D) (agent_role : string) : P CheckResult :=
  match db_query d SQL_HBA [] with
  | Err _ => pret (check_hba_boundary agent_role None)
  | Ok rows => let! rules := reading (mapM row_hba rows) in pret (check_hba_boundary agent_role (Some rules))
  end.

(** What the check of the audit chain says of a store that was or was not opened. *)
Definition meta_boot_check (opened : result Boot.BootError (Boot.AuditBoot S)) : CheckResult :=
  match opened with
  | Err e => fail "meta_chain_reachable" ("the `_meta` audit DB is unreachable / chain not installed (fail-closed): " +:+
                                          Verify.BootError_fmt io_text debug_str e)
  | Ok boot =>
      match Boot.boot_load_chain boot with
      | Err e => fail "meta_chain_verifies"
          ("could not load the `_meta` chain (fail-closed): " +:+ Verify.BootError_fmt io_text debug_str e)
      | Ok records =>
          match Verify.verify_meta_chain canonical sha256_hex records with
          | Ok summary => pass "meta_chain_verifies"
              ("the `_meta` audit chain is installed and VERIFIES (" +:+ pretty (Verify.cs_len summary) +:+
               " records, head " +:+ Verify.cs_head summary +:+ ")")
          | Err brk => fail "meta_chain_verifies"
              ("the `_meta` chain FAILED within-chain verification at " +:+ Messages.ChainBreak_debug debug_str brk)
          end
      end
  end.

(** The audit chain, where all three settings are given; the file of anchors is opened,
    and made if it is not there. *)
Definition doctor_meta_check (fs : Anchor.Files) : Anchor.Files * CheckResult :=
  match Verify.nonempty (getenv "PGB_META_DSN"), Verify.nonempty (getenv "PGB_AUDIT_SIGNING_KEY"),
        Verify.nonempty (getenv "PGB_ANCHOR_PATH") with
  | Some dsn, Some key, Some anchor =>
      match Secret.local_put ∅ Secret.AUDIT_SIGNING_KEY_ID (as_bytes key) with
      | (_, Err e) => (fs, fail "meta_chain_verifies" ("audit key load failed: " +:+ Verify.SecretError_fmt e))
      | (store, Ok _) =>
          let (fs, opened) := Boot.connect_with_anchor entry_of_json fs (meta_connect dsn) store
                                (Verify.anchor_interval getenv) anchor in
          (fs, meta_boot_check opened)
      end
  | _, _, _ => (fs, advisory "meta_chain_verifies" Warn
      "PGB_META_DSN / PGB_AUDIT_SIGNING_KEY / PGB_ANCHOR_PATH not all set — skipping the `_meta` chain verification (set them to verify the audit chain here)")
  end.

Definition env_or (key fallback : string) : string := default fallback (Verify.nonempty (getenv key)).

Definition load_doctor_policy : result DoctorError (option PolicyConfig) :=
  match getenv "PGB_POLICY_PATH" with
  | None => Ok None
  | Some path =>
      if bool_decide (path = EmptyString) then Ok None
      else
        let? yaml := result_map_err (PolicyUnreadable path) (read_to_string path) in
        let? cfg := result_map_err (PolicyInvalid path) (load_from_yaml from_yaml yaml) in
        Ok (Some cfg)
  end.

Definition resolve_doctor_target (policy : option PolicyConfig) : result DoctorError ResolvedTarget :=
  result_map_err Unresolved
    (resolve (mkResolver (policy ≫= primary) (getenv "PGB_BACKEND_HOST") (getenv "PGB_BACKEND_PORT") (getenv "PGB_BACKEND_DB")
                (getenv "PGB_BACKEND_ROLE") "postgres" "pgb_agent" "PGB_BACKEND_HOST" "PGB_BACKEND_PORT"
                "policy.yaml `primary:` (the BYO primary target, SPEC §0.5)")).

Definition replica_checks (policy : option PolicyConfig) (password : string) : list CheckResult :=
  match policy ≫= fun p => replica_target (replica p) with
  | None => []
  | Some t =>
      match db_connect (to_credential_less_dsn t +:+ " password=" +:+ password) with
      | Ok _ => [pass "replica_reachable" ("connected to the read replica at " +:+ dsn_host t +:+ ":" +:+ pretty (dsn_port t))]
      | Err e => [fail "replica_reachable" ("replica configured but unreachable at " +:+ dsn_host t +:+ ":" +:+
                     pretty (dsn_port t) +:+ " (fail-closed): " +:+ e)]
      end
  end.

(** What the preflight decides before it asks the catalogue. *)
Definition doctor_setup : result DoctorError (option PolicyConfig * ResolvedTarget * string * D) :=
  let? policy := load_doctor_policy in
  let? target := resolve_doctor_target policy in
  let? password := match getenv "PGB_DOCTOR_PASSWORD" with Some p => Ok p | None => Err NoPassword end in
  let? client := result_map_err (Unreachable (r_host target) (r_port target) (r_role target))
                   (db_connect (resolved_dsn target +:+ " password=" +:+ password)) in
  Ok (policy, target, password, client).

Definition primary_reachable (t : ResolvedTarget) : CheckResult :=
  pass "primary_reachable" ("connected to the primary at " +:+ r_host t +:+ ":" +:+ pretty (r_port t) +:+ "/" +:+
                            r_database t +:+ " as `" +:+ r_role t +:+ "`").

(** The report of [run_doctor]; the command exits with zero exactly when it has passed. *)
Definition run_doctor (fs : Anchor.Files) : option (Anchor.Files * result DoctorError DoctorReport) :=
  match doctor_setup with
  | Err e => Some (fs, Err e)
  | Ok (policy, target, password, client) =>
      let agent_role := env_or "PGB_AGENT_ROLE" "pgb_agent" in
      let app_schema := env_or "PGB_APP_SCHEMA" "public" in
      let catalogue :=
        let! agent := doctor_role_checks client agent_role app_schema true in
        let! applier := doctor_role_checks client (env_or "PGB_APPLIER_ROLE" "pgb_applier") app_schema false in
        let! hba := doctor_hba_check client agent_role in
        pret (agent, applier, hba) in
      match catalogue with
      | None => None
      | Some (Err e) => Some (fs, Err e)
      | Some (Ok (agent, applier, hba)) =>
          let (fs, meta) := doctor_meta_check fs in
          Some (fs, Ok (mkReport ([primary_reachable target] ++ agent ++ applier ++ [hba] ++
                                  replica_checks policy password ++ [meta])))
      end
  end.
(** *** What a preflight that passes has shown *)

Definition hardened (a : RoleAttrs) : Prop :=
  is_superuser a = false /\ can_create_db a = false /\ can_create_role a = false /\ can_replicate a = false /\
  can_bypass_rls a = false.

Lemma attr_checks_pass role a : existsb is_blocking (attr_checks role a) = false <-> hardened a.
Proof.
  unfold hardened. destruct a as [[] [] [] [] []]; simpl; (split; [intros Hb; try discriminate Hb; done|]);
    intros (? & ? & ? & ? & ?); congruence.
Qed.

Definition opens (l : list CheckResult) : bool := negb (existsb is_blocking l).

Lemma opens_app a b : opens (a ++ b) = true <-> opens a = true /\ opens b = true.
Proof. unfold opens. rewrite existsb_app. destruct (existsb _ a), (existsb _ b); naive_solver. Qed.

Lemma agent_opens role attrs members grants :
  opens (check_agent_hardening role attrs members grants) = true <->
  exists a, attrs = Some a /\ hardened a /\ members = 0 /\ grants = 0.
Proof.
  destruct attrs as [a|]; [|naive_solver]. unfold check_agent_hardening. rewrite !opens_app.
  pose proof (attr_checks_pass role a) as Ha. unfold opens at 2. destruct (existsb is_blocking (attr_checks role a)); simpl;
    destruct (Z.eqb_spec members 0), (Z.eqb_spec grants 0); simpl; naive_solver.
Qed.

Lemma applier_opens role attrs members create :
  opens (check_applier_dml role attrs members create) = true <->
  exists a, attrs = Some a /\ hardened a /\ members = 0 /\ create = false.
Proof.
  destruct attrs as [a|]; [|naive_solver]. unfold check_applier_dml. rewrite !opens_app.
  pose proof (attr_checks_pass role a) as Ha. unfold opens at 2. destruct (existsb is_blocking (attr_checks role a)); simpl;
    destruct (Z.eqb_spec members 0), create; simpl; naive_solver.
Qed.
(** *** The floor *)

Context `{!CatalogLaws D}.

(** The role exists with no attribute that escalates, is a member of nothing, and no write
    privilege on a table is shown of it. *)
Definition wall_hardened (c : Catalog) (role : string) : Prop :=
  (exists a, cat_roles c !! role = Some a /\ hardened a) /\ (forall r, (role, r) ∉ cat_members c) /\
  (forall g, g ∈ cat_grants c -> ~ write_granted c role g).
(** The role exists likewise, is a member of nothing and cannot create in the schema. *)
Definition dml_only (c : Catalog) (role schema : string) : Prop :=
  (exists a, cat_roles c !! role = Some a /\ hardened a) /\ (forall r, (role, r) ∉ cat_members c) /\
  (role, schema) ∉ cat_creators c.

(** The server answered what it was asked of the two roles. *)
Definition answered (d : D) (agent applier schema : string) : Prop :=
  Forall (fun q => is_ok (db_query d q.1 q.2) = true)
    [(SQL_ATTRS, [agent]); (SQL_MEMBERS, [agent]); (SQL_WRITE_GRANTS, [agent]);
     (SQL_ATTRS, [applier]); (SQL_MEMBERS, [applier]); (SQL_CREATE, [applier; schema])].

Lemma pbind_ok {A B} (m : P A) (k : A -> P B) b : pbind m k = Some (Ok b) <-> exists a, m = Some (Ok a) /\ k a = Some (Ok b).
Proof. destruct m as [[a|e]|]; simpl; naive_solver. Qed.

Lemma ask_one_ok d what sql ps row : ask_one d what sql ps = Some (Ok row) <-> db_query d sql ps = Ok [row].
Proof. unfold ask_one. destruct (db_query d sql ps) as [[|r [|]]|]; naive_solver. Qed.

Lemma reading_ok {A} (o : option A) a : reading o = Some (Ok a) -> o = Some a.
Proof. destruct o; simpl; naive_solver. Qed.

Lemma row_attrs_row a : row_attrs (attrs_row a) = Some a.
Proof. by destruct a. Qed.

Lemma none_counted {A} (P : A -> Prop) `{!forall a, Decision (P a)} (l : list A) :
  Z.of_nat (length (filter P l)) = 0 <-> forall a, a ∈ l -> ~ P a.
Proof.
  split.
  - intros Hz a Ha Hp. assert (a ∈ filter P l) as Hin by by apply list_elem_of_filter.
    destruct (filter P l); [by apply elem_of_nil in Hin|done].
  - intros Hn. destruct (filter P l) as [|a t] eqn:E; [done|].
    assert (a ∈ filter P l) as [Hp Ha]%list_elem_of_filter by (rewrite E; left). by apply (Hn a) in Hp.
Qed.

Lemma dups_none {A} `{!EqDecision A} (l : list A) : remove_dups l = [] <-> l = [].
Proof.
  split; [|by intros ->]. destruct l as [|a l]; [done|]. intros E.
  assert (a ∈ remove_dups (a :: l)) as Hin by by apply elem_of_remove_dups; left. rewrite E in Hin. by apply elem_of_nil in Hin.
Qed.

Lemma member_of_nothing c role :
  Z.of_nat (length (memberships c role)) = 0 <-> forall r, (role, r) ∉ cat_members c.
Proof. unfold memberships. rewrite none_counted. split; [intros Hn r Hin; by apply (Hn _ Hin)|intros Hn [m r] Hin <-; by apply (Hn r)]. Qed.

Lemma grants_none c role :
  Z.of_nat (length (written_tables c role)) = 0 <->
  forall g, g ∈ cat_grants c -> ~ write_granted c role g.
Proof.
  unfold written_tables. rewrite <- (none_counted (write_granted c role)). destruct (filter (write_granted c role) _) as [|g l]; [done|].
  destruct (remove_dups _) eqn:Er; [by apply dups_none, map_eq_nil in Er|]. simpl. split; lia.
Qed.

(** The answers to the first two questions, by the catalogue. *)
Lemma attributes_asked d role rows : db_query d SQL_ATTRS [role] = Ok rows -> rows = option_list (attrs_row <$> cat_roles (view d) !! role).
Proof. apply attributes_read. Qed.
Lemma members_asked d role rows :
  db_query d SQL_MEMBERS [role] = Ok rows -> rows = [[CInt (Z.of_nat (length (memberships (view d) role)))]].
Proof. apply memberships_counted. Qed.

(** The agent's checks are made exactly when its questions are answered, from the catalogue. *)
Lemma agent_checks_made d role schema cs :
  doctor_role_checks d role schema true = Some (Ok cs) <->
  Forall (fun q => is_ok (db_query d q.1 q.2) = true) [(SQL_ATTRS, [role]); (SQL_MEMBERS, [role]); (SQL_WRITE_GRANTS, [role])] /\
  cs = check_agent_hardening role (cat_roles (view d) !! role) (Z.of_nat (length (memberships (view d) role)))
         (Z.of_nat (length (written_tables (view d) role))).
Proof.
  rewrite !Forall_cons, Forall_nil. unfold doctor_role_checks, ask, ask_one. cbn [fst snd].
  destruct (db_query d SQL_ATTRS [role]) as [ra|] eqn:Ea; [|naive_solver]. apply attributes_asked in Ea as ->.
  destruct (cat_roles (view d) !! role) as [a|]; cbn [option_list fmap option_fmap option_map]; simpl;
    (destruct (db_query d SQL_MEMBERS [role]) as [rm|] eqn:Em; [|naive_solver]; apply members_asked in Em as ->; simpl;
     destruct (db_query d SQL_WRITE_GRANTS [role]) as [rg|] eqn:Eg; [|naive_solver];
     apply write_grants_counted in Eg as ->; simpl; unfold pret; destruct a || idtac; naive_solver).
Qed.

Lemma applier_checks_made d role schema cs :
  doctor_role_checks d role schema false = Some (Ok cs) <->
  Forall (fun q => is_ok (db_query d q.1 q.2) = true) [(SQL_ATTRS, [role]); (SQL_MEMBERS, [role]); (SQL_CREATE, [role; schema])] /\
  cs = check_applier_dml role (cat_roles (view d) !! role) (Z.of_nat (length (memberships (view d) role)))
         (bool_decide ((role, schema) ∈ cat_creators (view d))).
Proof.
  rewrite !Forall_cons, Forall_nil. unfold doctor_role_checks, ask, ask_one. cbn [fst snd].
  destruct (db_query d SQL_ATTRS [role]) as [ra|] eqn:Ea; [|naive_solver]. apply attributes_asked in Ea as ->.
  destruct (cat_roles (view d) !! role) as [a|]; cbn [option_list fmap option_fmap option_map]; simpl;
    (destruct (db_query d SQL_MEMBERS [role]) as [rm|] eqn:Em; [|naive_solver]; apply members_asked in Em as ->; simpl;
     destruct (db_query d SQL_CREATE [role; schema]) as [rg|] eqn:Eg; [|naive_solver];
     apply create_privilege_read in Eg as ->; simpl; unfold pret; destruct a || idtac; naive_solver).
Qed.

Lemma agent_floor c role :
  opens (check_agent_hardening role (cat_roles c !! role) (Z.of_nat (length (memberships c role)))
           (Z.of_nat (length (written_tables c role)))) = true <->
  wall_hardened c role.
Proof. rewrite agent_opens. unfold wall_hardened. rewrite <- member_of_nothing, <- grants_none. naive_solver. Qed.

Lemma applier_floor c role schema :
  opens (check_applier_dml role (cat_roles c !! role) (Z.of_nat (length (memberships c role)))
           (bool_decide ((role, schema) ∈ cat_creators c))) = true <-> dml_only c role schema.
Proof. rewrite applier_opens. unfold dml_only. rewrite <- member_of_nothing. case_bool_decide; naive_solver. Qed.
(** *** The preflight as a whole *)

(** The code the command exits with. *)
Definition doctor_exit (fs : Anchor.Files) : option Z :=
  match run_doctor fs with
  | None => None
  | Some (_, Ok r) => Some (if report_passed r then 0 else 1)
  | Some (_, Err _) => Some 1
  end.

Definition replica_up (policy : option PolicyConfig) (password : string) : Prop :=
  forall t, policy ≫= (fun p => replica_target (replica p)) = Some t ->
    is_ok (db_connect (to_credential_less_dsn t +:+ " password=" +:+ password)) = true.

(** Where the three settings are given: the file of anchors is absent or reads, and the
    chain loads and is well formed. *)
Definition meta_sound (fs : Anchor.Files) : Prop :=
  forall dsn key anchor,
    Verify.nonempty (getenv "PGB_META_DSN") = Some dsn -> Verify.nonempty (getenv "PGB_AUDIT_SIGNING_KEY") = Some key ->
    Verify.nonempty (getenv "PGB_ANCHOR_PATH") = Some anchor ->
    (forall lines, fs !! anchor = Some lines -> is_ok (Anchor.read_entries entry_of_json lines) = true) /\
    exists sink rs, meta_connect dsn = Ok sink /\ AuditSink.load_chain_mut sink = Ok rs /\
      AuditChain.chain_ok canonical sha256_hex rs.

(** Where the rules of [pg_hba] can be read, each has a type. *)
Definition hba_typed (d : D) : Prop :=
  is_ok (db_query d SQL_HBA []) = true -> Forall (fun l => is_Some (line_type l)) (cat_hba (view d)).

(** The policy the preflight runs under: none where no path is given, else the valid
    document at that path. *)
Definition policy_found (policy : option PolicyConfig) : Prop :=
  match Verify.nonempty (getenv "PGB_POLICY_PATH"), policy with
  | None, None => True
  | Some path, Some c => exists yaml, read_to_string path = Ok yaml /\ from_yaml yaml = Some c /\ Config.policy_wf c
  | _, _ => False
  end.

Lemma replica_opens policy password : opens (replica_checks policy password) = true <-> replica_up policy password.
Proof.
  unfold replica_checks, replica_up. destruct (policy ≫= _) as [t|]; [|naive_solver].
  destruct (db_connect _) as [c|e] eqn:E; split; try done.
  - intros _ ? [= <-]. by rewrite E.
  - intros Hup. specialize (Hup t eq_refl). by rewrite E in Hup.
Qed.

Lemma nonempty_bytes o key : Verify.nonempty o = Some key -> as_bytes key <> [].
Proof.
  unfold Verify.nonempty. destruct o as [v|]; [|done]. case_bool_decide as E; [done|]. intros [= <-] Hb.
  apply E, as_bytes_inj. by rewrite Hb.
Qed.

Lemma put_first_key key :
  as_bytes key <> [] ->
  Secret.local_put ∅ Secret.AUDIT_SIGNING_KEY_ID (as_bytes key) = (<[Secret.AUDIT_SIGNING_KEY_ID := as_bytes key]> ∅, Ok tt).
Proof. intros Hk. unfold Secret.local_put. destruct (as_bytes key); [done|]. by rewrite lookup_empty. Qed.

Lemma meta_boot_opens opened :
  opens [meta_boot_check opened] = true <->
  exists boot rs, opened = Ok boot /\ AuditSink.load_chain_mut (Boot.sink boot) = Ok rs /\
    AuditChain.chain_ok canonical sha256_hex rs.
Proof.
  destruct opened as [boot|]; [|naive_solver]. unfold meta_boot_check, Boot.boot_load_chain.
  destruct (AuditSink.load_chain_mut (Boot.sink boot)) as [rs|] eqn:El; simpl; cycle 1.
  { split; [done|]. intros (? & ? & [= <-] & Hl & _). congruence. }
  unfold Verify.verify_meta_chain. pose proof (AuditChain.verify_chain_ok canonical sha256_hex rs) as Hv.
  destruct (AuditChain.verify_chain _ _ rs) as [[]|]; simpl; split; try done.
  - intros _. exists boot, rs. by rewrite <- Hv.
  - intros (? & rs' & [= <-] & Hl & Hc). rewrite El in Hl. injection Hl as <-. by apply Hv in Hc.
Qed.

Lemma meta_opens fs : opens [(doctor_meta_check fs).2] = true <-> meta_sound fs.
Proof.
  unfold doctor_meta_check, meta_sound.
  destruct (Verify.nonempty (getenv "PGB_META_DSN")) as [dsn|]; [|naive_solver].
  destruct (Verify.nonempty (getenv "PGB_AUDIT_SIGNING_KEY")) as [key|] eqn:Ek; [|naive_solver].
  destruct (Verify.nonempty (getenv "PGB_ANCHOR_PATH")) as [path|]; [|naive_solver].
  rewrite put_first_key by by eapply nonempty_bytes.
  unfold Boot.connect_with_anchor, Kms.from_secret_store. simpl. unfold Secret.local_get. rewrite lookup_insert_eq. simpl.
  unfold Anchor.open_file. split.
  - intros Ho ? ? ? [= <-] [= <-] [= <-]. destruct (fs !! path) as [lines|].
    + destruct (Anchor.read_entries _ lines) as [es|] eqn:Er; [|done]. apply meta_boot_opens in Ho as (boot & rs & Hb & Hl).
      destruct (meta_connect dsn) as [snk|] eqn:Es; [|done]. injection Hb as <-. split; [intros ? [= <-]; by rewrite Er|]. eauto.
    + apply meta_boot_opens in Ho as (boot & rs & Hb & Hl). destruct (meta_connect dsn) as [snk|] eqn:Es; [|done].
      injection Hb as <-. split; [done|]. eauto.
  - intros Hm. destruct (Hm _ _ _ eq_refl eq_refl eq_refl) as (Hf & snk & rs & -> & Hl). destruct (fs !! path) as [lines|].
    + specialize (Hf _ eq_refl). destruct (Anchor.read_entries _ lines); [|done]. apply meta_boot_opens. simpl. eauto.
    + apply meta_boot_opens. simpl. eauto.
Qed.

Lemma hba_rows lines : is_Some (mapM row_hba (map hba_row lines)) <-> Forall (fun l => is_Some (line_type l)) lines.
Proof.
  rewrite mapM_is_Some, Forall_map. apply Forall_iff. intros [[t|] us ad]; simpl; [done|].
  split; intros [? Hn]; [|done]. simpl in Hn. destruct us; discriminate Hn.
Qed.

Lemma hba_check_runs d role : (exists c, doctor_hba_check d role = Some (Ok c)) <-> hba_typed d.
Proof.
  unfold doctor_hba_check, hba_typed. destruct (db_query d SQL_HBA []) as [rows|] eqn:Eq; [|naive_solver].
  apply hba_lines_read in Eq as ->. rewrite <- hba_rows.
  destruct (mapM row_hba _) as [rs|]; simpl; split; [done|by eexists|by intros (c & ?)|].
  intros Hs. by destruct (Hs eq_refl).
Qed.

Lemma map_err_ok {E F A} (f : E -> F) (m : result E A) a : result_map_err f m = Ok a <-> m = Ok a.
Proof. destruct m; simpl; naive_solver. Qed.

Lemma load_ok yaml c : load_from_yaml from_yaml yaml = Ok c <-> from_yaml yaml = Some c /\ Config.policy_wf c.
Proof.
  unfold load_from_yaml. destruct (from_yaml yaml) as [c'|]; [|naive_solver].
  rewrite Config.then_iff, Config.policy_ok_iff. naive_solver.
Qed.

Lemma policy_found_iff policy : load_doctor_policy = Ok policy <-> policy_found policy.
Proof.
  unfold load_doctor_policy, policy_found, Verify.nonempty. destruct (getenv "PGB_POLICY_PATH") as [path|]; [|destruct policy; naive_solver].
  case_bool_decide; [destruct policy; naive_solver|]. rewrite Config.bind_ok_iff. setoid_rewrite map_err_ok.
  setoid_rewrite Config.bind_ok_iff. setoid_rewrite map_err_ok. setoid_rewrite load_ok. destruct policy as [c|]; naive_solver.
Qed.

Lemma setup_iff policy target password client :
  doctor_setup = Ok (policy, target, password, client) <->
  policy_found policy /\ Config.primary_named getenv (policy ≫= primary) target /\
  getenv "PGB_DOCTOR_PASSWORD" = Some password /\ db_connect (resolved_dsn target +:+ " password=" +:+ password) = Ok client.
Proof.
  unfold doctor_setup. rewrite Config.bind_ok_iff. setoid_rewrite policy_found_iff. setoid_rewrite Config.bind_ok_iff.
  unfold resolve_doctor_target. setoid_rewrite map_err_ok. setoid_rewrite Config.resolution_is_layered.
  setoid_rewrite Config.bind_ok_iff. setoid_rewrite Config.bind_ok_iff. setoid_rewrite map_err_ok.
  unfold Config.primary_named. destruct (getenv "PGB_DOCTOR_PASSWORD"); naive_solver.
Qed.

Lemma report_opens t ag ap hba rep meta :
  report_passed (mkReport ([primary_reachable t] ++ ag ++ ap ++ [hba] ++ rep ++ [meta])) = true <->
  opens ag = true /\ opens ap = true /\ opens [hba] = true /\ opens rep = true /\ opens [meta] = true.
Proof.
  transitivity (opens ([primary_reachable t] ++ ag ++ ap ++ [hba] ++ rep ++ [meta]) = true); [done|].
  rewrite !opens_app. naive_solver.
Qed.

Lemma hba_check_opens d role c : doctor_hba_check d role = Some (Ok c) -> opens [c] = true.
Proof.
  unfold doctor_hba_check. destruct (db_query d SQL_HBA []) as [rows|]; [|by intros [= <-]].
  intros (rs & _ & [= <-])%pbind_ok. unfold check_hba_boundary. destruct rs as [|r rs]; [done|].
  by destruct (List.filter _ _).
Qed.

(** C31: the preflight exits with zero exactly when it could be set up (the policy, where one
    is given, loads; the primary is named by the environment or the policy and reached with
    the password) and its questions on the two roles were answered and the floor is in
    place: the agent's role exists without any attribute that escalates, is a member of
    nothing and is shown with no write grant on a table of its own; the applier's role exists
    likewise and cannot create in the schema; a configured replica connects; the audit chain,
    where its settings are given, loads and is well formed; and, where the rules of [pg_hba]
    can be read, each has a type: what the rules say never decides, but a rule that does not
    parse, which has none, stops the preflight with a panic. *)
Theorem preflight_passes_iff_floor (fs : Anchor.Files) :
  doctor_exit fs = Some 0 <->
  exists policy target password client,
    let agent := env_or "PGB_AGENT_ROLE" "pgb_agent" in
    let applier := env_or "PGB_APPLIER_ROLE" "pgb_applier" in
    let schema := env_or "PGB_APP_SCHEMA" "public" in
    policy_found policy /\ Config.primary_named getenv (policy ≫= primary) target /\
    getenv "PGB_DOCTOR_PASSWORD" = Some password /\
    db_connect (resolved_dsn target +:+ " password=" +:+ password) = Ok client /\
    answered client agent applier schema /\
    wall_hardened (view client) agent /\ dml_only (view client) applier schema /\
    hba_typed client /\ replica_up policy password /\ meta_sound fs.
Proof.
  transitivity (exists policy target password client, doctor_setup = Ok (policy, target, password, client) /\
    answered client (env_or "PGB_AGENT_ROLE" "pgb_agent") (env_or "PGB_APPLIER_ROLE" "pgb_applier") (env_or "PGB_APP_SCHEMA" "public") /\
    wall_hardened (view client) (env_or "PGB_AGENT_ROLE" "pgb_agent") /\
    dml_only (view client) (env_or "PGB_APPLIER_ROLE" "pgb_applier") (env_or "PGB_APP_SCHEMA" "public") /\
    hba_typed client /\ replica_up policy password /\ meta_sound fs).
  2:{ do 4 (apply exist_proper; intros ?). rewrite setup_iff. tauto. }
  unfold doctor_exit, run_doctor. destruct doctor_setup as [[[[policy target] password] client]|]; [|naive_solver].
  set (catalogue := pbind _ _). split.
  - destruct catalogue as [[[[ag ap] hba]|]|] eqn:Ec; [|done..]. unfold catalogue in Ec.
    apply pbind_ok in Ec as (ag0 & Hag & Ec1). apply pbind_ok in Ec1 as (ap0 & Hap & Ec2).
    apply pbind_ok in Ec2 as (hb0 & Hhb & [= <- <- <-]). pose proof (meta_opens fs) as Hmeta.
    destruct (doctor_meta_check fs) as [fs' meta]. destruct (report_passed _) eqn:Er; [|done]. intros _.
    apply report_opens in Er as (Oag & Oap & _ & Orep & Ometa).
    apply agent_checks_made in Hag as [Aag ->]. apply applier_checks_made in Hap as [Aap ->].
    exists policy, target, password, client. split; [done|]. split_and!.
    + by apply (Forall_app_2 _ _ _ Aag Aap).
    + by apply agent_floor.
    + by apply applier_floor.
    + apply (hba_check_runs _ (env_or "PGB_AGENT_ROLE" "pgb_agent")). eauto.
    + by apply replica_opens.
    + by apply Hmeta.
  - intros (? & ? & ? & ? & [= <- <- <- <-] & Ha & Hw%agent_floor & Hd%applier_floor & Ht & Hr & Hm).
    apply (Forall_app _ [_; _; _] [_; _; _]) in Ha as [Aag Aap].
    apply (hba_check_runs _ (env_or "PGB_AGENT_ROLE" "pgb_agent")) in Ht as (hba & Hhb).
    pose proof (proj2 (agent_checks_made _ _ (env_or "PGB_APP_SCHEMA" "public") _) (conj Aag eq_refl)) as Hag.
    pose proof (proj2 (applier_checks_made _ _ _ _) (conj Aap eq_refl)) as Hap.
    unfold catalogue. rewrite Hag. simpl pbind. rewrite Hap. simpl pbind. rewrite Hhb. simpl pbind. cbn [pret].
    apply meta_opens in Hm. destruct (doctor_meta_check fs) as [fs' meta].
    rewrite (proj2 (report_opens _ _ _ _ _ _)); [done|]. split_and!; [done|done| |by apply replica_opens|done].
    by eapply hba_check_opens.
Qed.
End doctor.

(** *** A preflight *)

(** A primary that answers from its catalogue, with its own texts of the questions. *)
Record Primary : Type := mkPrimary { catalog_of : Catalog; hba_readable : bool }.
#[local] Instance Primary_db : CatalogDb Primary := fun d sql ps =>
  let c := catalog_of d in
  match ps with
  | [role] =>
      if bool_decide (sql = SQL_ATTRS) then Ok (option_list (attrs_row <$> cat_roles c !! role))
      else if bool_decide (sql = SQL_MEMBERS) then Ok [[CInt (Z.of_nat (length (memberships c role)))]]
      else if bool_decide (sql = SQL_WRITE_GRANTS) then Ok [[CInt (Z.of_nat (length (written_tables c role)))]]
      else Err "syntax error"%string
  | [role; schema] =>
      if bool_decide (sql = SQL_CREATE) && bool_decide (is_Some (cat_roles c !! role))
      then Ok [[CBool (bool_decide ((role, schema) ∈ cat_creators c))]] else Err "role does not exist"%string
  | _ => if hba_readable d then Ok (map hba_row (cat_hba c)) else Err "permission denied"%string
  end.
#[local] Instance Primary_laws : CatalogLaws Primary.
Proof.
  refine {| view := catalog_of |}.
  - by intros d role rows [= <-].
  - by intros d role rows [= <-].
  - by intros d role rows [= <-].
  - intros d role schema rows. unfold db_query, Primary_db. cbv zeta.
    destruct (bool_decide _ && _); [|done]. by intros [= <-].
  - intros d rows. unfold db_query, Primary_db. destruct (hba_readable d); [|done]. by intros [= <-].
Defined.

Definition plain_attrs : RoleAttrs := mkAttrs false false false false false.
Definition demo_catalog (grants : list TableGrant) (lines : list HbaLine) : Catalog :=
  mkCatalog (<["pgb_agent"%string := plain_attrs]> (<["pgb_applier"%string := plain_attrs]> ∅)) [] grants [] lines ["pgb_agent"%string].
Definition grant_to (role : string) : TableGrant := mkTableGrant "owner" role "public" "t" "UPDATE".
Definition open_line : HbaLine := mkHbaLine (Some "host"%string) (Some ["all"%string]) (Some "0.0.0.0/0"%string).

Definition doctor_env (chain : bool) (key : string) : option string :=
  list_to_map (M := gmap string string)
    ([("PGB_BACKEND_HOST", "db"); ("PGB_BACKEND_PORT", "5432"); ("PGB_DOCTOR_PASSWORD", "pw")]%string ++
     (if chain then [("PGB_META_DSN", "host=meta"); ("PGB_AUDIT_SIGNING_KEY", "k"); ("PGB_ANCHOR_PATH", "anchor")]%string
      else [])) !! key.

Definition demo_doctor (d : Primary) (chain : bool) (rs : list AuditChain.AuditRecord) : option Z :=
  @doctor_exit AuditChain.toy_canonical AuditChain.toy_hash Boot.demo_of_json EmptyString (fun s => s)
    (doctor_env chain) (fun _ => Err EmptyString) (fun _ => None) AuditSink.InMemorySink
    (AuditSink.InMemorySink_sink AuditChain.toy_canonical AuditChain.toy_hash) (fun _ => Ok (AuditSink.mkInMemorySink rs))
    Primary Primary_db (fun _ => Ok d) ∅.

(** It passes although the agent may connect from anywhere; one write grant to the agent
    fails it, and a chain with a record missing does where the chain is checked.  A write
    grant to everyone passes, and so does one to the agent in a session that has the rights
    of neither side; a line of [pg_hba] that does not parse panics where it can be read. *)
Example preflight_runs :
  demo_doctor (mkPrimary (demo_catalog [] [open_line]) true) true [AuditChain.sample_r0; AuditChain.sample_r1] = Some 0 /\
  demo_doctor (mkPrimary (demo_catalog [grant_to "pgb_agent"] []) true) false [] = Some 1 /\
  demo_doctor (mkPrimary (demo_catalog [] []) true) true [AuditChain.sample_r1] = Some 1 /\
  demo_doctor (mkPrimary (demo_catalog [] []) true) false [AuditChain.sample_r1] = Some 0 /\
  demo_doctor (mkPrimary (demo_catalog [grant_to "PUBLIC"] []) true) false [] = Some 0 /\
  (let c := demo_catalog [grant_to "pgb_agent"] [] in
   demo_doctor (mkPrimary (mkCatalog (cat_roles c) [] (cat_grants c) [] [] ["pgb_doctor"%string]) true) false [] = Some 0) /\
  demo_doctor (mkPrimary (demo_catalog [] [mkHbaLine None None None]) true) false [] = None /\
  demo_doctor (mkPrimary (demo_catalog [] [mkHbaLine None None None]) false) false [] = Some 0.
Proof. vm_compute. done. Qed.

(** The preflight passes on this catalogue, and what that says of its agent's role. *)
Lemma preflight_passes_iff_floor_witness :
  demo_doctor (mkPrimary (demo_catalog [] [open_line]) true) true [AuditChain.sample_r0; AuditChain.sample_r1] = Some 0 /\
  exists target, Config.primary_named (doctor_env true) None target /\ wall_hardened (demo_catalog [] [open_line]) "pgb_agent".
Proof.
  assert (demo_doctor (mkPrimary (demo_catalog [] [open_line]) true) true [AuditChain.sample_r0; AuditChain.sample_r1] = Some 0) as E
    by (vm_compute; reflexivity).
  split; [exact E|].
  destruct (proj1 (@preflight_passes_iff_floor AuditChain.toy_canonical AuditChain.toy_hash Boot.demo_of_json EmptyString (fun s => s)
    (doctor_env true) (fun _ => Err EmptyString) (fun _ => None) AuditSink.InMemorySink
    (AuditSink.InMemorySink_sink AuditChain.toy_canonical AuditChain.toy_hash)
    (fun _ => Ok (AuditSink.mkInMemorySink [AuditChain.sample_r0; AuditChain.sample_r1]))
    Primary Primary_db (fun _ => Ok (mkPrimary (demo_catalog [] [open_line]) true)) Primary_laws ∅) E)
    as (policy & target & password & client & Hp & Hn & _ & Hc & _ & Hw & _).
  injection Hc as <-. exists target. split; [|exact Hw].
  destruct policy; [destruct Hp|exact Hn].
Defined.
End Doctor.
