(* ===== verification/ProxyGate.v ===== *)
(** * ProxyGate: the read-path gates of the proxy

    Models [src/crates/proxy/src/budget.rs] (Module [Budget]), [window.rs] (Module
    [Window]), [enforce.rs] (Module [Enforce]) and [explain.rs] (Module [Explain]).  The
    budgets are those of the policy document ([Config]).  Parsing
    of [f64] and [u64] text is the Rust standard library's, written out. *)

From Stdlib Require Import SpecFloat ZifyBool.
From S2P Require Import Prelude Text Session BlastRadius Config Wire Frontend Classifier.

Module Budget.
Import RoleConfig.

Inductive Cap : Type := CapBytes | CapRows.

Inductive BudgetOutcome : Type :=
| Within (bytes rows : Z)
| Exceeded (cap : Cap) (bytes rows : Z).

Definition cap_code (c : Cap) : string :=
  match c with CapBytes => "byte_budget_exceeded" | CapRows => "row_budget_exceeded" end.

Record Budget : Type := mkBudget { max_bytes : Z; max_rows : Z; used_bytes : Z; used_rows : Z }.

Definition budget_new (max_bytes max_rows : Z) : Budget := mkBudget max_bytes max_rows 0 0.
Definition for_role (b : RoleBudget) : Budget := budget_new (role_max_bytes b) (role_max_rows b).

Definition charge_row (b : Budget) (row_bytes : Z) : Budget * BudgetOutcome :=
  let next_rows := sat_add (used_rows b) 1 in
  if max_rows b <? next_rows then (b, Exceeded CapRows (used_bytes b) (used_rows b))
  else
    let next_bytes := sat_add (used_bytes b) row_bytes in
    if max_bytes b <? next_bytes then (b, Exceeded CapBytes (used_bytes b) (used_rows b))
    else (mkBudget (max_bytes b) (max_rows b) next_bytes next_rows, Within next_bytes next_rows).

(** The rows forwarded when each of [sizes] is charged in turn: those found [Within]. *)
Fixpoint forwarded (b : Budget) (sizes : list Z) : list Z :=
  match sizes with
  | [] => []
  | n :: sizes =>
      match charge_row b n with
      | (b', Within _ _) => n :: forwarded b' sizes
      | (b', Exceeded _ _ _) => forwarded b' sizes
      end
  end.

Definition sum (l : list Z) : Z := foldr Z.add 0 l.

Definition budget_ok (b : Budget) : Prop :=
  0 <= used_bytes b <= max_bytes b /\ 0 <= used_rows b <= max_rows b /\
  max_bytes b < u64_max /\ max_rows b < u64_max.

Lemma charge_row_spec b n :
  budget_ok b -> 0 <= n ->
  charge_row b n =
    if decide (used_rows b + 1 <= max_rows b /\ used_bytes b + n <= max_bytes b)
    then (mkBudget (max_bytes b) (max_rows b) (used_bytes b + n) (used_rows b + 1),
          Within (used_bytes b + n) (used_rows b + 1))
    else (b, Exceeded (if max_rows b <? used_rows b + 1 then CapRows else CapBytes) (used_bytes b) (used_rows b)).
Proof.
  unfold budget_ok, charge_row, sat_add, u64_max. intros H Hn.
  rewrite (Z.min_l (used_rows b + 1)) by lia.
  destruct (Z.ltb_spec (max_rows b) (used_rows b + 1)); [rewrite decide_False by lia; done|].
  destruct (Z.ltb_spec (max_bytes b) (Z.min (used_bytes b + n) (2 ^ 64 - 1))).
  - rewrite decide_False by lia. done.
  - rewrite decide_True by lia. by rewrite Z.min_l by lia.
Qed.

Lemma charge_row_ok b n : budget_ok b -> 0 <= n -> budget_ok (charge_row b n).1.
Proof. intros H Hn. rewrite charge_row_spec by done. case_decide; [|done]. unfold budget_ok in *; simpl. lia. Qed.

(** The single-shot cutoff bounds what a statement can stream: of any sequence of
    rows, those forwarded total at most the byte cap and number at most the row cap
    (inclusive), counting what the meter had already let through. *)
Theorem cutoff_bounds_stream (b : Budget) (sizes : list Z) :
  budget_ok b -> Forall (fun n => 0 <= n) sizes ->
  used_bytes b + sum (forwarded b sizes) <= max_bytes b /\
  used_rows b + Z.of_nat (length (forwarded b sizes)) <= max_rows b.
Proof.
  intros Hb Hs. revert b Hb. induction Hs as [|n sizes Hn _ IH]; intros b Hb; simpl.
  - unfold budget_ok in Hb. lia.
  - pose proof (charge_row_ok b n Hb Hn) as Hb'. revert Hb'. rewrite charge_row_spec by done. case_decide.
    + intros Hb'. specialize (IH _ Hb'). simpl in IH |- *. lia.
    + intros _. by apply IH.
Qed.

Lemma cutoff_bounds_stream_witness :
  forwarded (budget_new 100 2) [60; 50; 30; 1] = [60; 30] /\
  (0 + sum (forwarded (budget_new 100 2) [60; 50; 30; 1]) <= 100 /\
   0 + Z.of_nat (length (forwarded (budget_new 100 2) [60; 50; 30; 1])) <= 2).
Proof.
  split; [vm_compute; reflexivity|].
  apply (cutoff_bounds_stream (budget_new 100 2) [60; 50; 30; 1]).
  - unfold budget_ok, u64_max. simpl. lia.
  - by_decide.
Defined.

End Budget.

Module Window.
Import RoleConfig Session.Clock.

Inductive WindowCap : Type := WindowBytes | WindowRows.

Definition window_cap_code (c : WindowCap) : string :=
  match c with WindowBytes => "window_byte_budget_exceeded" | WindowRows => "window_row_budget_exceeded" end.

Inductive WindowOutcome : Type :=
| WWithin (bytes rows : Z)
| WExceeded (cap : WindowCap) (bytes rows : Z).

Record WindowMeter : Type := mkMeter {
  w_max_bytes : Z;
  w_max_rows : Z;
  window_ms : Z;
  anchor_ms : option Z;
  w_used_bytes : Z;
  w_used_rows : Z
}.

(** [u64::saturating_mul]. *)
Definition sat_mul (a b : Z) : Z := Z.min (a * b) u64_max.

Definition for_window (b : WindowBudget) : WindowMeter :=
  mkMeter (window_max_bytes b) (window_max_rows b) (sat_mul (window_secs b) 1000) None 0 0.

Definition reanchor (m : WindowMeter) (now : Z) : WindowMeter :=
  mkMeter (w_max_bytes m) (w_max_rows m) (window_ms m) (Some now) 0 0.

Definition roll (m : WindowMeter) (now_ms : Z) : WindowMeter :=
  match anchor_ms m with
  | None => reanchor m now_ms
  | Some anchor => if window_ms m <=? sat_sub now_ms anchor then reanchor m now_ms else m
  end.

Definition charge {C} `{Clock C} (m : WindowMeter) (bytes rows : Z) (clock : C) : WindowMeter * WindowOutcome :=
  let m := roll m (monotonic_millis clock) in
  let next_rows := sat_add (w_used_rows m) rows in
  if w_max_rows m <? next_rows then (m, WExceeded WindowRows (w_used_bytes m) (w_used_rows m))
  else
    let next_bytes := sat_add (w_used_bytes m) bytes in
    if w_max_bytes m <? next_bytes then (m, WExceeded WindowBytes (w_used_bytes m) (w_used_rows m))
    else (mkMeter (w_max_bytes m) (w_max_rows m) (window_ms m) (anchor_ms m) next_bytes next_rows,
          WWithin next_bytes next_rows).

(** ** The log of committed charges *)

Record Commit : Type := mkCommit { c_anchor : Z; c_now : Z; c_bytes : Z }.

(** The commits of a session that charges [bytes] and [rows] at the given instants. *)
Fixpoint committed (m : WindowMeter) (reads : list (Z * Z * Z)) : list Commit :=
  match reads with
  | [] => []
  | (now, bytes, rows) :: reads =>
      match charge m bytes rows (mkMockClock now now) with
      | (m', WWithin _ _) => mkCommit (default 0 (anchor_ms m')) now bytes :: committed m' reads
      | (m', WExceeded _ _ _) => committed m' reads
      end
  end.

Definition total (l : list Commit) : Z := foldr (fun c n => c_bytes c + n) 0 l.
Definition in_window (a : Z) (c : Commit) : bool := c_anchor c =? a.
Definition in_interval (t w : Z) (c : Commit) : bool := (t <=? c_now c) && (c_now c <? t + w).

Definition meter_ok (m : WindowMeter) : Prop :=
  0 <= w_used_bytes m <= w_max_bytes m /\ 0 <= w_used_rows m <= w_max_rows m /\
  w_max_bytes m < u64_max /\ w_max_rows m < u64_max /\ 0 < window_ms m.

(** Reads at non-decreasing instants from [t] on, of non-negative size. *)
Fixpoint reads_from (t : Z) (reads : list (Z * Z * Z)) : Prop :=
  match reads with
  | [] => True
  | (now, bytes, rows) :: reads => t <= now /\ 0 <= bytes /\ 0 <= rows /\ reads_from now reads
  end.

Lemma roll_cases m now :
  (exists a, anchor_ms m = Some a /\ sat_sub now a < window_ms m /\ roll m now = m) \/
  ((forall a, anchor_ms m = Some a -> window_ms m <= sat_sub now a) /\ roll m now = reanchor m now).
Proof.
  unfold roll. destruct (anchor_ms m) as [a|].
  - destruct (Z.leb_spec (window_ms m) (sat_sub now a)).
    + right. split; [by intros ? [= <-]|done].
    + left. by exists a.
  - by right.
Qed.

Lemma roll_ok m now : meter_ok m -> meter_ok (roll m now).
Proof.
  intros H. destruct (roll_cases m now) as [(a & _ & _ & ->)|[_ ->]]; [done|].
  unfold meter_ok, reanchor in *. simpl. lia.
Qed.

Lemma charge_after_roll m bytes rows now m' o :
  meter_ok m -> 0 <= bytes -> 0 <= rows -> charge m bytes rows (mkMockClock now now) = (m', o) ->
  meter_ok m' /\ anchor_ms m' = anchor_ms (roll m now) /\ window_ms m' = window_ms m /\
  w_max_bytes m' = w_max_bytes m /\
  match o with
  | WWithin _ _ => w_used_bytes m' = w_used_bytes (roll m now) + bytes
  | WExceeded _ _ _ => w_used_bytes m' = w_used_bytes (roll m now)
  end.
Proof.
  intros Hm Hb Hr. pose proof (roll_ok m now Hm) as Hm'.
  assert (window_ms (roll m now) = window_ms m /\ w_max_bytes (roll m now) = w_max_bytes m) as [Hw Hx].
  { destruct (roll_cases m now) as [(a & _ & _ & ->)|[_ ->]]; done. }
  unfold charge. simpl. unfold meter_ok, sat_add, u64_max in *.
  destruct (Z.ltb_spec (w_max_rows (roll m now)) (Z.min (w_used_rows (roll m now) + rows) (2 ^ 64 - 1))).
  { intros [= <- <-]. done. }
  destruct (Z.ltb_spec (w_max_bytes (roll m now)) (Z.min (w_used_bytes (roll m now) + bytes) (2 ^ 64 - 1))).
  { intros [= <- <-]. done. }
  intros [= <- <-]. simpl. split; [lia|]. do 3 (split; [done|]). lia.
Qed.

(** The window a charge falls in: the open one, or a new one that starts a length later. *)
Lemma charge_window m bytes rows now m' o :
  meter_ok m -> (forall a, anchor_ms m = Some a -> a <= now) ->
  anchor_ms m' = anchor_ms (roll m now) -> charge m bytes rows (mkMockClock now now) = (m', o) ->
  exists a', anchor_ms m' = Some a' /\ a' <= now < a' + window_ms m /\
    (anchor_ms m = Some a' /\ w_used_bytes (roll m now) = w_used_bytes m \/
     w_used_bytes (roll m now) = 0 /\ a' = now /\ forall a, anchor_ms m = Some a -> a + window_ms m <= a').
Proof.
  intros Hm Ha Han _. assert (0 < window_ms m) as Hpos by (unfold meter_ok in Hm; lia).
  destruct (roll_cases m now) as [(a & Hm1 & Hlt & Hroll)|[Hge Hroll]]; rewrite Hroll in Han.
  - exists a. rewrite Han, Hm1, Hroll. specialize (Ha a Hm1). unfold sat_sub in Hlt.
    split; [done|]. split; [lia|]. by left.
  - exists now. rewrite Han, Hroll. split; [done|]. split; [lia|]. right.
    split; [done|]. split; [done|]. intros a Hm1. specialize (Hge a Hm1). unfold sat_sub in Hge. lia.
Qed.

(** A commit made after a state whose window is [anchor]. *)
Definition commit_after (w t : Z) (anchor : option Z) (c : Commit) : Prop :=
  c_anchor c <= c_now c < c_anchor c + w /\ t <= c_now c /\ 0 <= c_bytes c /\
  match anchor with Some a => c_anchor c = a \/ a + w <= c_anchor c | None => True end.

Lemma commit_after_weaken w t t' anchor a' c :
  t <= t' -> 0 < w -> (anchor = Some a' \/ forall a, anchor = Some a -> a + w <= a') ->
  commit_after w t' (Some a') c -> commit_after w t anchor c.
Proof.
  intros Ht Hw Hcase (H1 & H2 & H3 & H4). split; [done|]. split; [lia|]. split; [done|].
  destruct anchor as [a|]; [|done]. destruct Hcase as [[= ->]|Hgap]; [done|].
  specialize (Hgap a eq_refl). right. lia.
Qed.

Lemma closed_window_stays_closed w t a a' l :
  0 < w -> a + w <= a' -> Forall (commit_after w t (Some a')) l -> total (List.filter (in_window a) l) = 0.
Proof.
  intros Hw Hgap H. induction H as [|c l (_ & _ & _ & Hc) _ IH]; [done|].
  simpl. unfold in_window at 1. destruct (Z.eqb_spec (c_anchor c) a) as [E|]; [lia|done].
Qed.

(** What is left to spend in window [a] after state [m]. *)
Definition left_in (m : WindowMeter) (a : Z) : Z :=
  if decide (anchor_ms m = Some a) then w_max_bytes m - w_used_bytes m else w_max_bytes m.

(** Each commit falls in its window, a new window starts at least one length after the
    previous, and no window overdraws the budget. *)
Lemma committed_spec m reads t :
  meter_ok m -> reads_from t reads -> (forall a, anchor_ms m = Some a -> a <= t) ->
  Forall (commit_after (window_ms m) t (anchor_ms m)) (committed m reads) /\
  (forall a, total (List.filter (in_window a) (committed m reads)) <= left_in m a) /\
  (forall c d, c ∈ committed m reads -> d ∈ committed m reads -> c_anchor c <> c_anchor d ->
               window_ms m <= Z.abs (c_anchor c - c_anchor d)).
Proof.
  revert m t. induction reads as [|[[now bytes] rows] reads IH]; intros m t Hm Hr Ha.
  { cbn [committed]. split; [constructor|]. split; [|intros c d Hc; by apply elem_of_nil in Hc].
    intros a. simpl. unfold meter_ok, left_in in *. case_decide; lia. }
  destruct Hr as (Ht & Hb & Hrow & Hr). cbn [committed].
  destruct (charge m bytes rows (mkMockClock now now)) as [m' o] eqn:E.
  destruct (charge_after_roll _ _ _ _ _ _ Hm Hb Hrow E) as (Hm' & Han & Hw & Hmax & Hu).
  assert (forall a, anchor_ms m = Some a -> a <= now) as Hanow by (intros a H; specialize (Ha a H); lia).
  destruct (charge_window _ _ _ _ _ _ Hm Hanow Han E) as (a' & Ha' & Hin & Hcase).
  assert (0 < window_ms m) as Hpos by (unfold meter_ok in Hm; lia).
  destruct (IH m' now Hm' Hr) as (IH1 & IH2 & IH3); [intros a; rewrite Ha'; intros [= <-]; lia|].
  rewrite Hw in IH1, IH3. rewrite Ha' in IH1.
  assert (Forall (commit_after (window_ms m) t (anchor_ms m)) (committed m' reads)) as F1.
  { eapply Forall_impl; [exact IH1|]. intros c Hc.
    apply (commit_after_weaken _ t now _ a'); [lia|done|tauto|done]. }
  assert (forall a, total (List.filter (in_window a) (committed m' reads)) +
            (if decide (a' = a) then w_used_bytes m' - w_used_bytes (roll m now) else 0) <= left_in m a) as F2.
  { intros a. specialize (IH2 a). unfold left_in, meter_ok in *. rewrite Ha', Hmax in IH2.
    destruct Hcase as [[Hs Hz]|(Hz & _ & Hgap)].
    - rewrite Hs. repeat case_decide; simplify_eq; lia.
    - destruct (decide (anchor_ms m = Some a)) as [D|D].
      + specialize (Hgap a D). rewrite decide_False by lia.
        rewrite (closed_window_stays_closed (window_ms m) now a a') by (done || lia). lia.
      + repeat case_decide; simplify_eq; lia. }
  destruct o as [b' r'|cap b' r'].
  2:{ split; [done|]. split; [|done]. intros a. specialize (F2 a). case_decide; lia. }
  rewrite Ha'. change (default 0 (Some a')) with a'. split; [|split].
  - constructor; [|done]. split; [simpl; lia|]. split; [simpl; lia|]. split; [done|].
    simpl. destruct (anchor_ms m) as [a|]; [|done]. destruct Hcase as [[[= ->] _]|(_ & _ & Hgap)]; [by left|].
    right. by apply Hgap.
  - intros a. specialize (F2 a). cbn [List.filter].
    change (in_window a (mkCommit a' now bytes)) with (a' =? a). destruct (Z.eqb_spec a' a) as [->|Hne]; [rewrite decide_True in F2 by done|rewrite decide_False in F2 by done; lia].
    cbn [total foldr c_bytes]. fold (total (List.filter (in_window a) (committed m' reads))). lia.
  - intros c d Hc Hd Hne. rewrite List.Forall_forall in IH1.
    apply elem_of_cons in Hc as [->|Hc]; apply elem_of_cons in Hd as [->|Hd]; [done| | |by apply IH3]; simpl in *.
    + destruct (IH1 d) as (_ & _ & _ & [?|?]); [by apply list_elem_of_In|congruence|lia].
    + destruct (IH1 c) as (_ & _ & _ & [?|?]); [by apply list_elem_of_In|congruence|lia].
Qed.

Lemma total_nonneg l : Forall (fun c => 0 <= c_bytes c) l -> 0 <= total l.
Proof. induction 1; simpl; lia. Qed.

Lemma total_filter_cons p c l :
  total (List.filter p (c :: l)) = (if p c then c_bytes c else 0) + total (List.filter p l).
Proof. simpl. by destruct (p c). Qed.

Lemma in_window_spec a c : reflect (c_anchor c = a) (in_window a c).
Proof. apply Z.eqb_spec. Qed.

(** Commits that all lie in one of two windows total at most what the two windows do. *)
Lemma two_windows l p a1 a2 :
  Forall (fun c => 0 <= c_bytes c) l ->
  Forall (fun c => p c = true -> c_anchor c = a1 \/ c_anchor c = a2) l ->
  total (List.filter p l) <= total (List.filter (in_window a1) l) + total (List.filter (in_window a2) l).
Proof.
  intros Hn Hp. induction l as [|c l IH]; [done|].
  apply Forall_cons in Hn as [Hc Hn]. apply Forall_cons in Hp as [Hpc Hp]. specialize (IH Hn Hp).
  rewrite !total_filter_cons. destruct (in_window_spec a1 c), (in_window_spec a2 c), (p c); lia || by destruct (Hpc eq_refl).
Qed.

(** Windows met by an interval of their own length: at most two. *)
Lemma at_most_two_windows w t l :
  Forall (fun c => c_anchor c <= c_now c < c_anchor c + w) l ->
  (forall c d, c ∈ l -> d ∈ l -> c_anchor c <> c_anchor d -> w <= Z.abs (c_anchor c - c_anchor d)) ->
  exists a1 a2, Forall (fun c => in_interval t w c = true -> c_anchor c = a1 \/ c_anchor c = a2) l.
Proof.
  intros Hin Hgap. rewrite List.Forall_forall in Hin.
  destruct (decide (Forall (fun c => in_interval t w c = false) l)) as [Hno|Hyes].
  { exists 0, 0. eapply Forall_impl; [exact Hno|]. simpl. intros c Hc. by rewrite Hc. }
  apply not_Forall_Exists in Hyes; [|apply _]. apply Exists_exists in Hyes as (c1 & Hc1 & Hi1%not_false_is_true).
  destruct (decide (Forall (fun c => in_interval t w c = true -> c_anchor c = c_anchor c1) l)) as [Hone|Htwo].
  { exists (c_anchor c1), (c_anchor c1). eapply Forall_impl; [exact Hone|]. simpl. tauto. }
  apply not_Forall_Exists in Htwo; [|apply _]. apply Exists_exists in Htwo as (c2 & Hc2 & Hi2).
  exists (c_anchor c1), (c_anchor c2). apply List.Forall_forall. intros c3 Hc3 Hi3.
  destruct (decide (c_anchor c3 = c_anchor c1)); [by left|]. right.
  destruct (decide (c_anchor c3 = c_anchor c2)) as [|Hne]; [done|]. exfalso.
  assert (in_interval t w c2 = true /\ c_anchor c2 <> c_anchor c1) as [Hi2' Hne2].
  { split; [apply not_false_is_true|]; intros E; apply Hi2; intros; congruence. }
  apply list_elem_of_In in Hc3 as Hc3'. apply list_elem_of_In in Hc1 as Hc1'. apply list_elem_of_In in Hc2 as Hc2'.
  pose proof (Hgap c1 c2 Hc1 Hc2). pose proof (Hgap c1 c3 Hc1 Hc3'). pose proof (Hgap c2 c3 Hc2 Hc3').
  pose proof (Hin c1 Hc1'). pose proof (Hin c2 Hc2'). pose proof (Hin c3 Hc3).
  unfold in_interval in *. lia.
Qed.

Definition window_ok (b : WindowBudget) : Prop :=
  0 < window_secs b /\ 0 <= window_max_bytes b < u64_max /\ 0 <= window_max_rows b < u64_max.

(** What a meter's commits total, in a window and in any interval of its length. *)
Lemma committed_bounded b reads start :
  window_ok b -> reads_from start reads ->
  Forall (fun c => 0 <= c_bytes c) (committed (for_window b) reads) /\
  (forall a, total (List.filter (in_window a) (committed (for_window b) reads)) <= window_max_bytes b) /\
  (forall t, total (List.filter (in_interval t (window_ms (for_window b))) (committed (for_window b) reads)) <=
               2 * window_max_bytes b).
Proof.
  intros (Hs & Hb & Hr) Hreads. set (log := committed (for_window b) reads).
  assert (meter_ok (for_window b)) as Hm.
  { unfold meter_ok, for_window, sat_mul. simpl. unfold u64_max in *. lia. }
  destruct (committed_spec (for_window b) reads start Hm Hreads) as (H1 & H2 & H3); [done|].
  assert (forall a, total (List.filter (in_window a) log) <= window_max_bytes b) as Hper.
  { intros a. specialize (H2 a). unfold left_in in H2. simpl in H2. done. }
  assert (Forall (fun c => 0 <= c_bytes c) log) as Hpos.
  { eapply Forall_impl; [exact H1|]. by intros c (_ & _ & Hc & _). }
  split; [done|]. split; [done|]. intros t.
  destruct (at_most_two_windows (window_ms (for_window b)) t log) as (a1 & a2 & H12); [|done|].
  { eapply Forall_impl; [exact H1|]. by intros c (Hc & _). }
  pose proof (two_windows log _ a1 a2 Hpos H12). pose proof (Hper a1). pose proof (Hper a2). lia.
Qed.

(** The meter after a session's charges. *)
Fixpoint meter_after (m : WindowMeter) (reads : list (Z * Z * Z)) : WindowMeter :=
  match reads with
  | [] => m
  | (now, bytes, rows) :: reads => meter_after (charge m bytes rows (mkMockClock now now)).1 reads
  end.

Lemma meter_after_app m r1 r2 : meter_after m (r1 ++ r2) = meter_after (meter_after m r1) r2.
Proof. revert m. induction r1 as [|[[now bytes] rows] r1 IH]; intros m; simpl; [done|]. apply IH. Qed.

Lemma committed_app m r1 r2 : committed m (r1 ++ r2) = committed m r1 ++ committed (meter_after m r1) r2.
Proof.
  revert m. induction r1 as [|[[now bytes] rows] r1 IH]; intros m; simpl; [done|].
  destruct (charge m bytes rows _) as [m' []]; simpl; by rewrite IH.
Qed.

Lemma reads_from_snoc t reads now bytes rows :
  reads_from t reads -> Forall (fun r => r.1.1 <= now) reads -> t <= now -> 0 <= bytes -> 0 <= rows ->
  reads_from t (reads ++ [(now, bytes, rows)]).
Proof.
  revert t. induction reads as [|[[n b] r] reads IH]; intros t H Hle Ht Hb Hr; simpl in *; [done|].
  destruct H as (H1 & H2 & H3 & H4). apply Forall_cons in Hle as [Hn Hle]. simpl in Hn. auto.
Qed.

(** Bounded disclosure.  Over any session of reads at non-decreasing instants, the
    bytes committed in one window never exceed the window's budget, and the bytes
    committed in any interval of one window's length, wherever it starts, never exceed
    twice the budget. *)
Theorem window_bounds_disclosure (b : WindowBudget) (reads : list (Z * Z * Z)) (start : Z) :
  0 < window_secs b -> 0 <= window_max_bytes b < u64_max -> 0 <= window_max_rows b < u64_max ->
  reads_from start reads ->
  let log := committed (for_window b) reads in
  (forall a, total (List.filter (in_window a) log) <= window_max_bytes b) /\
  (forall t, total (List.filter (in_interval t (window_ms (for_window b))) log) <= 2 * window_max_bytes b).
Proof.
  intros Hs Hb Hr Hreads log. destruct (committed_bounded b reads start) as (_ & H1 & H2); done.
Qed.

Lemma window_bounds_disclosure_witness :
  let log := committed (for_window (mkWindowBudget 1 100 10)) [(5, 60, 1); (900, 60, 1); (1005, 90, 1)] in
  (forall a, total (List.filter (in_window a) log) <= 100) /\
  (forall t, total (List.filter (in_interval t 1000) log) <= 2 * 100).
Proof.
  apply (window_bounds_disclosure (mkWindowBudget 1 100 10) [(5, 60, 1); (900, 60, 1); (1005, 90, 1)] 0);
    simpl; unfold u64_max; lia.
Defined.

(** A meter of [b] in the window [a] with [used] bytes spent. *)
Definition meter_at (b : WindowBudget) (a used : Z) : WindowMeter :=
  mkMeter (window_max_bytes b) (window_max_rows b) (window_ms (for_window b)) (Some a) used 0.

Lemma roll_meter_at b a used now :
  roll (meter_at b a used) now =
    if window_ms (for_window b) <=? sat_sub now a then meter_at b now 0 else meter_at b a used.
Proof. reflexivity. Qed.

Lemma charge_within m bytes rows now m1 :
  roll m now = m1 -> 0 <= w_used_rows m1 + rows <= w_max_rows m1 -> w_max_rows m1 < u64_max ->
  0 <= w_used_bytes m1 + bytes <= w_max_bytes m1 -> w_max_bytes m1 < u64_max ->
  charge m bytes rows (mkMockClock now now) =
    (mkMeter (w_max_bytes m1) (w_max_rows m1) (window_ms m1) (anchor_ms m1) (w_used_bytes m1 + bytes)
       (w_used_rows m1 + rows), WWithin (w_used_bytes m1 + bytes) (w_used_rows m1 + rows)).
Proof.
  intros <- Hr Hr' Hb Hb'. unfold charge, sat_add. simpl.
  rewrite (Z.min_l (_ + rows)), (Z.min_l (_ + bytes)) by lia.
  destruct (Z.ltb_spec (w_max_rows (roll m now)) (w_used_rows (roll m now) + rows)); [lia|].
  by destruct (Z.ltb_spec (w_max_bytes (roll m now)) (w_used_bytes (roll m now) + bytes)); [lia|].
Qed.

(** The bound of two budgets is met: whatever the budget and the window, a session
    can read the whole budget in the last instant of one window and again in the first of
    the next, twice the budget within one window's length. *)
Theorem sliding_window_sees_twice_budget (b : WindowBudget) :
  0 < window_secs b -> 0 <= window_max_bytes b < u64_max -> 0 <= window_max_rows b < u64_max ->
  exists reads t, reads_from 0 reads /\
    total (List.filter (in_interval t (window_ms (for_window b))) (committed (for_window b) reads)) =
      2 * window_max_bytes b.
Proof.
  intros Hs Hb Hr. set (w := window_ms (for_window b)). assert (1 < w) as Hw.
  { unfold w, for_window, sat_mul, u64_max. simpl. lia. }
  set (B := window_max_bytes b).
  exists [(0, 0, 0); (w - 1, B, 0); (w, B, 0)], (w - 1). split; [simpl; lia|].
  assert (charge (for_window b) 0 0 (mkMockClock 0 0) = (meter_at b 0 0, WWithin 0 0)) as E1.
  { apply (charge_within _ 0 0 0 (reanchor (for_window b) 0)); [done|simpl; lia..]. }
  assert (charge (meter_at b 0 0) B 0 (mkMockClock (w - 1) (w - 1)) = (meter_at b 0 B, WWithin B 0)) as E2.
  { apply (charge_within _ B 0 (w - 1) (meter_at b 0 0)); [|simpl; unfold B; lia..].
    rewrite roll_meter_at. fold w. unfold sat_sub. destruct (Z.leb_spec w (Z.max (w - 1 - 0) 0)); [lia|done]. }
  assert (charge (meter_at b 0 B) B 0 (mkMockClock w w) = (meter_at b w B, WWithin B 0)) as E3.
  { apply (charge_within _ B 0 w (meter_at b w 0)); [|simpl; unfold B; lia..].
    rewrite roll_meter_at. fold w. unfold sat_sub. destruct (Z.leb_spec w (Z.max (w - 0) 0)); [done|lia]. }
  cbn [committed]. rewrite E1, E2, E3, !total_filter_cons. cbn [c_bytes List.filter total foldr].
  replace (in_interval (w - 1) w (mkCommit (default 0 (anchor_ms (meter_at b 0 B))) (w - 1) B)) with true.
  2:{ symmetry. apply andb_true_iff. cbn [c_now]. rewrite Z.leb_le, Z.ltb_lt. lia. }
  replace (in_interval (w - 1) w (mkCommit (default 0 (anchor_ms (meter_at b w B))) w B)) with true.
  2:{ symmetry. apply andb_true_iff. cbn [c_now]. rewrite Z.leb_le, Z.ltb_lt. lia. }
  case_match; lia.
Qed.

Lemma sliding_window_sees_twice_budget_witness :
  exists reads t, reads_from 0 reads /\
    total (List.filter (in_interval t (window_ms (for_window (mkWindowBudget 60 1000 10))))
             (committed (for_window (mkWindowBudget 60 1000 10)) reads)) = 2 * 1000.
Proof. apply (sliding_window_sees_twice_budget (mkWindowBudget 60 1000 10)); simpl; unfold u64_max; lia. Defined.

End Window.

Module Enforce.
Import Frontend Classifier.

Inductive RejectKind : Type := RejectSimpleQuery | RejectCopy.

Inductive GateDecision : Type :=
| GateAllow (sql : option string)
| GateReject (kind : RejectKind) (code message : string)
| GateBlock (sql code message : string).

Definition SIMPLE_QUERY_MESSAGE : string :=
  "simple query protocol is not permitted for agent connections; use the extended protocol (Parse/Bind/Execute) — this blocks statement-stacking such as `COMMIT; DROP SCHEMA …`".
Definition COPY_MESSAGE : string :=
  "COPY is not permitted for agent connections (no per-statement gate; COPY … PROGRAM is an RCE vector)".

Definition not_read_message (reason : option NotReadReason) : string * string :=
  match reason with
  | Some MultipleStatements =>
      ("stacked_statement", "multiple statements in one Parse are not permitted (statement-stacking); send exactly one read statement")
  | Some ParseError =>
      ("parse_failed", "statement could not be parsed; the read-only gate fails closed and refuses anything it cannot prove is a single read")
  | Some Empty => ("empty_statement", "empty statement is not a read")
  | Some NotAReadStatement | None =>
      ("write_on_readonly", "only read-only statements are permitted on the agent read path (writes/DDL/utility/COPY are blocked)")
  end.

Section gate.
Context (parse_sql : string -> option (list Statement)).
Context (visit_expressions : Statement -> list Expr).

Definition gate_sql (sql : string) : GateDecision :=
  match classify_with_reason parse_sql visit_expressions sql with
  | (Read, _) => GateAllow (Some sql)
  | (NotRead, reason) => let '(code, message) := not_read_message reason in GateBlock sql code message
  end.

Definition gate (msg : FrontendMessage) : GateDecision :=
  match classify_frontend_tag (tag msg) with
  | Err SimpleQuery => GateReject RejectSimpleQuery "simple_query_rejected" SIMPLE_QUERY_MESSAGE
  | Err Copy => GateReject RejectCopy "copy_rejected" COPY_MESSAGE
  | Ok _ =>
      match msg with
      | Parse _ sql _ => gate_sql sql
      | _ => GateAllow None
      end
  end.

(** What the frame gate lets through, for every message: a simple query and every
    COPY frame are refused whatever they carry; a Parse is allowed exactly when its SQL
    classifies as a read, and is blocked with the reason's code otherwise; the other
    frames pass, carrying no SQL. *)
Theorem gate_decides (msg : FrontendMessage) :
  match msg with
  | Frontend.Query _ => gate msg = GateReject RejectSimpleQuery "simple_query_rejected" SIMPLE_QUERY_MESSAGE
  | CopyData _ | CopyDone | CopyFail _ => gate msg = GateReject RejectCopy "copy_rejected" COPY_MESSAGE
  | Parse _ sql _ =>
      (gate msg = GateAllow (Some sql) <-> classify parse_sql visit_expressions sql = Read) /\
      (classify parse_sql visit_expressions sql = NotRead -> exists reason,
         (classify_with_reason parse_sql visit_expressions sql).2 = Some reason /\
         gate msg = GateBlock sql (not_read_message (Some reason)).1 (not_read_message (Some reason)).2)
  | _ => gate msg = GateAllow None
  end.
Proof.
  destruct msg; try done. unfold gate, classify. simpl. unfold gate_sql.
  unfold classify_with_reason. destruct (parse_sql sql) as [[|s [|]]|]; simpl; try naive_solver.
  destruct (is_read_statement _ s); simpl; naive_solver.
Qed.
End gate.

End Enforce.

Module Explain.
Import RoleConfig BlastRadius.

Record ExplainCeiling : Type := mkCeiling { max_cost : f64; ceiling_max_rows : Z }.

Definition ceiling_for_role (b : RoleBudget) : ExplainCeiling := mkCeiling (max_plan_cost b) (max_plan_rows b).

Record PlanEstimate : Type := mkEstimate { total_cost : f64; est_rows : Z }.

Inductive EstimateDim : Type := DimCost | DimRows.

Definition dim_code (d : EstimateDim) : string :=
  match d with DimCost => "explain_cost_exceeded" | DimRows => "explain_rows_exceeded" end.

Inductive EstimateDecision : Type :=
| WithinEstimate (e : PlanEstimate)
| ExceededEstimate (dim : EstimateDim) (e : PlanEstimate)
| FailClosed (reason : string).

(** [decide]: the float comparison is IEEE's, false on NaN. *)
Definition decide_estimate (c : ExplainCeiling) (e : PlanEstimate) : EstimateDecision :=
  if SFltb (max_cost c) (total_cost e) then ExceededEstimate DimCost e
  else if ceiling_max_rows c <? est_rows e then ExceededEstimate DimRows e
  else WithinEstimate e.

Definition explain_wrap (sql : string) : string := ("EXPLAIN " +:+ sql)%string.

(** ** Reading the plan line *)

Definition is_digit (b : byte) : bool := (48 <=? Z_of_byte b) && (Z_of_byte b <=? 57).

(** The text after the first occurrence of a pattern: [line.find(p)], then the slice. *)
Fixpoint after_first (p l : list byte) : option (list byte) :=
  if Text.starts_with p l then Some (drop (length p) l)
  else match l with [] => None | _ :: l => after_first p l end.

(** [take_while]: up to white space or a closing parenthesis. *)
Fixpoint cost_token (l : list byte) : list byte :=
  match l with
  | [] => []
  | b :: l' =>
      match Text.strip_ws l with
      | Some _ => []
      | None => if bool_decide (b = x29) then [] else b :: cost_token l'
      end
  end.

(** The part before the first [..]. *)
Fixpoint before_dots (l : list byte) : list byte :=
  match l with
  | [] => []
  | b :: l' => if Text.starts_with [x2e; x2e] l then [] else b :: before_dots l'
  end.

(** [token.split("..").nth(1)]. *)
Definition second_part (token : list byte) : option (list byte) :=
  match after_first [x2e; x2e] token with Some r => Some (before_dots r) | None => None end.

Fixpoint digits (l : list byte) : list byte * list byte :=
  match l with
  | b :: l' => if is_digit b then let '(ds, r) := digits l' in (b :: ds, r) else ([], l)
  | [] => ([], [])
  end.

Definition digits_val (ds : list byte) : Z := foldl (fun n d => 10 * n + (Z_of_byte d - 48)) 0 ds.

(** [str::parse::<u64>] on a string of digits: an overflow is an error. *)
Definition parse_u64 (ds : list byte) : option Z :=
  let v := digits_val ds in if v <=? u64_max then Some v else None.

(** [m * 10^e], rounded to nearest even. *)
Definition f64_of_decimal (neg : bool) (m e : Z) : f64 :=
  if m =? 0 then S754_zero neg
  else
    let x := if 0 <=? e then f64_of_Z (m * 10 ^ e)
             else SFdiv 53 1024 (S754_finite false (Z.to_pos m) 0) (S754_finite false (Z.to_pos (10 ^ (- e))) 0) in
    if neg then SFopp x else x.

(** The exponent part: absent, or [e] and a signed integer. *)
Definition parse_exponent (l : list byte) : option Z :=
  match l with
  | [] => Some 0
  | x65 :: r | x45 :: r =>
      let '(neg, r) := match r with x2b :: r => (false, r) | x2d :: r => (true, r) | _ => (false, r) end in
      match digits r with
      | (d :: ds, []) => let v := digits_val (d :: ds) in Some (if neg then - v else v)
      | _ => None
      end
  | _ => None
  end.

(** [str::parse::<f64>]: an optional sign, then infinity, NaN or a decimal number. *)
Definition parse_f64 (l : list byte) : option f64 :=
  let '(neg, l) := match l with x2b :: r => (false, r) | x2d :: r => (true, r) | _ => (false, l) end in
  let low := of_bytes (map Text.ascii_lower l) in
  if bool_decide (low = "inf"%string) || bool_decide (low = "infinity"%string) then Some (S754_infinity neg)
  else if bool_decide (low = "nan"%string) then Some S754_nan
  else
    let '(int, r) := digits l in
    let '(frac, r) := match r with x2e :: r => digits r | _ => ([], r) end in
    match int ++ frac with
    | [] => None
    | ds =>
        match parse_exponent r with
        | Some e => Some (f64_of_decimal neg (digits_val ds) (e - Z.of_nat (length frac)))
        | None => None
        end
    end.

Definition parse_total_cost (line : list byte) : option f64 :=
  match after_first (as_bytes "cost=") line with
  | Some after => match second_part (cost_token after) with Some total => parse_f64 total | None => None end
  | None => None
  end.

Definition parse_rows (line : list byte) : option Z :=
  match after_first (as_bytes "rows=") line with
  | Some after =>
      match (digits after).1 with
      | [] => None
      | ds => parse_u64 ds
      end
  | None => None
  end.

Definition parse_plan_estimate (line : list byte) : option PlanEstimate :=
  match parse_total_cost line with
  | Some c => match parse_rows line with Some r => Some (mkEstimate c r) | None => None end
  | None => None
  end.

(** [truncate]: slicing a string inside a character panics ([None]). *)
Definition truncate (l : list byte) (max : nat) : option (list byte) :=
  if decide (length l <= max)%nat then Some l
  else
    match l !! max with
    | Some b => if Wire.continuation b then None else Some (take max l ++ [xe2; x80; xa6])
    | None => None
    end.

Section plan_line.
(** The [Debug] form of a string, whose escapes need the Unicode tables. *)
Context (debug_str : string -> string).

(** [None] is a panic while the refusal is being worded. *)
Definition decide_plan_line (c : ExplainCeiling) (line : list byte) : option EstimateDecision :=
  match parse_plan_estimate line with
  | Some e => Some (decide_estimate c e)
  | None => 
      match truncate line 200 with
      | Some s =>
          Some (FailClosed ("EXPLAIN output could not be parsed into a cost/row estimate (fail-closed): " +:+
                            debug_str (of_bytes s)))
      | None => None
      end
  end.

Lemma explain_within c line e :
  parse_plan_estimate line = Some e -> SFltb (max_cost c) (total_cost e) = false ->
  est_rows e <= ceiling_max_rows c -> decide_plan_line c line = Some (WithinEstimate e).
Proof.
  intros Hp Hc Hr. unfold decide_plan_line, decide_estimate. rewrite Hp, Hc.
  by destruct (Z.ltb_spec (ceiling_max_rows c) (est_rows e)); [lia|].
Qed.

(** The gate never passes what it cannot read: a plan line passes exactly when an
    estimate was read from it, its cost does not compare above the ceiling and its rows
    are at most the row ceiling; a line with no readable estimate is never within. *)
Theorem explain_gate_within_iff (c : ExplainCeiling) (line : list byte) (e : PlanEstimate) :
  decide_plan_line c line = Some (WithinEstimate e) <->
  parse_plan_estimate line = Some e /\ SFltb (max_cost c) (total_cost e) = false /\
  est_rows e <= ceiling_max_rows c.
Proof.
  unfold decide_plan_line, decide_estimate. destruct (parse_plan_estimate line) as [e'|].
  - destruct (SFltb (max_cost c) (total_cost e')) eqn:E1; [naive_solver congruence|].
    destruct (Z.ltb_spec (ceiling_max_rows c) (est_rows e')); [split; [done|]; intros ([= ->] & _ & ?); lia|].
    naive_solver.
  - split; [|naive_solver]. by destruct (truncate line 200).
Qed.

(** A sequential scan of a relation aliased to a name that reads like an estimate. *)
Definition spoofed_line (rest : list byte) : list byte :=
  as_bytes "Seq Scan on big " ++ [x22] ++ as_bytes "cost=0..0 rows=0 " ++ rest.

(** The estimate is read from the first text that looks like one.  A plan node shows
    the relation's alias before its cost, so a query that chooses its alias passes any
    ceiling, whatever the planner's own estimate in the rest of the line. *)
Theorem spoofed_alias_passes_any_ceiling (c : ExplainCeiling) (rest : list byte) :
  SFltb (max_cost c) f64_zero = false -> 0 <= ceiling_max_rows c ->
  decide_plan_line c (spoofed_line rest) = Some (WithinEstimate (mkEstimate f64_zero 0)).
Proof.
  intros Hc Hr. apply explain_within; [|done|done]. reflexivity.
Qed.

(** The refusal of an unreadable plan line can panic: a valid UTF-8 line of more
    than 200 bytes whose two-hundredth byte falls inside a character is sliced there. *)
Theorem unreadable_plan_line_can_panic (c : ExplainCeiling) :
  exists line, Wire.utf8_valid line = true /\ parse_plan_estimate line = None /\ decide_plan_line c line = None.
Proof. exists (repeat x61 199 ++ [xc3; xa9]). done. Qed.

End plan_line.

Lemma spoofed_alias_passes_any_ceiling_witness :
  decide_plan_line id (mkCeiling (f64_of_Z 100) 5) (spoofed_line (as_bytes "(cost=0.00..99999999.00 rows=1000000 width=4)"))
  = Some (WithinEstimate (mkEstimate f64_zero 0)).
Proof. apply (spoofed_alias_passes_any_ceiling id); [reflexivity|simpl; lia]. Defined.

Example parse_sample :
  parse_plan_estimate (as_bytes "Seq Scan on t  (cost=0.00..22.75 rows=1270 width=36)") =
  Some (mkEstimate (f64_mul (f64_of_Z 91) (S754_finite false 4503599627370496 (-54))) 1270).
Proof. vm_compute. reflexivity. Qed.

End Explain.
