(* ===== verification/Scram.v ===== *)
(** * Scram: authentication of the agent over SCRAM-SHA-256

    Models [src/crates/proxy/src/auth.rs], the server side of the handshake.  SHA-256,
    HMAC, PBKDF2 and base64 are the crates' (parameters of the section); the random salt
    and nonce are arguments.  The laws the theorems use are in [CryptoLaws]: HMAC gives
    32 bytes, and base64 decodes what it encoded and writes no comma. *)

From stdpp Require Import pretty.
From S2P Require Import Prelude Text.

Module Scram.
Import Text.

Definition ITERATIONS : Z := 4096.
Definition COMMA : byte := x2c.

Inductive ScramError : Type :=
| ScramMalformed (what : string)
| UnsupportedMechanism
| NonceMismatch
| BadProof
| Base64.

Record ScramVerifier : Type := mkVerifier {
  salt : list byte;
  iterations : Z;
  stored_key : list byte;
  server_key : list byte
}.

Record ScramServer : Type := mkServer {
  verifier : ScramVerifier;
  server_nonce : list byte;
  client_first_bare : option (list byte);
  server_first : option (list byte);
  full_nonce : option (list byte)
}.

(** ** Text of the messages *)

(** The text after the [n]-th comma. *)
Fixpoint after_comma (n : nat) (l : list byte) : option (list byte) :=
  match l with
  | [] => None
  | b :: l =>
      if bool_decide (b = COMMA) then match n with 1%nat => Some l | _ => after_comma (n - 1) l end
      else after_comma n l
  end.

Definition strip_gs2_header (client_first : list byte) : result ScramError (list byte) :=
  match after_comma 2 client_first with
  | Some bare => Ok bare
  | None => Err (ScramMalformed "missing gs2 header")
  end.

(** [split(',')]: the parts between commas, at least one. *)
Fixpoint split_commas (l : list byte) : list (list byte) :=
  match l with
  | [] => [[]]
  | b :: l =>
      if bool_decide (b = COMMA) then [] :: split_commas l
      else match split_commas l with part :: parts => (b :: part) :: parts | [] => [[b]] end
  end.

Fixpoint find_part (prefix : list byte) (parts : list (list byte)) : option (list byte) :=
  match parts with
  | [] => None
  | part :: parts => if starts_with prefix part then Some (drop (length prefix) part) else find_part prefix parts
  end.

Definition field (msg : list byte) (key : byte) : option (list byte) :=
  find_part [key; x3d] (split_commas msg).

(** [ok_or] with the error of a missing attribute. *)
Definition required (what : string) {A} (o : option A) : result ScramError A :=
  match o with Some a => Ok a | None => Err (ScramMalformed what) end.

(** [for i in 0..32 { out[i] = a[i] ^ b[i] }] on slices of that length. *)
Fixpoint xor_bytes (a b : list byte) : list byte :=
  match a, b with
  | x :: a, y :: b => byte_of_Z (Z.lxor (Z_of_byte x) (Z_of_byte y)) :: xor_bytes a b
  | _, _ => []
  end.

Definition text (s : string) : list byte := as_bytes s.

Section scram.
Context (sha256 : list byte -> list byte).
Context (hmac : list byte -> list byte -> list byte).
Context (pbkdf2 : list byte -> list byte -> Z -> list byte).
Context (b64_encode : list byte -> list byte) (b64_decode : list byte -> option (list byte)).

Definition hi (password salt : list byte) (iterations : Z) : list byte := pbkdf2 password salt iterations.

Definition from_password_with_salt (password : string) (salt : list byte) (iterations : Z) : ScramVerifier :=
  let salted := hi (as_bytes password) salt iterations in
  let client_key := hmac salted (text "Client Key") in
  let stored_key := sha256 client_key in
  let server_key := hmac salted (text "Server Key") in
  mkVerifier salt iterations stored_key server_key.

(** The random salt is an argument. *)
Definition from_password (random_salt : list byte) (password : string) : ScramVerifier :=
  from_password_with_salt password random_salt ITERATIONS.

Definition with_server_nonce (v : ScramVerifier) (nonce : list byte) : ScramServer :=
  mkServer v nonce None None None.

(** [ScramServer::new]; the random bytes are an argument. *)
Definition server_new (random_nonce : list byte) (v : ScramVerifier) : ScramServer :=
  with_server_nonce v (b64_encode random_nonce).

Definition handle_client_first (s : ScramServer) (client_first : list byte) :
    result ScramError (ScramServer * list byte) :=
  let? bare := strip_gs2_header client_first in
  let? client_nonce := required "missing r=" (field bare "r"%byte) in
  let full := client_nonce ++ server_nonce s in
  let first :=
    text "r=" ++ full ++ text ",s=" ++ b64_encode (salt (verifier s)) ++
    text ",i=" ++ text (pretty (iterations (verifier s))) in
  Ok (mkServer (verifier s) (server_nonce s) (Some bare) (Some first) (Some full), first).

Definition handle_client_final (s : ScramServer) (client_final : list byte) : result ScramError (list byte) :=
  let? bare := required "client-final before client-first" (client_first_bare s) in
  let? first := required "no server-first" (server_first s) in
  let? expected_nonce := required "no nonce" (full_nonce s) in
  let? channel_binding := required "missing c=" (field client_final "c"%byte) in
  let? final_nonce := required "missing r=" (field client_final "r"%byte) in
  let? proof_b64 := required "missing p=" (field client_final "p"%byte) in
  if negb (bool_decide (final_nonce = expected_nonce)) then Err NonceMismatch
  else
    let client_final_without_proof := text "c=" ++ channel_binding ++ text ",r=" ++ final_nonce in
    let auth_message := bare ++ text "," ++ first ++ text "," ++ client_final_without_proof in
    let client_signature := hmac (stored_key (verifier s)) auth_message in
    match b64_decode proof_b64 with
    | None => Err Base64
    | Some proof =>
        if negb (length proof =? 32)%nat then Err BadProof
        else
          let client_key := xor_bytes proof client_signature in
          if negb (bool_decide (sha256 client_key = stored_key (verifier s))) then Err BadProof
          else Ok (text "v=" ++ b64_encode (hmac (server_key (verifier s)) auth_message))
    end.

(** ** An honest client (RFC 5802), for the theorems *)

Definition bare_of (user nonce : list byte) : list byte := text "n=" ++ user ++ text ",r=" ++ nonce.
Definition client_first_of (user nonce : list byte) : list byte := text "n,," ++ bare_of user nonce.

(** The client's proof for an authentication message, from the password and the salt
    and iteration count the server sent. *)
Definition client_proof (password : string) (salt : list byte) (iters : Z) (auth_message : list byte) : list byte :=
  let salted := hi (as_bytes password) salt iters in
  let client_key := hmac salted (text "Client Key") in
  xor_bytes client_key (hmac (sha256 client_key) auth_message).

Definition auth_message_of (bare first nonce : list byte) : list byte :=
  bare ++ text "," ++ first ++ text "," ++ text "c=biws,r=" ++ nonce.

Definition client_final_of (nonce proof : list byte) : list byte :=
  text "c=biws,r=" ++ nonce ++ text ",p=" ++ b64_encode proof.

(** Both sides in turn: what the server answers the client's second message. *)
Definition handshake (s : ScramServer) (user nonce : list byte) (password : string) : result ScramError (list byte) :=
  let? (s, first) := handle_client_first s (client_first_of user nonce) in
  let full := nonce ++ server_nonce s in
  let v := verifier s in
  handle_client_final s
    (client_final_of full (client_proof password (salt v) (iterations v) (auth_message_of (bare_of user nonce) first full))).

Record CryptoLaws : Prop := mkLaws {
  hmac_length k d : length (hmac k d) = 32%nat;
  b64_roundtrip l : b64_decode (b64_encode l) = Some l;
  b64_no_comma l : COMMA ∉ b64_encode l
}.

(** ** Attributes *)

Lemma split_commas_app a l :
  COMMA ∉ a -> split_commas (a ++ COMMA :: l) = a :: split_commas l.
Proof.
  induction a as [|b a IH]; intros H; cbn [app split_commas].
  - by rewrite bool_decide_eq_true_2.
  - apply not_elem_of_cons in H as [Hb Ha]. rewrite bool_decide_eq_false_2 by congruence. by rewrite IH.
Qed.

Lemma split_commas_none a : COMMA ∉ a -> split_commas a = [a].
Proof.
  induction a as [|b a IH]; intros H; cbn [split_commas]; [done|].
  apply not_elem_of_cons in H as [Hb Ha]. rewrite bool_decide_eq_false_2 by congruence. by rewrite IH.
Qed.

Lemma not_comma_app a b : COMMA ∉ a -> COMMA ∉ b -> COMMA ∉ a ++ b.
Proof. rewrite elem_of_app. tauto. Qed.

Lemma field_of_bare user nonce :
  COMMA ∉ user -> COMMA ∉ nonce -> field (bare_of user nonce) "r"%byte = Some nonce.
Proof.
  intros Hu Hn. unfold field, bare_of.
  change (text "n=" ++ user ++ text ",r=" ++ nonce) with ((text "n=" ++ user) ++ COMMA :: (text "r=" ++ nonce)).
  rewrite split_commas_app by (apply not_comma_app; [by_decide|done]).
  rewrite split_commas_none by (apply not_comma_app; [by_decide|done]). simpl. by rewrite drop_0.
Qed.

Lemma split_client_final nonce proof :
  COMMA ∉ nonce -> COMMA ∉ b64_encode proof ->
  split_commas (client_final_of nonce proof) = [text "c=biws"; text "r=" ++ nonce; text "p=" ++ b64_encode proof].
Proof.
  intros Hn Hp. unfold client_final_of.
  change (text "c=biws,r=" ++ nonce ++ text ",p=" ++ b64_encode proof)
    with (text "c=biws" ++ COMMA :: ((text "r=" ++ nonce) ++ COMMA :: (text "p=" ++ b64_encode proof))).
  rewrite split_commas_app by by_decide.
  rewrite split_commas_app by (apply not_comma_app; [by_decide|done]).
  by rewrite split_commas_none by (apply not_comma_app; [by_decide|done]).
Qed.

(** ** Exclusive or *)

Lemma xor_bytes_length a b : length a = length b -> length (xor_bytes a b) = length a.
Proof. revert b. induction a; intros [|y b]; simpl; intros; simplify_eq; [done|]. by rewrite IHa. Qed.

Lemma lxor_byte_range a b : 0 <= a < 256 -> 0 <= b < 256 -> 0 <= Z.lxor a b < 256.
Proof.
  intros Ha Hb. split; [apply Z.lxor_nonneg; lia|]. change 256 with (2 ^ 8).
  destruct (decide (Z.lxor a b = 0)) as [->|Hne]; [done|].
  apply Z.log2_lt_pow2; [assert (0 <= Z.lxor a b) by (apply Z.lxor_nonneg; lia); lia|].
  eapply Z.le_lt_trans; [apply Z.log2_lxor; lia|].
  apply Z.max_lub_lt;
    match goal with |- Z.log2 ?x < _ => destruct (decide (x = 0)) as [->|]; [done|apply Z.log2_lt_pow2; lia] end.
Qed.

Lemma xor_bytes_cancel a b : length a = length b -> xor_bytes (xor_bytes a b) b = a.
Proof.
  revert b. induction a as [|x a IH]; intros [|y b] H; simpl in *; simplify_eq; [done|].
  f_equal; [|by apply IH].
  pose proof (Z_of_byte_range x). pose proof (Z_of_byte_range y).
  rewrite Z_of_byte_of_Z, Z.mod_small by (by apply lxor_byte_range).
  by rewrite Z.lxor_assoc, Z.lxor_nilpotent, Z.lxor_0_r, byte_of_Z_of_byte.
Qed.

(** ** The handshake *)

Context (laws : CryptoLaws).

Lemma hmac_xor_length ck k d : length (xor_bytes (hmac ck k) (hmac (sha256 (hmac ck k)) d)) = 32%nat.
Proof. rewrite xor_bytes_length; by rewrite !(hmac_length laws). Qed.

(** An agent that knows the configured password is let in: the honest client's
    handshake succeeds for every salt, iteration count and pair of nonces, and the server
    answers with its own signature of the exchange.  The user name the client gives plays
    no part. *)
Theorem password_is_accepted (password : string) (random_salt random_nonce user nonce : list byte) (iters : Z) :
  COMMA ∉ user -> COMMA ∉ nonce ->
  let v := from_password_with_salt password random_salt iters in
  exists auth_message,
    handshake (server_new random_nonce v) user nonce password =
      Ok (text "v=" ++ b64_encode (hmac (server_key v) auth_message)).
Proof.
  intros Hu Hn v. unfold handshake, handle_client_first.
  change (strip_gs2_header (client_first_of user nonce)) with (@Ok ScramError _ (bare_of user nonce)).
  cbn [result_bind]. rewrite (field_of_bare _ _ Hu Hn). cbn [required result_bind server_nonce verifier server_new with_server_nonce].
  set (full := nonce ++ b64_encode random_nonce).
  assert (COMMA ∉ full) as Hf by (apply not_comma_app; [done|apply (b64_no_comma laws)]).
  set (first := text "r=" ++ full ++ _). set (am := auth_message_of (bare_of user nonce) first full).
  exists am. unfold handle_client_final. cbn [required result_bind client_first_bare server_first full_nonce verifier].
  set (proof := client_proof _ _ _ _).
  unfold field. rewrite (split_client_final _ _ Hf (b64_no_comma laws proof)).
  cbn [find_part starts_with text as_bytes String.list_byte_of_string]. simpl (required _ _). cbn [result_bind].
  rewrite !drop_0, bool_decide_eq_true_2 by done. cbn [negb].
  rewrite (b64_roundtrip laws).
  change (text "c=" ++ text "biws" ++ text ",r=" ++ full) with (text "c=biws,r=" ++ full).
  change (bare_of user nonce ++ text "," ++ first ++ text "," ++ text "c=biws,r=" ++ full) with am.
  rewrite (hmac_xor_length _ _ _ : length proof = 32%nat). cbn [Nat.eqb negb].
  change (hmac (stored_key v) am) with (hmac (sha256 (hmac (hi (as_bytes password) random_salt iters) (text "Client Key"))) am).
  unfold proof, client_proof. rewrite xor_bytes_cancel by (by rewrite !(hmac_length laws)).
  by rewrite bool_decide_eq_true_2.
Qed.

(** The key the configured password yields, and the key a proof claims for an exchange. *)
Definition client_key_of (password : string) (salt : list byte) (iters : Z) : list byte :=
  hmac (hi (as_bytes password) salt iters) (text "Client Key").
Definition claimed_key (password : string) (salt : list byte) (iters : Z) (auth_message proof : list byte) : list byte :=
  xor_bytes proof (hmac (sha256 (client_key_of password salt iters)) auth_message).

(** Nobody else is let in: when the server accepts a client's second message, that
    message repeats the nonce of this handshake, which ends in the server's own, and its
    proof is the one the configured password yields for this exchange, unless the key it
    claims and the password's collide under SHA-256. *)
Lemma accepted_proof (password : string) (random_salt nonce client_first client_final : list byte)
    (iters : Z) (s : ScramServer) (first final : list byte) :
  handle_client_first (with_server_nonce (from_password_with_salt password random_salt iters) nonce) client_first
    = Ok (s, first) ->
  handle_client_final s client_final = Ok final ->
  exists bare client_nonce binding proof_b64 proof,
    strip_gs2_header client_first = Ok bare /\ field bare "r"%byte = Some client_nonce /\
    first = text "r=" ++ (client_nonce ++ nonce) ++ text ",s=" ++ b64_encode random_salt ++ text ",i=" ++ text (pretty iters) /\
    field client_final "c"%byte = Some binding /\ field client_final "r"%byte = Some (client_nonce ++ nonce) /\
    field client_final "p"%byte = Some proof_b64 /\ b64_decode proof_b64 = Some proof /\ length proof = 32%nat /\
    let auth_message := bare ++ text "," ++ first ++ text "," ++ text "c=" ++ binding ++ text ",r=" ++ client_nonce ++ nonce in
    final = text "v=" ++ b64_encode (hmac (hmac (hi (as_bytes password) random_salt iters) (text "Server Key")) auth_message) /\
    (proof = client_proof password random_salt iters auth_message \/
     (claimed_key password random_salt iters auth_message proof <> client_key_of password random_salt iters /\
      sha256 (claimed_key password random_salt iters auth_message proof) = sha256 (client_key_of password random_salt iters))).
Proof.
  unfold handle_client_first. intros H1 H2.
  destruct (strip_gs2_header client_first) as [bare|] eqn:Eb; [|done]. cbn [result_bind] in H1.
  destruct (field bare "r"%byte) as [cn|] eqn:Ecn; [|done]. cbn [required result_bind] in H1.
  injection H1 as <- <-. revert H2. unfold handle_client_final.
  cbn [required result_bind client_first_bare server_first full_nonce verifier with_server_nonce server_nonce].
  destruct (field client_final "c"%byte) as [cb|] eqn:Ec; [|done]. cbn [required result_bind].
  destruct (field client_final "r"%byte) as [fn|] eqn:Er; [|done]. cbn [required result_bind].
  destruct (field client_final "p"%byte) as [pb|] eqn:Ep; [|done]. cbn [required result_bind].
  case_bool_decide as Efn; [|done]. cbn [negb]. subst fn.
  destruct (b64_decode pb) as [proof|] eqn:Ed; [|done].
  destruct (Nat.eqb_spec (length proof) 32) as [Hlen|]; [|done]. cbn [negb].
  case_bool_decide as Ek; [|done]. intros [= <-].
  exists bare, cn, cb, pb, proof. do 8 (split; [done|]). cbv zeta. split; [done|].
  unfold claimed_key, client_key_of. set (am := bare ++ _) in *. cbn [stored_key from_password_with_salt] in Ek.
  set (ck := hmac (hi (as_bytes password) random_salt iters) (text "Client Key")) in *.
  destruct (decide (xor_bytes proof (hmac (sha256 ck) am) = ck)) as [E|E]; [left|by right].
  unfold client_proof. fold ck. rewrite <- E at 1. rewrite xor_bytes_cancel; [done|].
  by rewrite (hmac_length laws).
Qed.
End scram.

(** ** Concrete functions that satisfy the laws *)

Definition toy_sha256 (l : list byte) : list byte := take 32 (x01 :: l ++ repeat x00 32).
Definition toy_hmac (k d : list byte) : list byte := take 32 (rev d ++ k ++ repeat x00 32).
Definition toy_pbkdf2 (password salt : list byte) (n : Z) : list byte := password ++ salt ++ be_bytes 4 n.
Definition nibble (n : Z) : byte := byte_of_Z (97 + n).
Definition toy_encode (l : list byte) : list byte :=
  flat_map (fun b => [nibble (Z_of_byte b / 16); nibble (Z_of_byte b mod 16)]) l.
Fixpoint toy_decode (l : list byte) : option (list byte) :=
  match l with
  | [] => Some []
  | a :: b :: l =>
      match toy_decode l with
      | Some r => Some (byte_of_Z (16 * (Z_of_byte a - 97) + (Z_of_byte b - 97)) :: r)
      | None => None
      end
  | [_] => None
  end.

Lemma toy_laws : CryptoLaws toy_hmac toy_encode toy_decode.
Proof.
  split.
  - intros k d. unfold toy_hmac. rewrite length_take, !length_app, repeat_length. lia.
  - induction l as [|b l IH]; [done|]. cbn [toy_encode flat_map app toy_decode]. fold (toy_encode l).
    rewrite IH. by destruct b.
  - induction l as [|b l IH]; [by_decide|]. cbn [toy_encode flat_map app]. fold (toy_encode l).
    rewrite !not_elem_of_cons. split; [by destruct b|]. split; [by destruct b|done].
Qed.

Lemma password_is_accepted_witness :
  let v := from_password_with_salt toy_sha256 toy_hmac toy_pbkdf2 "secret" [x07; x08] 4096 in
  exists auth_message,
    handshake toy_sha256 toy_hmac toy_pbkdf2 toy_encode toy_decode (server_new toy_encode [x05] v)
      (text "nobody") (text "cn") "secret" =
    Ok (text "v=" ++ toy_encode (toy_hmac (server_key v) auth_message)).
Proof.
  apply (password_is_accepted toy_sha256 toy_hmac toy_pbkdf2 toy_encode toy_decode toy_laws); by_decide.
Defined.

End Scram.
