(* ===== verification/SharedSink.v ===== *)
(** * SharedSink: one sink behind a lock, held by several components

    Models the [SharedSink] of [src/crates/audit/src/sink.rs].  The value of the model is
    what the [Arc] points to, the mutex with the sink in it: a clone of the handle, and
    the handle [arc] gives out, name the same value.  When the sink panics and what it is
    then left in are parameters; a caller that panics unwinds, so it has no result, and
    the mutex is poisoned.  [step] interleaves any number of holders: each waits for the
    lock, reads the sink and finishes with the handle's own call ([call_held], which is
    [shared_append], [shared_load_chain] or [shared_load_chain_mut]); the sequential
    meaning is [replay]. *)

From S2P Require Import Prelude AuditChain AuditSink.

Module SharedSink.
Import AuditChain AuditSink.

Inductive Call : Type :=
| CallAppend (entry : NewEntry) (timestamp_ms : Z)
| CallLoadChain
| CallLoadChainMut.

Inductive Answer : Type :=
| Appended (r : result SinkError AuditRecord)
| Loaded (r : result SinkError (list AuditRecord))
| Unwound.

(** The calls of a history, their answers, and the records its appends returned. *)
Abbreviation calls h := (map (fun x : nat * Call * Answer => x.1.2) h).
Abbreviation answers h := (map (fun x : nat * Call * Answer => x.2) h).
Abbreviation appended h :=
  (omap (fun x : nat * Call * Answer => match x.2 with Appended (Ok r) => Some r | _ => None end) h).

Record SharedSink (S : Type) : Type := mkShared { inner : S; poisoned : bool }.
Arguments mkShared {S}.
Arguments inner {S}.
Arguments poisoned {S}.

Definition shared_new {S} (sink : S) : SharedSink S := mkShared sink false.
Definition from_arc {S} (inner : SharedSink S) : SharedSink S := inner.
Definition arc {S} (m : SharedSink S) : SharedSink S := m.

Definition poison_error : SinkError := Backend "shared audit sink mutex poisoned".

Section shared.
Context {S : Type} `{!Sink S} (panics : S -> Call -> bool) (wreck : S -> Call -> S).

Definition with_lock {A} (m : SharedSink S) (c : Call) (body : S -> S * result SinkError A) :
    SharedSink S * option (result SinkError A) :=
  if poisoned m then (m, Some (Err poison_error))
  else if panics (inner m) c then (mkShared (wreck (inner m) c) true, None)
  else let '(s, r) := body (inner m) in (mkShared s false, Some r).

Definition shared_append (m : SharedSink S) (e : NewEntry) (ts : Z) : SharedSink S * option (result SinkError AuditRecord) :=
  with_lock m (CallAppend e ts) (fun s => sink_append s e ts).
Definition shared_load_chain (m : SharedSink S) : SharedSink S * option (result SinkError (list AuditRecord)) :=
  with_lock m CallLoadChain (fun s => (s, load_chain s)).
Definition shared_load_chain_mut (m : SharedSink S) : SharedSink S * option (result SinkError (list AuditRecord)) :=
  with_lock m CallLoadChainMut (fun s => (s, load_chain_mut s)).

(** The result of a call that returned; a panicking one has none, and the value given
    here is not reached over a sink that does not panic. *)
Definition returned {A} (o : option (result SinkError A)) : result SinkError A :=
  default (Err poison_error) o.

#[global] Instance SharedSink_sink : Sink (SharedSink S) := {|
  sink_append m e ts := let '(m, r) := shared_append m e ts in (m, returned r);
  load_chain m := returned (shared_load_chain m).2;
  load_chain_mut m := returned (shared_load_chain_mut m).2
|}.

(** Over a sink that does not panic the handle keeps what the sink promises. *)
#[global, refine] Instance SharedSink_laws canonical sha256_hex `{!SinkLaws canonical sha256_hex S}
    (Hcalm : forall s c, panics s c = false) : SinkLaws canonical sha256_hex (SharedSink S) := {|
  sink_ok m := poisoned m = false /\ sink_ok canonical sha256_hex (inner m);
  appendable := appendable canonical sha256_hex (S := S)
|}.
Proof.
  - intros m [Hp Hok]. destruct (sink_reads _ _ _ Hok) as (rs & Hr & Hc). exists rs. split; [|done].
    simpl. unfold shared_load_chain_mut, with_lock. by rewrite Hp, Hcalm.
  - intros m e ts m' r [Hp Hok] Ha. simpl. unfold shared_append, shared_load_chain_mut, with_lock. rewrite Hp, ?Hcalm.
    destruct (sink_append _ _ _) as [s' r'] eqn:Es. intros [= <- ->]. simpl. rewrite ?Hp, ?Hcalm. simpl.
    destruct (append_extends _ _ _ _ _ _ _ Hok Ha Es) as (? & ?). done.
  - intros m e ts m' err [Hp Hok]. simpl. unfold shared_append, shared_load_chain_mut, with_lock. rewrite Hp, ?Hcalm.
    destruct (sink_append _ _ _) as [s' r'] eqn:Es. intros [= <- ->]. simpl. rewrite ?Hp, ?Hcalm. simpl.
    destruct (append_fails _ _ _ _ _ _ _ Hok Es) as (? & ?). done.
Defined.

(** ** The calls of one holder after another *)

Definition serve (s : S) (c : Call) : S * Answer :=
  match c with
  | CallAppend e ts => let '(s, r) := sink_append s e ts in (s, Appended r)
  | CallLoadChain => (s, Loaded (load_chain s))
  | CallLoadChainMut => (s, Loaded (load_chain_mut s))
  end.

Definition refusal (c : Call) : Answer :=
  match c with CallAppend _ _ => Appended (Err poison_error) | _ => Loaded (Err poison_error) end.

Definition call_held (m : SharedSink S) (c : Call) : SharedSink S * Answer :=
  match c with
  | CallAppend e ts => let '(m, r) := shared_append m e ts in (m, from_option Appended Unwound r)
  | CallLoadChain => let '(m, r) := shared_load_chain m in (m, from_option Loaded Unwound r)
  | CallLoadChainMut => let '(m, r) := shared_load_chain_mut m in (m, from_option Loaded Unwound r)
  end.

Lemma call_is m c :
  call_held m c = if poisoned m then (m, refusal c)
             else if panics (inner m) c then (mkShared (wreck (inner m) c) true, Unwound)
             else (mkShared (serve (inner m) c).1 false, (serve (inner m) c).2).
Proof.
  destruct c; simpl; unfold shared_append, shared_load_chain, shared_load_chain_mut, with_lock;
    (destruct (poisoned m); [done|]); (destruct (panics (inner m) _); [done|]); [|done..]. by destruct (sink_append _ _ _).
Qed.

Fixpoint replay (m : SharedSink S) (cs : list Call) : SharedSink S * list Answer :=
  match cs with
  | [] => (m, [])
  | c :: cs => let '(m, a) := call_held m c in let '(m, answers) := replay m cs in (m, a :: answers)
  end.

Lemma replay_snoc m cs c :
  replay m (cs ++ [c]) =
  let '(m1, answers) := replay m cs in let '(m2, a) := call_held m1 c in (m2, answers ++ [a]).
Proof.
  revert m. induction cs as [|d cs IH]; intros m; simpl.
  - by destruct (call_held m c).
  - destruct (call_held m d) as [m1 a]. rewrite IH. destruct (replay m1 cs) as [m2 answers]. by destruct (call_held m2 c).
Qed.

(** ** Holders side by side

    A holder finishes with the call of the handle on the sink it read under the lock; on a
    poisoned mutex with the same call on that. *)

(** Where a holder is: out of the code, waiting for the lock, past the poison check, or
    at work on the sink it read. *)
Inductive Pc : Type :=
| Out
| Wants (c : Call)
| Holds (c : Call)
| Working (c : Call) (s : S).

Record World : Type := mkWorld {
  cell : SharedSink S;
  holder : option nat;
  pc : nat -> Pc;
  history : list (nat * Call * Answer)
}.

Definition start (s : S) : World := mkWorld (shared_new s) None (fun _ => Out) [].

Definition move (w : World) (p : nat) (at_ : Pc) (lock : option nat) : World :=
  mkWorld (cell w) lock (fun q => if decide (q = p) then at_ else pc w q) (history w).
Definition leave (w : World) (p : nat) (m : SharedSink S) (lock : option nat) (c : Call) (a : Answer) : World :=
  mkWorld m lock (fun q => if decide (q = p) then Out else pc w q) (history w ++ [(p, c, a)]).

Inductive step (w : World) : World -> Prop :=
| step_call p c : pc w p = Out -> step w (move w p (Wants c) (holder w))
| step_refused p c :
    pc w p = Wants c -> holder w = None -> poisoned (cell w) = true ->
    step w (leave w p (call_held (cell w) c).1 None c (call_held (cell w) c).2)
| step_acquire p c :
    pc w p = Wants c -> holder w = None -> poisoned (cell w) = false ->
    step w (move w p (Holds c) (Some p))
| step_read p c :
    pc w p = Holds c -> step w (move w p (Working c (inner (cell w))) (holder w))
| step_finish p c s :
    pc w p = Working c s ->
    step w (leave w p (call_held (mkShared s false) c).1 None c (call_held (mkShared s false) c).2).

Definition inside (k : Pc) : bool := match k with Holds _ | Working _ _ => true | _ => false end.

Definition world_ok (s0 : S) (w : World) : Prop :=
  (forall p, inside (pc w p) = true -> holder w = Some p /\ poisoned (cell w) = false) /\
  (forall p c s, pc w p = Working c s -> s = inner (cell w)) /\
  replay (shared_new s0) (calls (history w)) = (cell w, answers (history w)).

Lemma leave_replays s0 w p m lock c a :
  world_ok s0 w -> call_held (cell w) c = (m, a) ->
  replay (shared_new s0) (calls (history (leave w p m lock c a))) = (m, answers (history (leave w p m lock c a))).
Proof. intros (_ & _ & Hr) Hc. simpl. rewrite !map_app. cbn [map fst snd]. rewrite replay_snoc, Hr. by rewrite Hc. Qed.

(** A holder inside is the only one, so a step that lets it out leaves nobody inside. *)
Lemma nobody_inside s0 w p q :
  world_ok s0 w -> inside (pc w p) = true -> inside (if decide (q = p) then Out else pc w q) = true -> False.
Proof.
  intros (Hl & _) Hp. case_decide; [done|]. intros Hq. destruct (Hl _ Hp), (Hl _ Hq). congruence.
Qed.

Lemma leave_ok s0 w p m c a :
  world_ok s0 w -> inside (pc w p) = true -> call_held (cell w) c = (m, a) -> world_ok s0 (leave w p m None c a).
Proof.
  intros Hok Hp Hc. split; [|split; [|by eapply leave_replays]]; simpl.
  - intros q Hq. by destruct (nobody_inside s0 w p q).
  - intros q d s Hq. destruct (nobody_inside s0 w p q); [done..|by rewrite Hq].
Qed.

Lemma step_keeps_shared s0 w w' : world_ok s0 w -> step w w' -> world_ok s0 w'.
Proof.
  intros Hok Hs. destruct (Hok) as (Hl & Hw & Hr).
  destruct Hs as [p c Hp|p c Hp Hh Hpo|p c Hp Hh Hpo|p c Hp|p c s Hp].
  - split; [|split; [|done]]; intros q; simpl; case_decide; subst; naive_solver.
  - assert (call_held (cell w) c = (cell w, refusal c)) as Hc by (rewrite call_is; by rewrite Hpo). rewrite Hc. simpl.
    split; [|split; [|by eapply leave_replays]]; intros q; simpl; case_decide; try done; intros.
    + destruct (Hl q); congruence.
    + by eapply Hw.
  - split; [|split; [|done]]; intros q; simpl; case_decide; subst; try done.
    + intros Hq. destruct (Hl _ Hq). congruence.
    + by apply Hw.
  - destruct (Hl p) as [Hh Hpo]; [by rewrite Hp|].
    split; [|split; [|done]]; intros q; simpl; case_decide; subst; try done; [by apply Hl|naive_solver|by apply Hw].
  - destruct (Hl p) as [Hh Hpo]; [by rewrite Hp|]. rewrite (Hw _ _ _ Hp) in *.
    apply leave_ok; [done|by rewrite Hp|]. rewrite <- surjective_pairing. destruct (cell w) as [s' po]. simpl in *. by subst po.
Qed.

Lemma reachable_ok s0 w : rtc step (start s0) w -> world_ok s0 w.
Proof.
  apply (rtc_ind_r (world_ok s0)); [done|]. intros v w' _ Hs Hok. by eapply step_keeps_shared.
Qed.

(** ** What the holders see *)

Context (canonical : AuditPayload -> list byte) (sha256_hex : list byte -> string) `{!SinkLaws canonical sha256_hex S}.

Definition call_ok (c : Call) : Prop :=
  match c with CallAppend e ts => appendable canonical sha256_hex (S := S) e ts | _ => True end.

(** A call that is served keeps the sink lawful and adds the record it answers, if any. *)
Lemma serve_extends s c s' a rs p :
  sink_ok canonical sha256_hex s -> call_ok c -> load_chain_mut s = Ok rs -> serve s c = (s', a) ->
  sink_ok canonical sha256_hex s' /\ load_chain_mut s' = Ok (rs ++ appended [(p, c, a)]).
Proof.
  intros Hok Hc Hl. destruct c as [e ts| |]; simpl; [|intros [= <- <-]; by rewrite app_nil_r..].
  destruct (sink_append s e ts) as [s1 [r|err]] eqn:Es; intros [= <- <-].
  - destruct (append_extends _ _ _ _ _ _ _ Hok Hc Es) as (Hok' & _ & rs' & Hl' & Hl'' & _).
    split; [done|]. simpl. congruence.
  - destruct (append_fails _ _ _ _ _ _ _ Hok Es) as (Hok' & Hl'). split; [done|]. simpl. by rewrite app_nil_r, Hl'.
Qed.

(** The calls of a history, one after another, up to any point that no panic preceded. *)
Lemma replayed_chain s0 rs h m :
  sink_ok canonical sha256_hex s0 -> load_chain_mut s0 = Ok rs -> Forall call_ok (calls h) ->
  replay (shared_new s0) (calls h) = (m, answers h) -> poisoned m = false ->
  sink_ok canonical sha256_hex (inner m) /\ load_chain_mut (inner m) = Ok (rs ++ appended h).
Proof.
  intros Hok Hl. revert m. induction h as [|[[p c] a] h IH] using rev_ind; intros m.
  - intros _ [= <-] _. by rewrite app_nil_r.
  - rewrite !map_app. cbn [map fst snd]. rewrite Forall_app, Forall_singleton, replay_snoc. intros [Hh Hc].
    destruct (replay (shared_new s0) (calls h)) as [m1 as1]. rewrite call_is.
    destruct (poisoned m1) eqn:Hp1; [intros [= <- _]; congruence|].
    destruct (panics (inner m1) c); [by intros [= <- _]|].
    intros [= <- [-> Ha]%app_inj_tail] _. destruct (IH m1 Hh eq_refl Hp1) as [Hok1 Hl1].
    destruct (serve_extends (inner m1) c (serve (inner m1) c).1 a _ p Hok1 Hc Hl1) as [Hok2 Hl2].
    { rewrite <- Ha. apply surjective_pairing. }
    split; [done|]. cbn [inner]. by rewrite Hl2, omap_app, app_assoc.
Qed.

Lemma replay_app m cs ds :
  replay m (cs ++ ds) =
  let '(m1, answers1) := replay m cs in let '(m2, answers2) := replay m1 ds in (m2, answers1 ++ answers2).
Proof.
  revert m. induction cs as [|c cs IH]; intros m; simpl; [by destruct (replay m ds)|].
  destruct (call_held m c) as [m1 a]. rewrite IH. destruct (replay m1 cs) as [m2 as1]. by destruct (replay m2 ds).
Qed.

Lemma replay_length m cs : length (replay m cs).2 = length cs.
Proof.
  revert m. induction cs as [|c cs IH]; intros m; simpl; [done|]. destruct (call_held m c) as [m1 a].
  specialize (IH m1). destruct (replay m1 cs). simpl in *. by rewrite IH.
Qed.

Lemma replay_poisoned m cs : poisoned m = true -> replay m cs = (m, map refusal cs).
Proof.
  intros Hp. induction cs as [|c cs IH]; simpl; [done|]. by rewrite call_is, Hp, IH.
Qed.

(** The point of a history at which a call was made. *)
Lemma replay_point m0 h1 p c a h2 m :
  replay m0 (calls (h1 ++ (p, c, a) :: h2)) = (m, answers (h1 ++ (p, c, a) :: h2)) ->
  exists m1 m2, replay m0 (calls h1) = (m1, answers h1) /\ call_held m1 c = (m2, a) /\
                replay m2 (calls h2) = (m, answers h2).
Proof.
  rewrite !map_app, replay_app. pose proof (replay_length m0 (calls h1)) as Hlen.
  destruct (replay m0 (calls h1)) as [m1 as1]. cbn [map fst snd replay] in *.
  destruct (call_held m1 c) as [m2 a'] eqn:Ec. destruct (replay m2 (calls h2)) as [m3 as2] eqn:E2.
  intros [= -> [-> [= -> ->]]%app_inj_1]; [by exists m1, m2|]. by rewrite Hlen, !length_map.
Qed.

(** A holder that finds the lock free gets its call through. *)
Lemma whole_call w p c :
  (forall q, pc w q = Out) -> holder w = None -> poisoned (cell w) = false -> panics (inner (cell w)) c = false ->
  exists w', rtc step w w' /\ history w' = history w ++ [(p, c, (serve (inner (cell w)) c).2)] /\
    cell w' = mkShared (serve (inner (cell w)) c).1 false /\ holder w' = None /\ (forall q, pc w' q = Out).
Proof.
  intros Hout Hh Hp Hn. eexists. split.
  - eapply rtc_l; [apply (step_call _ p c), Hout|].
    eapply rtc_l; [apply (step_acquire _ p c); simpl; [by rewrite decide_True|done..]|].
    eapply rtc_l; [apply (step_read _ p c); simpl; by rewrite decide_True|].
    eapply rtc_l; [apply (step_finish _ p c (inner (cell w))); simpl; by rewrite decide_True|]. apply rtc_refl.
  - rewrite call_is. simpl. rewrite Hn. simpl. do 3 (split; [done|]). intros q. by repeat case_decide.
Qed.
End shared.

(** ** Properties *)


End SharedSink.
