(* ===== verification/ThreadedSink.v ===== *)
(** * ThreadedSink: the audit sink on a thread of its own

    Models [src/crates/proxy/src/threaded_sink.rs].  The thread owns the sink and serves one
    command at a time; the caller blocks on the reply, so a call is one exchange.  A thread
    that has ended (its client panicked) answers nothing: the state is then [None].  When
    the thread panics is a parameter. *)

From S2P Require Import Prelude AuditChain AuditSink.

Module ThreadedSink.
Import AuditChain AuditSink.

Inductive Cmd : Type :=
| CmdAppend (entry : NewEntry) (timestamp_ms : Z)
| CmdLoadChain.

Record ThreadedSink (S : Type) : Type := mkThreaded { thread : option S }.
Arguments mkThreaded {S}.
Arguments thread {S}.

Section threaded.
Context {S : Type} `{!Sink S} (panics : S -> Cmd -> bool).

Definition threaded_connect (client : result string S) : result SinkError (ThreadedSink S) :=
  match client with
  | Ok s => Ok (mkThreaded (Some s))
  | Err e => Err (Backend e)
  end.

(** One turn of the thread's loop, and what the caller receives. *)
Definition exchange_with {A} (t : ThreadedSink S) (c : Cmd) (serve : S -> S * result SinkError A) :
    ThreadedSink S * result SinkError A :=
  match thread t with
  | None => (t, Err (Backend "audit thread is gone"))
  | Some s =>
      if panics s c then (mkThreaded None, Err (Backend "audit thread dropped the reply"))
      else let '(s', r) := serve s in (mkThreaded (Some s'), r)
  end.

Definition threaded_append (t : ThreadedSink S) (e : NewEntry) (ts : Z) : ThreadedSink S * result SinkError AuditRecord :=
  exchange_with t (CmdAppend e ts) (fun s => sink_append s e ts).
Definition threaded_load_chain (t : ThreadedSink S) : result SinkError (list AuditRecord) :=
  (exchange_with t CmdLoadChain (fun s => (s, load_chain_mut s))).2.

#[global] Instance ThreadedSink_sink : Sink (ThreadedSink S) := {|
  sink_append := threaded_append;
  load_chain := threaded_load_chain;
  load_chain_mut := threaded_load_chain
|}.

(** A thread that does not panic is as good a sink as the one it owns. *)
#[global, refine] Instance ThreadedSink_laws canonical sha256_hex `{!SinkLaws canonical sha256_hex S}
    (Hcalm : forall s c, panics s c = false) : SinkLaws canonical sha256_hex (ThreadedSink S) := {|
  sink_ok t := exists s, thread t = Some s /\ sink_ok canonical sha256_hex s;
  appendable := appendable canonical sha256_hex (S := S)
|}.
Proof.
  - intros t (s & Ht & Hok). destruct (sink_reads _ _ s Hok) as (rs & Hr & Hc). exists rs. split; [|done].
    simpl. unfold threaded_load_chain, exchange_with. by rewrite Ht, Hcalm.
  - intros t e ts t' r (s & Ht & Hok) Ha. simpl. unfold threaded_append, threaded_load_chain, exchange_with. rewrite Ht, Hcalm.
    destruct (sink_append s e ts) as [s' r'] eqn:Es. intros [= <- ->]. simpl. rewrite !Hcalm.
    destruct (append_extends _ _ _ _ _ _ _ Hok Ha Es) as (Hok' & Hr). split; [eauto|done].
  - intros t e ts t' err (s & Ht & Hok). simpl. unfold threaded_append, threaded_load_chain, exchange_with. rewrite Ht, Hcalm.
    destruct (sink_append s e ts) as [s' r'] eqn:Es. intros [= <- ->]. simpl. rewrite !Hcalm.
    destruct (append_fails _ _ _ _ _ _ _ Hok Es) as (Hok' & Hr). split; [eauto|done].
Defined.

(** After a panic nothing is recorded any more and every call is told so. *)
Theorem panicked_thread_refuses (t : ThreadedSink S) (e : NewEntry) (ts : Z) (es : list (NewEntry * Z)) :
  (exists s, thread t = Some s /\ panics s (CmdAppend e ts) = true) ->
  (sink_append t e ts).2 = Err (Backend "audit thread dropped the reply") /\
  let gone := (sink_append t e ts).1 in
  load_chain_mut gone = Err (Backend "audit thread is gone") /\
  Forall (fun x => sink_append gone x.1 x.2 = (gone, Err (Backend "audit thread is gone"))) es.
Proof.
  intros (s & Ht & Hp). simpl. unfold threaded_append, threaded_load_chain, exchange_with. rewrite Ht, Hp. simpl.
  split; [done|]. split; [done|]. apply Forall_true. done.
Qed.
End threaded.
End ThreadedSink.
