(* ===== verification/ProxySession.v ===== *)
(** * ProxySession: one agent connection, from start-up to the enforced query loop

    Models [src/crates/proxy/src/session.rs], [recorder.rs] and the posture checks of
    [config.rs].  A session runs in a [World]: the bytes the agent and the backend will
    ever send (both are arbitrary, so every behaviour of either peer is some such list),
    how many writes each socket takes before it fails, the audit sink, the clock, and the
    trace of effects in the order they happen.  [M] is a state-and-error monad over it.
    A loop takes fuel; [NoFuel] is the loop that does not end.

    TLS is a parameter: an acceptor turns the bytes that follow into the decrypted stream,
    or fails.  The SQL parser, the cryptography, the sink and the clock are those of the
    components this one calls.  [tick] is the passage of time between two readings. *)

From Stdlib Require Import SpecFloat.
From stdpp Require Import pretty.
From S2P Require Import Prelude Text Session BlastRadius Config Wire Frontend Backend Classifier.
From S2P Require Import Policy Intent AuditChain AuditSink ProxyGate Scram.

(** ** [config.rs] *)

Module ProxyConfig.
Import RoleConfig.

Record BackendTarget : Type := mkTarget {
  host : string;
  port : Z;
  database : string;
  target_role : string;
  target_password : string
}.

Record TlsConfig : Type := mkTls { cert_pem : string; key_pem : string }.

Record ProxyConfig : Type := mkProxyConfig {
  listen : string;
  tls : option TlsConfig;
  require_tls : bool;
  backend : BackendTarget;
  agent_user : string;
  agent_password : string;
  policy_role : string;
  budget : RoleBudget;
  statement_timeout_ms : Z;
  search_path : string
}.

Inductive ConfigError : Type :=
| UnknownRole (role : string)
| TlsRequiredButUnconfigured.

Definition DEFAULT_SEARCH_PATH : string := of_bytes (as_bytes "pg_catalog, " ++ [x22] ++ as_bytes "public" ++ [x22]).

(** [BTreeMap::get]. *)
Fixpoint role_get (roles : list (string * Config.RolePolicy)) (role : string) : option Config.RolePolicy :=
  match roles with
  | [] => None
  | (name, p) :: roles => if bool_decide (name = role) then Some p else role_get roles role
  end.

Definition budget_for (policy : Config.PolicyConfig) (role : string) : result ConfigError RoleBudget :=
  match role_get (Config.roles policy) role with
  | Some r => Ok (Config.role_budget r)
  | None => Err (UnknownRole role)
  end.

Definition resolve_require_tls (tls_present : bool) (explicit_override : option bool) : bool :=
  default tls_present explicit_override.

Definition validate_tls (c : ProxyConfig) : result ConfigError unit :=
  match require_tls c, tls c with
  | true, None => Err TlsRequiredButUnconfigured
  | _, _ => Ok tt
  end.

End ProxyConfig.

Module ProxySession.
Import ProxyConfig.
Import Session.Clock.
Import BlastRadius Wire AuditChain AuditSink Enforce Explain.
Import RoleConfig(RoleBudget, per_window).

(** ** Formatting and decoding of the Rust standard library *)

(** The rounding of [{:.2}]: to nearest, ties to even, on the exact value. *)
Definition round_half_even (num den : Z) : Z :=
  let q := num / den in
  let r := num mod den in
  if 2 * r <? den then q else if den <? 2 * r then q + 1 else if Z.even q then q else q + 1.

Definition hundredths (n : Z) : string :=
  pretty (n / 100) +:+ "." +:+ pretty (n mod 100 / 10) +:+ pretty (n mod 10).

Definition fmt_2 (x : f64) : string :=
  let sign (s : bool) : string := if s then "-" else "" in
  match x with
  | S754_nan => "NaN"
  | S754_infinity s => sign s +:+ "inf"
  | S754_zero s => sign s +:+ "0.00"
  | S754_finite s m e =>
      let n := if 0 <=? e then Z.pos m * 2 ^ e * 100 else round_half_even (100 * Z.pos m) (2 ^ (- e)) in
      sign s +:+ hundredths n
  end.

Definition REPLACEMENT : list byte := [xef; xbf; xbd].

(** [String::from_utf8_lossy]: every maximal invalid prefix becomes U+FFFD. *)
Fixpoint from_utf8_lossy (l : list byte) : list byte :=
  match l with
  | [] => []
  | b0 :: l1 =>
      if Z_of_byte b0 <=? 127 then b0 :: from_utf8_lossy l1
      else if between 194 223 b0 then
        match l1 with
        | b1 :: l2 => if continuation b1 then b0 :: b1 :: from_utf8_lossy l2 else REPLACEMENT ++ from_utf8_lossy l1
        | [] => REPLACEMENT
        end
      else if between 224 239 b0 then
        match l1 with
        | b1 :: l2 =>
            if second_of_three b0 b1 then
              match l2 with
              | b2 :: l3 =>
                  if continuation b2 then b0 :: b1 :: b2 :: from_utf8_lossy l3 else REPLACEMENT ++ from_utf8_lossy l2
              | [] => REPLACEMENT
              end
            else REPLACEMENT ++ from_utf8_lossy l1
        | [] => REPLACEMENT
        end
      else if between 240 244 b0 then
        match l1 with
        | b1 :: l2 =>
            if second_of_four b0 b1 then
              match l2 with
              | b2 :: l3 =>
                  if continuation b2 then
                    match l3 with
                    | b3 :: l4 =>
                        if continuation b3 then b0 :: b1 :: b2 :: b3 :: from_utf8_lossy l4
                        else REPLACEMENT ++ from_utf8_lossy l3
                    | [] => REPLACEMENT
                    end
                  else REPLACEMENT ++ from_utf8_lossy l2
              | [] => REPLACEMENT
              end
            else REPLACEMENT ++ from_utf8_lossy l1
        | [] => REPLACEMENT
        end
      else REPLACEMENT ++ from_utf8_lossy l1
  end.

(** [ProtocolError]'s [Display]. *)
Definition protocol_error_display (e : ProtocolError) : string :=
  match e with
  | Io => "io error: early eof"
  | InvalidLength len => "invalid frame length: " +:+ pretty len
  | Malformed what => "malformed message body: " +:+ what
  | UnterminatedCString => "unterminated cstring"
  | InvalidUtf8 => "invalid utf-8 in protocol string"
  | UnknownTag t => "unknown message tag: " +:+ pretty (Z_of_byte t)
  end.

(** ** Errors, effects and the state of a session *)

(** Why [Recorder::record] failed; the source keeps the text of it. *)
Inductive AuditFailure : Type := MutexPoisoned | SinkFailed (e : SinkError).

Inductive SessionError : Type :=
| SIo
| SProtocol (e : ProtocolError)
| SAuth (e : Scram.ScramError)
| SHandshake (what : string)
| SAudit (e : AuditFailure)
| SBackend (what : string).

(** How a computation stops short: an error of the session, a panic of its task, or a
    loop that does not end. *)
Inductive Stop : Type := Failed (e : SessionError) | Panicked | NoFuel.

Inductive Event : Type :=
| ToAgent (encrypted : bool) (bytes : list byte)
| ToBackend (bytes : list byte)
| Audited (e : NewEntry) (ts : Z)
| ClockRead (monotonic : Z)
| BackendShutdown.

Section session.
Context {K : Type} `{Sink K} {C : Type} `{Clock C} (tick : C -> C).

Record World : Type := mkWorld {
  agent_in : list byte;
  backend_in : list byte;
  agent_room : nat;
  backend_room : nat;
  backend_reachable : bool;
  encrypted : bool;
  sink : K;
  poisoned : bool;
  clock : C;
  trace : list Event
}.

Definition emit (w : World) (e : Event) : World :=
  mkWorld (agent_in w) (backend_in w) (agent_room w) (backend_room w) (backend_reachable w) (encrypted w)
    (sink w) (poisoned w) (clock w) (trace w ++ [e]).
Definition set_agent_in (w : World) (l : list byte) : World :=
  mkWorld l (backend_in w) (agent_room w) (backend_room w) (backend_reachable w) (encrypted w)
    (sink w) (poisoned w) (clock w) (trace w).
Definition set_backend_in (w : World) (l : list byte) : World :=
  mkWorld (agent_in w) l (agent_room w) (backend_room w) (backend_reachable w) (encrypted w)
    (sink w) (poisoned w) (clock w) (trace w).
Definition set_rooms (w : World) (a b : nat) : World :=
  mkWorld (agent_in w) (backend_in w) a b (backend_reachable w) (encrypted w)
    (sink w) (poisoned w) (clock w) (trace w).
Definition set_encrypted (w : World) (l : list byte) : World :=
  mkWorld l (backend_in w) (agent_room w) (backend_room w) (backend_reachable w) true
    (sink w) (poisoned w) (clock w) (trace w).
Definition set_clock (w : World) (c : C) : World :=
  mkWorld (agent_in w) (backend_in w) (agent_room w) (backend_room w) (backend_reachable w) (encrypted w)
    (sink w) (poisoned w) c (trace w).
Definition set_sink (w : World) (s : K) : World :=
  mkWorld (agent_in w) (backend_in w) (agent_room w) (backend_room w) (backend_reachable w) (encrypted w)
    s (poisoned w) (clock w) (trace w).

Definition M (A : Type) : Type := World -> World * result Stop A.
Definition ret {A} (a : A) : M A := fun w => (w, Ok a).
Definition stop {A} (e : Stop) : M A := fun w => (w, Err e).
Definition fail {A} (e : SessionError) : M A := stop (Failed e).
Definition bind {A B} (m : M A) (k : A -> M B) : M B :=
  fun w => match m w with (w, Ok a) => k a w | (w, Err e) => (w, Err e) end.
Notation "'do!' x ':=' m 'in' k" := (bind m (fun x => k))
  (at level 10, x pattern, m at level 100, k at level 200) : rust_scope.

(** [e?] on a pure result, through [From]. *)
Definition try {E A} (conv : E -> SessionError) (r : result E A) : M A :=
  match r with Ok a => ret a | Err e => fail (conv e) end.
Definition ok_or {A} (e : SessionError) (o : option A) : M A :=
  match o with Some a => ret a | None => fail e end.

(** ** Sockets and the clock *)

(** [write_all] and [flush] on the agent's stream. *)
Definition agent_write (bytes : list byte) : M unit := fun w =>
  match agent_room w with
  | O => (w, Err (Failed SIo))
  | S room => (emit (set_rooms w room (backend_room w)) (ToAgent (encrypted w) bytes), Ok tt)
  end.

Definition backend_write (bytes : list byte) : M unit := fun w =>
  match backend_room w with
  | O => (w, Err (Failed SIo))
  | S room => (emit (set_rooms w (agent_room w) room) (ToBackend bytes), Ok tt)
  end.

Definition agent_read : M (option RawFrame) := fun w =>
  match read_tagged_frame (agent_in w) with
  | Ok (f, rest) => (set_agent_in w rest, Ok f)
  | Err e => (w, Err (Failed (SProtocol e)))
  end.

(** A frame of the backend; its end of stream is the given error. *)
Definition backend_read (closed : string) : M RawFrame := fun w =>
  match read_tagged_frame (backend_in w) with
  | Ok (Some f, rest) => (set_backend_in w rest, Ok f)
  | Ok (None, _) => (w, Err (Failed (SBackend closed)))
  | Err e => (w, Err (Failed (SProtocol e)))
  end.

(** [backend.shutdown().await.ok()]. *)
Definition backend_shutdown : M unit := fun w => (emit w BackendShutdown, Ok tt).

Definition read_monotonic : M C := fun w =>
  let c := clock w in (emit (set_clock w (tick c)) (ClockRead (monotonic_millis c)), Ok c).

Definition frame_bytes (f : RawFrame) : list byte := frame_tagged (frame_tag f) (frame_body f).
Definition forward_to_agent (f : RawFrame) : M unit := agent_write (frame_bytes f).
Definition forward_to_backend (f : RawFrame) : M unit := backend_write (frame_bytes f).

(** ** [recorder.rs] *)

Definition entry_of (role session_id statement_text : string) (d : Decision) (code : string) (reason : option string) :
    NewEntry :=
  mkEntry statement_text d code reason (mkPrincipal role (Some session_id) None)
    (Intent.from_statement role statement_text (Some "proxy"%string)) refs_default.

Definition record (role session_id statement_text : string) (d : Decision) (code : string) (reason : option string) :
    M unit := fun w =>
  let e := entry_of role session_id statement_text d code reason in
  let ts := now_unix_millis (clock w) in
  let w := set_clock w (tick (clock w)) in
  if poisoned w then (w, Err (Failed (SAudit MutexPoisoned)))
  else
    match sink_append (sink w) e ts with
    | (s, Ok _) => (emit (set_sink w s) (Audited e ts), Ok tt)
    | (s, Err err) => (set_sink w s, Err (Failed (SAudit (SinkFailed err))))
    end.

Definition allow (role sid sql : string) : M unit := record role sid sql DAllow "ok" None.
Definition block (role sid sql code : string) (reason : option string) : M unit := record role sid sql DBlock code reason.
Definition reject (role sid sql code : string) (reason : option string) : M unit := record role sid sql DReject code reason.

(** ** Messages to the agent *)

Definition diagnostics (severity code message : string) : list (byte * string) :=
  [("S"%byte, severity); ("V"%byte, severity); ("C"%byte, code); ("M"%byte, message)].

Definition error_response (code message : string) : Backend.BackendMessage :=
  Backend.ErrorResponse (diagnostics "ERROR" code message).

Definition agent_send (m : Backend.BackendMessage) : M unit := agent_write (Backend.encode m).

Definition send_error_then_ready (code message : string) : M unit :=
  do! _ := agent_send (error_response code message) in
  agent_send (Backend.ReadyForQuery Backend.Idle).

Definition send_fatal (code message : string) : M unit :=
  agent_send (Backend.ErrorResponse (diagnostics "FATAL" code message)).

Definition diag_field (c : byte) (fields : list (byte * string)) : string :=
  match List.find (fun f => bool_decide (f.1 = c)) fields with Some f => f.2 | None => "?" end.
Definition diag (fields : list (byte * string)) : string :=
  diag_field "M"%byte fields +:+ " (" +:+ diag_field "C"%byte fields +:+ ")".

(** ** Start-up, TLS and authentication of the agent *)

Definition TLS_REQUIRED_PLAINTEXT : string :=
  "TLS is required on the agent endpoint; connect with sslmode=require (a direct cleartext StartupMessage is refused)".
Definition TLS_REQUIRED_UNENCRYPTED : string :=
  "TLS is required on the agent endpoint; this connection is not encrypted — refusing (no cleartext downgrade)".

(** [peek] shows what has arrived without consuming it; [agent_in] is all that ever will. *)
Fixpoint peek_exact (fuel n : nat) : M (list byte) := fun w =>
  match fuel with
  | O => (w, Err NoFuel)
  | S fuel =>
      let got := take n (agent_in w) in
      if (n <=? length got)%nat then (w, Ok got)
      else if (length got =? 0)%nat then (w, Err (Failed (SHandshake "connection closed during startup")))
      else peek_exact fuel n w
  end.

(** The eight bytes of an [SSLRequest]: its length and its code. *)
Definition is_ssl_request (head : list byte) : bool :=
  is_ok (Frontend.ssl_decode_body (drop 4 head)) && (to_signed 32 (be_val (take 4 head)) =? 8).

(** [acceptor.accept(tcp)]: the rest of the stream is read through TLS. *)
Definition tls_upgrade (acceptor : list byte -> option (list byte)) : M unit := fun w =>
  match acceptor (agent_in w) with
  | Some plain => (set_encrypted w plain, Ok tt)
  | None => (w, Err (Failed SIo))
  end.

Definition consume (n : nat) : M unit := fun w => (set_agent_in w (drop n (agent_in w)), Ok tt).

(** The negotiation, once the first eight bytes have been looked at. *)
Definition negotiate (acceptor : option (list byte -> option (list byte))) (require : bool) (head : list byte) : M bool :=
  if is_ssl_request head then
    do! _ := consume 8 in
    match acceptor with
    | Some accept =>
        do! _ := agent_write [x53] in
        do! _ := tls_upgrade accept in
        ret true
    | None =>
        do! _ := agent_write [x4e] in
        if require then fail (SHandshake "require_tls: no TLS acceptor configured; refusing plaintext")
        else ret false
    end
  else if require then
    do! _ := send_fatal "08P01" TLS_REQUIRED_PLAINTEXT in
    fail (SHandshake "require_tls: rejected direct plaintext StartupMessage")
  else ret false.

Definition startup_and_tls (fuel : nat) (acceptor : option (list byte -> option (list byte))) (require : bool) : M bool :=
  do! head := peek_exact fuel 8 in negotiate acceptor require head.

Section agent_auth.
Context (sha256 : list byte -> list byte) (hmac : list byte -> list byte -> list byte).
Context (pbkdf2 : list byte -> list byte -> Z -> list byte).
Context (b64_encode : list byte -> list byte) (b64_decode : list byte -> option (list byte)).

(** A tagged frame of the agent during the handshake: it must be a ['p']. *)
Definition read_p (eof not_p : string) : M (list byte) :=
  do! o := agent_read in
  do! f := ok_or (SHandshake eof) o in
  if bool_decide (frame_tag f = "p"%byte) then ret (frame_body f) else fail (SHandshake not_p).

Definition utf8_or (what : string) (l : list byte) : M (list byte) :=
  if utf8_valid l then ret l else fail (SHandshake what).

Definition authenticate_agent (random_salt random_nonce : list byte) (cfg : ProxyConfig) : M unit :=
  do! _ := agent_send (Backend.AuthenticationSasl ["SCRAM-SHA-256"%string]) in
  do! body := read_p "eof before SASLInitialResponse" "expected SASLInitialResponse 'p'" in
  do! initial := try SProtocol (Frontend.sasl_initial_decode_body_from body) in
  if negb (bool_decide (Frontend.mechanism initial = "SCRAM-SHA-256"%string)) then
    do! _ := send_fatal "28000" "unsupported SASL mechanism" in
    fail (SAuth Scram.UnsupportedMechanism)
  else
    do! first := ok_or (SHandshake "empty SASL initial response") (Frontend.initial_response initial) in
    do! first := utf8_or "non-utf8 client-first" first in
    let verifier := Scram.from_password sha256 hmac pbkdf2 random_salt (agent_password cfg) in
    let server := Scram.server_new b64_encode random_nonce verifier in
    do! (server, challenge) := try SAuth (Scram.handle_client_first b64_encode server first) in
    do! _ := agent_send (Backend.AuthenticationSaslContinue challenge) in
    do! body := read_p "eof before SASLResponse" "expected SASLResponse 'p'" in
    do! response := try SProtocol (Frontend.sasl_response_decode_body_from body) in
    do! final := utf8_or "non-utf8 client-final" (Frontend.sasl_data response) in
    match Scram.handle_client_final sha256 hmac b64_encode b64_decode server final with
    | Err e =>
        do! _ := send_fatal "28P01" "password authentication failed" in
        fail (SAuth e)
    | Ok m => agent_send (Backend.AuthenticationSaslFinal m)
    end.
End agent_auth.

Definition finish_agent_startup (backend_server_version : string) : M unit :=
  do! _ := agent_send Backend.AuthenticationOk in
  let raw := if bool_decide (backend_server_version = EmptyString) then "unknown"%string else backend_server_version in
  do! _ := agent_send (Backend.ParameterStatus "server_version" (raw +:+ " (pg_brakes proxy)")) in
  do! _ := agent_send (Backend.ParameterStatus "client_encoding" "UTF8") in
  do! _ := agent_send (Backend.ParameterStatus "DateStyle" "ISO, MDY") in
  do! _ := agent_send (Backend.ParameterStatus "standard_conforming_strings" "on") in
  do! _ := agent_send (Backend.BackendKeyData 0 0) in
  agent_send (Backend.ReadyForQuery Backend.Idle).

(** ** The backend connection *)

Definition MD5_REFUSED : string :=
  "backend requires md5/scram auth; the local-stack boundary uses trust on loopback (MVP). Configure trust or extend backend auth.".

Fixpoint wait_loop (fuel : nat) (target : BackendTarget) (server_version : string) : M string :=
  match fuel with
  | O => stop NoFuel
  | S fuel =>
      do! f := backend_read "backend closed during startup" in
      do! msg := try SProtocol (Backend.decode (frame_tag f) (frame_body f)) in
      match msg with
      | Backend.AuthenticationCleartextPassword =>
          do! _ := backend_write (Frontend.encode (Frontend.PasswordMessage (target_password target))) in
          wait_loop fuel target server_version
      | Backend.AuthenticationMd5Password _ | Backend.AuthenticationSasl _ => fail (SBackend MD5_REFUSED)
      | Backend.ErrorResponse fields => fail (SBackend ("backend rejected startup: " +:+ diag fields))
      | Backend.ParameterStatus name value =>
          wait_loop fuel target (if bool_decide (name = "server_version"%string) then value else server_version)
      | Backend.ReadyForQuery _ => ret server_version
      | _ => wait_loop fuel target server_version
      end
  end.

Definition wait_for_ready (target : BackendTarget) : M string :=
  fun w => wait_loop (S (length (backend_in w))) target EmptyString w.

Definition extended_unit (sql : string) : list Frontend.FrontendMessage :=
  [Frontend.Parse EmptyString sql []; Frontend.Bind EmptyString EmptyString (repeat x00 6);
   Frontend.Execute EmptyString 0; Frontend.Sync].

Fixpoint backend_send (ms : list Frontend.FrontendMessage) : M unit :=
  match ms with
  | [] => ret tt
  | m :: ms => do! _ := backend_write (Frontend.encode m) in backend_send ms
  end.

Definition send_extended_unit (sql : string) : M unit := backend_send (extended_unit sql).

Fixpoint drain_loop (fuel : nat) : M unit :=
  match fuel with
  | O => stop NoFuel
  | S fuel =>
      do! f := backend_read "backend closed mid-command" in
      do! msg := try SProtocol (Backend.decode (frame_tag f) (frame_body f)) in
      match msg with
      | Backend.ErrorResponse fields => fail (SBackend ("backend error: " +:+ diag fields))
      | Backend.ReadyForQuery _ => ret tt
      | _ => drain_loop fuel
      end
  end.

Definition drain_to_ready : M unit := fun w => drain_loop (S (length (backend_in w))) w.

Definition inject_statement_timeout (timeout_ms : Z) : M unit :=
  do! _ := send_extended_unit ("SET statement_timeout = " +:+ pretty timeout_ms) in drain_to_ready.

Definition inject_search_path (path : string) : M unit :=
  do! _ := send_extended_unit ("SET search_path = " +:+ path) in drain_to_ready.

Definition backend_startup (target : BackendTarget) : Frontend.StartupMessage :=
  Frontend.mkStartup Frontend.PROTOCOL_VERSION_3
    [("user", target_role target); ("database", database target); ("application_name", "pgb_proxy")]%string.

Definition tcp_connect : M unit := fun w =>
  if backend_reachable w then (w, Ok tt) else (w, Err (Failed SIo)).

(** The backend's [server_version]; its stream is the world's. *)
Definition connect_backend (target : BackendTarget) (timeout_ms : Z) (path : string) : M string :=
  do! _ := tcp_connect in
  do! _ := backend_write (Frontend.startup_encode (backend_startup target)) in
  do! server_version := wait_for_ready target in
  do! _ := if bool_decide (path = EmptyString) then ret tt else inject_search_path path in
  do! _ := if 0 <? timeout_ms then inject_statement_timeout timeout_ms else ret tt in
  ret server_version.

(** ** The EXPLAIN pre-flight *)

(** The first column of a row, when it is not NULL. *)
Definition first_column (body : list byte) : option (list byte) :=
  match Backend.decode "D"%byte body with
  | Ok (Backend.DataRow (Some bytes :: _)) => Some (from_utf8_lossy bytes)
  | _ => None
  end.

Fixpoint explain_loop (fuel : nat) (first_line : option (list byte)) (explain_error : option string) :
    M (result string (option (list byte))) :=
  match fuel with
  | O => stop NoFuel
  | S fuel =>
      do! f := backend_read "backend closed during EXPLAIN" in
      match frame_tag f, first_line, explain_error with
      | "D"%byte, None, None => explain_loop fuel (first_column (frame_body f)) None
      | "E"%byte, _, _ =>
          match Backend.decode "E"%byte (frame_body f) with
          | Ok (Backend.ErrorResponse fields) => explain_loop fuel first_line (Some (diag fields))
          | _ => explain_loop fuel first_line explain_error
          end
      | "Z"%byte, _, _ => ret (match explain_error with Some err => Err err | None => Ok first_line end)
      | _, _, _ => explain_loop fuel first_line explain_error
      end
  end.

Definition run_explain_on_backend (sql : string) : M (result string (option (list byte))) :=
  do! _ := send_extended_unit (explain_wrap sql) in
  fun w => explain_loop (S (length (backend_in w))) None None w.

Record PendingError : Type := mkPending { pending_code : string; pending_message : string }.

Section enforced.
Context (parse_sql : string -> option (list Classifier.Statement)).
Context (visit_expressions : Classifier.Statement -> list Classifier.Expr).
Context (debug_str : string -> string).
Context (cfg : ProxyConfig) (role session_id : string).

Definition explain_ceiling : ExplainCeiling := ceiling_for_role (budget cfg).

Definition explain_decision (r : result string (option (list byte))) : M EstimateDecision :=
  match r with
  | Err reason => ret (FailClosed ("EXPLAIN failed on the backend (fail-closed): " +:+ reason))
  | Ok None => ret (FailClosed "EXPLAIN returned no plan row (fail-closed)")
  | Ok (Some line) =>
      match decide_plan_line debug_str explain_ceiling line with Some d => ret d | None => stop Panicked end
  end.

Definition exceeded_message (dim : EstimateDim) (e : PlanEstimate) : string :=
  "read blocked before execution by the EXPLAIN-cost gate: estimated " +:+
  (match dim with DimCost => "plan cost" | DimRows => "row count" end) +:+
  " (cost=" +:+ fmt_2 (total_cost e) +:+ ", rows=" +:+ pretty (est_rows e) +:+
  ") exceeds the role ceiling (cost=" +:+ fmt_2 (max_cost explain_ceiling) +:+ ", rows=" +:+
  pretty (ceiling_max_rows explain_ceiling) +:+ ") — advisory pre-flight gate".

Definition EXPLAIN_FAIL_CLOSED_CODE : string := "explain_failed".

Definition explain_preflight (sql : string) : M (option PendingError) :=
  if Classifier.is_explain parse_sql sql then ret None
  else
    do! plan := run_explain_on_backend sql in
    do! decision := explain_decision plan in
    match decision with
    | WithinEstimate _ => ret None
    | ExceededEstimate dim e =>
        let message := exceeded_message dim e in
        do! _ := block role session_id sql (dim_code dim) (Some message) in
        ret (Some (mkPending "53400" message))
    | FailClosed reason =>
        do! _ := block role session_id sql EXPLAIN_FAIL_CLOSED_CODE (Some reason) in
        ret (Some (mkPending "42501" reason))
    end.

(** ** The relay *)

Definition cutoff_message (cap : Budget.Cap) (bytes rows : Z) : string :=
  "result cut off at the " +:+ (match cap with Budget.CapBytes => "byte" | Budget.CapRows => "row" end) +:+
  " budget after " +:+ pretty rows +:+ " rows / " +:+ pretty bytes +:+ " bytes (single-shot cap exceeded)".

Definition window_cutoff_message (cap : Window.WindowCap) (bytes rows : Z) : string :=
  "result stream cut off at the cumulative per-window " +:+
  (match cap with Window.WindowBytes => "byte" | Window.WindowRows => "row" end) +:+
  " budget after " +:+ pretty rows +:+ " rows / " +:+ pretty bytes +:+
  " bytes streamed in the window (slow-drip volume limit)".

Definition unless (b : bool) (m : M unit) : M unit := if b then ret tt else m.

Definition is_row (t : byte) : bool := bool_decide (t = "D"%byte) || bool_decide (t = "d"%byte).

(** The breach of a cap is recorded and told to the agent. *)
Definition report_cutoff (code message : string) : M unit :=
  do! _ := block role session_id "<result stream>" code (Some message) in
  agent_send (error_response "53400" message).

(** The window's charge of a row the single-shot budget let through. *)
Definition relay_row (f : RawFrame) (window : Window.WindowMeter) : M Window.WindowMeter :=
  do! now := read_monotonic in
  match Window.charge window (Z.of_nat (length (frame_body f))) 1 now with
  | (window, Window.WWithin _ _) => do! _ := forward_to_agent f in ret window
  | (_, Window.WExceeded cap bytes rows) =>
      let message := window_cutoff_message cap bytes rows in
      do! _ := report_cutoff (Window.window_cap_code cap) message in
      do! _ := backend_shutdown in
      fail (SBackend ("cumulative per-window volume budget exceeded — session killed (anti slow-drip): " +:+ message))
  end.

Fixpoint relay_loop (fuel : nat) (b : Budget.Budget) (cut_off in_copy : bool) (window : Window.WindowMeter) :
    M Window.WindowMeter :=
  match fuel with
  | O => stop NoFuel
  | S fuel =>
      do! f := backend_read "backend closed mid-result" in
      let t := frame_tag f in
      if Frontend.backend_starts_copy f then
        do! _ := unless cut_off (forward_to_agent f) in relay_loop fuel b cut_off true window
      else if bool_decide (t = "Z"%byte) then
        do! _ := forward_to_agent f in ret window
      else if bool_decide (t = "c"%byte) && in_copy then
        do! _ := unless cut_off (forward_to_agent f) in relay_loop fuel b cut_off false window
      else if is_row t && negb cut_off then
        match Budget.charge_row b (Z.of_nat (length (frame_body f))) with
        | (b, Budget.Within _ _) =>
            do! window := relay_row f window in relay_loop fuel b cut_off in_copy window
        | (b, Budget.Exceeded cap bytes rows) =>
            let message := cutoff_message cap bytes rows in
            do! _ := report_cutoff (Budget.cap_code cap) message in
            if in_copy then
              do! _ := backend_shutdown in
              fail (SBackend ("backend COPY-out cut off at the budget: " +:+ message))
            else relay_loop fuel b true in_copy window
        end
      else if (is_row t || bool_decide (t = "C"%byte)) && cut_off then relay_loop fuel b cut_off in_copy window
      else do! _ := forward_to_agent f in relay_loop fuel b cut_off in_copy window
  end.

Definition relay_until_ready (window : Window.WindowMeter) : M Window.WindowMeter :=
  fun w => relay_loop (S (length (backend_in w))) (Budget.for_role (budget cfg)) false false window w.

(** ** The query loop *)

Definition is_sync (m : Frontend.FrontendMessage) : bool := match m with Frontend.Sync => true | _ => false end.

(** The pre-flight and the audit record of a frame that carries SQL. *)
Definition admit_sql (sql : option string) : M (option PendingError) :=
  match sql with
  | None => ret None
  | Some sql =>
      do! pe := explain_preflight sql in
      match pe with
      | Some pe => ret (Some pe)
      | None => do! _ := allow role session_id sql in ret None
      end
  end.

(** One frame outside skip mode: the window and what is pending after it. *)
Definition enforce_frame (frame : RawFrame) (msg : Frontend.FrontendMessage) (window : Window.WindowMeter) :
    M (Window.WindowMeter * option PendingError) :=
  match gate parse_sql visit_expressions msg with
  | GateAllow sql =>
      do! refused := admit_sql sql in
      match refused with
      | Some pe => ret (window, Some pe)
      | None =>
          do! _ := forward_to_backend frame in
          do! window := if is_sync msg then relay_until_ready window else ret window in
          ret (window, None)
      end
  | GateBlock sql code message =>
      do! _ := block role session_id sql code (Some message) in
      ret (window, Some (mkPending "42501" message))
  | GateReject _ code message =>
      let stmt := match msg with
                  | Frontend.Query sql => sql
                  | _ => "<" +:+ of_bytes [frame_tag frame] +:+ " frame>"
                  end in
      do! _ := reject role session_id stmt code (Some message) in
      match msg with
      | Frontend.Query _ => do! _ := send_error_then_ready "0A000" message in ret (window, None)
      | _ => ret (window, Some (mkPending "0A000" message))
      end
  end.

(** A frame that does not decode: outside skip mode it is rejected. *)
Definition malformed_frame (e : ProtocolError) (pending : option PendingError) : M (option PendingError) :=
  match pending with
  | Some _ => ret pending
  | None =>
      do! _ := reject role session_id "<undecodable frame>" "malformed_frame" (Some (protocol_error_display e)) in
      ret (Some (mkPending "08P01" "malformed protocol frame"))
  end.

(** A decoded frame in skip mode. *)
Definition skip_frame (err : PendingError) (msg : Frontend.FrontendMessage) : M (option PendingError) :=
  if is_sync msg then do! _ := send_error_then_ready (pending_code err) (pending_message err) in ret None
  else ret (Some err).

Fixpoint query_rounds (fuel : nat) (window : Window.WindowMeter) (pending : option PendingError) : M unit :=
  match fuel with
  | O => stop NoFuel
  | S fuel =>
      do! o := agent_read in
      match o with
      | None => ret tt
      | Some frame =>
          match Frontend.decode (frame_tag frame) (frame_body frame), pending with
          | Err e, _ => do! pending := malformed_frame e pending in query_rounds fuel window pending
          | Ok Frontend.Terminate, _ => ret tt
          | Ok msg, Some err => do! pending := skip_frame err msg in query_rounds fuel window pending
          | Ok msg, None =>
              do! (window, pending) := enforce_frame frame msg window in query_rounds fuel window pending
          end
      end
  end.

Definition query_loop : M unit :=
  fun w => query_rounds (S (length (agent_in w))) (Window.for_window (per_window (budget cfg))) None w.
End enforced.

(** ** The connection *)

Definition agent_read_startup : M (list byte) := fun w =>
  match read_startup_body (agent_in w) with
  | Ok (body, rest) => (set_agent_in w rest, Ok body)
  | Err e => (w, Err (Failed (SProtocol e)))
  end.

Section connection.
Context (sha256 : list byte -> list byte) (hmac : list byte -> list byte -> list byte).
Context (pbkdf2 : list byte -> list byte -> Z -> list byte).
Context (b64_encode : list byte -> list byte) (b64_decode : list byte -> option (list byte)).
Context (parse_sql : string -> option (list Classifier.Statement)).
Context (visit_expressions : Classifier.Statement -> list Classifier.Expr).
Context (debug_str : string -> string).

(** [random_salt] and [random_nonce] are the random bytes drawn; [peeks] bounds the
    rounds of [peek_exact] only. *)
Definition serve_connection (peeks : nat) (random_salt random_nonce : list byte) (cfg : ProxyConfig)
    (acceptor : option (list byte -> option (list byte))) (role session_id : string) : M unit :=
  do! is_encrypted := startup_and_tls peeks acceptor (require_tls cfg) in
  if require_tls cfg && negb is_encrypted then
    do! _ := send_fatal "08P01" TLS_REQUIRED_UNENCRYPTED in
    fail (SHandshake "require_tls: refused unencrypted session")
  else
    do! body := agent_read_startup in
    do! startup := try SProtocol (Frontend.startup_decode_body body) in
    if negb (Frontend.protocol_version startup =? Frontend.PROTOCOL_VERSION_3) then
      do! _ := send_fatal "0A000" "unsupported protocol version" in
      fail (SHandshake "unsupported protocol version")
    else
      do! _ := authenticate_agent sha256 hmac pbkdf2 b64_encode b64_decode random_salt random_nonce cfg in
      do! server_version := connect_backend (backend cfg) (statement_timeout_ms cfg) (search_path cfg) in
      do! _ := finish_agent_startup server_version in
      query_loop parse_sql visit_expressions debug_str cfg role session_id.
End connection.

(** ** Reasoning about sessions *)

(** From a state in [P], a success ends in [Q] and a failure in [I]. *)
Definition spec {A} (P : World -> Prop) (m : M A) (Q : A -> World -> Prop) (I : World -> Prop) : Prop :=
  forall w, P w -> match m w with (w', Ok a) => Q a w' | (w', Err _) => I w' end.

Lemma spec_bind {A B} P (m : M A) (k : A -> M B) R Q I :
  spec P m R I -> (forall a, spec (R a) (k a) Q I) -> spec P (bind m k) Q I.
Proof.
  intros Hm Hk w Hw. unfold bind. specialize (Hm w Hw). destruct (m w) as [w1 [a|e]]; [|done].
  by apply Hk.
Qed.

Lemma spec_ret {A} P (a : A) Q I : (forall w, P w -> Q a w) -> spec P (ret a) Q I.
Proof. intros HQ w Hw. by apply HQ. Qed.

Lemma spec_stop {A} (P : World -> Prop) e (Q : A -> World -> Prop) I : (forall w, P w -> I w) -> spec P (stop e) Q I.
Proof. intros HI w Hw. by apply HI. Qed.

Lemma spec_weaken {A} P P' (m : M A) Q Q' I :
  spec P' m Q' I -> (forall w, P w -> P' w) -> (forall a w, Q' a w -> Q a w) -> spec P m Q I.
Proof. intros Hm HP HQ w Hw. specialize (Hm w (HP w Hw)). destruct (m w) as [w1 [a|e]]; auto. Qed.

(** What is kept whatever the outcome. *)
Definition keeps {A} (I : World -> Prop) (m : M A) : Prop := spec I m (fun _ => I) I.

Lemma keeps_bind {A B} I (m : M A) (k : A -> M B) : keeps I m -> (forall a, keeps I (k a)) -> keeps I (bind m k).
Proof. intros Hm Hk. by eapply spec_bind. Qed.

Lemma keeps_ret {A} I (a : A) : keeps I (ret a).
Proof. by apply spec_ret. Qed.

Lemma keeps_stop {A} I e : keeps I (stop e : M A).
Proof. by apply spec_stop. Qed.

Lemma keeps_try {E A} I conv (r : result E A) : keeps I (try conv r).
Proof. destruct r; [apply keeps_ret|apply keeps_stop]. Qed.

Lemma keeps_ok_or {A} I e (o : option A) : keeps I (ok_or e o).
Proof. destruct o; [apply keeps_ret|apply keeps_stop]. Qed.

(** *** What a computation adds to the trace *)

(** A message to the agent goes out under the encryption in force. *)
Definition says (enc : bool) (e : Event) : Prop := match e with ToAgent enc' _ => enc' = enc | _ => True end.

(** Some time passes. *)
Inductive ticked (c : C) : C -> Prop :=
| ticked_now : ticked c c
| ticked_more c' : ticked c c' -> ticked c (tick c').

Lemma ticked_trans c1 c2 c3 : ticked c1 c2 -> ticked c2 c3 -> ticked c1 c3.
Proof. intros H12 H23. induction H23; [done|by constructor]. Qed.

(** The state keeps its encryption, and time only passes. *)
Definition later (w w' : World) : Prop := encrypted w' = encrypted w /\ ticked (clock w) (clock w').

Lemma later_refl w : later w w.
Proof. split; [done|constructor]. Qed.
Lemma later_trans w1 w2 w3 : later w1 w2 -> later w2 w3 -> later w1 w3.
Proof. intros [E1 T1] [E2 T2]. split; [congruence|by eapply ticked_trans]. Qed.

Definition emits {A} (ok : Event -> Prop) (m : M A) : Prop :=
  forall w, later w (m w).1 /\
    exists es, trace (m w).1 = trace w ++ es /\ Forall ok es /\ Forall (says (encrypted w)) es.

Lemma emits_bind {A B} ok (m : M A) (k : A -> M B) : emits ok m -> (forall a, emits ok (k a)) -> emits ok (bind m k).
Proof.
  intros Hm Hk w. unfold bind. destruct (Hm w) as (X1 & es1 & E1 & F1 & G1).
  destruct (m w) as [w1 [a|e]]; simpl in *.
  - destruct (Hk a w1) as (X2 & es2 & E2 & F2 & G2). split; [by eapply later_trans|]. exists (es1 ++ es2).
    rewrite E2, E1, app_assoc. split; [done|]. split; apply Forall_app; [done|]. by rewrite (proj1 X1) in G2.
  - split; [done|]. by exists es1.
Qed.

Lemma emits_nothing {A} ok (m : M A) :
  (forall w, trace (m w).1 = trace w /\ encrypted (m w).1 = encrypted w /\ clock (m w).1 = clock w) -> emits ok m.
Proof.
  intros Hm w. destruct (Hm w) as (E & X & T). split; [split; [done|rewrite T; constructor]|].
  exists []. rewrite E, app_nil_r. auto.
Qed.

(** A computation that adds one event, or fails without. *)
Lemma emits_one {A} (ok : Event -> Prop) (m : M A) :
  (forall w, later w (m w).1 /\
     (trace (m w).1 = trace w \/ exists e, trace (m w).1 = trace w ++ [e] /\ ok e /\ says (encrypted w) e)) ->
  emits ok m.
Proof.
  intros Hm w. destruct (Hm w) as [X [E|(e & E & He & Hs)]]; split; try done; rewrite E.
  - exists []. rewrite app_nil_r. auto.
  - exists [e]. split; [done|]. split; by repeat constructor.
Qed.

Lemma emits_weaken {A} (ok ok' : Event -> Prop) (m : M A) : emits ok m -> (forall e, ok e -> ok' e) -> emits ok' m.
Proof.
  intros Hm Hok w. destruct (Hm w) as (X & es & E & F & G). split; [done|]. exists es. split; [done|].
  split; [by apply (Forall_impl _ _ _ F)|done].
Qed.

Lemma emits_ret {A} ok (a : A) : emits ok (ret a).
Proof. by apply emits_nothing. Qed.
Lemma emits_stop {A} ok e : emits ok (stop e : M A).
Proof. by apply emits_nothing. Qed.
Lemma emits_try {E A} ok conv (r : result E A) : emits ok (try conv r).
Proof. destruct r; [apply emits_ret|apply emits_stop]. Qed.
Lemma emits_ok_or {A} ok e (o : option A) : emits ok (ok_or e o).
Proof. destruct o; [apply emits_ret|apply emits_stop]. Qed.
Lemma emits_agent_read ok : emits ok agent_read.
Proof. apply emits_nothing. intros w. unfold agent_read. by destruct (read_tagged_frame _) as [[]|]. Qed.
Lemma emits_backend_read ok closed : emits ok (backend_read closed).
Proof. apply emits_nothing. intros w. unfold backend_read. by destruct (read_tagged_frame _) as [[[]]|]. Qed.
Lemma emits_agent_read_startup ok : emits ok agent_read_startup.
Proof. apply emits_nothing. intros w. unfold agent_read_startup. by destruct (read_startup_body _) as [[]|]. Qed.
Lemma emits_tcp_connect ok : emits ok tcp_connect.
Proof. apply emits_nothing. intros w. unfold tcp_connect. by destruct (backend_reachable w). Qed.

Lemma emits_agent_write (ok : Event -> Prop) bytes :
  (forall enc, ok (ToAgent enc bytes)) -> emits ok (agent_write bytes).
Proof.
  intros Hok. apply emits_one. intros w. unfold agent_write. destruct (agent_room w); simpl;
    [split; [apply later_refl|by left]|]. split; [split; [done|constructor]|]. right. by eexists.
Qed.
Lemma emits_backend_write (ok : Event -> Prop) bytes : ok (ToBackend bytes) -> emits ok (backend_write bytes).
Proof.
  intros Hok. apply emits_one. intros w. unfold backend_write. destruct (backend_room w); simpl;
    [split; [apply later_refl|by left]|]. split; [split; [done|constructor]|]. right. by eexists.
Qed.
Lemma emits_shutdown (ok : Event -> Prop) : ok BackendShutdown -> emits ok backend_shutdown.
Proof. intros Hok. apply emits_one. intros w. split; [split; [done|constructor]|]. right. by eexists. Qed.
Lemma emits_read_monotonic (ok : Event -> Prop) : (forall t, ok (ClockRead t)) -> emits ok read_monotonic.
Proof. intros Hok. apply emits_one. intros w. split; [split; [done|by do 2 constructor]|]. right. by eexists. Qed.
Lemma emits_record (ok : Event -> Prop) role sid sql d code reason :
  (forall ts, ok (Audited (entry_of role sid sql d code reason) ts)) -> emits ok (record role sid sql d code reason).
Proof.
  intros Hok. apply emits_one. intros w. unfold record. cbn [poisoned set_clock sink].
  assert (ticked (clock w) (tick (clock w))) as Ht by (by do 2 constructor).
  destruct (poisoned w); [split; [done|by left]|]. destruct (sink_append _ _ _) as [s [r|e]]; (split; [done|]); [|by left].
  right. by eexists.
Qed.

Ltac emits_tac :=
  repeat first
    [ apply emits_ret | apply emits_stop | apply emits_try | apply emits_ok_or | apply emits_agent_read
    | apply emits_backend_read | apply emits_agent_read_startup | apply emits_tcp_connect
    | apply emits_agent_write; intros ?; simpl; done | apply emits_backend_write; simpl; done
    | apply emits_shutdown; simpl; done | apply emits_read_monotonic; intros ?; simpl; done
    | apply emits_record; intros ?; simpl; done
    | apply emits_bind; [|intros ?]
    | match goal with |- emits _ (match ?x with _ => _ end) => destruct x end
    | assumption | solve [auto] ].

(** Events that send the backend nothing. *)
Definition quiet (e : Event) : Prop := match e with ToBackend _ => False | _ => True end.

Lemma authenticate_agent_quiet sha256 hmac pbkdf2 enc dec salt nonce cfg :
  emits quiet (authenticate_agent sha256 hmac pbkdf2 enc dec salt nonce cfg).
Proof. unfold authenticate_agent, read_p, utf8_or, send_fatal, agent_send, fail. emits_tac. Qed.

Lemma finish_agent_startup_quiet v : emits quiet (finish_agent_startup v).
Proof. unfold finish_agent_startup, agent_send. emits_tac. Qed.

Lemma send_error_then_ready_quiet code message : emits quiet (send_error_then_ready code message).
Proof. unfold send_error_then_ready, agent_send. emits_tac. Qed.

Lemma relay_row_quiet role sid f window : emits quiet (relay_row role sid f window).
Proof. unfold relay_row, report_cutoff, block, agent_send, forward_to_agent, fail. emits_tac. Qed.

Lemma relay_loop_quiet role sid fuel b cut_off in_copy window :
  emits quiet (relay_loop role sid fuel b cut_off in_copy window).
Proof.
  revert b cut_off in_copy window. induction fuel as [|fuel IH]; intros; cbn [relay_loop]; [apply emits_stop|].
  pose proof (relay_row_quiet role sid).
  unfold unless, report_cutoff, block, agent_send, forward_to_agent, fail. emits_tac.
Qed.

Lemma relay_until_ready_quiet cfg role sid window : emits quiet (relay_until_ready cfg role sid window).
Proof. intros w. apply relay_loop_quiet. Qed.

Lemma explain_loop_quiet fuel line err : emits quiet (explain_loop fuel line err).
Proof.
  revert line err. induction fuel as [|fuel IH]; intros; cbn [explain_loop]; [apply emits_stop|].
  apply emits_bind; [apply emits_backend_read|intros f].
  destruct (frame_tag f); try apply IH; destruct line, err; try apply IH; try apply emits_ret; emits_tac.
Qed.

(** *** Termination *)

Lemma read_tagged_frame_shorter l f r : read_tagged_frame l = Ok (Some f, r) -> (length r < length l)%nat.
Proof.
  destruct l as [|t l]; simpl; [done|]. unfold rbind, rret, rfail, stream_read_i32, rbind, rret, read_exact.
  destruct (decide (length l < 4)%nat); [done|].
  destruct (checked_body_len _) as [n'|]; [|done].
  destruct (decide (length (drop 4 l) < n')%nat); [done|]. intros [= _ <-].
  rewrite !length_drop. lia.
Qed.

(** With fewer than [n] bytes of the backend left: the computation ends, reads nothing of
    the agent's and gives the backend's bytes no time to grow. *)
Definition steady {A} (n : nat) (m : M A) : Prop :=
  forall w, (length (backend_in w) < n)%nat ->
    (m w).2 <> Err NoFuel /\ agent_in (m w).1 = agent_in w /\
    (length (backend_in (m w).1) <= length (backend_in w))%nat.

Lemma steady_bind {A B} n (m : M A) (k : A -> M B) : steady n m -> (forall a, steady n (k a)) -> steady n (bind m k).
Proof.
  intros Hm Hk w Hw. destruct (Hm w Hw) as (H1 & H2 & H3). unfold bind.
  destruct (m w) as [w1 [a|e]]; simpl in *; [|split; [congruence|done]].
  destruct (Hk a w1) as (H4 & H5 & H6); [lia|]. split; [done|]. split; [congruence|lia].
Qed.

Lemma steady_read {A} n closed (k : RawFrame -> M A) :
  (forall f, steady n (k f)) -> steady (S n) (bind (backend_read closed) k).
Proof.
  intros Hk w Hw. unfold bind, backend_read.
  destruct (read_tagged_frame (backend_in w)) as [[[f|] r]|e] eqn:E; simpl;
    [|split; [done|]; split; [done|lia]..].
  apply read_tagged_frame_shorter in E. destruct (Hk f (set_backend_in w r)) as (H4 & H5 & H6); [simpl; lia|].
  simpl in *. split; [done|]. split; [done|lia].
Qed.

Lemma steady_silent {A} n (m : M A) :
  (forall w, (m w).2 <> Err NoFuel /\ agent_in (m w).1 = agent_in w /\ backend_in (m w).1 = backend_in w) -> steady n m.
Proof. intros Hm w _. destruct (Hm w) as (H1 & H2 & ->). split; [done|]. split; [done|lia]. Qed.

Lemma steady_ret {A} n (a : A) : steady n (ret a).
Proof. by apply steady_silent. Qed.
Lemma steady_fail {A} n e : steady n (fail e : M A).
Proof. by apply steady_silent. Qed.
Lemma steady_panic {A} n : steady n (stop Panicked : M A).
Proof. by apply steady_silent. Qed.
Lemma steady_try {E A} n conv (r : result E A) : steady n (try conv r).
Proof. destruct r; [apply steady_ret|apply steady_fail]. Qed.
Lemma steady_agent_write n bytes : steady n (agent_write bytes).
Proof. apply steady_silent. intros w. unfold agent_write. by destruct (agent_room w). Qed.
Lemma steady_backend_write n bytes : steady n (backend_write bytes).
Proof. apply steady_silent. intros w. unfold backend_write. by destruct (backend_room w). Qed.
Lemma steady_shutdown n : steady n backend_shutdown.
Proof. by apply steady_silent. Qed.
Lemma steady_clock n : steady n read_monotonic.
Proof. by apply steady_silent. Qed.
Lemma steady_connect n : steady n tcp_connect.
Proof. apply steady_silent. intros w. unfold tcp_connect. by destruct (backend_reachable w). Qed.
Lemma steady_record n role sid sql d code reason : steady n (record role sid sql d code reason).
Proof.
  apply steady_silent. intros w. unfold record. cbn [poisoned set_clock sink].
  destruct (poisoned w); [done|]. by destruct (sink_append _ _ _) as [s [r|e]].
Qed.

Ltac steady_tac :=
  repeat first
    [ apply steady_ret | apply steady_fail | apply steady_panic | apply steady_try | apply steady_agent_write
    | apply steady_backend_write | apply steady_shutdown | apply steady_clock | apply steady_connect | apply steady_record
    | solve [auto]
    | apply steady_bind; [|intros ?]
    | match goal with |- steady _ (match ?x with _ => _ end) => destruct x end ].

Lemma steady_relay_row n role sid f window : steady n (relay_row role sid f window).
Proof. unfold relay_row, report_cutoff, block, agent_send, forward_to_agent. steady_tac. Qed.

Lemma steady_relay_loop role sid fuel b cut_off in_copy window :
  steady fuel (relay_loop role sid fuel b cut_off in_copy window).
Proof.
  revert b cut_off in_copy window. induction fuel as [|fuel IH]; intros; cbn [relay_loop]; [intros w Hw; lia|].
  pose proof (steady_relay_row fuel role sid). apply steady_read. intros f.
  unfold unless, report_cutoff, block, agent_send, forward_to_agent. steady_tac.
Qed.

Lemma steady_explain_loop fuel line err : steady fuel (explain_loop fuel line err).
Proof.
  revert line err. induction fuel as [|fuel IH]; intros; cbn [explain_loop]; [intros w Hw; lia|].
  apply steady_read. intros f.
  destruct (frame_tag f); try apply IH; destruct line, err; try apply IH; try apply steady_ret; steady_tac.
Qed.

Lemma steady_wait_loop fuel target v : steady fuel (wait_loop fuel target v).
Proof.
  revert v. induction fuel as [|fuel IH]; intros; cbn [wait_loop]; [intros w Hw; lia|].
  apply steady_read. intros f. steady_tac.
Qed.

Lemma steady_drain_loop fuel : steady fuel (drain_loop fuel).
Proof.
  induction fuel as [|fuel IH]; cbn [drain_loop]; [intros w Hw; lia|]. apply steady_read. intros f. steady_tac.
Qed.

(** A loop given as much fuel as the backend has bytes. *)
Lemma steady_fueled {A} n (loop : nat -> M A) :
  (forall fuel, steady fuel (loop fuel)) -> steady n (fun w => loop (S (length (backend_in w))) w).
Proof. intros Hl w _. apply (Hl (S (length (backend_in w)))). lia. Qed.

Lemma steady_send n ms : steady n (backend_send ms).
Proof. induction ms; simpl; steady_tac. Qed.

(** A computation that ends, whatever the state. *)
Definition ends {A} (m : M A) : Prop := forall w, (m w).2 <> Err NoFuel.

Lemma ends_bind {A B} (m : M A) (k : A -> M B) : ends m -> (forall a, ends (k a)) -> ends (bind m k).
Proof.
  intros Hm Hk w. specialize (Hm w). unfold bind. destruct (m w) as [w1 [a|e]]; simpl in *; [apply Hk|congruence].
Qed.

Lemma steady_ends {A} (m : M A) : (forall n, steady n m) -> ends m.
Proof. intros Hm w. apply (Hm (S (length (backend_in w)))). lia. Qed.

Lemma ends_ret {A} (a : A) : ends (ret a).
Proof. done. Qed.
Lemma ends_fail {A} e : ends (fail e : M A).
Proof. done. Qed.
Lemma ends_consume n : ends (consume n).
Proof. done. Qed.
Lemma ends_try {E A} conv (r : result E A) : ends (try conv r).
Proof. by destruct r. Qed.
Lemma ends_ok_or {A} e (o : option A) : ends (ok_or e o).
Proof. by destruct o. Qed.
Lemma ends_agent_read : ends agent_read.
Proof. intros w. unfold agent_read. by destruct (read_tagged_frame _) as [[]|]. Qed.
Lemma ends_agent_read_startup : ends agent_read_startup.
Proof. intros w. unfold agent_read_startup. by destruct (read_startup_body _) as [[]|]. Qed.
Lemma ends_tls_upgrade acceptor : ends (tls_upgrade acceptor).
Proof. intros w. unfold tls_upgrade. by destruct (acceptor _). Qed.
Lemma ends_agent_write bytes : ends (agent_write bytes).
Proof. apply steady_ends. intros. apply steady_agent_write. Qed.

Ltac ends_tac :=
  repeat first
    [ apply ends_ret | apply ends_fail | apply ends_try | apply ends_consume
    | apply ends_ok_or | apply ends_agent_read | apply ends_agent_read_startup | apply ends_tls_upgrade
    | apply ends_agent_write
    | apply ends_bind; [|intros ?]
    | match goal with |- ends (match ?x with _ => _ end) => destruct x end
    | solve [auto] ].

Lemma ends_authenticate sha256 hmac pbkdf2 enc dec salt nonce cfg :
  ends (authenticate_agent sha256 hmac pbkdf2 enc dec salt nonce cfg).
Proof. unfold authenticate_agent, read_p, utf8_or, send_fatal, agent_send. ends_tac. Qed.

Lemma ends_connect_backend target timeout path : ends (connect_backend target timeout path).
Proof.
  apply steady_ends. intros n. unfold connect_backend, wait_for_ready, inject_search_path, inject_statement_timeout,
    drain_to_ready, send_extended_unit.
  pose proof (steady_fueled n (fun fuel => wait_loop fuel target EmptyString)) as Hw.
  pose proof (steady_fueled n drain_loop steady_drain_loop) as Hd. pose proof (steady_send n) as Hs.
  assert (forall fuel, steady fuel (wait_loop fuel target EmptyString)) as Hwait by (intros; apply steady_wait_loop).
  specialize (Hw Hwait). steady_tac.
Qed.

Section loop_ends.
Context (parse_sql : string -> option (list Classifier.Statement)).
Context (visit_expressions : Classifier.Statement -> list Classifier.Expr).
Context (debug_str : string -> string).
Context (cfg : ProxyConfig) (role session_id : string).

Lemma steady_relay_until_ready n window : steady n (relay_until_ready cfg role session_id window).
Proof. apply (steady_fueled n (fun fuel => relay_loop role session_id fuel _ _ _ _)). intros. apply steady_relay_loop. Qed.

Lemma steady_run_explain n sql : steady n (run_explain_on_backend sql).
Proof.
  unfold run_explain_on_backend, send_extended_unit. apply steady_bind; [apply steady_send|]. intros u.
  apply (steady_fueled n (fun fuel => explain_loop fuel None None)). intros. apply steady_explain_loop.
Qed.

Lemma steady_enforce_frame n frame msg window :
  steady n (enforce_frame parse_sql visit_expressions debug_str cfg role session_id frame msg window).
Proof.
  unfold enforce_frame, admit_sql, explain_preflight, explain_decision, block, allow, reject, forward_to_backend,
    send_error_then_ready, agent_send.
  pose proof (steady_run_explain n). pose proof (steady_relay_until_ready n). steady_tac.
Qed.

Lemma query_rounds_end fuel window pending w :
  (length (agent_in w) < fuel)%nat ->
  (query_rounds parse_sql visit_expressions debug_str cfg role session_id fuel window pending w).2 <> Err NoFuel.
Proof.
  revert window pending w. induction fuel as [|fuel IH]; intros window pending w Hw; [lia|]. cbn [query_rounds].
  unfold bind at 1. unfold agent_read.
  destruct (read_tagged_frame (agent_in w)) as [[[frame|] r]|e] eqn:E; [|done..].
  apply read_tagged_frame_shorter in E.
  assert (forall A (m : M A) (k : A -> M unit), (forall n, steady n m) ->
            (forall a w1, (length (agent_in w1) < fuel)%nat -> (k a w1).2 <> Err NoFuel) ->
            (bind m k (set_agent_in w r)).2 <> Err NoFuel) as Hstep.
  { intros A m k Hm Hk. unfold bind. destruct (Hm (S (length (backend_in w))) (set_agent_in w r)) as (H1 & H2 & _); [simpl; lia|].
    destruct (m _) as [w1 [a|e]]; simpl in *; [|congruence]. apply Hk. rewrite H2. lia. }
  destruct (Frontend.decode _ _) as [msg|e].
  - assert (((do! (window, pending) :=
              enforce_frame parse_sql visit_expressions debug_str cfg role session_id frame msg window in
              query_rounds parse_sql visit_expressions debug_str cfg role session_id fuel window pending)
              (set_agent_in w r)).2 <> Err NoFuel) as He.
    { apply Hstep; [intros; apply steady_enforce_frame|]. intros [w' p'] w1 H1. by apply IH. }
    assert (forall err, ((do! pending := skip_frame err msg in
              query_rounds parse_sql visit_expressions debug_str cfg role session_id fuel window pending)
              (set_agent_in w r)).2 <> Err NoFuel) as Hs.
    { intros err. apply Hstep; [|intros; by apply IH]. intros n. unfold skip_frame, send_error_then_ready, agent_send. steady_tac. }
    destruct msg, pending; try exact He; try apply Hs; done.
  - apply Hstep; [|intros; by apply IH]. intros n. unfold malformed_frame, reject. steady_tac.
Qed.

Lemma query_loop_ends : ends (query_loop parse_sql visit_expressions debug_str cfg role session_id).
Proof. intros w. apply query_rounds_end. lia. Qed.
End loop_ends.

(** *** What the backend is sent *)

(** The frames the bytes of a stream parse to, one after the other. *)
Fixpoint frames_of (fuel : nat) (l : list byte) : list RawFrame :=
  match fuel with
  | O => []
  | S fuel => match read_tagged_frame l with Ok (Some f, r) => f :: frames_of fuel r | _ => [] end
  end.

Definition agent_frames (l : list byte) : list RawFrame := frames_of (S (length l)) l.

(** What a stretch of the trace sent to the backend. *)
Definition sent (es : list Event) : list (list byte) := omap (fun e => match e with ToBackend b => Some b | _ => None end) es.

Lemma sent_app es1 es2 : sent (es1 ++ es2) = sent es1 ++ sent es2.
Proof. apply omap_app. Qed.

Lemma sent_quiet es : Forall quiet es -> sent es = [].
Proof. by induction 1 as [|[] es]. Qed.

(** What a computation adds to the trace, with its result or without. *)
Definition runs {A} (m : M A) (Q : A -> list Event -> Prop) (E : list Event -> Prop) : Prop :=
  forall w, exists es, trace (m w).1 = trace w ++ es /\ match (m w).2 with Ok a => Q a es | Err _ => E es end.

Lemma runs_bind {A B} (m : M A) (k : A -> M B) Q1 (E1 : list Event -> Prop) Q E :
  runs m Q1 E1 -> (forall es, E1 es -> E es) ->
  (forall a es1, Q1 a es1 -> runs (k a) (fun b es2 => Q b (es1 ++ es2)) (fun es2 => E (es1 ++ es2))) -> runs (bind m k) Q E.
Proof.
  intros Hm HE Hk w. destruct (Hm w) as (es1 & E1' & H1). unfold bind. destruct (m w) as [w1 [a|e]]; simpl in *; [|eauto].
  destruct (Hk a es1 H1 w1) as (es2 & E2 & H2). exists (es1 ++ es2). by rewrite E2, E1', app_assoc.
Qed.

Lemma runs_ret {A} (a : A) (Q : A -> list Event -> Prop) E : Q a [] -> runs (ret a) Q E.
Proof. intros HQ w. exists []. by rewrite app_nil_r. Qed.

Lemma runs_weaken {A} (m : M A) (Q Q' : A -> list Event -> Prop) (E E' : list Event -> Prop) :
  runs m Q E -> (forall a es, Q a es -> Q' a es) -> (forall es, E es -> E' es) -> runs m Q' E'.
Proof. intros Hm HQ HE w. destruct (Hm w) as (es & E1 & H1). exists es. split; [done|]. destruct (m w) as [w' [a|e]]; simpl in *; auto. Qed.

Lemma runs_quiet {A} (m : M A) : emits quiet m -> runs m (fun _ es => sent es = []) (fun es => sent es = []).
Proof.
  intros Hm w. destruct (Hm w) as (_ & es & E & Hq & _). apply sent_quiet in Hq. exists es. split; [done|].
  by destruct (m w) as [w' [a|e]].
Qed.

Section sent.
Context (parse_sql : string -> option (list Classifier.Statement)).
Context (visit_expressions : Classifier.Statement -> list Classifier.Expr).
Context (debug_str : string -> string).
Context (cfg : ProxyConfig) (role session_id : string).

Definition is_read (sql : string) : Prop := Classifier.classify parse_sql visit_expressions sql = Classifier.Read.

(** The frames of the proxy's own EXPLAIN of a statement, which one that is itself an
    EXPLAIN does not need. *)
Definition explained (sql : string) : list (list byte) :=
  if Classifier.is_explain parse_sql sql then [] else map Frontend.encode (extended_unit (explain_wrap sql)).

(** The trace while one frame of the agent is handled.  Nothing is sent; or the frame
    decodes and, when it is a Parse, its statement is a read: its EXPLAIN goes first, and
    then either nothing more is sent or the frame itself, right after the audit record of
    its allowance; a frame that is no Parse, no simple query and no part of a COPY is sent
    as it came, and nothing else. *)
Definition handled (f : RawFrame) (es : list Event) : Prop :=
  sent es = [] \/
  exists m, Frontend.decode (frame_tag f) (frame_body f) = Ok m /\
    match m with
    | Frontend.Query _ | Frontend.CopyData _ | Frontend.CopyDone | Frontend.CopyFail _ => False
    | Frontend.Parse _ sql _ =>
        is_read sql /\
        (sent es `prefix_of` explained sql \/
         exists pre ts post,
           es = pre ++ Audited (entry_of role session_id sql DAllow "ok" None) ts :: ToBackend (frame_bytes f) :: post /\
           sent pre = explained sql /\ sent post = [])
    | _ => sent es = [frame_bytes f]
    end.

(** The trace along the frames of the agent, in their order: each is handled once, until
    the loop ends. *)
Inductive mediated : list RawFrame -> list Event -> Prop :=
| mediated_end fs es : sent es = [] -> mediated fs es
| mediated_last f fs es : handled f es -> mediated (f :: fs) es
| mediated_frame f fs es es' : handled f es -> mediated fs es' -> mediated (f :: fs) (es ++ es').

Lemma backend_send_sent ms :
  runs (backend_send ms) (fun _ es => sent es = map Frontend.encode ms) (fun es => sent es `prefix_of` map Frontend.encode ms).
Proof.
  induction ms as [|m ms IH]; simpl; [by apply runs_ret|].
  apply runs_bind with (Q1 := fun _ es => es = [ToBackend (Frontend.encode m)]) (E1 := fun es => es = []).
  - intros w. unfold backend_write. destruct (backend_room w); [exists []; by rewrite app_nil_r|by eexists].
  - intros es ->. apply prefix_nil.
  - intros ? es ->. eapply runs_weaken; [exact IH|..]; intros; simpl; [by f_equal|by apply prefix_cons].
Qed.

Lemma explain_preflight_sent sql :
  runs (explain_preflight parse_sql debug_str cfg role session_id sql)
    (fun _ es => sent es = explained sql) (fun es => sent es `prefix_of` explained sql).
Proof.
  unfold explain_preflight, explained. destruct (Classifier.is_explain _ _); [by apply runs_ret|].
  assert (forall {A} (m : M A) es1 l, emits quiet m -> sent es1 = l ->
            runs m (fun _ es => sent (es1 ++ es) = l) (fun es => sent (es1 ++ es) `prefix_of` l)) as Hq.
  { intros A m es1 l Hm Hl. eapply runs_weaken; [by apply runs_quiet|intros ? es He|intros es He]; by rewrite sent_app, He, Hl, app_nil_r. }
  apply runs_bind with (Q1 := fun _ es => sent es = map Frontend.encode (extended_unit (explain_wrap sql)))
                       (E1 := fun es => sent es `prefix_of` map Frontend.encode (extended_unit (explain_wrap sql))); [|done|].
  - unfold run_explain_on_backend, send_extended_unit. eapply runs_bind; [apply backend_send_sent|done|].
    intros ? es1 H1. apply Hq; [|done]. intros w. apply explain_loop_quiet.
  - intros plan es1 H1. apply Hq; [|done]. unfold explain_decision, block. emits_tac.
Qed.

(** After [admit_sql] on a statement: refused, or just recorded. *)
Lemma admit_sql_sent sql :
  runs (admit_sql parse_sql debug_str cfg role session_id (Some sql))
    (fun refused es => if refused is Some _ then sent es = explained sql
       else exists pre ts, es = pre ++ [Audited (entry_of role session_id sql DAllow "ok" None) ts] /\ sent pre = explained sql)
    (fun es => sent es `prefix_of` explained sql).
Proof.
  unfold admit_sql. eapply runs_bind; [apply explain_preflight_sent|done|]. intros [pe|] es1 H1.
  - apply runs_ret. by rewrite app_nil_r.
  - apply runs_bind with (Q1 := fun _ es => exists ts, es = [Audited (entry_of role session_id sql DAllow "ok" None) ts])
                         (E1 := fun es => es = []).
    + intros w. unfold allow, record. cbn [poisoned set_clock sink].
      destruct (poisoned w); [exists []; by rewrite app_nil_r|].
      destruct (sink_append _ _ _) as [s [r|e]]; [by eexists [_]; simpl; eauto|exists []; by rewrite app_nil_r].
    + intros es ->. by rewrite app_nil_r, H1.
    + intros ? es [ts ->]. apply runs_ret. exists es1, ts. by rewrite app_nil_r.
Qed.

Lemma gate_allow msg o :
  gate parse_sql visit_expressions msg = GateAllow o ->
  match o with
  | Some sql => is_read sql /\ exists name types, msg = Frontend.Parse name sql types
  | None => match msg with
            | Frontend.Query _ | Frontend.CopyData _ | Frontend.CopyDone | Frontend.CopyFail _ | Frontend.Parse _ _ _ => False
            | _ => True
            end
  end.
Proof.
  destruct msg; unfold gate; simpl; try (by intros [= <-]); try done.
  unfold gate_sql, is_read, Classifier.classify.
  destruct (Classifier.classify_with_reason parse_sql visit_expressions sql) as [[|] r] eqn:E;
    [|by destruct (not_read_message r)].
  intros [= <-]. rewrite E. split; [done|]. by eauto.
Qed.

(** The frame is forwarded and the relay sends nothing more. *)
Lemma forward_sent frame msg window :
  runs (do! _ := forward_to_backend frame in
        do! window := if is_sync msg then relay_until_ready cfg role session_id window else ret window in
        ret (window, None : option PendingError))
    (fun _ es => exists post, es = ToBackend (frame_bytes frame) :: post /\ sent post = [])
    (fun es => es = [] \/ exists post, es = ToBackend (frame_bytes frame) :: post /\ sent post = []).
Proof.
  apply runs_bind with (Q1 := fun _ es => es = [ToBackend (frame_bytes frame)]) (E1 := fun es => es = []).
  - intros w. unfold forward_to_backend, backend_write. destruct (backend_room w); [exists []; by rewrite app_nil_r|by eexists].
  - by left.
  - intros ? es ->. eapply runs_weaken; [apply runs_quiet| |].
    + pose proof (relay_until_ready_quiet cfg role session_id). emits_tac.
    + intros p es Hes. by exists es.
    + intros es Hes. right. by exists es.
Qed.

Lemma enforce_frame_handled frame msg window :
  Frontend.decode (frame_tag frame) (frame_body frame) = Ok msg ->
  runs (enforce_frame parse_sql visit_expressions debug_str cfg role session_id frame msg window)
    (fun _ => handled frame) (handled frame).
Proof.
  intros Hd. unfold enforce_frame. destruct (gate parse_sql visit_expressions msg) as [[sql|]|kind code message|sql code message] eqn:Hg;
    [apply gate_allow in Hg as (Hr & name & types & ->)|apply gate_allow in Hg|..].
  - assert (forall es, sent es `prefix_of` explained sql -> handled frame es) as Hpre.
    { intros es He. right. eexists. split; [exact Hd|]. split; [done|by left]. }
    eapply runs_bind; [apply admit_sql_sent|exact Hpre|]. intros [pe|] es1 H1.
    + apply runs_ret. rewrite app_nil_r. apply Hpre. by rewrite H1.
    + destruct H1 as (pre & ts & -> & H1).
      assert (forall post, sent post = [] ->
        handled frame ((pre ++ [Audited (entry_of role session_id sql DAllow "ok" None) ts]) ++ ToBackend (frame_bytes frame) :: post)) as Hfw.
      { intros post Hp. right. eexists. split; [exact Hd|]. split; [done|right]. exists pre, ts, post. by rewrite <- app_assoc. }
      eapply runs_weaken; [apply forward_sent|..].
      * intros ? es (post & -> & Hp). by apply Hfw.
      * intros es [->|(post & -> & Hp)]; [|by apply Hfw]. apply Hpre. rewrite app_nil_r, sent_app, H1. simpl. by rewrite app_nil_r.
  - cbn [admit_sql]. eapply runs_bind with (Q1 := fun r es => r = None /\ es = []); [by apply runs_ret|done|].
    intros ? ? [-> ->]. simpl. assert (forall post, sent post = [] -> handled frame (ToBackend (frame_bytes frame) :: post)) as Hfw.
    { intros post Hp. right. exists msg. split; [done|]. destruct msg; try done; simpl; by rewrite Hp. }
    eapply runs_weaken; [apply forward_sent|..].
    + intros ? es (post & -> & Hp). by apply Hfw.
    + intros es [->|(post & -> & Hp)]; [by left|by apply Hfw].
  - eapply runs_weaken; [apply runs_quiet|by intros; left..]. unfold reject. pose proof send_error_then_ready_quiet. emits_tac.
  - eapply runs_weaken; [apply runs_quiet|by intros; left..]. unfold block. emits_tac.
Qed.

Lemma query_rounds_mediated fuel window pending w :
  exists es, trace (query_rounds parse_sql visit_expressions debug_str cfg role session_id fuel window pending w).1 = trace w ++ es /\
    mediated (frames_of fuel (agent_in w)) es.
Proof.
  revert window pending w. induction fuel as [|fuel IH]; intros window pending w; cbn [query_rounds frames_of].
  { exists []. rewrite app_nil_r. split; [done|]. by apply mediated_end. }
  unfold bind at 1. unfold agent_read.
  destruct (read_tagged_frame (agent_in w)) as [[[frame|] r]|e] eqn:E;
    [|exists []; rewrite app_nil_r; split; [done|]; by apply mediated_end..].
  assert (forall A (m : M A) (k : A -> M unit), (forall n, steady n m) -> runs m (fun _ => handled frame) (handled frame) ->
            (forall a w1, exists es, trace (k a w1).1 = trace w1 ++ es /\ mediated (frames_of fuel (agent_in w1)) es) ->
            exists es, trace (bind m k (set_agent_in w r)).1 = trace w ++ es /\ mediated (frame :: frames_of fuel r) es) as Hstep.
  { intros A m k Hm Hr Hk. destruct (Hm (S (length (backend_in w))) (set_agent_in w r)) as (_ & Hin & _); [simpl; lia|].
    destruct (Hr (set_agent_in w r)) as (es1 & E1 & H1). unfold bind. destruct (m _) as [w1 [a|x]]; simpl in *.
    - destruct (Hk a w1) as (es2 & E2 & H2). exists (es1 ++ es2). rewrite E2, E1, app_assoc. split; [done|].
      rewrite Hin in H2. by apply mediated_frame.
    - exists es1. split; [done|]. by apply mediated_last. }
  assert (forall A (m : M A) (k : A -> M unit), (forall n, steady n m) -> emits quiet m ->
            (forall a w1, exists es, trace (k a w1).1 = trace w1 ++ es /\ mediated (frames_of fuel (agent_in w1)) es) ->
            exists es, trace (bind m k (set_agent_in w r)).1 = trace w ++ es /\ mediated (frame :: frames_of fuel r) es) as Hskip.
  { intros A m k Hm Hq. apply Hstep; [done|]. eapply runs_weaken; [by apply runs_quiet|by intros; left..]. }
  destruct (Frontend.decode _ _) as [msg|e] eqn:Hd.
  - assert (exists es, trace (bind (enforce_frame parse_sql visit_expressions debug_str cfg role session_id frame msg window)
      (fun '(window, pending) => query_rounds parse_sql visit_expressions debug_str cfg role session_id fuel window pending)
      (set_agent_in w r)).1 = trace w ++ es /\ mediated (frame :: frames_of fuel r) es) as He.
    { apply Hstep; [intros; apply steady_enforce_frame|by apply enforce_frame_handled|]. intros [] ?. apply IH. }
    assert (forall err, exists es, trace (bind (skip_frame err msg)
      (fun pending => query_rounds parse_sql visit_expressions debug_str cfg role session_id fuel window pending)
      (set_agent_in w r)).1 = trace w ++ es /\ mediated (frame :: frames_of fuel r) es) as Hs.
    { intros err. pose proof send_error_then_ready_quiet.
      apply Hskip; [intros n; unfold skip_frame, send_error_then_ready, agent_send; steady_tac|unfold skip_frame; emits_tac|].
      intros ? ?. apply IH. }
    destruct msg, pending; try exact He; try apply Hs;
      (exists []; rewrite app_nil_r; split; [done|]; by apply mediated_end).
  - apply Hskip; [intros n; unfold malformed_frame, reject; steady_tac|unfold malformed_frame, reject; emits_tac|]. intros ? ?. apply IH.
Qed.

(** C6: the enforced query loop mediates everything the backend is sent.  Whatever bytes
    the agent and the backend send, wherever the session ends and with whatever error: the
    frames the agent's bytes parse to are handled in their order, each at most once.  While
    a frame is handled nothing is sent, or the frame itself, byte for byte, when it is
    neither a simple query nor part of a COPY; when it is a Parse its statement classifies
    as a read, and before it comes, complete, the proxy's own EXPLAIN of that statement
    (unless it is an EXPLAIN itself) and then immediately the audit record of its
    allowance; a Parse that is not let through leaves no more than that EXPLAIN. *)
Theorem backend_is_sent_only_audited_reads (w : World) :
  exists es, trace (query_loop parse_sql visit_expressions debug_str cfg role session_id w).1 = trace w ++ es /\
    mediated (agent_frames (agent_in w)) es.
Proof. apply query_rounds_mediated. Qed.
End sent.

(** A header that is cut short is looked at for ever. *)
Lemma peek_exact_cases fuel n w :
  (0 < n)%nat ->
  (peek_exact (S fuel) n w).2 = Err NoFuel <-> (0 < length (agent_in w) < n)%nat.
Proof.
  intros Hn. split.
  - induction fuel as [|fuel IH]; cbn [peek_exact]; rewrite !length_take;
      (destruct (Nat.leb_spec n (Nat.min n (length (agent_in w)))); [done|]);
      (destruct (Nat.eqb_spec (Nat.min n (length (agent_in w))) 0); [done|]); intros _; lia.
  - intros Hl. induction fuel as [|fuel IH].
    + cbn [peek_exact]. rewrite !length_take.
      destruct (Nat.leb_spec n (Nat.min n (length (agent_in w)))); [lia|].
      by destruct (Nat.eqb_spec (Nat.min n (length (agent_in w))) 0); [lia|].
    + cbn [peek_exact] in *. rewrite !length_take in *.
      destruct (Nat.leb_spec n (Nat.min n (length (agent_in w)))); [lia|].
      by destruct (Nat.eqb_spec (Nat.min n (length (agent_in w))) 0); [lia|].
Qed.

(** *** Start-up *)

(** What may be said in clear on an endpoint that requires TLS: the answer to an
    [SSLRequest] and a fatal error. *)
Definition greeting (e : Event) : Prop :=
  match e with
  | ToAgent false bytes =>
      bytes = [x53] \/ bytes = [x4e] \/
      exists code message, bytes = Backend.encode (Backend.ErrorResponse (diagnostics "FATAL" code message))
  | ToAgent true _ => True
  | _ => False
  end.

Lemma agent_write_run bytes w :
  agent_write bytes w =
    match agent_room w with
    | O => (w, Err (Failed SIo))
    | S room => (emit (set_rooms w room (backend_room w)) (ToAgent (encrypted w) bytes), Ok tt)
    end.
Proof. done. Qed.

Lemma peek_exact_state fuel n w : (peek_exact fuel n w).1 = w.
Proof. induction fuel as [|fuel IH]; simpl; [done|]. repeat case_match; done. Qed.

(** The stream behind the opening: an [SSLRequest] is consumed, and with an acceptor what
    follows is what TLS decrypts it to. *)
Definition ssl_request : list byte := [x00; x00; x00; x08; x04; xd2; x16; x2f].

Definition opened (acceptor : option (list byte -> option (list byte))) (input : list byte) : option (bool * list byte) :=
  if decide (take 8 input = ssl_request) then
    match acceptor with
    | Some accept => plain ← accept (drop 8 input); Some (true, plain)
    | None => Some (false, drop 8 input)
    end
  else Some (false, input).

Lemma is_ssl_request_spec head : length head = 8%nat -> is_ssl_request head = bool_decide (head = ssl_request).
Proof.
  intros Hl. apply eq_true_iff_eq. rewrite bool_decide_eq_true. split; [|by intros ->].
  unfold is_ssl_request. rewrite andb_true_iff, Z.eqb_eq. intros [Hc H8].
  assert (length (take 4 head) = 4%nat) as H1 by (rewrite length_take; lia).
  assert (length (drop 4 head) = 4%nat) as H2 by (rewrite length_drop; lia).
  destruct (be_bytes_to_signed 4 _ ltac:(lia) H1) as [E1 _]. destruct (be_bytes_to_signed 4 _ ltac:(lia) H2) as [E2 _].
  assert (to_signed 32 (be_val (drop 4 head)) = Frontend.SSL_REQUEST_CODE) as Hcode.
  { revert Hc. unfold Frontend.ssl_decode_body, get_i32, get_bytes, ensure, split_to, rbind, rret. rewrite H2. simpl.
    rewrite (take_ge (drop 4 head)) by lia. by destruct (Z.eqb_spec (to_signed 32 (be_val (drop 4 head))) Frontend.SSL_REQUEST_CODE). }
  change (8 * Z.of_nat 4) with 32 in *. rewrite H8 in E1. rewrite Hcode in E2.
  rewrite <- (take_drop 4 head), <- E1, <- E2. reflexivity.
Qed.

Lemma peek_exact_head fuel n w head : (peek_exact fuel n w).2 = Ok head -> head = take n (agent_in w) /\ length head = n.
Proof.
  induction fuel as [|fuel IH]; simpl; [done|]. destruct (Nat.leb_spec n (length (take n (agent_in w)))) as [Hl|].
  - intros [= <-]. split; [done|]. rewrite length_take in *. lia.
  - by destruct (Nat.eqb_spec (length (take n (agent_in w))) 0).
Qed.

(** From a connection in clear: only greetings are said, the flag returned is the
    stream's, a required TLS is there, and the stream goes on behind the opening. *)
Lemma startup_and_tls_spec fuel acceptor require w :
  encrypted w = false ->
  let '(w', r) := startup_and_tls fuel acceptor require w in
  (exists es, trace w' = trace w ++ es /\ Forall greeting es) /\
  (forall b, r = Ok b -> encrypted w' = b /\ (require = true -> b = true) /\ opened acceptor (agent_in w) = Some (b, agent_in w')).
Proof.
  intros Hw. unfold startup_and_tls, negotiate, bind. pose proof (peek_exact_state fuel 8 w) as Hp.
  pose proof (peek_exact_head fuel 8 w) as Hh.
  destruct (peek_exact fuel 8 w) as [w1 [head|e]]; simpl in Hp; subst w1.
  2:{ split; [exists []; by rewrite app_nil_r|done]. }
  destruct (Hh head eq_refl) as [-> Hl]. unfold opened. rewrite is_ssl_request_spec by done.
  assert (forall bytes es, greeting (ToAgent false bytes) -> es = [ToAgent (encrypted w) bytes] ->
    exists es', trace w ++ es = trace w ++ es' /\ Forall greeting es') as H1.
  { intros bytes es Hg ->. rewrite Hw. eexists. split; [done|]. by apply Forall_singleton. }
  assert (exists es, trace w = trace w ++ es /\ Forall greeting es) as Hnone by (exists []; by rewrite app_nil_r).
  case_bool_decide as Hssl; [rewrite decide_True by done|rewrite decide_False by done]; simpl.
  - destruct acceptor as [accept|]; rewrite agent_write_run; simpl; destruct (agent_room w); simpl; try done.
    + unfold tls_upgrade. simpl. destruct (accept _) eqn:Eacc; simpl; (split; [|naive_solver]);
        apply (H1 [x53] [ToAgent (encrypted w) [x53]]); simpl; auto.
    + destruct require; simpl; (split; [apply (H1 [x4e] [ToAgent (encrypted w) [x4e]]); simpl; auto|naive_solver]).
  - destruct require; simpl; [|split; [done|naive_solver]].
    unfold send_fatal, agent_send. rewrite agent_write_run. destruct (agent_room w); simpl; [done|].
    split; [|done]. eapply H1; [|done]. simpl. eauto.
Qed.

Lemma ends_negotiate acceptor require head : ends (negotiate acceptor require head).
Proof. unfold negotiate, send_fatal, agent_send. ends_tac. Qed.

Section served.
Context (sha256 : list byte -> list byte) (hmac : list byte -> list byte -> list byte).
Context (pbkdf2 : list byte -> list byte -> Z -> list byte).
Context (b64_encode : list byte -> list byte) (b64_decode : list byte -> option (list byte)).
Context (parse_sql : string -> option (list Classifier.Statement)).
Context (visit_expressions : Classifier.Statement -> list Classifier.Expr).
Context (debug_str : string -> string).
Context (random_salt random_nonce : list byte) (cfg : ProxyConfig) (role session_id : string).
Context (acceptor : option (list byte -> option (list byte))).

Definition serve (peeks : nat) : M unit :=
  serve_connection sha256 hmac pbkdf2 b64_encode b64_decode parse_sql visit_expressions debug_str peeks random_salt
    random_nonce cfg acceptor role session_id.

Definition authenticate : M unit :=
  authenticate_agent sha256 hmac pbkdf2 b64_encode b64_decode random_salt random_nonce cfg.

(** After the TLS check: the start-up message, and the session proper. *)
Definition read_startup : M unit :=
  do! body := agent_read_startup in
  do! startup := try SProtocol (Frontend.startup_decode_body body) in
  if negb (Frontend.protocol_version startup =? Frontend.PROTOCOL_VERSION_3) then
    do! _ := send_fatal "0A000" "unsupported protocol version" in
    fail (SHandshake "unsupported protocol version")
  else ret tt.

Definition after_auth : M unit :=
  do! server_version := connect_backend (backend cfg) (statement_timeout_ms cfg) (search_path cfg) in
  do! _ := finish_agent_startup server_version in
  query_loop parse_sql visit_expressions debug_str cfg role session_id.

Lemma bind_assoc {A B D} (m : M A) (k : A -> M B) (h : B -> M D) w :
  bind (bind m k) h w = bind m (fun a => bind (k a) h) w.
Proof. unfold bind. by destruct (m w) as [? []]. Qed.

Lemma bind_ext {A B} (m : M A) (k k' : A -> M B) w : (forall a w, k a w = k' a w) -> bind m k w = bind m k' w.
Proof. intros Hk. unfold bind. by destruct (m w) as [? []]. Qed.

(** The connection in three stages. *)
Lemma serve_stages peeks w :
  serve peeks w =
  (do! is_encrypted := startup_and_tls peeks acceptor (require_tls cfg) in
   if require_tls cfg && negb is_encrypted then
     do! _ := send_fatal "08P01" TLS_REQUIRED_UNENCRYPTED in
     fail (SHandshake "require_tls: refused unencrypted session")
   else do! _ := read_startup in do! _ := authenticate in after_auth) w.
Proof.
  unfold serve, serve_connection. apply bind_ext. intros enc w1. destruct (require_tls cfg && negb enc); [done|].
  unfold read_startup. rewrite bind_assoc. apply bind_ext. intros body w2. rewrite bind_assoc. apply bind_ext.
  intros st w3. destruct (negb _); [|done]. unfold bind. by destruct (send_fatal _ _ w3) as [? []].
Qed.

Lemma read_startup_quiet : emits quiet read_startup.
Proof. unfold read_startup, send_fatal, agent_send, fail. emits_tac. Qed.

Lemma ends_read_startup : ends read_startup.
Proof. unfold read_startup, send_fatal, agent_send. ends_tac. Qed.

Lemma ends_after_auth : ends after_auth.
Proof.
  unfold after_auth, finish_agent_startup, agent_send.
  pose proof (ends_connect_backend (backend cfg) (statement_timeout_ms cfg) (search_path cfg)) as H1.
  pose proof (query_loop_ends parse_sql visit_expressions debug_str cfg role session_id) as H2.
  apply ends_bind; [done|]. intros v. apply ends_bind; [|done]. ends_tac.
Qed.

(** *** The agent's proof *)

Lemma bind_ok {A B} (m : M A) (k : A -> M B) w w' b :
  bind m k w = (w', Ok b) -> exists w1 a, m w = (w1, Ok a) /\ k a w1 = (w', Ok b).
Proof. unfold bind. destruct (m w) as [w1 [a|e]]; [|done]. eauto. Qed.

Lemma agent_send_in m w w' u : agent_send m w = (w', Ok u) -> agent_in w' = agent_in w.
Proof. unfold agent_send, agent_write. destruct (agent_room w); [done|]. by intros [= <- <-]. Qed.

Lemma read_p_ok eof not_p w w' body :
  read_p eof not_p w = (w', Ok body) ->
  exists f, read_tagged_frame (agent_in w) = Ok (Some f, agent_in w') /\ frame_body f = body /\ frame_tag f = "p"%byte.
Proof.
  unfold read_p. intros (w1 & o & Hr & Hk)%bind_ok. unfold agent_read in Hr.
  destruct (read_tagged_frame (agent_in w)) as [[o' rest]|] eqn:E; [|done]. injection Hr as <- <-.
  apply bind_ok in Hk as (w2 & f & Ho & Hk). destruct o' as [f'|]; [|done]. injection Ho as <- <-.
  case_bool_decide; [|done]. injection Hk as <- <-. exists f'. done.
Qed.

Lemma try_ok {E A} conv (r : result E A) w w' a : try conv r w = (w', Ok a) -> w' = w /\ r = Ok a.
Proof. destruct r; simpl; [by intros [= -> ->]|done]. Qed.

Lemma ok_or_ok {A} e (o : option A) w w' a : ok_or e o w = (w', Ok a) -> w' = w /\ o = Some a.
Proof. destruct o; simpl; [by intros [= -> ->]|done]. Qed.

Lemma utf8_or_ok what l w w' a : utf8_or what l w = (w', Ok a) -> w' = w /\ a = l.
Proof. unfold utf8_or. destruct (utf8_valid l); [by intros [= -> ->]|done]. Qed.

(** What follows the start-up message of an agent that proved it knows the password, and
    what it is answered.  Two ['p'] frames: a SASL initial response for SCRAM-SHA-256, with
    the client's nonce; and a final message that repeats that nonce with this handshake's
    own behind it, and carries the proof the configured password yields for the exchange of
    exactly these messages, or one that claims another key of the same SHA-256. *)
Definition proved_password (input answer : list byte) : Prop :=
  exists f1 r1 first bare client_nonce f2 r2 binding p64 proof,
    read_tagged_frame input = Ok (Some f1, r1) /\ frame_tag f1 = "p"%byte /\
    Frontend.sasl_initial_decode_body_from (frame_body f1) = Ok (Frontend.mkSaslInitial "SCRAM-SHA-256" (Some first)) /\
    Scram.strip_gs2_header first = Ok bare /\ Scram.field bare "r"%byte = Some client_nonce /\
    read_tagged_frame r1 = Ok (Some f2, r2) /\ frame_tag f2 = "p"%byte /\
    Scram.field (frame_body f2) "c"%byte = Some binding /\
    Scram.field (frame_body f2) "r"%byte = Some (client_nonce ++ b64_encode random_nonce) /\
    Scram.field (frame_body f2) "p"%byte = Some p64 /\ b64_decode p64 = Some proof /\ length proof = 32%nat /\
    let server_first := Scram.text "r=" ++ (client_nonce ++ b64_encode random_nonce) ++ Scram.text ",s=" ++
                        b64_encode random_salt ++ Scram.text ",i=4096" in
    let exchange := bare ++ Scram.text "," ++ server_first ++ Scram.text "," ++ Scram.text "c=" ++ binding ++
                    Scram.text ",r=" ++ client_nonce ++ b64_encode random_nonce in
    let password_key := Scram.client_key_of hmac pbkdf2 (agent_password cfg) random_salt 4096 in
    let claimed := Scram.claimed_key sha256 hmac pbkdf2 (agent_password cfg) random_salt 4096 exchange proof in
    answer = Scram.text "v=" ++
      b64_encode (hmac (hmac (pbkdf2 (as_bytes (agent_password cfg)) random_salt 4096) (Scram.text "Server Key")) exchange) /\
    (proof = Scram.client_proof sha256 hmac pbkdf2 (agent_password cfg) random_salt 4096 exchange \/
     (claimed <> password_key /\ sha256 claimed = sha256 password_key)).

Lemma agent_send_last m w w' u : agent_send m w = (w', Ok u) -> trace w' = trace w ++ [ToAgent (encrypted w) (Backend.encode m)].
Proof. unfold agent_send, agent_write. destruct (agent_room w); [done|]. by intros [= <- <-]. Qed.

Lemma authenticate_ok (laws : Scram.CryptoLaws hmac b64_encode b64_decode) w w' :
  authenticate w = (w', Ok tt) ->
  exists answer es, proved_password (agent_in w) answer /\
    trace w' = es ++ [ToAgent (encrypted w') (Backend.encode (Backend.AuthenticationSaslFinal answer))].
Proof.
  unfold authenticate, authenticate_agent. intros (w1 & u1 & H1 & H2)%bind_ok. apply agent_send_in in H1.
  apply bind_ok in H2 as (w2 & body & Hp & H2). apply read_p_ok in Hp as (f1 & Ef1 & <- & Ht1). rewrite H1 in Ef1.
  apply bind_ok in H2 as (w3 & [mech ir] & [-> Ei]%try_ok & H2). cbn [Frontend.mechanism] in H2.
  case_bool_decide as Hm; [|by apply bind_ok in H2 as (w4 & u4 & _ & H2)]. subst mech. cbn [negb] in H2.
  apply bind_ok in H2 as (w4 & first & [-> Efirst]%ok_or_ok & H2). simpl in Efirst. subst ir.
  apply bind_ok in H2 as (w5 & first' & [-> ->]%utf8_or_ok & H2).
  apply bind_ok in H2 as (w6 & [server challenge] & [-> Eh]%try_ok & H2).
  apply bind_ok in H2 as (w7 & u7 & H7%agent_send_in & H2).
  apply bind_ok in H2 as (w8 & body & Hp & H2). apply read_p_ok in Hp as (f2 & Ef2 & <- & Ht2). rewrite H7 in Ef2.
  apply bind_ok in H2 as (w9 & response & [-> Er]%try_ok & H2).
  apply bind_ok in H2 as (w10 & final & [-> ->]%utf8_or_ok & H2).
  injection Er as <-. cbn [Frontend.sasl_data] in H2.
  destruct (Scram.handle_client_final _ _ _ _ _ _) as [answer|e] eqn:Ef; [|by apply bind_ok in H2 as (w11 & u11 & _ & H2)].
  exists answer, (trace w8). split.
  - destruct (Scram.accepted_proof _ _ _ _ _ laws _ _ _ _ _ _ _ _ _ Eh Ef)
      as (bare & cn & binding & p64 & proof & Hb & Hn & -> & Hc & Hr & Hpf & Hd & Hl & Hans & Hproof).
    exists f1, (agent_in w2), first, bare, cn, f2, (agent_in w8), binding, p64, proof. by split_and!.
  - pose proof (agent_send_last _ _ _ _ H2) as ->. revert H2. unfold agent_send, agent_write.
    destruct (agent_room w8); [done|]. by intros [= <-].
Qed.

(** *** The connection *)

(** C29: a connection always ends, except on a header cut short: whatever either peer
    sends, the task of a connection runs for ever exactly when the agent closes its side
    after sending between one and seven bytes. *)
Theorem connection_ends_iff (peeks : nat) (w : World) :
  (serve (S peeks) w).2 = Err NoFuel <-> (0 < length (agent_in w) < 8)%nat.
Proof.
  rewrite <- (peek_exact_cases peeks 8 w) by lia. rewrite serve_stages. unfold startup_and_tls. rewrite bind_assoc.
  unfold bind at 1. destruct (peek_exact (S peeks) 8 w) as [w1 [head|e]]; simpl; [|split; congruence].
  split; [|done]. intros Hn. exfalso. revert Hn. apply ends_bind; [apply ends_negotiate|]. intros enc.
  pose proof ends_read_startup. pose proof ends_after_auth.
  pose proof (ends_authenticate sha256 hmac pbkdf2 b64_encode b64_decode random_salt random_nonce cfg).
  unfold send_fatal, agent_send. destruct (_ && _); [ends_tac|].
  apply ends_bind; [done|]. intros ?. by apply ends_bind.
Qed.

(** *** Everything a session does goes out under the encryption in force *)

Definition anything (e : Event) : Prop := True.

Lemma backend_send_any ms : emits anything (backend_send ms).
Proof. induction ms; simpl; emits_tac. Qed.

Lemma wait_loop_any fuel target v : emits anything (wait_loop fuel target v).
Proof.
  revert v. induction fuel as [|fuel IH]; intros; cbn [wait_loop]; [apply emits_stop|].
  apply emits_bind; [apply emits_backend_read|intros f]. unfold fail. emits_tac.
Qed.

Lemma drain_loop_any fuel : emits anything (drain_loop fuel).
Proof.
  induction fuel as [|fuel IH]; cbn [drain_loop]; [apply emits_stop|].
  apply emits_bind; [apply emits_backend_read|intros f]. unfold fail. emits_tac.
Qed.

Lemma drain_to_ready_any : emits anything drain_to_ready.
Proof. intros w. apply drain_loop_any. Qed.

Lemma connect_backend_any target timeout path : emits anything (connect_backend target timeout path).
Proof.
  unfold connect_backend, inject_search_path, inject_statement_timeout, send_extended_unit.
  assert (emits anything (wait_for_ready target)) as Hw by (intros w; apply wait_loop_any).
  pose proof backend_send_any. pose proof drain_to_ready_any. emits_tac.
Qed.

Lemma quiet_any {A} (m : M A) : emits quiet m -> emits anything m.
Proof. intros Hm. by apply (emits_weaken quiet). Qed.

Lemma enforce_frame_any frame msg window :
  emits anything (enforce_frame parse_sql visit_expressions debug_str cfg role session_id frame msg window).
Proof.
  assert (forall sql, emits anything (run_explain_on_backend sql)) as He.
  { intros sql. unfold run_explain_on_backend. apply emits_bind; [apply backend_send_any|]. intros u w.
    apply quiet_any, explain_loop_quiet. }
  pose proof (fun window => quiet_any _ (relay_until_ready_quiet cfg role session_id window)) as Hr.
  unfold enforce_frame, admit_sql, explain_preflight, explain_decision, block, allow, reject, forward_to_backend,
    send_error_then_ready, agent_send.
  destruct (gate _ _ _) as [o|kind code message|sql code message]; [|by emits_tac..].
  apply emits_bind.
  - destruct o as [sql|]; [|apply emits_ret]. apply emits_bind; [|intros []; by emits_tac].
    destruct (Classifier.is_explain _ _); [apply emits_ret|]. apply emits_bind; [apply He|intros plan]. by emits_tac.
  - intros [pe|]; [apply emits_ret|]. apply emits_bind; [by emits_tac|intros u].
    apply emits_bind; [|intros; apply emits_ret]. destruct (is_sync msg); [apply Hr|apply emits_ret].
Qed.

Lemma query_rounds_any fuel window pending :
  emits anything (query_rounds parse_sql visit_expressions debug_str cfg role session_id fuel window pending).
Proof.
  revert window pending. induction fuel as [|fuel IH]; intros; cbn [query_rounds]; [apply emits_stop|].
  apply emits_bind; [apply emits_agent_read|]. intros [frame|]; [|apply emits_ret].
  destruct (Frontend.decode _ _) as [msg|e].
  - pose proof (enforce_frame_any frame msg window) as He.
    assert (forall err, emits anything (skip_frame err msg)) as Hs.
    { intros err. unfold skip_frame, send_error_then_ready, agent_send. by emits_tac. }
    destruct msg, pending; try apply emits_ret; apply emits_bind; try apply Hs; try apply He; intros x; try apply IH;
      destruct x; apply IH.
  - apply emits_bind; [|intros; apply IH]. unfold malformed_frame, reject. by emits_tac.
Qed.

Lemma after_auth_any : emits anything after_auth.
Proof.
  unfold after_auth. apply emits_bind; [apply connect_backend_any|intros v].
  apply emits_bind; [apply quiet_any, finish_agent_startup_quiet|intros u w]. apply query_rounds_any.
Qed.

Lemma authenticate_quiet : emits quiet authenticate.
Proof. apply authenticate_agent_quiet. Qed.

(** In clear, nothing but a greeting. *)
Definition discreet (e : Event) : Prop := match e with ToAgent false _ => greeting e | _ => True end.

Lemma says_true_discreet es : Forall (says true) es -> Forall discreet es.
Proof. intros Hes. eapply Forall_impl; [exact Hes|]. intros [[] ?| | | |]; done. Qed.

(** C28: no cleartext on an endpoint that requires TLS: whatever the agent sends and
    however the connection ends, the only bytes ever written to it unencrypted are the
    one-byte answer to an [SSLRequest] and a fatal error. *)
Theorem required_tls_never_speaks_in_clear (peeks : nat) (w : World) :
  require_tls cfg = true -> encrypted w = false -> trace w = [] -> Forall discreet (trace (serve peeks w).1).
Proof.
  intros Hreq Henc Htr. rewrite serve_stages. unfold bind at 1.
  pose proof (startup_and_tls_spec peeks acceptor (require_tls cfg) w Henc) as Hs.
  destruct (startup_and_tls _ _ _ w) as [w1 r]. destruct Hs as [(es & E & Hes) Hok]. rewrite Htr in E. simpl in E.
  assert (Forall discreet (trace w1)) as H1.
  { rewrite E. eapply Forall_impl; [exact Hes|]. by intros [[] ?| | | |]. }
  destruct r as [enc|e]; [|done]. destruct (Hok enc eq_refl) as (Henc1 & Htrue & _). rewrite (Htrue Hreq) in *.
  rewrite andb_false_r.
  assert (emits anything (do! _ := read_startup in do! _ := authenticate in after_auth)) as Hrest.
  { apply emits_bind; [apply quiet_any, read_startup_quiet|intros ?].
    apply emits_bind; [apply quiet_any, authenticate_quiet|intros ?]. apply after_auth_any. }
  destruct (Hrest w1) as (_ & es' & E' & _ & Hsays). rewrite E', Henc1 in *. apply Forall_app. split; [done|].
  by apply says_true_discreet.
Qed.

Lemma read_startup_ok w w' :
  read_startup w = (w', Ok tt) ->
  exists body st, read_startup_body (agent_in w) = Ok (body, agent_in w') /\ Frontend.startup_decode_body body = Ok st /\
    Frontend.protocol_version st = 196608.
Proof.
  unfold read_startup. intros (w1 & body & Hb & H1)%bind_ok. unfold agent_read_startup in Hb.
  destruct (read_startup_body (agent_in w)) as [[body' rest]|] eqn:E; [|done]. injection Hb as <- <-.
  apply bind_ok in H1 as (w2 & st & [-> Es]%try_ok & H1).
  destruct (Z.eqb_spec (Frontend.protocol_version st) Frontend.PROTOCOL_VERSION_3) as [Hv|]; simpl in H1.
  - injection H1 as <-. exists body', st. by split_and!.
  - by apply bind_ok in H1 as (w3 & u3 & _ & H1).
Qed.

(** C11: the backend is out of reach until the agent has proved itself.  If a connection
    has sent the backend anything at all, then the bytes the agent sent, behind the opening
    (through TLS if TLS is required) and a start-up message of protocol 3.0, are a SCRAM
    handshake whose final message repeats this connection's nonce and carries the proof the
    configured password yields for exactly that exchange (or one that exhibits two keys of
    one SHA-256); and the first byte to the backend comes after the server's final answer
    to it. *)
Theorem backend_reached_only_by_proof (laws : Scram.CryptoLaws hmac b64_encode b64_decode) (peeks : nat) (w : World)
    (bytes : list byte) :
  encrypted w = false -> trace w = [] -> ToBackend bytes ∈ trace (serve peeks w).1 ->
  exists enc plain body st rest answer pre post,
    opened acceptor (agent_in w) = Some (enc, plain) /\ (require_tls cfg = true -> enc = true) /\
    read_startup_body plain = Ok (body, rest) /\ Frontend.startup_decode_body body = Ok st /\
    Frontend.protocol_version st = 196608 /\ proved_password rest answer /\
    trace (serve peeks w).1 = pre ++ ToAgent enc (Backend.encode (Backend.AuthenticationSaslFinal answer)) :: post /\
    Forall quiet pre.
Proof.
  intros Henc Htr. destruct (serve peeks w) as [w' r'] eqn:Es. cbn [fst]. intros Hin.
  rewrite serve_stages in Es. unfold bind at 1 in Es.
  pose proof (startup_and_tls_spec peeks acceptor (require_tls cfg) w Henc) as Hs.
  destruct (startup_and_tls _ _ _ w) as [w1 r]. destruct Hs as [(es & E & Hes) Hok]. rewrite Htr in E. simpl in E.
  assert (Forall quiet (trace w1)) as H1.
  { rewrite E. eapply Forall_impl; [exact Hes|]. by intros []. }
  assert (Forall quiet (trace w') -> False) as Hno.
  { intros Hq. rewrite List.Forall_forall in Hq. apply (Hq (ToBackend bytes)). by apply list_elem_of_In. }
  assert (forall A (m : M A) w', emits quiet m -> Forall quiet (trace w') -> Forall quiet (trace (m w').1)) as Hmore.
  { intros A m w'' Hm Hq. destruct (Hm w'') as (_ & es' & -> & Hes' & _). by apply Forall_app. }
  destruct r as [enc|e]; [|injection Es as <- <-; by destruct Hno]. destruct (Hok enc eq_refl) as (Henc1 & Htrue & Hop).
  destruct (require_tls cfg && negb enc) eqn:Ereq.
  { destruct Hno. apply (f_equal (fun x => trace x.1)) in Es. simpl in Es. rewrite <- Es. apply Hmore; [|done].
    unfold send_fatal, agent_send, fail. emits_tac. }
  unfold bind at 1 in Es. pose proof (Hmore _ read_startup w1 read_startup_quiet H1) as H2.
  destruct (read_startup_quiet w1) as ([Henc2 _] & _).
  destruct (read_startup w1) as [w2 [[]|e]] eqn:Er; simpl in *; [|injection Es as <- <-; by destruct Hno].
  unfold bind at 1 in Es. pose proof (Hmore _ authenticate w2 authenticate_quiet H2) as H3.
  destruct (authenticate_quiet w2) as ([Henc3 _] & _).
  destruct (authenticate w2) as [w3 [[]|e]] eqn:Ea; simpl in *; [|injection Es as <- <-; by destruct Hno].
  destruct (read_startup_ok _ _ Er) as (body & st & Hb & Hst & Hv).
  destruct (authenticate_ok laws _ _ Ea) as (answer & pre & Hproved & Hlast).
  destruct (after_auth_any w3) as (_ & es' & E' & _). rewrite Es in E'. simpl in E'.
  exists enc, (agent_in w1), body, st, (agent_in w2), answer, pre, es'. split_and!; auto.
  - rewrite E', Hlast, <- app_assoc, Henc3, Henc2, Henc1. done.
  - rewrite Hlast in H3. by apply Forall_app in H3 as [? _].
Qed.
End served.

(** *** What the agent is shown *)

(** The payload of a row on its way to the agent: a [DataRow] or a [CopyData]. *)
Definition row_size (bytes : list byte) : option Z :=
  match bytes with
  | t :: rest => if is_row t then Some (Z.of_nat (length rest) - 4) else None
  | [] => None
  end.

(** The rows of a trace, each with the last reading of the clock before it. *)
Fixpoint row_log (now : Z) (es : list Event) : list (Z * Z) :=
  match es with
  | [] => []
  | ClockRead t :: es => row_log t es
  | ToAgent _ bytes :: es =>
      match row_size bytes with Some n => (now, n) :: row_log now es | None => row_log now es end
  | _ :: es => row_log now es
  end.

Fixpoint last_clock (now : Z) (es : list Event) : Z :=
  match es with
  | [] => now
  | ClockRead t :: es => last_clock t es
  | _ :: es => last_clock now es
  end.

Lemma row_log_app now es1 es2 : row_log now (es1 ++ es2) = row_log now es1 ++ row_log (last_clock now es1) es2.
Proof.
  revert now. induction es1 as [|[? bytes| | | |] es1 IH]; intros now; simpl; auto.
  destruct (row_size bytes); simpl; by rewrite IH.
Qed.

(** Events that show the agent no row. *)
Definition rowless (e : Event) : Prop := match e with ToAgent _ bytes => row_size bytes = None | _ => True end.

Lemma row_log_rowless now es : Forall rowless es -> row_log now es = [].
Proof.
  intros Hes. revert now. induction Hes as [|[? bytes| | | |] es He _ IH]; intros now; simpl in *; auto.
  by rewrite He.
Qed.

Lemma frame_row_size f :
  row_size (frame_bytes f) = if is_row (frame_tag f) then Some (Z.of_nat (length (frame_body f))) else None.
Proof.
  unfold frame_bytes, frame_tagged, put_u8. cbn [app row_size]. destruct (is_row (frame_tag f)); [|done].
  f_equal. rewrite length_app. unfold put_i32. rewrite be_bytes_length. lia.
Qed.

Lemma forward_rowless f : is_row (frame_tag f) = false -> emits rowless (forward_to_agent f).
Proof. intros Hf. apply emits_agent_write. intros enc. unfold rowless. by rewrite frame_row_size, Hf. Qed.

Lemma report_cutoff_rowless role sid code message : emits rowless (report_cutoff role sid code message).
Proof. unfold report_cutoff, block, agent_send. emits_tac. Qed.

Lemma starts_copy_not_row f : Frontend.backend_starts_copy f = true -> is_row (frame_tag f) = false.
Proof. unfold Frontend.backend_starts_copy. by destruct (frame_tag f). Qed.

(** One round of the relay, as the rules of the two budgets see it: a frame that is not a
    row, or a row that is suppressed, or a row that is charged. *)
Lemma relay_loop_spec {role sid} (Inv : Budget.Budget -> Window.WindowMeter -> World -> Prop) (J : World -> Prop) fuel b
    cut_off in_copy window :
  (forall b window w, Inv b window w -> J w) ->
  (forall A (m : M A) b window, emits rowless m -> keeps (Inv b window) m) ->
  (forall b window f, is_row (frame_tag f) = true ->
     match Budget.charge_row b (Z.of_nat (length (frame_body f))) with
     | (b', Budget.Within _ _) => spec (Inv b window) (relay_row role sid f window) (Inv b') J
     | (b', Budget.Exceeded _ _ _) => forall w, Inv b window w -> Inv b' window w
     end) ->
  spec (Inv b window) (relay_loop role sid fuel b cut_off in_copy window) (fun window w => exists b, Inv b window w) J.
Proof.
  intros HJ Hkeep Hrow. revert b cut_off in_copy window.
  assert (forall A (m : M A) b window, emits rowless m -> spec (Inv b window) m (fun _ => Inv b window) J) as Hk.
  { intros A m b window Hm w Hw. specialize (Hkeep A m b window Hm w Hw). destruct (m w) as [w' []]; eauto. }
  induction fuel as [|fuel IH]; intros; cbn [relay_loop]; [by apply spec_stop, HJ|].
  eapply spec_bind; [apply Hk, emits_backend_read|intros f].
  assert (forall A (m : M unit) (k : M A) Q, emits rowless m -> spec (Inv b window) k Q J ->
            spec (Inv b window) (do! _ := m in k) Q J) as Hthen.
  { intros A m k Q Hm Hq. eapply spec_bind; [by apply Hk|]. intros u. apply Hq. }
  assert (is_row (frame_tag f) = false -> emits rowless (unless cut_off (forward_to_agent f))) as Hu.
  { intros Hf. unfold unless. destruct cut_off; [apply emits_ret|by apply forward_rowless]. }
  destruct (Frontend.backend_starts_copy f) eqn:Ec.
  { apply Hthen; [by apply Hu, starts_copy_not_row|apply IH]. }
  destruct (bool_decide_reflect (frame_tag f = "Z"%byte)) as [Ez|_].
  { apply Hthen; [apply forward_rowless; by rewrite Ez|]. apply spec_ret. eauto. }
  destruct (bool_decide_reflect (frame_tag f = "c"%byte)) as [Ed|_], in_copy; cbn [andb];
    try (apply Hthen; [apply Hu; by rewrite Ed|apply IH]).
  all: destruct (is_row (frame_tag f)) eqn:Erow, cut_off; cbn [andb negb orb]; rewrite ?andb_false_r, ?andb_true_r; try apply IH;
    try (destruct (bool_decide (frame_tag f = "C"%byte)); [apply IH|]);
    try (apply Hthen; [by apply forward_rowless|apply IH]);
    specialize (Hrow b window f Erow); destruct (Budget.charge_row b _) as [b' []];
    try (eapply spec_bind; [exact Hrow|intros window'; apply IH]);
    (eapply spec_bind; [apply Hk, report_cutoff_rowless|intros u]);
    try (eapply spec_weaken; [apply IH|exact Hrow|done]);
    (eapply spec_bind; [apply Hk, emits_shutdown; done|intros u']); by apply spec_stop, HJ.
Qed.

(** A charged row is shown under the clock reading it was charged at, or not at all. *)
Lemma relay_row_run role sid f window w :
  is_row (frame_tag f) = true ->
  let n := Z.of_nat (length (frame_body f)) in
  let '(w', r) := relay_row role sid f window w in
  ticked (tick (clock w)) (clock w') /\
  exists es, trace w' = trace w ++ es /\
    match r with
    | Ok window' => (exists x y, Window.charge window n 1 (clock w) = (window', Window.WWithin x y)) /\
                    forall now, row_log now es = [(monotonic_millis (clock w), n)]
    | Err _ => forall now, row_log now es = []
    end.
Proof.
  intros Hf n. unfold relay_row. unfold bind at 1. cbn [read_monotonic]. fold n.
  set (w1 := emit (set_clock w (tick (clock w))) _).
  assert (trace w1 = trace w ++ [ClockRead (monotonic_millis (clock w))]) as E1 by done.
  destruct (Window.charge window n 1 (clock w)) as [window' [x y|cap x y]] eqn:Ech.
  - unfold bind, forward_to_agent. rewrite agent_write_run. destruct (agent_room w1); cbn -[row_log frame_bytes].
    + split; [constructor|]. by eexists.
    + split; [constructor|]. eexists. rewrite <- app_assoc. split; [done|].
      split; [eauto|]. intros now. cbn [row_log app]. by rewrite frame_row_size, Hf.
  - set (m := bind (report_cutoff _ _ _ _) _).
    assert (emits rowless m) as Hm.
    { unfold m, fail. pose proof (report_cutoff_rowless role sid). emits_tac. }
    assert (forall b, (m w1).2 <> Ok b) as Hne.
    { intros b. unfold m, bind. destruct (report_cutoff _ _ _ _ w1) as [w2 [u|e]]; done. }
    destruct (Hm w1) as ([_ Ht] & es & E & Hes & _). destruct (m w1) as [w' [b|e]]; [by destruct (Hne b)|].
    split; [done|]. exists (ClockRead (monotonic_millis (clock w)) :: es). simpl in E. rewrite E, <- app_assoc.
    split; [done|]. intros now. cbn [row_log]. by apply row_log_rowless.
Qed.

Definition sizes (es : list Event) : list Z := map snd (row_log 0 es).

Lemma row_log_sizes now now' es : map snd (row_log now es) = map snd (row_log now' es).
Proof.
  revert now now'. induction es as [|[? bytes| | | |] es IH]; intros now now'; simpl; auto.
  destruct (row_size bytes); simpl; [f_equal|]; auto.
Qed.

Lemma sizes_app es1 es2 : sizes (es1 ++ es2) = sizes es1 ++ sizes es2.
Proof. unfold sizes. rewrite row_log_app, map_app. f_equal. apply row_log_sizes. Qed.

Lemma sum_app l1 l2 : Budget.sum (l1 ++ l2) = Budget.sum l1 + Budget.sum l2.
Proof. induction l1; simpl; lia. Qed.

Section statement_bound.
Context (cfg : ProxyConfig) (role session_id : string).
Context (base : list Event).

Let max_b : Z := RoleConfig.role_max_bytes (budget cfg).
Let max_r : Z := RoleConfig.role_max_rows (budget cfg).

(** The meter stands at what the agent has been shown. *)
Definition metered (b : Budget.Budget) (w : World) : Prop :=
  exists es, trace w = base ++ es /\ Budget.budget_ok b /\ Budget.max_bytes b = max_b /\ Budget.max_rows b = max_r /\
    Budget.sum (sizes es) = Budget.used_bytes b /\ Z.of_nat (length (sizes es)) = Budget.used_rows b.

Definition shown_within (w : World) : Prop :=
  exists es, trace w = base ++ es /\ Budget.sum (sizes es) <= max_b /\ Z.of_nat (length (sizes es)) <= max_r.

Lemma metered_within b w : metered b w -> shown_within w.
Proof. intros (es & E & (Hb & Hr & _) & Hmb & Hmr & Hs & Hl). exists es. split; [done|]. lia. Qed.

Lemma metered_rowless {A} b (m : M A) : emits rowless m -> keeps (metered b) m.
Proof.
  intros Hm w (es & E & Hrest). destruct (Hm w) as (_ & es' & E' & Hes' & _).
  assert (metered b (m w).1) as Hg.
  { exists (es ++ es'). rewrite E', E, app_assoc. split; [done|].
    assert (sizes es' = []) as Hn by (unfold sizes; by rewrite row_log_rowless).
    by rewrite sizes_app, Hn, app_nil_r. }
  by destruct (m w) as [w' []].
Qed.

Lemma metered_row b window f :
  is_row (frame_tag f) = true ->
  match Budget.charge_row b (Z.of_nat (length (frame_body f))) with
  | (b', Budget.Within _ _) => spec (metered b) (relay_row role session_id f window) (fun _ => metered b') shown_within
  | (b', Budget.Exceeded _ _ _) => forall w, metered b w -> metered b' w
  end.
Proof.
  intros Hf. set (n := Z.of_nat _). assert (0 <= n) as Hn by lia.
  assert (forall o b', Budget.charge_row b n = (b', o) -> Budget.budget_ok b -> Budget.budget_ok b' /\
      Budget.max_bytes b' = Budget.max_bytes b /\ Budget.max_rows b' = Budget.max_rows b /\
      match o with
      | Budget.Within _ _ => Budget.used_bytes b' = Budget.used_bytes b + n /\ Budget.used_rows b' = Budget.used_rows b + 1
      | Budget.Exceeded _ _ _ => b' = b
      end) as Hch.
  { intros o b' E Hb. pose proof (Budget.charge_row_ok b n Hb Hn) as Hok. rewrite E in Hok.
    rewrite Budget.charge_row_spec in E by done. case_decide; injection E as <- <-; done. }
  destruct (Budget.charge_row b n) as [b' [x y|cap x y]].
  - intros w (es & E & Hb & Hmb & Hmr & Hs & Hl). destruct (Hch _ _ eq_refl Hb) as (Hb' & Hmb' & Hmr' & Hub & Hur).
    pose proof (relay_row_run role session_id f window w Hf) as Hrun. cbv zeta in Hrun. fold n in Hrun.
    destruct (relay_row _ _ _ _ w) as [w' r]. destruct Hrun as (_ & es' & E' & Hr).
    destruct r as [window'|e].
    + destruct Hr as [_ Hr]. exists (es ++ es'). rewrite E', E, app_assoc. split; [done|]. split; [done|].
      assert (sizes es' = [n]) as Hz by (unfold sizes; by rewrite Hr).
      rewrite sizes_app, Hz, sum_app, length_app. simpl. lia.
    + exists (es ++ es'). rewrite E', E, app_assoc. split; [done|].
      assert (sizes es' = []) as Hz by (unfold sizes; by rewrite Hr).
      rewrite sizes_app, Hz, app_nil_r. unfold Budget.budget_ok in Hb. lia.
  - intros w Hw. assert (Budget.budget_ok b) as Hb by (by destruct Hw as (es & _ & Hb & _)).
    by destruct (Hch _ _ eq_refl Hb) as (_ & _ & _ & ->).
Qed.
End statement_bound.

(** What one statement can show the agent.  Whatever the backend answers, however
    the answer ends, the row payloads written to the agent between a Sync and the end of
    its answer, COPY data included, total at most the role's byte budget and number at
    most its row budget. *)
Theorem statement_disclosure_bounded (cfg : ProxyConfig) (role session_id : string) (window : Window.WindowMeter) (w : World) :
  0 <= RoleConfig.role_max_bytes (budget cfg) < u64_max -> 0 <= RoleConfig.role_max_rows (budget cfg) < u64_max ->
  exists es, trace (relay_until_ready cfg role session_id window w).1 = trace w ++ es /\
    Budget.sum (sizes es) <= RoleConfig.role_max_bytes (budget cfg) /\
    Z.of_nat (length (sizes es)) <= RoleConfig.role_max_rows (budget cfg).
Proof.
  intros Hb Hr. unfold relay_until_ready.
  assert (metered cfg (trace w) (Budget.for_role (budget cfg)) w) as H1.
  { exists []. rewrite app_nil_r. split; [done|]. unfold Budget.budget_ok. simpl. lia. }
  assert (spec (metered cfg (trace w) (Budget.for_role (budget cfg)))
    (relay_loop role session_id (S (length (backend_in w))) (Budget.for_role (budget cfg)) false false window)
    (fun _ w' => exists b, metered cfg (trace w) b w') (shown_within cfg (trace w))) as Hspec.
  { apply (relay_loop_spec (fun b _ => metered cfg (trace w) b)); intros;
      [by eapply metered_within|by apply metered_rowless|by apply metered_row]. }
  specialize (Hspec w H1). destruct (relay_loop _ _ _ _ _ _ _ w) as [w' [window'|e]]; simpl; [|done].
  destruct Hspec as [b Hm]. by eapply metered_within.
Qed.

Section session_bound.
Context (parse_sql : string -> option (list Classifier.Statement)).
Context (visit_expressions : Classifier.Statement -> list Classifier.Expr).
Context (debug_str : string -> string).
Context (cfg : ProxyConfig) (role session_id : string).
Context (monotone : forall c, monotonic_millis c <= monotonic_millis (tick c)).
Context (base : list Event) (start : Z).

Let meter0 : Window.WindowMeter := Window.for_window (per_window (budget cfg)).
Definition shown (c : Window.Commit) : Z * Z := (Window.c_now c, Window.c_bytes c).

Lemma ticked_monotone c c' : ticked c c' -> monotonic_millis c <= monotonic_millis c'.
Proof. induction 1 as [|c' _ IH]; [lia|]. pose proof (monotone c'). lia. Qed.

(** The window's meter stands at the rows shown so far, charged at the clock readings. *)
Definition windowed (window : Window.WindowMeter) (w : World) : Prop :=
  exists reads es, trace w = base ++ es /\ start <= monotonic_millis (clock w) /\ Window.reads_from start reads /\
    Forall (fun r => r.1.1 <= monotonic_millis (clock w)) reads /\
    window = Window.meter_after meter0 reads /\ row_log 0 es = map shown (Window.committed meter0 reads).

(** The rows shown are the first of those some charges at such readings let through. *)
Definition shown_of_window (w : World) : Prop :=
  exists reads es rest, trace w = base ++ es /\ Window.reads_from start reads /\
    map shown (Window.committed meter0 reads) = row_log 0 es ++ rest.

Lemma windowed_shown window w : windowed window w -> shown_of_window w.
Proof. intros (reads & es & E & _ & Hr & _ & _ & Hl). exists reads, es, []. by rewrite app_nil_r, Hl. Qed.

Lemma Forall_le_trans (reads : list (Z * Z * Z)) t t' :
  t <= t' -> Forall (fun r => r.1.1 <= t) reads -> Forall (fun r => r.1.1 <= t') reads.
Proof. intros Ht H1. eapply Forall_impl; [exact H1|]. simpl. lia. Qed.

Lemma windowed_rowless {A} window (m : M A) : emits rowless m -> keeps (windowed window) m.
Proof.
  intros Hm w (reads & es & E & Hst & Hr & Hle & Hw & Hl). destruct (Hm w) as ([_ Ht] & es' & E' & Hes' & _).
  apply ticked_monotone in Ht.
  assert (windowed window (m w).1) as Hg.
  { exists reads, (es ++ es'). rewrite E', E, app_assoc. split; [done|]. split; [lia|]. split; [done|].
    split; [by eapply Forall_le_trans|]. split; [done|].
    by rewrite row_log_app, (row_log_rowless _ es' Hes'), app_nil_r. }
  by destruct (m w) as [w' []].
Qed.

Lemma windowed_row window f :
  is_row (frame_tag f) = true ->
  spec (windowed window) (relay_row role session_id f window) windowed shown_of_window.
Proof.
  intros Hf w (reads & es & E & Hst & Hr & Hle & Hw & Hl).
  pose proof (relay_row_run role session_id f window w Hf) as Hrun. cbv zeta in Hrun.
  set (n := Z.of_nat _) in Hrun. set (t := monotonic_millis (clock w)) in *.
  destruct (relay_row _ _ _ _ w) as [w' r]. destruct Hrun as (Ht & es' & E' & Hres).
  apply ticked_monotone in Ht. pose proof (monotone (clock w)) as Hmono. fold t in Hmono.
  destruct r as [window'|e].
  - destruct Hres as [(x & y & Hch) Hlog]. change (Window.charge window n 1 (mkMockClock t t) = (window', Window.WWithin x y)) in Hch.
    exists (reads ++ [(t, n, 1)]), (es ++ es'). rewrite E', E, app_assoc. split; [done|]. split; [lia|].
    split; [apply Window.reads_from_snoc; done || lia|]. split.
    { apply Forall_app. split; [eapply Forall_le_trans; [|done]; lia|]. apply Forall_singleton. simpl. lia. }
    rewrite Window.meter_after_app, Window.committed_app, <- Hw. cbn [Window.meter_after Window.committed].
    rewrite Hch. split; [done|]. by rewrite row_log_app, Hl, Hlog, map_app.
  - exists reads, (es ++ es'), []. rewrite E', E, app_assoc. split; [done|]. split; [done|].
    by rewrite row_log_app, Hres, !app_nil_r.
Qed.

Lemma spec_shown {A} window (m : M A) : emits rowless m -> spec (windowed window) m (fun _ => windowed window) shown_of_window.
Proof.
  intros Hm w Hw. pose proof (windowed_rowless window m Hm w Hw) as Hk.
  destruct (m w) as [w' []]; [done|by eapply windowed_shown].
Qed.

Lemma relay_windowed window :
  spec (windowed window) (relay_until_ready cfg role session_id window) windowed shown_of_window.
Proof.
  intros w Hw. unfold relay_until_ready.
  assert (spec (windowed window)
    (relay_loop role session_id (S (length (backend_in w))) (Budget.for_role (budget cfg)) false false window)
    (fun window w => exists b : Budget.Budget, windowed window w) shown_of_window) as Hspec.
  { apply (relay_loop_spec (fun _ => windowed)); [intros; by eapply windowed_shown|intros; by apply windowed_rowless|].
    intros b window' f Hf. destruct (Budget.charge_row _ _) as [b' []]; [by apply windowed_row|done]. }
  specialize (Hspec w Hw). destruct (relay_loop _ _ _ _ _ _ _ w) as [w' []]; [by destruct Hspec|done].
Qed.

Lemma admit_sql_rowless sql : emits rowless (admit_sql parse_sql debug_str cfg role session_id sql).
Proof.
  assert (forall fuel line err, emits rowless (explain_loop fuel line err)) as Hx.
  { intros fuel. induction fuel as [|fuel IH]; intros; cbn [explain_loop]; [apply emits_stop|].
    apply emits_bind; [apply emits_backend_read|intros f].
    destruct (frame_tag f); try apply IH; destruct line, err; try apply IH; try apply emits_ret; emits_tac. }
  assert (forall ms, emits rowless (backend_send ms)) as Hs.
  { intros ms. induction ms; simpl; emits_tac. }
  assert (forall sql, emits rowless (run_explain_on_backend sql)) as He.
  { intros q. unfold run_explain_on_backend. apply emits_bind; [apply Hs|]. intros u w. apply Hx. }
  unfold admit_sql, explain_preflight, explain_decision, block, allow. destruct sql as [sql|]; [|apply emits_ret].
  apply emits_bind; [|intros []; by emits_tac].
  destruct (Classifier.is_explain _ _); [apply emits_ret|]. apply emits_bind; [apply He|intros plan]. by emits_tac.
Qed.

Lemma enforce_frame_windowed frame msg window :
  spec (windowed window) (enforce_frame parse_sql visit_expressions debug_str cfg role session_id frame msg window)
    (fun r => windowed r.1) shown_of_window.
Proof.
  unfold enforce_frame. destruct (gate _ _ _) as [o|kind code message|sql code message].
  - eapply spec_bind; [apply spec_shown, admit_sql_rowless|]. intros [pe|]; [by apply spec_ret|].
    eapply spec_bind; [apply spec_shown; apply emits_backend_write; done|]. intros u.
    eapply (spec_bind _ _ _ windowed); [|intros window'; by apply spec_ret].
    destruct (is_sync msg); [apply relay_windowed|by apply spec_ret].
  - eapply spec_bind; [apply spec_shown; unfold reject; emits_tac|]. intros u.
    destruct msg; try (by apply spec_ret).
    eapply spec_bind; [apply spec_shown; unfold send_error_then_ready, agent_send; emits_tac|]. intros u'. by apply spec_ret.
  - eapply spec_bind; [apply spec_shown; unfold block; emits_tac|]. intros u. by apply spec_ret.
Qed.

Lemma query_rounds_windowed fuel window pending :
  spec (windowed window) (query_rounds parse_sql visit_expressions debug_str cfg role session_id fuel window pending)
    (fun _ => shown_of_window) shown_of_window.
Proof.
  revert window pending. induction fuel as [|fuel IH]; intros; cbn [query_rounds].
  { apply spec_stop. intros. by eapply windowed_shown. }
  eapply spec_bind; [apply spec_shown, emits_agent_read|]. intros [frame|].
  2:{ apply spec_ret. intros. by eapply windowed_shown. }
  assert (forall (m : M (option PendingError)), emits rowless m -> spec (windowed window) (do! pending := m in
     query_rounds parse_sql visit_expressions debug_str cfg role session_id fuel window pending) (fun _ => shown_of_window) shown_of_window) as Hskip.
  { intros m Hm. eapply spec_bind; [by apply spec_shown|]. intros p'. apply IH. }
  destruct (Frontend.decode _ _) as [msg|e].
  - assert (spec (windowed window) (do! (window, pending) :=
              enforce_frame parse_sql visit_expressions debug_str cfg role session_id frame msg window in
              query_rounds parse_sql visit_expressions debug_str cfg role session_id fuel window pending)
              (fun _ => shown_of_window) shown_of_window) as He.
    { eapply spec_bind; [apply enforce_frame_windowed|]. intros [window' p']. apply IH. }
    assert (forall err, emits rowless (skip_frame err msg)) as Hs.
    { intros err. unfold skip_frame, send_error_then_ready, agent_send. emits_tac. }
    destruct msg, pending; try apply He; try apply Hskip, Hs; apply spec_ret; intros; by eapply windowed_shown.
  - apply Hskip. unfold malformed_frame, reject. emits_tac.
Qed.

(** ** Totals of a log of rows *)

Definition shown_between (t d : Z) (log : list (Z * Z)) : Z :=
  Budget.sum (map snd (List.filter (fun r => (t <=? r.1) && (r.1 <? t + d)) log)).

Lemma shown_between_app t d l1 l2 : shown_between t d (l1 ++ l2) = shown_between t d l1 + shown_between t d l2.
Proof. unfold shown_between. by rewrite List.filter_app, map_app, sum_app. Qed.

Lemma shown_between_total t d cs : shown_between t d (map shown cs) = Window.total (List.filter (Window.in_interval t d) cs).
Proof.
  unfold shown_between, Window.in_interval. induction cs as [|c cs IH]; [done|]. simpl.
  destruct ((t <=? Window.c_now c) && (Window.c_now c <? t + d)); simpl; [f_equal|]; exact IH.
Qed.

Lemma shown_between_nonneg t d log : Forall (fun r : Z * Z => 0 <= r.2) log -> 0 <= shown_between t d log.
Proof.
  unfold shown_between. induction 1 as [|r log Hr _ IH]; [done|]. simpl.
  destruct ((t <=? r.1) && (r.1 <? t + d)); simpl; lia.
Qed.
End session_bound.

(** The window budget over a whole session. *)
Lemma session_shown_bounded (parse_sql : string -> option (list Classifier.Statement))
    (visit_expressions : Classifier.Statement -> list Classifier.Expr) (debug_str : string -> string)
    (cfg : ProxyConfig) (role session_id : string) (w : World) (t : Z) :
  (forall c, monotonic_millis c <= monotonic_millis (tick c)) ->
  Window.window_ok (per_window (budget cfg)) ->
  exists es, trace (query_loop parse_sql visit_expressions debug_str cfg role session_id w).1 = trace w ++ es /\
    shown_between t (Window.window_ms (Window.for_window (per_window (budget cfg)))) (row_log 0 es)
      <= 2 * RoleConfig.window_max_bytes (per_window (budget cfg)).
Proof.
  intros Hmono Hok. set (start := monotonic_millis (clock w)).
  assert (windowed cfg (trace w) start (Window.for_window (per_window (budget cfg))) w) as H1.
  { exists [], []. rewrite app_nil_r. split; [done|]. split; [unfold start; lia|]. repeat split; auto. }
  pose proof (query_rounds_windowed parse_sql visit_expressions debug_str cfg role session_id Hmono (trace w) start
    (S (length (agent_in w))) _ None w H1) as H2.
  assert (shown_of_window cfg (trace w) start (query_loop parse_sql visit_expressions debug_str cfg role session_id w).1)
    as (reads & es & rest & E & Hr & Hl).
  { unfold query_loop. by destruct (query_rounds _ _ _ _ _ _ _ _ _ w) as [w' []]. }
  exists es. split; [done|].
  destruct (Window.committed_bounded _ _ _ Hok Hr) as (Hpos & _ & Hbound). specialize (Hbound t).
  rewrite <- shown_between_total, Hl, shown_between_app in Hbound.
  assert (0 <= shown_between t (Window.window_ms (Window.for_window (per_window (budget cfg)))) rest); [|lia].
  apply shown_between_nonneg. apply (f_equal (drop (length (row_log 0 es)))) in Hl. rewrite drop_app_length in Hl.
  rewrite <- Hl. apply Forall_drop, Forall_map. eapply Forall_impl; [exact Hpos|]. done.
Qed.

(** C9: what a whole session can show the agent.  On a clock that does not run back, over
    any session, whatever the agent asks and the backend answers and however it ends: the
    row payloads written to the agent at clock readings within one window's length of each
    other total at most twice the window's byte budget. *)
Theorem session_disclosure_bounded (parse_sql : string -> option (list Classifier.Statement))
    (visit_expressions : Classifier.Statement -> list Classifier.Expr) (debug_str : string -> string)
    (cfg : ProxyConfig) (role session_id : string) (w : World) (t : Z) :
  (forall c, monotonic_millis c <= monotonic_millis (tick c)) ->
  Window.window_ok (per_window (budget cfg)) ->
  exists es, trace (query_loop parse_sql visit_expressions debug_str cfg role session_id w).1 = trace w ++ es /\
    shown_between t (Window.window_ms (Window.for_window (per_window (budget cfg)))) (row_log 0 es)
      <= 2 * RoleConfig.window_max_bytes (per_window (budget cfg)).
Proof. intros Hmono Hok. by apply session_shown_bounded. Qed.

(** ** Where the two streams come apart *)

Section apart.
Context (parse_sql : string -> option (list Classifier.Statement)).
Context (visit_expressions : Classifier.Statement -> list Classifier.Expr).
Context (debug_str : string -> string).
Context (cfg : ProxyConfig) (role session_id : string).

(** A message the agent can send in the query phase. *)
Definition sendable (m : Frontend.FrontendMessage) : Prop :=
  Frontend.message_ok m /\ Frontend.is_sasl m = false /\ body_fits (Frontend.encode_body m).

Definition frame_of (m : Frontend.FrontendMessage) : RawFrame := mkRawFrame (Frontend.tag m) (Frontend.encode_body m).

Lemma decode_frame_of m : sendable m -> Frontend.decode (Frontend.tag m) (Frontend.encode_body m) = Ok m.
Proof.
  intros (Hok & Hs & _). unfold Frontend.decode. rewrite <- (app_nil_r (Frontend.encode_body m)).
  rewrite Frontend.decode_reader_encode by (done || by destruct m). done.
Qed.

(** A round of the loop outside skip mode, on a message. *)
Lemma round_enforced fuel window m r w :
  sendable m -> (match m with Frontend.Terminate => False | _ => True end) -> agent_in w = Frontend.encode m ++ r ->
  query_rounds parse_sql visit_expressions debug_str cfg role session_id (S fuel) window None w =
  (do! (window, pending) :=
     enforce_frame parse_sql visit_expressions debug_str cfg role session_id (frame_of m) m window in
   query_rounds parse_sql visit_expressions debug_str cfg role session_id fuel window pending) (set_agent_in w r).
Proof.
  intros Hm Ht E. cbn [query_rounds]. unfold bind at 1, agent_read. rewrite E.
  unfold Frontend.encode. rewrite read_frame_tagged by (by apply Hm). cbn [frame_tag frame_body].
  rewrite (decode_frame_of m Hm). by destruct m.
Qed.

(** ... and in skip mode. *)
Lemma round_skipped fuel window err m r w :
  sendable m -> (match m with Frontend.Terminate => False | _ => True end) -> agent_in w = Frontend.encode m ++ r ->
  query_rounds parse_sql visit_expressions debug_str cfg role session_id (S fuel) window (Some err) w =
  (do! pending := skip_frame err m in
   query_rounds parse_sql visit_expressions debug_str cfg role session_id fuel window pending) (set_agent_in w r).
Proof.
  intros Hm Ht E. cbn [query_rounds]. unfold bind at 1, agent_read. rewrite E.
  unfold Frontend.encode. rewrite read_frame_tagged by (by apply Hm). cbn [frame_tag frame_body].
  rewrite (decode_frame_of m Hm). by destruct m.
Qed.

Definition sink_works : Prop := forall (s : K) e ts, exists s' r, sink_append s e ts = (s', Ok r).

Definition pipelined (portal : string) (n : Z) (stmt sql : string) (types : list Z) : list Frontend.FrontendMessage :=
  [Frontend.Execute portal n; Frontend.Parse stmt sql types; Frontend.Sync].

Lemma record_run sql d code reason w :
  sink_works -> poisoned w = false ->
  exists s' ts, record role session_id sql d code reason w =
    (emit (set_sink (set_clock w (tick (clock w))) s') (Audited (entry_of role session_id sql d code reason) ts), Ok tt).
Proof.
  intros Hs Hp. unfold record. cbn [poisoned set_clock sink]. rewrite Hp.
  destruct (Hs (sink w) (entry_of role session_id sql d code reason) (now_unix_millis (clock w))) as (s' & r & ->).
  by exists s', (now_unix_millis (clock w)).
Qed.

(** A block inside a pipeline leaves the two streams apart.  When an agent pipelines
    the Execute of an admitted statement, a statement that is blocked, and a Sync, it is
    told the error and that the session is ready, while the backend has been sent the
    Execute and no Sync: the answer to the Execute is still to come, and the next
    exchange will read it as its own. *)
Theorem blocked_pipeline_leaves_backend_unsynced (portal stmt sql : string) (n : Z) (types : list Z) (w : World) :
  Forall sendable (pipelined portal n stmt sql types) ->
  Classifier.classify parse_sql visit_expressions sql = Classifier.NotRead ->
  sink_works -> poisoned w = false -> (1 <= backend_room w)%nat -> (2 <= agent_room w)%nat ->
  agent_in w = concat (map Frontend.encode (pipelined portal n stmt sql types)) ->
  exists w' code message ts, query_loop parse_sql visit_expressions debug_str cfg role session_id w = (w', Ok tt) /\
    trace w' = trace w ++
      [ToBackend (Frontend.encode (Frontend.Execute portal n));
       Audited (entry_of role session_id sql DBlock code (Some message)) ts;
       ToAgent (encrypted w) (Backend.encode (error_response "42501" message));
       ToAgent (encrypted w) (Backend.encode (Backend.ReadyForQuery Backend.Idle))].
Proof.
  intros Hsend Hsql Hsink Hp Hb Ha Hin. unfold query_loop.
  apply Forall_cons in Hsend as [H1 Hsend]. apply Forall_cons in Hsend as [H2 Hsend]. apply Forall_cons in Hsend as [H3 _].
  assert (exists fuel, length (agent_in w) = S (S (S fuel))) as [fuel Hf].
  { exists (length (agent_in w) - 3)%nat. rewrite Hin. simpl. rewrite !length_app. simpl. lia. }
  rewrite Hf. cbn [pipelined map concat] in Hin. rewrite app_nil_r in Hin.
  destruct (backend_room w) as [|broom] eqn:Eb; [lia|]. destruct (agent_room w) as [|[|aroom]] eqn:Ea; [lia..|].
  rewrite (round_enforced _ _ _ _ _ H1 I Hin). unfold enforce_frame at 1. cbn [gate Frontend.tag Frontend.classify_frontend_tag admit_sql is_sync].
  unfold bind at 1 2 3 4, ret at 1 2, forward_to_backend, backend_write. cbn [backend_room set_agent_in]. rewrite Eb.
  set (w1 := emit _ _).
  assert (agent_in w1 = Frontend.encode (Frontend.Parse stmt sql types) ++ Frontend.encode Frontend.Sync) as Hin1 by done.
  cbn [ret]. rewrite (round_enforced _ _ _ _ _ H2 I Hin1). unfold enforce_frame at 1.
  cbn [gate Frontend.tag Frontend.classify_frontend_tag]. unfold gate_sql.
  unfold Classifier.classify in Hsql. destruct (Classifier.classify_with_reason _ _ sql) as [k reason]. simpl in Hsql. subst k.
  destruct (not_read_message reason) as [code message]. unfold bind at 1 2, block.
  destruct (record_run sql DBlock code (Some message) (set_agent_in w1 (Frontend.encode Frontend.Sync)) Hsink Hp) as (s' & ts & ->).
  set (w2 := emit _ _). cbn [ret].
  rewrite (round_skipped _ _ _ _ [] _ H3 I) by (by rewrite app_nil_r).
  unfold skip_frame. cbn [is_sync]. unfold send_error_then_ready, agent_send, bind, ret. cbn [pending_code pending_message].
  rewrite agent_write_run. change (agent_room (set_agent_in w2 [])) with (agent_room w). rewrite Ea.
  rewrite agent_write_run. cbn [agent_room emit set_rooms].
  eexists _, code, message, ts. split; [reflexivity|]. cbn. by rewrite <- !app_assoc.
Qed.

(** *** The answer the pre-flight reads *)

(** Frames the pre-flight reads over once it has a line. *)
Definition read_over (f : RawFrame) : Prop :=
  frame_tag f <> "E"%byte /\ frame_tag f <> "Z"%byte /\ body_fits (frame_body f).

Definition ready_frame : RawFrame := mkRawFrame "Z"%byte [x49].

Lemma explain_loop_over fuel line fs r w :
  Forall read_over fs -> (length fs < fuel)%nat ->
  backend_in w = concat (map frame_bytes fs) ++ frame_bytes ready_frame ++ r ->
  explain_loop fuel (Some line) None w = (set_backend_in w r, Ok (Ok (Some line))).
Proof.
  revert fuel w. induction fs as [|f fs IH]; intros [|fuel] w Hfs Hf Hin; simpl in Hf; try lia.
  - cbn [map concat app explain_loop] in *. unfold bind, backend_read. rewrite Hin.
    unfold frame_bytes. rewrite read_frame_tagged by by_decide. done.
  - apply Forall_cons in Hfs as [(He & Hz & Hb) Hfs]. cbn [map concat app] in Hin. rewrite <- app_assoc in Hin.
    cbn [explain_loop]. unfold bind, backend_read. rewrite Hin. unfold frame_bytes at 1.
    rewrite read_frame_tagged by done. cbn [frame_tag].
    assert (explain_loop fuel (Some line) None (set_backend_in w (concat (map frame_bytes fs) ++ frame_bytes ready_frame ++ r))
      = (set_backend_in w r, Ok (Ok (Some line)))) as Hrest.
    { rewrite (IH fuel) by (done || lia). done. }
    destruct f as [t body]. cbn [frame_tag] in *. destruct t; try exact Hrest; done.
Qed.

Definition row_frame (line : list byte) : RawFrame :=
  mkRawFrame "D"%byte (Backend.encode_body (Backend.DataRow [Some line])).

Lemma first_column_row line :
  Backend.message_ok (Backend.DataRow [Some line]) ->
  first_column (Backend.encode_body (Backend.DataRow [Some line])) = Some (from_utf8_lossy line).
Proof.
  intros Hok. unfold first_column. pose proof (Backend.backend_decode_reader_encode (Backend.DataRow [Some line]) [] Hok) as Hd.
  rewrite app_nil_r in Hd. change "D"%byte with (Backend.tag (Backend.DataRow [Some line])).
  unfold Backend.decode. by rewrite Hd.
Qed.

(** The pre-flight takes the first row it reads for the plan.  If the backend still
    owes the answer to an earlier, unsynced statement, the first row of that answer decides
    whether the next statement passes the EXPLAIN gate, whatever the plan that follows
    says; the whole answer is consumed and the agent never sees it. *)
Theorem unsynced_row_is_taken_for_the_plan (sql : string) (line : list byte) (fs : list RawFrame) (r : list byte)
    (e : PlanEstimate) (w : World) :
  Classifier.is_explain parse_sql sql = false ->
  Backend.message_ok (Backend.DataRow [Some line]) -> body_fits (frame_body (row_frame line)) -> Forall read_over fs ->
  decide_plan_line debug_str (explain_ceiling cfg) (from_utf8_lossy line) = Some (WithinEstimate e) ->
  (4 <= backend_room w)%nat ->
  backend_in w = frame_bytes (row_frame line) ++ concat (map frame_bytes fs) ++ frame_bytes ready_frame ++ r ->
  exists w', explain_preflight parse_sql debug_str cfg role session_id sql w = (w', Ok None) /\ backend_in w' = r /\
    exists es, trace w' = trace w ++ es /\ Forall (fun ev => exists bytes, ev = ToBackend bytes) es.
Proof.
  intros Hx Hok Hfit Hfs Hd Hroom Hin. unfold explain_preflight. rewrite Hx. unfold run_explain_on_backend.
  destruct (backend_room w) as [|[|[|[|room]]]] eqn:Eroom; [lia..|].
  assert (exists w1, send_extended_unit (explain_wrap sql) w = (w1, Ok tt) /\ backend_in w1 = backend_in w /\
    exists es, trace w1 = trace w ++ es /\ Forall (fun ev => exists bytes, ev = ToBackend bytes) es) as (w1 & Hs & Hb1 & es & Ht & Hes).
  { unfold send_extended_unit, extended_unit. cbn [backend_send]. unfold bind, backend_write, ret. rewrite Eroom.
    cbn [backend_room emit set_rooms]. eexists. split; [reflexivity|]. split; [done|].
    cbn [trace emit set_rooms]. eexists. rewrite <- !app_assoc. split; [reflexivity|]. repeat constructor; by eexists. }
  unfold bind at 1 2. rewrite Hs. rewrite Hb1, Hin.
  assert (forall n, (length fs < n)%nat -> explain_loop (S n) None None w1 = (set_backend_in w1 r, Ok (Ok (Some (from_utf8_lossy line))))) as Hloop.
  { intros n Hn. cbn [explain_loop]. unfold bind, backend_read. rewrite Hb1, Hin. unfold frame_bytes at 1.
    rewrite read_frame_tagged by done. cbn [frame_tag row_frame frame_body]. rewrite (first_column_row _ Hok).
    rewrite (explain_loop_over n _ fs r) by done. done. }
  rewrite Hloop.
  2:{ rewrite !length_app. change (length (frame_bytes ready_frame)) with 6%nat. assert (length fs <= length (concat (map frame_bytes fs)))%nat; [|lia].
      clear. induction fs as [|f fs IH]; simpl; [lia|]. rewrite length_app. simpl. lia. }
  unfold bind, explain_decision. rewrite Hd. eexists. split; [reflexivity|]. split; [done|]. by exists es.
Qed.
End apart.
End session.

(** ** A demonstration: concrete peers *)

Module Demo.
Import Scram(toy_sha256, toy_hmac, toy_pbkdf2, toy_encode, toy_decode).

Definition DWorld : Type := @World InMemorySink MockClock.

#[local] Instance demo_sink : Sink InMemorySink := InMemorySink_sink toy_canonical toy_hash.

Definition demo_budget : RoleBudget := RoleConfig.mkRoleBudget 100 10 (f64_of_Z 1000) 50 (RoleConfig.mkWindowBudget 60 1000 100).
Definition demo_cfg (require : bool) : ProxyConfig :=
  mkProxyConfig "127.0.0.1:0" None require (mkTarget "127.0.0.1" 54321 "postgres" "pgb_agent" "x") "pgb_agent" "secret"
    "analytics" demo_budget 0 EmptyString.

(** A parser that knows no SQL: every statement is refused by the gate. *)
Definition no_parser (sql : string) : option (list Classifier.Statement) := None.
Definition no_visitor (s : Classifier.Statement) : list Classifier.Expr := [].

Definition demo_world (agent backend : list byte) : DWorld :=
  mkWorld agent backend 100 100 true false (mkInMemorySink chain_new) false (mkMockClock 5 5) [].

Abbreviation demo_loop w := (query_loop id no_parser no_visitor id (demo_cfg false) "pgb_agent" "s1" w).

(** An agent that knows the password, computed against the server's challenge. *)
Definition demo_nonce : list byte := [x05].
Definition demo_first : list byte := Scram.client_first_of (Scram.text "u") (Scram.text "cn").
Definition demo_full : list byte := Scram.text "cn" ++ toy_encode demo_nonce.
Definition demo_challenge : list byte :=
  Eval vm_compute in
    match Scram.handle_client_first toy_encode
            (Scram.server_new toy_encode demo_nonce
               (Scram.from_password toy_sha256 toy_hmac toy_pbkdf2 [x07] "secret")) demo_first with
    | Ok (_, m) => m
    | Err _ => []
    end.
Definition demo_final : list byte :=
  Eval vm_compute in
    Scram.client_final_of toy_encode demo_full
      (Scram.client_proof toy_sha256 toy_hmac toy_pbkdf2 "secret" [x07] Scram.ITERATIONS
         (Scram.auth_message_of (Scram.bare_of (Scram.text "u") (Scram.text "cn")) demo_challenge demo_full)).
Definition demo_agent : list byte :=
  Eval vm_compute in
    Frontend.startup_encode (Frontend.mkStartup Frontend.PROTOCOL_VERSION_3 [("user"%string, "u"%string)]) ++
    Frontend.encode (Frontend.SaslInitial (Frontend.mkSaslInitial "SCRAM-SHA-256" (Some demo_first))) ++
    Frontend.encode (Frontend.SaslResp (Frontend.mkSaslResponse demo_final)) ++
    Frontend.encode Frontend.Terminate.
Definition demo_backend : list byte :=
  Eval vm_compute in Backend.encode Backend.AuthenticationOk ++ Backend.encode (Backend.ReadyForQuery Backend.Idle).

Abbreviation demo_serve require w :=
  (serve id toy_sha256 toy_hmac toy_pbkdf2 toy_encode toy_decode no_parser no_visitor id [x07] demo_nonce (demo_cfg require)
    "pgb_agent" "s1" None 1 w).

Example demo_session_ends_well : (demo_serve false (demo_world demo_agent demo_backend)).2 = Ok tt.
Proof. vm_compute. reflexivity. Qed.

(** The same agent against an endpoint that requires TLS is turned away. *)
Lemma required_tls_never_speaks_in_clear_witness :
  (demo_serve true (demo_world demo_agent demo_backend)).2 =
    Err (Failed (SHandshake "require_tls: rejected direct plaintext StartupMessage")) /\
  Forall discreet (trace (demo_serve true (demo_world demo_agent demo_backend)).1).
Proof.
  split; [vm_compute; reflexivity|].
  apply (required_tls_never_speaks_in_clear id toy_sha256 toy_hmac toy_pbkdf2 toy_encode toy_decode no_parser no_visitor id
    [x07] demo_nonce (demo_cfg true)); reflexivity.
Defined.

Definition demo_opening : list byte :=
  Eval vm_compute in Frontend.startup_encode (backend_startup (backend (demo_cfg false))).

(** The bytes behind the start-up message of the demo. *)
Definition demo_handshake : list byte :=
  Eval vm_compute in match read_startup_body demo_agent with Ok (_, rest) => rest | Err _ => [] end.

Lemma backend_reached_only_by_proof_witness :
  exists answer,
    proved_password toy_sha256 toy_hmac toy_pbkdf2 toy_encode toy_decode [x07] demo_nonce (demo_cfg false) demo_handshake answer.
Proof.
  destruct (backend_reached_only_by_proof id toy_sha256 toy_hmac toy_pbkdf2 toy_encode toy_decode no_parser no_visitor id
    [x07] demo_nonce (demo_cfg false) "pgb_agent" "s1" None Scram.toy_laws 1 (demo_world demo_agent demo_backend) demo_opening)
    as (enc & plain & body & st & rest & answer & pre & post & Hop & _ & Hb & _ & _ & Hp & _); [reflexivity|reflexivity|..].
  - apply list_elem_of_In. vm_compute. tauto.
  - exists answer. assert (plain = demo_agent) as -> by (vm_compute in Hop; by injection Hop as _ <-).
    assert (rest = demo_handshake) as -> by (vm_compute in Hb; by injection Hb as _ <-). exact Hp.
Defined.

(** Rows of a backend that answers a Sync. *)
Definition demo_rows : list byte :=
  Eval vm_compute in
    Backend.encode (Backend.DataRow [Some (repeat x61 60)]) ++ Backend.encode (Backend.DataRow [Some (repeat x62 60)]) ++
    Backend.encode (Backend.CommandComplete "SELECT 2") ++ Backend.encode (Backend.ReadyForQuery Backend.Idle).

Lemma statement_disclosure_bounded_witness :
  exists es,
    trace (relay_until_ready id (demo_cfg false) "pgb_agent" "s1" (Window.for_window (per_window demo_budget))
             (demo_world [] demo_rows)).1 = trace (demo_world [] demo_rows) ++ es /\
    Budget.sum (sizes es) <= 100 /\ Z.of_nat (length (sizes es)) <= 10.
Proof.
  apply (statement_disclosure_bounded id (demo_cfg false) "pgb_agent" "s1"); simpl; unfold u64_max; lia.
Defined.

Lemma session_disclosure_bounded_witness :
  exists es,
    trace (demo_loop (demo_world (Frontend.encode Frontend.Sync) demo_rows)).1 =
      trace (demo_world (Frontend.encode Frontend.Sync) demo_rows) ++ es /\
    shown_between 0 60000 (row_log 0 es) <= 2 * 1000.
Proof.
  apply (session_disclosure_bounded id no_parser no_visitor id (demo_cfg false) "pgb_agent" "s1").
  - intros c. simpl. lia.
  - unfold Window.window_ok, u64_max. simpl. lia.
Defined.

(** The first of the two rows is shown, the second is over the budget. *)
Example demo_rows_shown :
  row_log 0 (trace (demo_loop (demo_world (Frontend.encode Frontend.Sync) demo_rows)).1) = [(5, 66)].
Proof. vm_compute. reflexivity. Qed.

Lemma blocked_pipeline_leaves_backend_unsynced_witness :
  exists w' code message ts,
    demo_loop (demo_world (concat (map Frontend.encode (pipelined EmptyString 0 "s" "DROP TABLE t" []))) []) = (w', Ok tt) /\
    trace w' = [] ++
      [ToBackend (Frontend.encode (Frontend.Execute EmptyString 0));
       Audited (entry_of "pgb_agent" "s1" "DROP TABLE t" DBlock code (Some message)) ts;
       ToAgent false (Backend.encode (error_response "42501" message));
       ToAgent false (Backend.encode (Backend.ReadyForQuery Backend.Idle))].
Proof.
  apply (blocked_pipeline_leaves_backend_unsynced id no_parser no_visitor id (demo_cfg false) "pgb_agent" "s1"
    EmptyString "s" "DROP TABLE t" 0 []).
  - repeat (apply Forall_cons; split; [split; [vm_compute; exact I|split; [reflexivity|by_decide]]|]). constructor.
  - reflexivity.
  - intros s e ts. destruct (append toy_canonical toy_hash (chain s) e ts) as [c r] eqn:E.
    exists (mkInMemorySink c), r. simpl. unfold mem_append. by rewrite E.
  - reflexivity.
  - simpl. lia.
  - simpl. lia.
  - reflexivity.
Defined.

(** An earlier statement's row that reads like an estimate, then the real plan. *)
Definition demo_line : list byte := as_bytes "cost=0..0 rows=0".
Definition demo_plan : list RawFrame :=
  [mkRawFrame "C"%byte (as_bytes "SELECT 1"); row_frame (as_bytes "Seq Scan on big  (cost=0.00..9999999.00 rows=99999999 width=4)")].

Lemma unsynced_row_is_taken_for_the_plan_witness :
  exists w' : DWorld,
    explain_preflight id no_parser id (demo_cfg false) "pgb_agent" "s1" "SELECT * FROM big"
      (demo_world [] (frame_bytes (row_frame demo_line) ++ concat (map frame_bytes demo_plan) ++ frame_bytes ready_frame ++ []))
      = (w', Ok None) /\ backend_in w' = [] /\
    exists es, trace w' = [] ++ es /\ Forall (fun ev => exists bytes, ev = ToBackend bytes) es.
Proof.
  apply (unsynced_row_is_taken_for_the_plan id no_parser id (demo_cfg false) "pgb_agent" "s1" "SELECT * FROM big"
    demo_line demo_plan [] (mkEstimate f64_zero 0)).
  - reflexivity.
  - vm_compute. exact I.
  - by_decide.
  - repeat (apply Forall_cons; split; [split; [done|split; [done|by_decide]]|]). constructor.
  - vm_compute. reflexivity.
  - simpl. lia.
  - reflexivity.
Defined.
End Demo.

End ProxySession.
