(* ===== verification/ProxyMain.v ===== *)
(** * ProxyMain: the proxy's startup

    Models the configuration half of [src/crates/proxy/src/main.rs]: the environment, the
    policy document, the backend target and the TLS posture, with the first failure ending
    the start.  The environment, the file system and the parse of a socket address are
    parameters; the audit boot that follows is [AuditAnchor]'s. *)

From stdpp Require Import pretty.
From S2P Require Import Prelude Text BlastRadius Config ProxySession.

Module ProxyMain.
Import Text RoleConfig Config ProxyConfig.

Inductive StartupError : Type :=
| BadListen (text : string)
| NotABoolean (key value : string)
| PolicyUnreadable (path : string)
| BadPolicy (e : PolicyError)
| BadConfig (e : ConfigError)
| BadTarget (e : TargetResolutionError)
| SecretMissing (key : string)
| SecretEmpty (key : string)
| BadTimeout (text : string).

Section startup.
Context (getenv : string -> option string).
Context (read_file : string -> option string).
Context (parse_addr : string -> option string).
Context (from_yaml : string -> option PolicyConfig).

Definition env_or (key fallback : string) : string := default fallback (getenv key).

Definition env_secret (key : string) : result StartupError string :=
  match getenv key with
  | None => Err (SecretMissing key)
  | Some v => if bool_decide (v = EmptyString) then Err (SecretEmpty key) else Ok v
  end.

Definition env_bool (key : string) : result StartupError (option bool) :=
  match getenv key with
  | None => Ok None
  | Some v =>
      let other := to_ascii_lowercase (trim v) in
      if bool_decide (other ∈ ["true"; "1"; "yes"; "on"]%string) then Ok (Some true)
      else if bool_decide (other ∈ ["false"; "0"; "no"; "off"]%string) then Ok (Some false)
      else Err (NotABoolean key other)
  end.

Definition backend_resolver (policy : PolicyConfig) : TargetResolver :=
  mkResolver (primary policy) (getenv "PGB_BACKEND_HOST") (getenv "PGB_BACKEND_PORT") (getenv "PGB_BACKEND_DB")
    (getenv "PGB_BACKEND_ROLE") "postgres" "pgb_agent" "PGB_BACKEND_HOST" "PGB_BACKEND_PORT"
    "policy.yaml `primary:` (the BYO primary target, SPEC §0.5)".

Definition resolve_backend_target (policy : PolicyConfig) : result TargetResolutionError ResolvedTarget :=
  resolve (backend_resolver policy).

Definition tls_material : option TlsConfig :=
  match getenv "PGB_PROXY_TLS_CERT", getenv "PGB_PROXY_TLS_KEY" with
  | Some cert, Some key => Some (mkTls cert key)
  | _, _ => None
  end.

(** [main], up to [cfg.validate_tls()?]. *)
Definition configure : result StartupError ProxyConfig :=
  let listen_text := env_or "PGB_PROXY_LISTEN" "127.0.0.1:6432" in
  let? listen := ok_or (BadListen listen_text) (parse_addr listen_text) in
  let tls := tls_material in
  let? explicit := env_bool "PGB_PROXY_REQUIRE_TLS" in
  let require := resolve_require_tls (bool_decide (is_Some tls)) explicit in
  let policy_path := env_or "PGB_POLICY_PATH" "crates/policy/policy.example.yaml" in
  let role := env_or "PGB_POLICY_ROLE" "analytics" in
  let? yaml := ok_or (PolicyUnreadable policy_path) (read_file policy_path) in
  let? policy := result_map_err BadPolicy (load_from_yaml from_yaml yaml) in
  let? budget := result_map_err BadConfig (budget_for policy role) in
  let? target := result_map_err BadTarget (resolve_backend_target policy) in
  let? backend_password := env_secret "PGB_BACKEND_PASSWORD" in
  let? agent_password := env_secret "PGB_AGENT_PASSWORD" in
  let timeout_text := env_or "PGB_STATEMENT_TIMEOUT_MS" "30000" in
  let? timeout := ok_or (BadTimeout timeout_text) (parse_unsigned u64_max timeout_text) in
  let cfg := mkProxyConfig listen tls require
               (mkTarget (r_host target) (r_port target) (r_database target) (r_role target) backend_password)
               (env_or "PGB_AGENT_USER" "pgb_agent") agent_password role budget timeout
               (env_or "PGB_SEARCH_PATH" DEFAULT_SEARCH_PATH) in
  let? _ := result_map_err BadConfig (validate_tls cfg) in
  Ok cfg.

(** *** A configured proxy *)

Lemma env_secret_iff key v : env_secret key = Ok v <-> getenv key = Some v /\ v <> EmptyString.
Proof.
  unfold env_secret. destruct (getenv key); [case_bool_decide|]; (split; [intros [=]|intros [[=] ?]]); subst; done.
Qed.

Lemma env_secret_ok key v : env_secret key = Ok v -> v <> EmptyString.
Proof. by intros [_ Hv]%env_secret_iff. Qed.

(** The words that switch TLS on and off, and what an unset switch leaves to the material. *)
Inductive tls_switch : option string -> bool -> bool -> Prop :=
| switch_unset material : tls_switch None material material
| switch_on v material : to_ascii_lowercase (trim v) ∈ ["true"; "1"; "yes"; "on"]%string -> tls_switch (Some v) material true
| switch_off v material : to_ascii_lowercase (trim v) ∈ ["false"; "0"; "no"; "off"]%string -> tls_switch (Some v) material false.

Lemma env_bool_switch key explicit material :
  env_bool key = Ok explicit -> tls_switch (getenv key) material (resolve_require_tls material explicit).
Proof.
  unfold env_bool. destruct (getenv key); [|intros [= <-]; constructor].
  case_bool_decide; [intros [= <-]; by constructor|]. case_bool_decide; [intros [= <-]; by constructor|done].
Qed.

Lemma map_err_ok_iff {E F A} (f : E -> F) (m : result E A) a : result_map_err f m = Ok a <-> m = Ok a.
Proof. destruct m; simpl; naive_solver. Qed.

Lemma role_get_in roles role r : role_get roles role = Some r -> (role, r) ∈ roles.
Proof.
  induction roles as [|[name p] roles IH]; simpl; [done|]. case_bool_decide; intros Hr.
  - simplify_eq. left.
  - right. by apply IH.
Qed.

Lemma budget_for_ok policy role b :
  budget_for policy role = Ok b -> exists r, (role, r) ∈ roles policy /\ role_budget r = b.
Proof.
  unfold budget_for. destruct (role_get _ _) eqn:E; [|done]. intros [= <-]. eexists. by split; [apply role_get_in|].
Qed.

Lemma resolve_backend_named policy t :
  resolve (backend_resolver policy) = Ok t -> primary_named getenv (primary policy) t.
Proof. by intros H%resolution_is_layered. Qed.

(** What each step of a start that succeeds has established. *)
Lemma configure_ok cfg :
  configure = Ok cfg ->
  parse_addr (env_or "PGB_PROXY_LISTEN" "127.0.0.1:6432") = Some (listen cfg) /\
  tls cfg = tls_material /\
  tls_switch (getenv "PGB_PROXY_REQUIRE_TLS") (bool_decide (is_Some tls_material)) (require_tls cfg) /\
  validate_tls cfg = Ok tt /\
  policy_role cfg = env_or "PGB_POLICY_ROLE" "analytics" /\
  (exists yaml policy target,
     read_file (env_or "PGB_POLICY_PATH" "crates/policy/policy.example.yaml") = Some yaml /\
     from_yaml yaml = Some policy /\ policy_validate policy = Ok tt /\
     budget_for policy (policy_role cfg) = Ok (budget cfg) /\ resolve (backend_resolver policy) = Ok target /\
     backend cfg = mkTarget (r_host target) (r_port target) (r_database target) (r_role target)
                     (target_password (backend cfg))) /\
  env_secret "PGB_BACKEND_PASSWORD" = Ok (target_password (backend cfg)) /\
  env_secret "PGB_AGENT_PASSWORD" = Ok (agent_password cfg) /\
  agent_user cfg = env_or "PGB_AGENT_USER" "pgb_agent" /\
  parse_unsigned u64_max (env_or "PGB_STATEMENT_TIMEOUT_MS" "30000") = Some (statement_timeout_ms cfg) /\
  search_path cfg = env_or "PGB_SEARCH_PATH" DEFAULT_SEARCH_PATH.
Proof.
  unfold configure. rewrite bind_ok_iff. intros (listen & Hl%ok_or_iff & H). revert H.
  rewrite bind_ok_iff. intros (explicit & Hexp & H). revert H. cbv zeta.
  rewrite bind_ok_iff. intros (yaml & Hf%ok_or_iff & H). revert H.
  rewrite bind_ok_iff. intros (policy & Hp%map_err_ok_iff & H). revert H.
  rewrite bind_ok_iff. intros (b & Hb%map_err_ok_iff & H). revert H.
  rewrite bind_ok_iff. intros (target & Ht%map_err_ok_iff & H). revert H.
  rewrite bind_ok_iff. intros (pw & Hpw & H). revert H.
  rewrite bind_ok_iff. intros (apw & Hapw & H). revert H.
  rewrite bind_ok_iff. intros (timeout & Hto%ok_or_iff & H). revert H.
  rewrite then_iff, map_err_ok_iff. intros (Htls & [= <-]).
  unfold load_from_yaml in Hp. destruct (from_yaml yaml) as [p|] eqn:Y; [|done].
  destruct (policy_validate p) as [[]|] eqn:V; [|done]. injection Hp as ->.
  repeat split; try done; [by apply env_bool_switch|]. by exists yaml, policy, target.
Qed.
End startup.

(** What decoding a document into its types guarantees: a port is a [u16]. *)
Definition decoded (c : PolicyConfig) : Prop := Forall (fun t => 0 <= dsn_port t <= 65535) (targets c).

(** C30: a proxy that starts runs on the environment's own settings, and they are safe.
    It listens where [PGB_PROXY_LISTEN] says.  It has TLS material exactly when both files are
    named, and then those files; TLS is required as [PGB_PROXY_REQUIRE_TLS] says, where unset
    exactly when both files are named, and never without them.  The policy is the valid
    document at [PGB_POLICY_PATH], the budget that of the named role, which the document has
    and which is well-formed.  The backend's host, port, database and role are each the
    environment's where set, else the document's primary's, the last two else the defaults,
    and are clean.  The backend's password is [PGB_BACKEND_PASSWORD], the agent's
    [PGB_AGENT_PASSWORD], neither empty; the agent's name, the statement timeout and the
    search path are their variables' or the defaults. *)
Theorem started_proxy_is_safe (getenv read_file parse_addr : string -> option string)
    (from_yaml : string -> option PolicyConfig) (cfg : ProxyConfig) :
  (forall yaml c, from_yaml yaml = Some c -> decoded c) ->
  configure getenv read_file parse_addr from_yaml = Ok cfg ->
  let env key fallback := default fallback (getenv key) in
  parse_addr (env "PGB_PROXY_LISTEN" "127.0.0.1:6432") = Some (listen cfg) /\
  (forall cert key, tls cfg = Some (mkTls cert key) <->
     getenv "PGB_PROXY_TLS_CERT" = Some cert /\ getenv "PGB_PROXY_TLS_KEY" = Some key) /\
  tls_switch (getenv "PGB_PROXY_REQUIRE_TLS") (bool_decide (is_Some (tls cfg))) (require_tls cfg) /\
  (require_tls cfg = true -> is_Some (tls cfg)) /\
  policy_role cfg = env "PGB_POLICY_ROLE" "analytics" /\
  (exists yaml policy r,
     read_file (env "PGB_POLICY_PATH" "crates/policy/policy.example.yaml") = Some yaml /\
     from_yaml yaml = Some policy /\ policy_wf policy /\
     (policy_role cfg, r) ∈ roles policy /\ role_budget r = budget cfg /\ role_wf r /\
     primary_named getenv (primary policy)
       (mkResolved (host (backend cfg)) (port (backend cfg)) (database (backend cfg)) (target_role (backend cfg)))) /\
  0 <= port (backend cfg) <= 65535 /\
  (getenv "PGB_BACKEND_PASSWORD" = Some (target_password (backend cfg)) /\ target_password (backend cfg) <> EmptyString) /\
  (getenv "PGB_AGENT_PASSWORD" = Some (agent_password cfg) /\ agent_password cfg <> EmptyString) /\
  agent_user cfg = env "PGB_AGENT_USER" "pgb_agent" /\
  parse_unsigned u64_max (env "PGB_STATEMENT_TIMEOUT_MS" "30000") = Some (statement_timeout_ms cfg) /\
  search_path cfg = env "PGB_SEARCH_PATH" DEFAULT_SEARCH_PATH.
Proof.
  intros Hdec (Hl & Htls & Hreq & Hvt & Hrole & (yaml & policy & target & Hf & Hy & Hv & Hb & Ht & Hbk) &
    Hpw%env_secret_iff & Hapw%env_secret_iff & Hu & Hto & Hsp)%configure_ok env.
  specialize (Hdec _ _ Hy). apply budget_for_ok in Hb as (r & Hin & Hr).
  apply policy_ok_iff in Hv as Hwf. pose proof Hwf as (_ & _ & Hroles & _).
  rewrite Forall_forall in Hroles. specialize (Hroles _ Hin). simpl in Hroles.
  assert (0 <= r_port target <= 65535) as Hc.
  { eapply resolve_clean; [|exact Ht]. intros p Hp. unfold decoded in Hdec. rewrite Forall_forall in Hdec. apply Hdec.
    unfold targets. simpl in *. rewrite Hp. simpl. left. }
  do 2 (split; [first [exact Hl|idtac]|]).
  { intros cert key. rewrite Htls. unfold tls_material.
    destruct (getenv "PGB_PROXY_TLS_CERT"), (getenv "PGB_PROXY_TLS_KEY"); naive_solver. }
  split; [by rewrite Htls|].
  split; [unfold validate_tls in Hvt; destruct (require_tls cfg), (tls cfg); naive_solver|].
  split; [exact Hrole|]. split; [|split; [by rewrite Hbk|done]].
  exists yaml, policy, r. split_and!; try done. rewrite Hbk. apply resolve_backend_named. by destruct target.
Qed.

(** *** A start on a small document *)

Definition demo_role : RolePolicy :=
  mkRolePolicy ["public.t"%string] (mkRoleBudget 100 10 DEFAULT_MAX_PLAN_COST DEFAULT_MAX_PLAN_ROWS (mkWindowBudget 60 1000 100)) L1.
Definition demo_document : PolicyConfig :=
  mkPolicy 1 [("analytics"%string, demo_role)] (Some demo_target) (mkReplica None None) (mkClone CP_None) (mkPolicyPitr false)
    (mkApprovers None) (mkAuditConfig None None).
Definition demo_env (key : string) : option string :=
  list_to_map (M := gmap string string)
    [("PGB_PROXY_TLS_CERT", "/tls/cert.pem"); ("PGB_PROXY_TLS_KEY", "/tls/key.pem"); ("PGB_BACKEND_ROLE", "reader");
     ("PGB_BACKEND_PASSWORD", "wall"); ("PGB_AGENT_PASSWORD", "scram")]%string !! key.
Definition demo_started : ProxyConfig :=
  mkProxyConfig "127.0.0.1:6432" (Some (mkTls "/tls/cert.pem" "/tls/key.pem")) true
    (mkTarget "db.internal" 5432 "app" "reader" "wall") "pgb_agent" "scram"
    "analytics" (role_budget demo_role) 30000 DEFAULT_SEARCH_PATH.

(** Both TLS files named and no switch: TLS is required; the role is the override. *)
Lemma started_proxy_is_safe_witness :
  configure demo_env (fun _ => Some EmptyString) Some (fun _ => Some demo_document) = Ok demo_started /\
  tls_switch (demo_env "PGB_PROXY_REQUIRE_TLS") (bool_decide (is_Some (tls demo_started))) (require_tls demo_started).
Proof.
  assert (configure demo_env (fun _ => Some EmptyString) Some (fun _ => Some demo_document) = Ok demo_started) as E
    by (vm_compute; reflexivity).
  split; [exact E|].
  refine (proj1 (proj2 (proj2
    (started_proxy_is_safe demo_env (fun _ => Some EmptyString) Some (fun _ => Some demo_document) demo_started _ E)))).
  intros _ c [= <-]. apply Forall_cons; split; [|constructor]. simpl. lia.
Defined.
End ProxyMain.
