(* ===== verification/Startup.v ===== *)
(** * Startup: how the proxy and the apply daemon come up

    Models [src/crates/proxy/src/main.rs] after the configuration ([ProxyMain]) and
    [tls.rs] (Modules [Tls], [ProxyStart]), and the start of
    [src/crates/applyd/src/main.rs] (Module [ApplydStart]).  Both open the same audit
    chain and the same durable anchor; [AuditStart] is that common sequence, and its
    theorem is about the two processes together.

    Parameters: the environment, the file of the policy, the clients [connect] opens, PEM
    and rustls, the listener.  The join error of a blocking task is not modelled (a task
    that panics ends the start as an error does). *)

From stdpp Require Import pretty.
From S2P Require Import Prelude Text Session BlastRadius Config Policy Grant AuditChain AuditSink AuditAnchor.
From S2P Require Import Approval Applyd Daemon ThreadedSink ProxyGate ProxySession ProxyMain.

(** ** The audit chain *)

Module AuditStart.
Import AuditChain AuditSink Secret Kms Anchor Boot.

Inductive AuditStartError : Type :=
| KeyRefused (e : SecretError)
| BootFailed (e : BootError)
| VerificationFailed (e : BootError).

Record AuditSettings : Type := mkAuditSettings {
  meta_dsn : string;
  signing_key : string;
  anchor_interval_ms : Z;
  anchor_path : string;
  anchor_role : AnchorRole
}.

(** The five variables both mains read, in this order; only the default role differs. *)
Definition audit_settings {E} (secret : string -> result E string) (bad_interval bad_role : string -> E)
    (getenv : string -> option string) (default_role : AnchorRole) : result E AuditSettings :=
  let? meta_dsn := secret "PGB_META_DSN"%string in
  let? signing_key := secret "PGB_AUDIT_SIGNING_KEY"%string in
  let interval := default "60000"%string (getenv "PGB_ANCHOR_INTERVAL_MS"%string) in
  let? interval_ms := Config.ok_or (bad_interval interval) (Config.parse_unsigned u64_max interval) in
  let? anchor_path := secret "PGB_ANCHOR_PATH"%string in
  let? role := result_map_err bad_role (parse_role (getenv "PGB_ANCHOR_ROLE"%string) default_role) in
  Ok (mkAuditSettings meta_dsn signing_key interval_ms anchor_path role).

Section start.
Context (canonical : AuditPayload -> list byte) (sha256_hex : list byte -> string).
Context `{!Kms LocalKms}.
Context (entry_to_json : AnchorEntry -> result string string) (entry_of_json : string -> result string AnchorEntry).
Context {S : Type} `{!Sink S}.

(** The key into the store, the handle over the durable anchor, the boot in its role. *)
Definition audit_start (fs : Files) (client : result string S) (key : string) (interval : Z) (path : string)
    (role : AnchorRole) (now : Z) : Files * result AuditStartError (AuditBoot S) :=
  match local_put ∅ AUDIT_SIGNING_KEY_ID (as_bytes key) with
  | (_, Err e) => (fs, Err (KeyRefused e))
  | (store, Ok _) =>
      match connect_with_anchor entry_of_json fs client store interval path with
      | (fs, Err e) => (fs, Err (BootFailed e))
      | (fs, Ok b) =>
          match boot canonical sha256_hex entry_to_json fs b role now with
          | (fs, _, Err e) => (fs, Err (VerificationFailed e))
          | (fs, b, Ok _) => (fs, Ok b)
          end
      end
  end.

(** One turn of the background task, which is spawned for the owner only; a failed turn
    is printed and the next one comes. *)
Definition anchor_tick (role : AnchorRole) (fs : Files) (b : AuditBoot S) (now : Z) :
    Files * AuditBoot S * result BootError unit :=
  if is_owner role then
    let '(fs, b, r) := boot_maybe_anchor entry_to_json fs b now in (fs, b, let? _ := r in Ok tt)
  else (fs, b, Ok tt).

(** ** The owner's life after its start *)

(** What the table becomes, whoever wrote it, and the ticks of the anchor task. *)
Inductive Event : Type :=
| Becomes (s : S)
| Tick (now : Z).

Definition with_table (b : AuditBoot S) (s : S) : AuditBoot S := mkBoot s (worm b) (anchorer b) (boot_verifier b).

(** The files, the owner's handle, and the chain as it was when last anchored. *)
Record OwnerLife : Type := mkOwner { o_files : Files; o_boot : AuditBoot S; o_pinned : list AuditRecord }.

Definition owner_step (o : OwnerLife) (ev : Event) : OwnerLife :=
  match ev with
  | Becomes s => mkOwner (o_files o) (with_table (o_boot o) s) (o_pinned o)
  | Tick now =>
      let '(fs, b, r) := boot_maybe_anchor entry_to_json (o_files o) (o_boot o) now in
      mkOwner fs b match r, load_chain_mut (sink (o_boot o)) with
                   | Ok (Some _), Ok rs => rs
                   | _, _ => o_pinned o
                   end
  end.

(** The turns of an owner's run are those of the task. *)
Lemma tick_is_task o now :
  let o' := owner_step o (Tick now) in
  (o_files o', o_boot o') = (anchor_tick Owner (o_files o) (o_boot o) now).1.
Proof. simpl. unfold anchor_tick. simpl. by destruct (boot_maybe_anchor _ _ _ _) as [[fs b] r]. Qed.

(** ** What the file pins *)

Hypothesis json_roundtrip : forall e line,
  entry_to_json e = Ok line -> Text.is_blank line = false /\ entry_of_json line = Ok e.

Definition pins (k : LocalKms) (path : string) (fs : Files) (b : AuditBoot S) (rs : list AuditRecord) : Prop :=
  durable entry_of_json fs (worm b) /\ file_path (worm b) = Some path /\ signer (anchorer b) = k /\
  exists e, latest (worm b) = Some e /\ a_head_hash e = head_hash rs /\
            a_signature e = sign_head k (a_head_hash e) (a_seq e) (a_timestamp_unix_millis e).

(** Whatever comes of an anchoring, the file pins what it anchored, or what it pinned. *)
Lemma maybe_anchor_pins k path fs b rs now fs' a w r :
  durable entry_of_json fs (worm b) -> file_path (worm b) = Some path -> signer (anchorer b) = k ->
  maybe_anchor_records entry_to_json fs (anchorer b) rs now (worm b) = (fs', a, w, r) ->
  match r with
  | Ok (Some _) => pins k path fs' (mkBoot (sink b) w a (boot_verifier b)) rs
  | _ => fs' = fs /\ w = worm b /\ a = anchorer b
  end.
Proof.
  intros Hd Hp Hk. unfold maybe_anchor_records. destruct (due _ _); [|by intros [= <- <- <- <-]].
  pose proof (head_of_hash rs) as Hh. destruct (head_of rs) as [[h q] t]. simpl in Hh.
  destruct (worm_append _ _ _ _) as [[fs1 w1] [[]|err]] eqn:Ew; intros [= <- <- <- <-].
  - eapply worm_append_durable in Ew as (Hd1 & He1 & Hp1); [|done..]. split; [|split; [|split]]; simpl.
    + destruct Hd1 as (p' & lines & ? & ? & ?). by exists p', lines.
    + by rewrite Hp1.
    + done.
    + eexists. unfold latest. simpl. rewrite He1, last_snoc. split; [done|]. simpl. by rewrite Hh, Hk.
  - unfold worm_append in Ew. destruct (file_path (worm b)) as [p'|]; [|done].
    destruct (fs !! p'); [|by injection Ew as <- <-]. destruct (entry_to_json _); [done|by injection Ew as <- <-].
Qed.

Lemma owner_step_pins k path o ev :
  pins k path (o_files o) (o_boot o) (o_pinned o) ->
  let o' := owner_step o ev in pins k path (o_files o') (o_boot o') (o_pinned o').
Proof.
  intros Hpin. destruct ev as [s|now]; [done|]. simpl. unfold boot_maybe_anchor, boot_load_chain.
  destruct (load_chain_mut (sink (o_boot o))) as [rs|err]; [|done]. simpl.
  destruct (maybe_anchor_records _ _ _ _ _ _) as [[[fs' a] w] r] eqn:Em. destruct (Hpin) as (Hd & Hp & Hk & _).
  eapply maybe_anchor_pins in Em; [|done..]. destruct r as [[x|]|e]; simpl; [done| |].
  - destruct Em as (-> & -> & ->). by destruct (o_boot o).
  - destruct Em as (-> & -> & ->). by destruct (o_boot o).
Qed.

Lemma owner_run_pins k path o evs :
  pins k path (o_files o) (o_boot o) (o_pinned o) ->
  let o' := foldl owner_step o evs in pins k path (o_files o') (o_boot o') (o_pinned o').
Proof. revert o. induction evs as [|ev evs IH]; intros o H; [done|]. by apply IH, owner_step_pins. Qed.

Definition key_of (key : string) : LocalKms := mkLocalKms AUDIT_SIGNING_KEY_ID (as_bytes key).

(** With a key that is not empty the start is the boot over the opened anchor. *)
Lemma audit_start_is fs (s : S) key interval path role now :
  key <> EmptyString ->
  audit_start fs (Ok s) key interval path role now =
  match open_file entry_of_json fs path with
  | (fs, Err e) => (fs, Err (BootFailed (WormFailed e)))
  | (fs, Ok w) =>
      match boot canonical sha256_hex entry_to_json fs (with_sink_and_worm s (key_of key) interval w) role now with
      | (fs, _, Err e) => (fs, Err (VerificationFailed e))
      | (fs, b, Ok _) => (fs, Ok b)
      end
  end.
Proof.
  intros Hk. unfold audit_start, local_put. destruct (as_bytes key) as [|c l] eqn:Ek.
  { destruct Hk. apply as_bytes_inj. by rewrite Ek. }
  rewrite lookup_empty. unfold connect_with_anchor, from_secret_store. simpl. unfold local_get.
  rewrite lookup_insert_eq. simpl. unfold key_of. rewrite Ek. by destruct (open_file _ _ _) as [fs0 [w|]].
Qed.

Lemma open_file_path fs path fs' w : open_file entry_of_json fs path = (fs', Ok w) -> file_path w = Some path.
Proof.
  unfold open_file. destruct (fs !! path); intros [= _ H]; [|by subst]. by apply result_bind_ok in H as (es & _ & [= <-]).
Qed.

(** A first owner start pins the chain it read. *)
Lemma owner_start_pins fs (s : S) key interval path now fs' b rs :
  key <> EmptyString -> load_chain_mut s = Ok rs ->
  audit_start fs (Ok s) key interval path Owner now = (fs', Ok b) ->
  pins (key_of key) path fs' b rs /\ verify_chain canonical sha256_hex rs = Ok tt.
Proof.
  intros Hk Hl. rewrite audit_start_is by done. destruct (open_file _ fs path) as [fs0 [w|]] eqn:Eo; [|done].
  simpl. unfold verify_then_anchor. destruct (check_chain _ _ _) as [rs'|] eqn:Ec; [|done].
  destruct (check_chain_ok canonical sha256_hex entry_to_json _ _ Ec) as (Hl' & Hc & _). simpl in Hl'. rewrite Hl in Hl'. injection Hl' as <-.
  destruct (maybe_anchor_records _ _ _ _ _ _) as [[[fs1 a] w1] r] eqn:Em.
  assert (exists x, r = Ok (Some x) \/ exists e, r = Err e) as (x & Hr).
  { unfold maybe_anchor_records in Em. simpl in Em. destruct (head_of rs) as [[h q] t].
    destruct (worm_append _ _ _ _) as [[? ?] [[]|]]; injection Em as <- <- <- <-; [eauto|].
    exists (mkAnchored 0 ""). eauto. }
  pose proof (maybe_anchor_pins (key_of key) path fs0 (with_sink_and_worm s (key_of key) interval w) rs now
                fs1 a w1 r (open_file_durable _ _ _ _ _ Eo) (open_file_path _ _ _ _ Eo) eq_refl Em) as Hp.
  destruct Hr as [->|[e ->]]; simpl; [|done]. intros [= <- <-]. split; [exact Hp|by apply verify_chain_ok].
Qed.
End start.
End AuditStart.

(** ** TLS material *)

Module Tls.
Import ProxyConfig.

Section tls.
Context {CertificateDer PrivateKeyDer ServerConfig : Type}.
(** rustls: the certificates of a PEM file one by one, its key, and the server side. *)
Context (pem_file_iter : string -> result string (list (result string CertificateDer))).
Context (key_from_pem_file : string -> result string PrivateKeyDer).
Context (with_single_cert : list CertificateDer -> PrivateKeyDer -> result string ServerConfig).

Definition pem_err (e : string) : string := "PEM parse error: " +:+ e.

(** [collect] into a [Result]: the first error, or all of them. *)
Fixpoint collect {A} (l : list (result string A)) : result string (list A) :=
  match l with
  | [] => Ok []
  | x :: l => let? a := x in let? rest := collect l in Ok (a :: rest)
  end.

Definition load_certs (path : string) : result string (list CertificateDer) :=
  let? items := result_map_err pem_err (pem_file_iter path) in
  let? certs := result_map_err pem_err (collect items) in
  match certs with
  | [] => Err ("no certificates found in " +:+ path)
  | _ => Ok certs
  end.

Definition load_key (path : string) : result string PrivateKeyDer := result_map_err pem_err (key_from_pem_file path).

Definition server_config (cfg : TlsConfig) : result string ServerConfig :=
  let? certs := load_certs (cert_pem cfg) in
  let? key := load_key (key_pem cfg) in
  result_map_err (fun e => "bad TLS material: " +:+ e) (with_single_cert certs key).

Lemma collect_ok {A} (items : list (result string A)) cs : collect items = Ok cs -> items = map Ok cs.
Proof.
  revert cs. induction items as [|x items IH]; simpl; intros cs; [by intros [= <-]|].
  intros (a & -> & (rest & Hr & [= <-])%result_bind_ok)%result_bind_ok. simpl. by rewrite (IH _ Hr).
Qed.

(** A server configuration has at least one certificate of the file and the file's key. *)
Lemma server_config_ok cfg c :
  server_config cfg = Ok c ->
  exists items certs key, pem_file_iter (cert_pem cfg) = Ok items /\ items = map Ok certs /\ certs <> [] /\
    key_from_pem_file (key_pem cfg) = Ok key /\ with_single_cert certs key = Ok c.
Proof.
  unfold server_config, load_certs, load_key.
  intros (certs & (items & Hi & (cs & Hc & Hne)%result_bind_ok)%result_bind_ok & (key & Hk & Hs)%result_bind_ok)%result_bind_ok.
  destruct (pem_file_iter _) as [items'|]; [|done]. simpl in Hi. injection Hi as ->.
  destruct (key_from_pem_file _) as [key'|]; [|done]. simpl in Hk. injection Hk as ->.
  destruct (with_single_cert _ _) as [c'|] eqn:Ew; [|done]. simpl in Hs. injection Hs as ->.
  destruct (collect items) as [cs'|] eqn:Ec; [|done]. simpl in Hc. injection Hc as ->.
  rewrite (collect_ok _ _ Ec).
  destruct cs; [done|]. injection Hne as <-. by eexists _, _, _.
Qed.
End tls.
End Tls.

(** ** The proxy *)

Module ProxyStart.
Import AuditChain AuditSink Anchor Boot Kms AuditStart Config ProxyConfig ProxyMain.

Inductive MainError : Type :=
| Startup (e : StartupError)
| BadInterval (text : string)
| BadRole (message : string)
| AuditFailed (e : AuditStartError)
| RecorderFailed (e : SinkError)
| BadTls (message : string)
| BindFailed (message : string)
| AcceptFailed (message : string).

Record Proxy (S ServerConfig : Type) : Type := mkProxy {
  proxy_cfg : ProxyConfig;
  proxy_audit : AuditSettings;
  proxy_boot : AuditBoot S;
  recorder_sink : ThreadedSink.ThreadedSink S;
  tls_acceptor : option ServerConfig
}.
Arguments mkProxy {S ServerConfig}.
Arguments proxy_cfg {S ServerConfig}.
Arguments proxy_audit {S ServerConfig}.
Arguments proxy_boot {S ServerConfig}.
Arguments recorder_sink {S ServerConfig}.
Arguments tls_acceptor {S ServerConfig}.

Section proxy.
Context (canonical : AuditPayload -> list byte) (sha256_hex : list byte -> string).
Context `{!Kms LocalKms}.
Context (entry_to_json : AnchorEntry -> result string string) (entry_of_json : string -> result string AnchorEntry).
Context (getenv : string -> option string) (read_file parse_addr : string -> option string).
Context (from_yaml : string -> option PolicyConfig).
Context {S : Type} `{!Sink S} (connect : string -> result string S).
Context {ServerConfig : Type} (server_config : TlsConfig -> result string ServerConfig).
Context (bind_listener : string -> result string unit).

Definition proxy_audit_settings : result MainError AuditSettings :=
  audit_settings (fun k => result_map_err Startup (env_secret getenv k)) BadInterval BadRole getenv Owner.

(** [main], from the configuration to the bound listener; [now] is the reading of the
    monotonic clock for the boot.  The recorder's client is its own, opened after it. *)
Definition proxy_start (fs : Files) (now : Z) : Files * result MainError (Proxy S ServerConfig) :=
  match (let? cfg := result_map_err Startup (configure getenv read_file parse_addr from_yaml) in
         let? audit := proxy_audit_settings in Ok (cfg, audit)) with
  | Err e => (fs, Err e)
  | Ok (cfg, audit) =>
      match audit_start canonical sha256_hex entry_to_json entry_of_json fs (connect (meta_dsn audit))
              (signing_key audit) (anchor_interval_ms audit) (anchor_path audit) (anchor_role audit) now with
      | (fs, Err e) => (fs, Err (AuditFailed e))
      | (fs, Ok boot) =>
          (fs,
           let? recorder := result_map_err RecorderFailed (ThreadedSink.threaded_connect (connect (meta_dsn audit))) in
           let? acceptor := match tls cfg with
                            | Some t => let? c := result_map_err BadTls (server_config t) in Ok (Some c)
                            | None => Ok None
                            end in
           let? _ := result_map_err BindFailed (bind_listener (listen cfg)) in
           Ok (mkProxy cfg audit boot recorder acceptor))
      end
  end.

(** The accept loop over what [accept] returns, call by call: the sessions it spawned, and
    the error that ended it. *)
Fixpoint accept_loop {Conn} (conn_id : Z) (accepts : list (result string Conn)) :
    list (string * Conn) * result MainError unit :=
  match accepts with
  | [] => ([], Ok tt)
  | Err e :: _ => ([], Err (AcceptFailed e))
  | Ok tcp :: accepts =>
      let conn_id := wrap_u 64 (conn_id + 1) in
      let '(sessions, r) := accept_loop conn_id accepts in
      (("conn-" +:+ pretty conn_id, tcp) :: sessions, r)
  end.

(** Every connection accepted before the first failure is served, in order, and no other;
    the session ids count from one. *)
Lemma accept_loop_serves {Conn} (tcps : list Conn) (accepts : list (result string Conn)) (n : Z) :
  0 <= n -> n + Z.of_nat (length tcps) < 2 ^ 64 ->
  accept_loop n (map Ok tcps ++ accepts) =
  let '(sessions, r) := accept_loop (n + Z.of_nat (length tcps)) accepts in
  (zip_with (fun i tcp => ("conn-" +:+ pretty (n + 1 + Z.of_nat i), tcp)) (List.seq 0 (length tcps)) tcps ++ sessions, r).
Proof.
  revert n. induction tcps as [|tcp tcps IH]; intros n Hn Hlt.
  - simpl. rewrite Z.add_0_r. by destruct (accept_loop n accepts).
  - simpl length in Hlt. cbn [map app accept_loop]. rewrite wrap_u_id by (unfold in_u; lia).
    rewrite IH by lia. replace (n + Z.of_nat (length (tcp :: tcps))) with (n + 1 + Z.of_nat (length tcps)) by (simpl; lia).
    destruct (accept_loop _ accepts) as [sessions r]. cbn [length List.seq zip_with app]. rewrite Z.add_0_r.
    do 3 f_equal. rewrite <- fmap_S_seq, zip_with_fmap_l. apply zip_with_ext; [|done..].
    intros i t. do 3 f_equal. lia.
Qed.

(** What a start that succeeded has opened. *)
Lemma proxy_start_ok fs now fs' (p : Proxy S ServerConfig) :
  proxy_start fs now = (fs', Ok p) ->
  configure getenv read_file parse_addr from_yaml = Ok (proxy_cfg p) /\ proxy_audit_settings = Ok (proxy_audit p) /\
  audit_start canonical sha256_hex entry_to_json entry_of_json fs (connect (meta_dsn (proxy_audit p)))
    (signing_key (proxy_audit p)) (anchor_interval_ms (proxy_audit p)) (anchor_path (proxy_audit p))
    (anchor_role (proxy_audit p)) now = (fs', Ok (proxy_boot p)) /\
  (is_Some (tls (proxy_cfg p)) <-> is_Some (tls_acceptor p)) /\
  (forall t c, tls (proxy_cfg p) = Some t -> tls_acceptor p = Some c -> server_config t = Ok c) /\
  (exists s, connect (meta_dsn (proxy_audit p)) = Ok s /\ ThreadedSink.thread (recorder_sink p) = Some s).
Proof.
  unfold proxy_start. destruct (configure _ _ _ _) as [cfg|]; [|done]. simpl.
  destruct proxy_audit_settings as [audit|]; [|done]. simpl.
  destruct (audit_start _ _ _ _ _ _ _ _ _ _ _) as [fs1 [boot|]] eqn:Ea; [|done]. intros [= <- H].
  apply result_bind_ok in H as (rec & Hrec & (acc & Hacc & (u & Hb & [= <-])%result_bind_ok)%result_bind_ok). simpl.
  split; [done|]. split; [done|]. split; [done|].
  destruct (connect (meta_dsn audit)) as [s|]; [|done]. simpl in Hrec. injection Hrec as <-.
  destruct (tls cfg) as [t|]; [|injection Hacc as <-]; [|naive_solver].
  destruct (server_config t) as [c|] eqn:Es; [|done]. simpl in Hacc. injection Hacc as <-. naive_solver.
Qed.
End proxy.
End ProxyStart.

(** ** The apply daemon *)

Module ApplydStart.
Import AuditChain AuditSink Anchor Boot Kms AuditStart.
Import Config(PolicyConfig, PolicyError, TargetResolutionError, load_from_yaml, resolved_dsn, ok_or).
Import Daemon(env_secret, parse_pubkey, resolve_backend_target, bind_socket, SocketFs, SharedState, Backends, mkShared, mkBackends).

Inductive ApplydError : Type :=
| Text (message : string)
| PolicyUnreadable (path : string)
| BadPolicy (e : PolicyError)
| BadInterval (text : string)
| BadRole (message : string)
| AuditFailed (e : AuditStartError)
| BadTarget (e : TargetResolutionError)
| ApplyConnect (message : string)
| RehearsalConnect (message : string)
| SocketFailed (message : string).

Section applyd.
Context (canonical : AuditPayload -> list byte) (sha256_hex : list byte -> string).
Context `{!Kms LocalKms}.
Context (entry_to_json : AnchorEntry -> result string string) (entry_of_json : string -> result string AnchorEntry).
Context (getenv : string -> option string) (read_file : string -> option string).
Context (from_yaml : string -> option PolicyConfig).
Context (hex_decode : string -> option (list byte)) (hex_error : string -> string).
Context {VerifyingKey : Type} (verifying_key_from_bytes : list byte -> result string VerifyingKey).
Context {S D F : Type} `{!Sink S, !SocketFs F} (connect : string -> result string S) (connect_backend : string -> result string D).

#[local] Abbreviation Svc := (Service.Service S Webhook.RecordingWebhookSender (gset string) (gset string) VerifyingKey).

Definition env_or (key fallback : string) : string := default fallback (getenv key).

Definition applyd_audit_settings : result ApplydError AuditSettings :=
  audit_settings (fun k => result_map_err Text (env_secret getenv k)) BadInterval BadRole getenv VerifyOnly.

(** What [main] reads before the audit chain: the policy and the approver's key. *)
Definition trust_root : result ApplydError (PolicyConfig * VerifyingKey) :=
  let policy_path := env_or "PGB_POLICY_PATH" "crates/policy/policy.example.yaml" in
  let? yaml := ok_or (PolicyUnreadable policy_path) (read_file policy_path) in
  let? policy := result_map_err BadPolicy (load_from_yaml from_yaml yaml) in
  let? hex := result_map_err Text (env_secret getenv "PGB_APPROVER_PUBKEY") in
  let? vk := result_map_err Text (parse_pubkey hex_decode hex_error verifying_key_from_bytes hex) in
  Ok (policy, vk).

(** The two resident sessions, over one connection string. *)
Definition backends_of (policy : PolicyConfig) : result ApplydError (Backends D) :=
  let? target := result_map_err BadTarget (resolve_backend_target policy getenv) in
  let? password := result_map_err Text (env_secret getenv "PGB_BACKEND_PASSWORD") in
  let dsn := resolved_dsn target +:+ " password=" +:+ password in
  let? apply_client := result_map_err ApplyConnect (connect_backend dsn) in
  let? read_client := result_map_err RehearsalConnect (connect_backend dsn) in
  Ok (mkBackends apply_client read_client).

(** [main] up to the accept loop; the sink is the boot's own, shared with the flow and the
    service.  [seed] is the first proposal number the service draws. *)
Definition applyd_start (fs : Files) (sockets : F) (now seed : Z) :
    Files * F * result ApplydError (SharedState Svc D * AuditSettings) :=
  let socket_path := env_or "PGB_APPLYD_SOCKET" "/tmp/pgb-applyd/applyd.sock" in
  match (let? root := trust_root in let? audit := applyd_audit_settings in Ok (root, audit)) with
  | Err e => (fs, sockets, Err e)
  | Ok (policy, vk, audit) =>
      match audit_start canonical sha256_hex entry_to_json entry_of_json fs (connect (meta_dsn audit))
              (signing_key audit) (anchor_interval_ms audit) (anchor_path audit) (anchor_role audit) now with
      | (fs, Err e) => (fs, sockets, Err (AuditFailed e))
      | (fs, Ok boot) =>
          match backends_of policy with
          | Err e => (fs, sockets, Err e)
          | Ok backends =>
              let flow := Flow.flow_new Webhook.recording_new vk ∅ in
              let service := Service.service_new flow (sink boot) ∅ vk policy seed in
              match bind_socket sockets socket_path with
              | (sockets, Err e) => (fs, sockets, Err (SocketFailed e))
              | (sockets, Ok _) => (fs, sockets, Ok (mkShared service backends, audit))
              end
          end
      end
  end.

(** The accept loop: a failed [accept] is printed and the loop goes on. *)
Definition applyd_accepts {Conn} (incoming : list (result string Conn)) : list Conn :=
  omap (fun x => match x with Ok s => Some s | Err _ => None end) incoming.

Lemma applyd_start_ok fs sockets now seed fs' sockets' st audit :
  applyd_start fs sockets now seed = (fs', sockets', Ok (st, audit)) ->
  applyd_audit_settings = Ok audit /\
  exists policy vk boot,
    trust_root = Ok (policy, vk) /\
    audit_start canonical sha256_hex entry_to_json entry_of_json fs (connect (meta_dsn audit)) (signing_key audit)
      (anchor_interval_ms audit) (anchor_path audit) (anchor_role audit) now = (fs', Ok boot) /\
    backends_of policy = Ok (Daemon.backends st) /\
    Daemon.service st = Service.service_new (Flow.flow_new Webhook.recording_new vk ∅) (sink boot) ∅ vk policy seed.
Proof.
  unfold applyd_start. destruct trust_root as [[policy vk]|]; [|done]. simpl.
  destruct applyd_audit_settings as [a|]; [|done]. simpl.
  destruct (audit_start _ _ _ _ _ _ _ _ _ _ _) as [fs1 [bt|]] eqn:Ea; [|done].
  destruct (backends_of policy) as [bk|] eqn:Eb; [|done].
  destruct (bind_socket _ _) as [s1 [[]|]]; [|done]. intros [= <- <- <- <-]. split; [done|]. by exists policy, vk, bt.
Qed.
End applyd.
End ApplydStart.

(** ** The two together *)

Module Deployment.
Import AuditChain AuditSink Secret Anchor Boot Kms AuditStart.

(** By default the proxy is the one process that anchors. *)
Lemma default_roles {E} (secret : string -> result E string) (bad : string -> E) (getenv : string -> option string) d a :
  getenv "PGB_ANCHOR_ROLE"%string = None ->
  audit_settings secret bad bad getenv d = Ok a -> anchor_role a = d.
Proof.
  intros Hn. unfold audit_settings. rewrite Hn. simpl.
  intros (dsn & _ & (key & _ & (i & _ & (path & _ & [= <-])%result_bind_ok)%result_bind_ok)%result_bind_ok)%result_bind_ok.
  done.
Qed.

Lemma settings_key {E} (secret : string -> result E string) (b1 b2 : string -> E) getenv d a :
  (forall k v, secret k = Ok v -> v <> EmptyString) ->
  audit_settings secret b1 b2 getenv d = Ok a -> signing_key a <> EmptyString.
Proof.
  intros Hs. unfold audit_settings.
  intros (dsn & _ & (key & Hk & (i & _ & (path & _ & (r & _ & [= <-])%result_bind_ok)%result_bind_ok)%result_bind_ok)%result_bind_ok)%result_bind_ok.
  by apply Hs in Hk.
Qed.

Section restart.
Context (canonical : AuditPayload -> list byte) (sha256_hex : list byte -> string).
Context (hmac : list byte -> list byte -> list byte).
Context (hex_encode : list byte -> string) (hex_decode : string -> option (list byte)).
Context (hex_roundtrip : forall l, hex_decode (hex_encode l) = Some l).
Context (entry_to_json : AnchorEntry -> result string string) (entry_of_json : string -> result string AnchorEntry).
Context (json_roundtrip : forall e line, entry_to_json e = Ok line -> Text.is_blank line = false /\ entry_of_json line = Ok e).
Context (json_total : forall e, exists line, entry_to_json e = Ok line).
Context {S : Type} `{!Sink S}.

#[local] Instance kms : Kms LocalKms := LocalKms_kms hmac hex_encode hex_decode.

(** A process that starts over a file that pins a chain compares the heads. *)
Lemma start_over_pin fs (b : AuditBoot S) (pinned rs : list AuditRecord) (s : S) key interval path role now :
  key <> EmptyString -> pins entry_of_json (key_of key) path fs b pinned -> load_chain_mut s = Ok rs ->
  is_ok (audit_start canonical sha256_hex entry_to_json entry_of_json fs (Ok s) key interval path role now).2 = true <->
  verify_chain canonical sha256_hex rs = Ok tt /\ head_hash rs = head_hash pinned.
Proof.
  intros Hk (Hd & Hp & _ & e & He & Hh & Hs) Hl. rewrite audit_start_is by done.
  rewrite (reopen_durable _ _ _ _ Hd Hp). set (w := mkWorm _ _ _).
  destruct (verify_chain canonical sha256_hex rs) as [[]|br] eqn:Ev.
  2: { split; [|by intros [? _]]. intros H. exfalso. revert H.
       assert (check_chain canonical sha256_hex (with_sink_and_worm s (key_of key) interval w) = Err (ChainIntegrity br)) as Hc.
       { unfold check_chain, boot_load_chain. simpl. by rewrite Hl; simpl; rewrite Ev. }
       destruct role; simpl; unfold verify_then_anchor, verify_only; by rewrite Hc. }
  assert (check_chain canonical sha256_hex (with_sink_and_worm s (key_of key) interval w) =
          if decide (head_hash rs = a_head_hash e) then Ok rs
          else Err (AnchorHeadMismatch (a_head_hash e) (head_hash rs) (a_seq e))) as Hc.
  { apply (check_chain_anchored canonical sha256_hex); try done. simpl. rewrite Hs. by apply sign_then_verify. }
  rewrite Hh in Hc. destruct Hd as (p' & lines & Hp' & Hf & _).
  destruct role; simpl; unfold verify_then_anchor, verify_only; rewrite Hc; case_decide; simpl;
    [|by split; [|intros [_ ?]]|by split|by split; [|intros [_ ?]]].
  unfold maybe_anchor_records. simpl. destruct (head_of rs) as [[h q] t]. unfold worm_append. simpl.
  rewrite Hp in Hp'. injection Hp' as <-. rewrite Hf. edestruct json_total as [line ->]. by split.
Qed.

(** Over another head the start is refused, and no file is touched. *)
Lemma start_over_pin_refused fs (b : AuditBoot S) (pinned rs : list AuditRecord) (s : S) key interval path role now :
  key <> EmptyString -> pins entry_of_json (key_of key) path fs b pinned -> load_chain_mut s = Ok rs ->
  head_hash rs <> head_hash pinned ->
  exists e, audit_start canonical sha256_hex entry_to_json entry_of_json fs (Ok s) key interval path role now =
            (fs, Err (VerificationFailed e)).
Proof.
  intros Hk (Hd & Hp & _ & e & He & Hh & _) Hl Hne. rewrite audit_start_is by done.
  rewrite (reopen_durable _ _ _ _ Hd Hp). set (w := mkWorm _ _ _).
  destruct (check_chain canonical sha256_hex (with_sink_and_worm s (key_of key) interval w)) as [rs'|err] eqn:Ec.
  - destruct (check_chain_ok canonical sha256_hex entry_to_json _ _ Ec) as (Hl' & _ & Hh'). simpl in Hl'. rewrite Hl in Hl'.
    injection Hl' as <-. by destruct Hne; rewrite <- Hh, <- (Hh' e).
  - exists err. destruct role; simpl; unfold verify_then_anchor, verify_only; by rewrite Ec.
Qed.

(** Such a start leaves the files as they are unless it anchors. *)
Lemma verifier_keeps_files fs (b : AuditBoot S) (pinned : list AuditRecord) (s : S) key interval path now :
  key <> EmptyString -> pins entry_of_json (key_of key) path fs b pinned ->
  (audit_start canonical sha256_hex entry_to_json entry_of_json fs (Ok s) key interval path VerifyOnly now).1 = fs.
Proof.
  intros Hk (Hd & Hp & _). rewrite audit_start_is by done. rewrite (reopen_durable _ _ _ _ Hd Hp). simpl.
  by destruct (verify_only _ _ _).
Qed.
End restart.

(** C14: the daemon and the proxy's anchor.  A proxy has started as the owner of the
    anchor; the table may since have become anything, at any point, and the anchor task
    has ticked any number of times.  An apply daemon with the same key and anchor, and
    whose start lacks nothing else, then starts exactly when the chain it reads verifies
    and has the head the proxy last published.  If the chain the proxy read when it
    published it verifies too (a tick publishes the head of whatever it reads, verified or
    not), that chain is the one the daemon starts on, unless two payloads share a hash.  A
    daemon that is only a verifier leaves the anchor file as it found it.  So a record
    appended since the last tick keeps the daemon from starting, and a rewrite the running
    proxy has anchored does not. *)
Theorem daemon_starts_iff_head_is_published (canonical : AuditPayload -> list byte) (sha256_hex : list byte -> string)
    (hmac : list byte -> list byte -> list byte)
    (hex_encode : list byte -> string) (hex_decode : string -> option (list byte))
    (entry_to_json : AnchorEntry -> result string string) (entry_of_json : string -> result string AnchorEntry)
    {S D F ServerConfig VerifyingKey : Type} `{!Sink S, !Daemon.SocketFs F}
    (envP envA read_fileP read_fileA parse_addr : string -> option string) (from_yaml : string -> option Config.PolicyConfig)
    (connectP connectA : string -> result string S) (connect_backend : string -> result string D)
    (server_config : ProxyConfig.TlsConfig -> result string ServerConfig) (bind_listener : string -> result string unit)
    (pubkey_decode : string -> option (list byte)) (hex_error : string -> string)
    (verifying_key_from_bytes : list byte -> result string VerifyingKey)
    (fs fs1 : Files) (sockets : F) (nowP nowA seed : Z) (p : ProxyStart.Proxy S ServerConfig) (s0 s : S)
    (rs0 rs : list AuditRecord) (evs : list Event) (a : AuditSettings) (policy : Config.PolicyConfig) (vk : VerifyingKey) :
  let _ := LocalKms_kms hmac hex_encode hex_decode in
  let start := ApplydStart.applyd_start canonical sha256_hex entry_to_json entry_of_json envA read_fileA from_yaml
                 pubkey_decode hex_error verifying_key_from_bytes connectA connect_backend in
  let o := foldl (owner_step entry_to_json) (mkOwner fs1 (ProxyStart.proxy_boot p) rs0) evs in
  (forall l, hex_decode (hex_encode l) = Some l) ->
  (forall e line, entry_to_json e = Ok line -> Text.is_blank line = false /\ entry_of_json line = Ok e) ->
  (forall e, exists line, entry_to_json e = Ok line) ->
  ProxyStart.proxy_start canonical sha256_hex entry_to_json entry_of_json envP read_fileP parse_addr from_yaml connectP
    server_config bind_listener fs nowP = (fs1, Ok p) ->
  anchor_role (ProxyStart.proxy_audit p) = Owner ->
  connectP (meta_dsn (ProxyStart.proxy_audit p)) = Ok s0 -> load_chain_mut s0 = Ok rs0 ->
  ApplydStart.applyd_audit_settings envA = Ok a -> connectA (meta_dsn a) = Ok s -> load_chain_mut s = Ok rs ->
  signing_key a = signing_key (ProxyStart.proxy_audit p) -> anchor_path a = anchor_path (ProxyStart.proxy_audit p) ->
  ApplydStart.trust_root envA read_fileA from_yaml pubkey_decode hex_error verifying_key_from_bytes = Ok (policy, vk) ->
  is_ok (ApplydStart.backends_of envA connect_backend policy) = true ->
  is_ok (Daemon.bind_socket sockets (ApplydStart.env_or envA "PGB_APPLYD_SOCKET" "/tmp/pgb-applyd/applyd.sock")).2 = true ->
  (is_ok (start (o_files o) sockets nowA seed).2 = true <->
     verify_chain canonical sha256_hex rs = Ok tt /\ head_hash rs = head_hash (o_pinned o)) /\
  (verify_chain canonical sha256_hex (o_pinned o) = Ok tt -> is_ok (start (o_files o) sockets nowA seed).2 = true ->
     rs = o_pinned o \/ hash_broken canonical sha256_hex) /\
  (anchor_role a = VerifyOnly -> (start (o_files o) sockets nowA seed).1.1 = o_files o).
Proof.
  intros kms start o Hhex Hj Hjt (_ & Hset & Hst & _)%ProxyStart.proxy_start_ok Hown Hc0 Hl0 Ha Hc Hl Hkey Hpath Hroot Hbk Hsock.
  assert (signing_key (ProxyStart.proxy_audit p) <> EmptyString) as Hne.
  { unfold ProxyStart.proxy_audit_settings in Hset. eapply settings_key, Hset. intros k v. simpl. rewrite ProxyMain.map_err_ok_iff.
    intros Hv. exact (ProxyMain.env_secret_ok _ _ _ Hv). }
  rewrite Hown, Hc0 in Hst. eapply owner_start_pins in Hst as [Hpin _]; [|done..].
  pose proof (owner_run_pins entry_to_json entry_of_json Hj _ _ (mkOwner fs1 (ProxyStart.proxy_boot p) rs0) evs Hpin) as Ho.
  rewrite <- Hkey, <- Hpath in Ho. rewrite <- Hkey in Hne. clear Hpin.
  pose proof (fun i role => start_over_pin canonical sha256_hex hmac hex_encode hex_decode Hhex entry_to_json entry_of_json
                Hjt _ _ _ rs s _ i _ role nowA Hne Ho Hl) as Hiff.
  assert (is_ok (start (o_files o) sockets nowA seed).2 =
          is_ok (audit_start canonical sha256_hex entry_to_json entry_of_json (o_files o) (Ok s) (signing_key a)
                   (anchor_interval_ms a) (anchor_path a) (anchor_role a) nowA).2 /\
          (start (o_files o) sockets nowA seed).1.1 =
          (audit_start canonical sha256_hex entry_to_json entry_of_json (o_files o) (Ok s) (signing_key a)
                   (anchor_interval_ms a) (anchor_path a) (anchor_role a) nowA).1) as [Hok Hfs].
  { unfold start, ApplydStart.applyd_start. rewrite Hroot. simpl. rewrite Ha. simpl. rewrite Hc.
    destruct (audit_start _ _ _ _ _ _ _ _ _ _ _) as [fs' [b|]]; [|done].
    destruct (ApplydStart.backends_of _ _ _) as [bk|]; [|done]. destruct (Daemon.bind_socket _ _) as [s' [[]|]]; done. }
  rewrite Hok, Hfs. split; [apply Hiff|]. split.
  - intros Hv [Hv' Hh]%Hiff. apply verify_chain_ok in Hv, Hv'. by apply same_head_same_chain.
  - intros ->. by apply (verifier_keeps_files canonical sha256_hex hmac hex_encode hex_decode) with (b := o_boot o) (pinned := o_pinned o).
Qed.

(** *** A proxy over the sample chain, and a daemon after it *)

Definition quiet_fs : Daemon.SocketFs unit := {|
  Daemon.parent _ := None;
  Daemon.create_dir_all f _ := (f, Ok tt);
  Daemon.set_permissions f _ _ := (f, Ok tt);
  Daemon.exists_ _ _ := false;
  Daemon.symlink_is_socket _ _ := Ok true;
  Daemon.remove_file f _ := (f, Ok tt);
  Daemon.bind f _ := (f, Ok tt)
|}.

Definition sample_env (key : string) : option string :=
  list_to_map (M := gmap string string)
    [("PGB_BACKEND_PASSWORD", "secret"); ("PGB_AGENT_PASSWORD", "secret"); ("PGB_APPROVER_PUBKEY", "k");
     ("PGB_META_DSN", "host=meta"); ("PGB_AUDIT_SIGNING_KEY", "k"); ("PGB_ANCHOR_PATH", "anchor");
     ("PGB_ANCHOR_INTERVAL_MS", "1000")]%string !! key.

#[local] Abbreviation sample_sink := (InMemorySink_sink toy_canonical toy_hash).
Definition sample_proxy : Files * result ProxyStart.MainError (ProxyStart.Proxy InMemorySink unit) :=
  @ProxyStart.proxy_start toy_canonical toy_hash demo_kms demo_to_json demo_of_json sample_env (fun _ => Some EmptyString) Some
    (fun _ => Some ProxyMain.demo_document) InMemorySink sample_sink (fun _ => Ok (demo_sink 2)) unit (fun _ => Ok tt)
    (fun _ => Ok tt) ∅ 5.
Definition sample_daemon (fs : Files) (n : nat) :=
  (@ApplydStart.applyd_start toy_canonical toy_hash demo_kms demo_to_json demo_of_json sample_env (fun _ => Some EmptyString)
    (fun _ => Some ProxyMain.demo_document) (fun _ => Some (repeat x00 32)) (fun s => s) unit (fun _ => Ok tt) InMemorySink unit
    unit sample_sink quiet_fs (fun _ => Ok (demo_sink n)) (fun _ => Ok tt) fs tt 9 0).
Definition sample_settings (role : AnchorRole) : AuditSettings := mkAuditSettings "host=meta" "k" 1000 "anchor" role.
Definition sample_files : Files := Eval vm_compute in sample_proxy.1.
Definition sample_started : ProxyStart.Proxy InMemorySink unit :=
  Eval vm_compute in match sample_proxy.2 with
                     | Ok p => p
                     | Err _ => ProxyStart.mkProxy ProxyMain.demo_started (sample_settings Owner)
                                  (with_sink (demo_sink 0) demo_key 0) (ThreadedSink.mkThreaded None) None
                     end.
(** The proxy started over two records; what then happened. *)
Definition sample_after (evs : list Event) : OwnerLife :=
  foldl (@owner_step demo_kms demo_to_json InMemorySink sample_sink)
    (mkOwner sample_files (ProxyStart.proxy_boot sample_started) (chain (demo_sink 2))) evs.

Example record_since_the_tick_refused :
  is_ok (sample_daemon (o_files (sample_after [Becomes (demo_sink 3)])) 3).2 = false.
Proof. vm_compute. reflexivity. Qed.

Lemma daemon_starts_iff_head_is_published_witness :
  is_ok (sample_daemon (o_files (sample_after [Becomes (demo_sink 3); Tick 2000])) 3).2 = true.
Proof.
  refine (proj2 (proj1 (daemon_starts_iff_head_is_published toy_canonical toy_hash demo_hmac of_bytes demo_hex_decode demo_to_json
    demo_of_json (Sink0 := sample_sink) (H := quiet_fs) sample_env sample_env (fun _ => Some EmptyString) (fun _ => Some EmptyString)
    Some (fun _ => Some ProxyMain.demo_document) (fun _ => Ok (demo_sink 2)) (fun _ => Ok (demo_sink 3)) (fun _ => Ok tt)
    (fun _ => Ok tt) (fun _ => Ok tt) (fun _ => Some (repeat x00 32)) (fun s => s) (fun _ => Ok tt) ∅ sample_files tt 5 9 0
    sample_started (demo_sink 2) (demo_sink 3) (chain (demo_sink 2)) (chain (demo_sink 3)) [Becomes (demo_sink 3); Tick 2000]
    (sample_settings VerifyOnly) ProxyMain.demo_document tt demo_hex_roundtrip demo_json_roundtrip demo_json_total
    _ _ _ _ _ _ _ _ _ _ _ _)) _); try reflexivity; try (vm_compute; reflexivity).
  split; vm_compute; reflexivity.
Defined.
End Deployment.
