(* ===== verification/CliMain.v ===== *)
(** * CliMain: the demonstration, the key generator and the command line

    Models the rest of [src/crates/cli/src/main.rs]: [run_flow] and [run_demo], which drive
    the approval flow ([Approval]) over an audit sink, [run_keygen], and the dispatch of
    [main].  What is printed is what the functions return.  The demonstration's audit handle
    is a clone of the boot's, so the sink's state is passed through.  Parameters: the keys
    and signatures, the codecs, the environment and the client the database gives; [tick]
    is what a step takes on the clock.  [None] is a panic. *)

From stdpp Require Import pretty.
From S2P Require Import Prelude Text Config Inverse Session BlastRadius Policy Grant AuditChain AuditSink AuditAnchor.
From S2P Require Import Messages Approval Applyd Daemon Cli SharedSink ThreadedSink ProxyMain Startup.

Module CliMain.
Import AuditChain AuditSink Secret Kms Anchor Boot AuditStart.
Import Clock Webhook Request Flow.
Import Daemon(parse_signing_key, parse_pubkey).

(** ** The command line *)

Inductive Command : Type :=
| CmdApprove (id : string)
| CmdApproveUsage
| CmdDemo
| CmdVerify
| CmdKeygen
| CmdDoctor
| CmdUsage.

(** [args.get(1)] and [args.get(2)]; what follows is ignored. *)
Definition cli_command (args : list string) : Command :=
  match args !! 1%nat with
  | Some c =>
      if bool_decide (c = "approve"%string) then
        match args !! 2%nat with Some id => CmdApprove id | None => CmdApproveUsage end
      else if bool_decide (c = "demo"%string) then CmdDemo
      else if bool_decide (c = "verify"%string) then CmdVerify
      else if bool_decide (c = "keygen"%string) then CmdKeygen
      else if bool_decide (c = "doctor"%string) then CmdDoctor
      else CmdUsage
  | None => CmdUsage
  end.

(** The exit code, given what the command's function returns. *)
Definition exit_code {E1 E2 E3 A B} (c : Command) (demo : result E1 A) (verify : result E2 B) (doctor : result E3 bool) : Z :=
  match c with
  | CmdApprove _ | CmdApproveUsage => 2
  | CmdDemo => if is_ok demo then 0 else 1
  | CmdVerify => if is_ok verify then 0 else 1
  | CmdKeygen => 0
  | CmdDoctor => match doctor with Ok true => 0 | Ok false => 1 | Err _ => 1 end
  | CmdUsage => 0
  end.

(** Zero is only ever returned by the two commands that print, or by work that succeeded. *)
Lemma exit_zero_iff {E1 E2 E3 A B} args (demo : result E1 A) (verify : result E2 B) (doctor : result E3 bool) :
  exit_code (cli_command args) demo verify doctor = 0 <->
  cli_command args = CmdKeygen \/ cli_command args = CmdUsage \/ (cli_command args = CmdDemo /\ is_ok demo = true) \/
  (cli_command args = CmdVerify /\ is_ok verify = true) \/ (cli_command args = CmdDoctor /\ doctor = Ok true).
Proof.
  destruct (cli_command args); simpl; try (destruct (is_ok _)); try (destruct doctor as [[]|]);
    (split; [try done; tauto|]); intros H; try done;
    destruct H as [H|[H|[[H H']|[[H H']|[H H']]]]]; congruence.
Qed.

Section cli.
Context (canonical : AuditPayload -> list byte) (sha256_hex : list byte -> string).
Context `{!Kms LocalKms}.
Context (entry_to_json : AnchorEntry -> result string string) (entry_of_json : string -> result string AnchorEntry).
Context (sha256 : list byte -> list byte) {SigningKey VerifyingKey Signature : Type}.
Context (verifying_key_of : SigningKey -> VerifyingKey).
Context (signing_key_to_bytes : SigningKey -> list byte) (verifying_key_to_bytes : VerifyingKey -> list byte).
Context (key_sign : SigningKey -> list byte -> Signature) (signature_to_bytes : Signature -> list byte).
Context (verify_strict : VerifyingKey -> list byte -> Signature -> bool).
Context (signature_from_bytes : list byte -> Signature).
Context (hex_encode : list byte -> string) (hex_decode : string -> option (list byte)).
Context {C : Type} `{Clock C} (tick : C -> C).

(** ** The key generator: the two lines it prints for the key drawn *)

Definition run_keygen (sk : SigningKey) : string * string :=
  (hex_encode (signing_key_to_bytes sk), hex_encode (verifying_key_to_bytes (verifying_key_of sk))).

(** The daemon reads the lines back as that pair of keys, also with the line feed that
    the shell may leave. *)
Lemma keygen_is_read_back (hex_error : string -> string) (signing_key_from_bytes : list byte -> SigningKey)
    (verifying_key_from_bytes : list byte -> result string VerifyingKey) (sk : SigningKey) (line1 line2 : string) :
  (forall l, hex_decode (hex_encode l) = Some l) ->
  (forall k, length (signing_key_to_bytes k) = 32%nat /\ signing_key_from_bytes (signing_key_to_bytes k) = k) ->
  (forall k, length (verifying_key_to_bytes k) = 32%nat /\ verifying_key_from_bytes (verifying_key_to_bytes k) = Ok k) ->
  Text.trim line1 = (run_keygen sk).1 -> Text.trim line2 = (run_keygen sk).2 ->
  parse_signing_key hex_decode hex_error signing_key_from_bytes line1 = Ok sk /\
  parse_pubkey hex_decode hex_error verifying_key_from_bytes line2 = Ok (verifying_key_of sk).
Proof.
  intros Hhex Hsk Hvk H1 H2. unfold parse_signing_key, parse_pubkey. rewrite H1, H2. simpl. rewrite !Hhex.
  destruct (Hsk sk) as [L1 R1], (Hvk (verifying_key_of sk)) as [L2 R2].
  rewrite !bool_decide_eq_true_2 by done. simpl. by rewrite R1, R2.
Qed.

(** ** The flow *)

Inductive DemoError : Type :=
| AnchorPathMissing
| AnchorPathEmpty
| StartFailed (e : AuditStartError)
| ElevationFailed (e : ElevationError)
| ApproveFailed (e : ApproveError)
| AnchorFailed (e : BootError).

(** What the three steps print. *)
Record FlowReport : Type := mkFlowReport {
  fr_contract : ApprovalRequired;
  fr_delivered : bool;
  fr_approver : string;
  fr_verified : result Grant.GrantError unit
}.

Definition demo_proposal : Proposal :=
  mkProposal "p-demo-1" "UPDATE public.orders SET status='fixed' WHERE id = $1" ["42"%string] "app_writer" "sess-demo"
    "3A/7F00C8" (BlastRadius.mkWriteCap 1 4096).
Definition demo_op : Inverse.Operation := Inverse.Update true true.
Definition demo_id : string := "req-demo-1".

Definition run_flow {S} `{!Sink S} (audit : S) (signing_key : SigningKey) (verifying_key : VerifyingKey) (clock : C) :
    option (S * result DemoError FlowReport) :=
  let flow := flow_new recording_new verifying_key (∅ : gset string) in
  '(audit, flow, opened) ← request_elevation flow audit demo_id demo_proposal "agent-demo" demo_op 60000 clock;
  match opened with
  | Err e => Some (audit, Err (ElevationFailed e))
  | Ok outcome =>
      let clock := tick clock in
      let by_ := Authority.approver "human-alice" in
      let '(audit, flow, approved) := approve sha256 key_sign signature_to_bytes hex_encode flow audit demo_id by_ signing_key
                                        "nonce-demo-1" 30000 clock in
      match approved with
      | Err e => Some (audit, Err (ApproveFailed e))
      | Ok grant =>
          let clock := tick clock in
          request ← get (store flow) demo_id;
          let live := to_binding (proposal request) "nonce-demo-1" (Grant.expiry_unix_millis (Grant.binding grant)) in
          let '(audit, _, verified) := verify_at_apply sha256 verify_strict signature_from_bytes hex_decode flow audit grant
                                         live clock in
          Some (audit, Ok (mkFlowReport (contract outcome) (is_ok (delivered outcome)) (Authority.id by_) verified))
      end
  end.

(** ** The demonstration *)

Inductive DemoReport : Type :=
| OnMeta (records : nat) (flow : FlowReport)
| InMemory (records : nat) (intact : bool) (flow : FlowReport).

(** The in-process handle: its sink does not panic. *)
#[local] Instance shared_memory : Sink (SharedSink.SharedSink InMemorySink) :=
  SharedSink.SharedSink_sink (Sink0 := InMemorySink_sink canonical sha256_hex) (fun _ _ => false) (fun s _ => s).

Definition demo_in_memory (sk : SigningKey) (clock : C) : option (result DemoError DemoReport) :=
  let audit := SharedSink.shared_new (mkInMemorySink chain_new) in
  '(readback, r) ← run_flow audit sk (verifying_key_of sk) clock;
  Some (let? report := r in
        Ok (InMemory (match load_chain readback with Ok c => length c | Err _ => 0%nat end)
              (is_ok (sink_verify canonical sha256_hex readback)) report)).

(** The files, the sink when it was reached, and the outcome. *)
Definition demo_on_meta {S} `{!Sink S} (getenv : string -> option string) (fs : Files) (client : result string S) (key : string)
    (sk : SigningKey) (clock : C) : option (Files * option S * result DemoError DemoReport) :=
  let interval := Verify.anchor_interval getenv in
  match getenv "PGB_ANCHOR_PATH"%string with
  | None => Some (fs, None, Err AnchorPathMissing)
  | Some path =>
      if bool_decide (path = EmptyString) then Some (fs, None, Err AnchorPathEmpty)
      else
        match audit_start canonical sha256_hex entry_to_json entry_of_json fs client key interval path Owner
                (monotonic_millis clock) with
        | (fs, Err e) => Some (fs, None, Err (StartFailed e))
        | (fs, Ok boot) =>
            '(audit, r) ← run_flow (sink boot) sk (verifying_key_of sk) (tick clock);
            match r with
            | Err e => Some (fs, Some audit, Err e)
            | Ok report =>
                match boot_maybe_anchor entry_to_json fs (with_table boot audit)
                        (monotonic_millis (tick (tick (tick (tick clock))))) with
                | (fs, _, Err e) => Some (fs, Some audit, Err (AnchorFailed e))
                | (fs, boot, Ok _) =>
                    Some (fs, Some audit,
                          Ok (OnMeta (match boot_load_chain boot with Ok c => length c | Err _ => 0%nat end) report))
                end
            end
        end
  end.

Definition run_demo {S} `{!Sink S} (getenv : string -> option string) (fs : Files) (connect : string -> result string S)
    (sk : SigningKey) (clock : C) : option (Files * option S * result DemoError DemoReport) :=
  match Verify.nonempty (getenv "PGB_META_DSN"%string), Verify.nonempty (getenv "PGB_AUDIT_SIGNING_KEY"%string) with
  | Some dsn, Some key => demo_on_meta getenv fs (connect dsn) key sk clock
  | _, _ => r ← demo_in_memory sk clock; Some (fs, None, r)
  end.

(** ** What the flow does *)

Definition demo_request (clock : C) : ApprovalRequest :=
  mkRequest demo_id demo_proposal "agent-demo" (now_unix_millis clock) 60000 Pending.
Definition demo_step {S} `{!Sink S} (audit : S) (decision : Decision) (code : string) (reason : option string)
    (principal : option string) (clock : C) : S :=
  audit_step audit (statement_text demo_proposal) decision code reason (role demo_proposal) (Some (session_id demo_proposal))
    principal (Some (proposal_id demo_proposal)) clock.
Definition demo_grant (sk : SigningKey) (clock : C) : Grant.GrantToken :=
  grant_for sha256 key_sign signature_to_bytes hex_encode (demo_request clock) sk "nonce-demo-1" 30000 (tick clock).
Definition demo_verdict (sk : SigningKey) (vk : VerifyingKey) (clock : C) : result Grant.GrantError unit :=
  (Grant.verify_for_apply sha256 verify_strict signature_from_bytes hex_decode (demo_grant sk clock)
     (Grant.binding (demo_grant sk clock)) vk (∅ : gset string) (tick (tick clock))).2.

Definition demo_contract (clock : C) : ApprovalRequired :=
  mkRequired APPROVAL_REQUIRED_CODE demo_id (sat_add (now_unix_millis clock) 60000)
    ("blocked: a human must approve. run `pgb-cli approve " +:+ demo_id +:+ "` before the request expires, then retry apply").
Definition demo_opened (clock : C) (vk : VerifyingKey) : ApprovalFlow RecordingWebhookSender (gset string) VerifyingKey :=
  mkFlow {[demo_id := demo_request clock]} (mkRecorder [from_request (demo_request clock)] false) vk ∅.
Definition demo_opened_audit {S} `{!Sink S} (audit : S) (clock : C) : S :=
  demo_step audit DBlock "approval_required" (Some ("request " +:+ demo_id +:+ " opened (ttl " +:+ pretty 60000 +:+ "ms)"))
    (Some "agent-demo"%string) clock.

Lemma demo_elevates {S} `{!Sink S} (audit : S) vk clock :
  request_elevation (flow_new recording_new vk (∅ : gset string)) audit demo_id demo_proposal "agent-demo" demo_op 60000 clock =
  Some (demo_opened_audit audit clock, demo_opened clock vk, Ok (mkElevation (demo_contract clock) (Ok tt))).
Proof. reflexivity. Qed.

(** The flow opens its request and, unless that has expired by then, signs and verifies
    its grant: one or three records are offered to the sink. *)
Lemma run_flow_is {S} `{!Sink S} (audit : S) sk vk clock :
  let a1 := demo_opened_audit audit clock in
  if is_expired (demo_request clock) (now_unix_millis (tick clock)) then
    exists e, run_flow audit sk vk clock = Some (a1, Err (ApproveFailed e))
  else exists r2 d3 c3 r3,
    let a2 := demo_step a1 DAllow "grant_signed" r2 (Some "human-alice"%string) (tick clock) in
    let a3 := demo_step a2 d3 c3 r3 None (tick (tick clock)) in
    run_flow audit sk vk clock =
      Some (a3, Ok (mkFlowReport (demo_contract clock) true "human-alice" (demo_verdict sk vk clock))).
Proof.
  intros a1. unfold run_flow. rewrite demo_elevates. cbn [mbind option_bind]. fold a1. unfold approve, pending_for_approval.
  assert (store (demo_opened clock vk) !! demo_id = Some (demo_request clock)) as -> by apply lookup_singleton_eq.
  rewrite bool_decide_eq_true_2 by done. cbn [negb].
  destruct (is_expired (demo_request clock) (now_unix_millis (tick clock))); [by eexists|].
  unfold Authority.authorize. cbn [Authority.approver Authority.can_approve Authority.kind negb Authority.id requester_id demo_request].
  rewrite bool_decide_eq_false_2 by done. unfold resolve.
  assert (store (demo_opened clock vk) !! demo_id = Some (demo_request clock)) as -> by apply lookup_singleton_eq.
  rewrite bool_decide_eq_true_2 by done. cbn [negb set_store store]. unfold Request.get. rewrite lookup_insert_eq.
  cbn [mbind option_bind]. unfold verify_at_apply, demo_verdict.
  match goal with |- context [Grant.verify_for_apply _ _ _ _ (Grant.sign _ _ _ _ _ _) ?l ?v ?n ?c] =>
    change (Grant.verify_for_apply _ _ _ _ _ l v n c) with
      (Grant.verify_for_apply sha256 verify_strict signature_from_bytes hex_decode (demo_grant sk clock)
         (Grant.binding (demo_grant sk clock)) vk (∅ : gset string) (tick (tick clock))) end.
  destruct (Grant.verify_for_apply _ _ _ _ _ _ _ _ _) as [ns [[]|e]]; eexists _, _, _, _; reflexivity.
Qed.

(** ** The in-process run *)

Lemma memory_append c e ts :
  sink_append (SharedSink.mkShared (mkInMemorySink c) false) e ts =
  (SharedSink.mkShared (mkInMemorySink (append canonical sha256_hex c e ts).1) false,
   Ok (append canonical sha256_hex c e ts).2).
Proof. reflexivity. Qed.

(** In time and with a key that signs for its own verifier, the in-process demonstration
    runs through: the webhook is delivered, the grant verifies, and the three records it
    left are an intact chain. *)
Theorem demo_runs_through sk clock :
  (forall l, hex_decode (hex_encode l) = Some l) ->
  (forall s, length (signature_to_bytes s) = 64%nat /\ signature_from_bytes (signature_to_bytes s) = s) ->
  (forall m, verify_strict (verifying_key_of sk) m (key_sign sk m) = true) ->
  now_unix_millis (tick clock) < sat_add (now_unix_millis clock) 60000 ->
  now_unix_millis (tick (tick clock)) < sat_add (now_unix_millis (tick clock)) 30000 ->
  demo_in_memory sk clock =
    Some (Ok (InMemory 3 true (mkFlowReport (demo_contract clock) true "human-alice" (Ok tt)))).
Proof.
  intros Hhex Hsig Hv H1 H2. unfold demo_in_memory.
  pose proof (run_flow_is (SharedSink.shared_new (mkInMemorySink chain_new)) sk (verifying_key_of sk) clock) as Hf.
  cbv zeta in Hf. unfold is_expired in Hf. change (expires_at (demo_request clock)) with (sat_add (now_unix_millis clock) 60000) in Hf.
  destruct (Z.leb_spec (sat_add (now_unix_millis clock) 60000) (now_unix_millis (tick clock))); [lia|].
  destruct Hf as (r2 & d3 & c3 & r3 & ->). cbn [mbind option_bind result_bind].
  assert (demo_verdict sk (verifying_key_of sk) clock = Ok tt) as ->.
  { unfold demo_verdict, demo_grant, grant_for. by apply Grant.signed_grant_accepted. }
  unfold demo_step, demo_opened_audit, demo_step, audit_step, SharedSink.shared_new. do 3 (rewrite memory_append; cbn [fst]).
  match goal with |- context [append _ _ (append _ _ (append _ _ _ ?e1 ?t1).1 ?e2 ?t2).1 ?e3 ?t3] =>
    change (append canonical sha256_hex (append canonical sha256_hex (append canonical sha256_hex chain_new e1 t1).1 e2 t2).1 e3 t3).1
      with (append_all canonical sha256_hex chain_new [(e1, t1); (e2, t2); (e3, t3)]);
    destruct (append_all_ok canonical sha256_hex chain_new [(e1, t1); (e2, t2); (e3, t3)]) as [Hok _]; [constructor|done|]
  end.
  apply verify_chain_ok in Hok. unfold sink_verify.
  match goal with |- context [load_chain ?m] => change (load_chain m) with (Ok (E := SinkError) (chain (SharedSink.inner m))) end.
  cbn [SharedSink.inner chain result_bind]. by rewrite Hok.
Qed.

(** ** The run on the shared chain *)

Context {S : Type} `{!Sink S, !SinkLaws canonical sha256_hex S}.

(** The entries of the approval flow can be appended. *)
Definition flow_appendable : Prop := forall text d code reason role session principal proposal ts,
  appendable canonical sha256_hex (S := S) (step_entry text d code reason role session principal proposal) ts.

Definition grown (s s' : S) : Prop :=
  sink_ok canonical sha256_hex s ->
  sink_ok canonical sha256_hex s' /\ exists rs more, load_chain_mut s = Ok rs /\ load_chain_mut s' = Ok (rs ++ more).

Lemma grown_refl s : grown s s.
Proof.
  intros Hok. split; [done|]. destruct (sink_reads _ _ s Hok) as (rs & Hr & _). exists rs, []. by rewrite app_nil_r.
Qed.
Lemma grown_trans s1 s2 s3 : grown s1 s2 -> grown s2 s3 -> grown s1 s3.
Proof.
  intros H1 H2 Hok. destruct (H1 Hok) as (Hok2 & rs & m1 & L1 & L2), (H2 Hok2) as (Hok3 & rs2 & m2 & L2' & L3).
  split; [done|]. rewrite L2 in L2'. injection L2' as <-. exists rs, (m1 ++ m2). by rewrite app_assoc.
Qed.

Lemma demo_step_grows (s : S) d code reason principal clock :
  flow_appendable -> grown s (demo_step s d code reason principal clock).
Proof.
  intros Ha Hok. unfold demo_step, audit_step. destruct (sink_append _ _ _) as [s' [r|e]] eqn:E.
  - destruct (append_extends _ _ _ _ _ _ _ Hok (Ha _ _ _ _ _ _ _ _ _) E) as (Hok' & _ & rs & L & L' & _).
    split; [done|]. by exists rs, [r].
  - destruct (append_fails _ _ _ _ _ _ _ Hok E) as (Hok' & L). split; [done|].
    destruct (sink_reads _ _ s Hok) as (rs & Hr & _). exists rs, []. by rewrite app_nil_r, <- Hr.
Qed.

Lemma run_flow_grows (s s' : S) sk vk clock r :
  flow_appendable -> run_flow s sk vk clock = Some (s', r) -> grown s s'.
Proof.
  intros Ha Hr. pose proof (run_flow_is s sk vk clock) as Hf. cbv zeta in Hf.
  assert (grown s (demo_opened_audit s clock)) as H1 by by apply demo_step_grows.
  destruct (is_expired _ _).
  - destruct Hf as [e He]. rewrite He in Hr. by injection Hr as <- _.
  - destruct Hf as (r2 & d3 & c3 & r3 & He). rewrite He in Hr. injection Hr as <- _.
    eapply grown_trans; [exact H1|]. eapply grown_trans; by apply demo_step_grows.
Qed.

(** Within an interval of the boot's anchor the last step publishes nothing. *)
Lemma not_due_keeps fs (b : AuditBoot S) now fs' b' r :
  due (anchorer b) now = false -> boot_maybe_anchor entry_to_json fs b now = (fs', b', r) -> fs' = fs.
Proof.
  intros Hd. unfold boot_maybe_anchor, maybe_anchor_records. rewrite Hd. destruct (boot_load_chain b); by intros [= <- _ _].
Qed.

(** An owner's start stamps its anchorer with the time of the start. *)
Lemma owner_start_stamps fs (s : S) key interval path now fs' b :
  key <> EmptyString -> audit_start canonical sha256_hex entry_to_json entry_of_json fs (Ok s) key interval path Owner now = (fs', Ok b) ->
  sink b = s /\ interval_millis (anchorer b) = interval /\ last_anchor_at (anchorer b) = Some now.
Proof.
  intros Hk. rewrite audit_start_is by done. destruct (open_file _ _ _) as [fs0 [w|]]; [|done]. simpl.
  unfold verify_then_anchor. destruct (check_chain _ _ _) as [rs|]; [|done].
  unfold maybe_anchor_records. simpl. destruct (head_of rs) as [[h q] t].
  destruct (worm_append _ _ _ _) as [[fs1 w1] [[]|]]; [|done]. simpl. by intros [= <- <-].
Qed.
End cli.

(** ** Properties *)

(** A demonstration on the shared chain keeps the next one from starting.  The run anchors
    the chain it finds and appends to it; the anchoring that follows the flow is not due
    within the interval (a minute unless set), so nothing pins what was appended, and the
    second run is refused as if the chain had been rewritten (unless the flow stored
    nothing, or two payloads share a hash). *)
Theorem second_demo_is_refused (canonical : AuditPayload -> list byte) (sha256_hex : list byte -> string)
    (hmac : list byte -> list byte -> list byte)
    (entry_to_json : AnchorEntry -> result string string) (entry_of_json : string -> result string AnchorEntry)
    (sha256 : list byte -> list byte) {SigningKey VerifyingKey Signature : Type} (verifying_key_of : SigningKey -> VerifyingKey)
    (key_sign : SigningKey -> list byte -> Signature) (signature_to_bytes : Signature -> list byte)
    (verify_strict : VerifyingKey -> list byte -> Signature -> bool) (signature_from_bytes : list byte -> Signature)
    (hex_encode : list byte -> string) (hex_decode : string -> option (list byte))
    {C : Type} `{Clock C} (tick : C -> C) {S : Type} `{!Sink S, !SinkLaws canonical sha256_hex S}
    (getenv : string -> option string) (fs fs1 : Files) (key : string) (s0 s1 : S) (sk sk2 : SigningKey) (clock clock2 : C)
    (report : DemoReport) :
  let _ := LocalKms_kms hmac hex_encode hex_decode in
  let demo := demo_on_meta canonical sha256_hex entry_to_json entry_of_json sha256 verifying_key_of key_sign signature_to_bytes
                verify_strict signature_from_bytes hex_encode hex_decode tick getenv in
  (forall l, hex_decode (hex_encode l) = Some l) ->
  (forall e line, entry_to_json e = Ok line -> Text.is_blank line = false /\ entry_of_json line = Ok e) ->
  (forall e, exists line, entry_to_json e = Ok line) ->
  key <> EmptyString -> sink_ok canonical sha256_hex s0 -> flow_appendable canonical sha256_hex (S := S) ->
  sat_sub (monotonic_millis (tick (tick (tick (tick clock))))) (monotonic_millis clock) < Verify.anchor_interval getenv ->
  demo fs (Ok s0) key sk clock = Some (fs1, Some s1, Ok report) ->
  load_chain_mut s1 = load_chain_mut s0 \/ hash_broken canonical sha256_hex \/
  exists e, demo fs1 (Ok s1) key sk2 clock2 = Some (fs1, None, Err (StartFailed (VerificationFailed e))).
Proof.
  intros kms demo Hhex Hj Hjt Hk Hok Ha Hint. unfold demo, demo_on_meta.
  destruct (getenv "PGB_ANCHOR_PATH"%string) as [path|]; [|done]. case_bool_decide as Hpe; [done|].
  destruct (audit_start _ _ _ _ _ _ _ _ _ _ _) as [fs0 [bt|]] eqn:Est; [|done].
  destruct (owner_start_stamps _ _ _ _ _ _ _ _ _ _ _ _ Hk Est) as (Hs & Hi & Hat). rewrite Hs.
  destruct (run_flow _ _ _ _ _ _ _ _ _ _ _ _) as [[s' r]|] eqn:Er; [|done]. cbn [mbind option_bind].
  destruct r as [rep|]; [|done].
  destruct (boot_maybe_anchor _ _ _ _) as [[fs2 b2] [o|]] eqn:Em; [|done]. intros [= <- <- _].
  apply not_due_keeps in Em as ->; [|].
  2: { simpl. unfold due. rewrite Hat, Hi. by apply Z.leb_gt. }
  destruct (run_flow_grows canonical sha256_hex _ _ _ _ _ _ _ _ s0 s' _ _ _ _ Ha Er Hok) as (Hok' & rs & more & L0 & L1).
  destruct (owner_start_pins canonical sha256_hex entry_to_json entry_of_json Hj _ _ _ _ _ _ _ _ rs Hk L0 Est) as [Hpin Hv].
  destruct (sink_reads _ _ _ Hok') as (rs1 & L1' & Hc1). rewrite L1 in L1'. injection L1' as <-.
  destruct (decide (head_hash (rs ++ more) = head_hash rs)) as [Eh|Eh].
  - apply verify_chain_ok in Hv. destruct (same_head_same_chain canonical sha256_hex _ _ Hc1 Hv Eh) as [E|?]; [|by right; left].
    left. by rewrite L0, L1, E.
  - right; right. destruct (Deployment.start_over_pin_refused canonical sha256_hex hmac hex_encode hex_decode entry_to_json
      entry_of_json _ _ _ _ s' key (Verify.anchor_interval getenv) path Owner (monotonic_millis clock2) Hk Hpin L1 Eh) as [e He].
    exists e. unfold Deployment.kms in He. fold kms in He. by rewrite He.
Qed.

(** *** Two runs over one table *)

Definition demo_clock (t : Z) : MockClock := starting_at t.
Definition demo_tick (c : MockClock) : MockClock := mkMockClock (unix c + 1) (monotonic c + 1).
Definition demo_run (fs : Files) (client : result string InMemorySink) (t : Z) :=
  @demo_on_meta toy_canonical toy_hash demo_kms demo_to_json demo_of_json (fun l => l) byte byte byte (fun k => k)
    Service.Demo.toy_sign Service.Demo.to_wire Service.Demo.toy_verify Service.Demo.of_wire of_bytes demo_hex_decode MockClock
    MockClock_clock demo_tick InMemorySink (InMemorySink_sink toy_canonical toy_hash) Verify.demo_env fs client "k" x01
    (demo_clock t).
Definition demo_first : Files * option InMemorySink * result DemoError DemoReport :=
  Eval vm_compute in default (∅, None, Err AnchorPathMissing) (demo_run ∅ (Ok (demo_sink 2)) 100).
Definition demo_left : InMemorySink := default (demo_sink 0) demo_first.1.2.

Example first_demo_reports :
  demo_run ∅ (Ok (demo_sink 2)) 100 = Some demo_first /\
  match demo_first.2 with Ok (OnMeta n rep) => n = 5%nat /\ fr_verified rep = Ok tt | _ => False end.
Proof. vm_compute. done. Qed.

Lemma second_demo_is_refused_witness :
  load_chain_mut (Sink := InMemorySink_sink toy_canonical toy_hash) demo_left = Ok (chain (demo_sink 2)) \/
  hash_broken toy_canonical toy_hash \/
  exists e, demo_run demo_first.1.1 (Ok demo_left) 200 = Some (demo_first.1.1, None, Err (StartFailed (VerificationFailed e))).
Proof.
  refine (second_demo_is_refused toy_canonical toy_hash demo_hmac demo_to_json demo_of_json (fun l => l) (fun k => k)
    Service.Demo.toy_sign Service.Demo.to_wire Service.Demo.toy_verify Service.Demo.of_wire of_bytes demo_hex_decode
    demo_tick (Sink0 := InMemorySink_sink toy_canonical toy_hash) Verify.demo_env ∅ demo_first.1.1 "k" (demo_sink 2) demo_left
    x01 x01 (demo_clock 100) (demo_clock 200) _ demo_hex_roundtrip demo_json_roundtrip demo_json_total _ _ _ _ _).
  - discriminate.
  - split; [apply verify_chain_ok; vm_compute; reflexivity|]. intros [|[|i]] r Hr; vm_compute in Hr; by simplify_eq.
  - intros text d code reason role session principal proposal ts. exact I.
  - vm_compute. reflexivity.
  - vm_compute. reflexivity.
Defined.
End CliMain.
