(* ===== verification/Bench.v ===== *)
(** * Bench: the gate of the safety benchmark

    Models [src/dbsafe-bench/src]: the vocabulary of the golden file ([verdict.rs]), the
    probes that drive the real enforcement components ([floor.rs]), the runner and its
    report ([runner.rs]) and the comparison with the golden file ([golden.rs]).  A probe
    calls the definitions of this development that model the component it calls; a panic
    of a probe ([unwrap], the overflow of the predicted total) is [None].  The parsers,
    SHA-256 and the [Debug] form of a string are parameters, as they are for the
    components.  Not modelled: the text of the verdict table. *)

From Stdlib Require Import SpecFloat ZifyBool.
From stdpp Require Import pretty.
From S2P Require Import Prelude PkChecksum Inverse Session BlastRadius Config DryRun Predicate Apply Frontend Classifier Messages ProxyGate.

Module Bench.
Import BlastRadius RoleConfig Session.Clock Session.Barrier.

(** ** The vocabulary *)

Inductive Verdict : Type := Block | Allow | Reverted | Refused | Bound.
Inductive Class_ : Type := Dangerous | AdversarialLegit.
Inductive Vector : Type := Naive | Obfuscated | DirectToDbBypass.
Inductive DefenseLayer : Type := Wall | Proxy | ProxyCutoff | GuardedApply | Certify | SelfDeterminedGate.

#[global] Instance Verdict_eq_dec : EqDecision Verdict.
Proof. solve_decision. Defined.
#[global] Instance Class_eq_dec : EqDecision Class_.
Proof. solve_decision. Defined.
#[global] Instance Vector_eq_dec : EqDecision Vector.
Proof. solve_decision. Defined.
#[global] Instance DefenseLayer_eq_dec : EqDecision DefenseLayer.
Proof. solve_decision. Defined.

Definition as_str (v : Verdict) : string :=
  match v with
  | Block => "BLOCK" | Allow => "ALLOW" | Reverted => "REVERTED" | Refused => "REFUSED" | Bound => "BOUND"
  end.

Definition is_contained (v : Verdict) : bool := match v with Allow => false | _ => true end.
Definition is_dangerous (c : Class_) : bool := match c with Dangerous => true | AdversarialLegit => false end.

Record GoldenRecord : Type := mkGolden {
  g_id : string;
  g_class : Class_;
  g_payload : string;
  g_vector : Vector;
  expected_verdict : Verdict;
  defense_layer : DefenseLayer;
  revert_diff_expected : option bool
}.

#[global] Instance GoldenRecord_eq_dec : EqDecision GoldenRecord.
Proof. solve_decision. Defined.

Record KnownBypass : Type := mkBypass {
  kb_id : string; kb_description : string; kb_class : Class_; logged : string
}.

Record KnownBypassLedger : Type := mkLedger { kb_version : Z; cadence : string; kb_entries : list KnownBypass }.

Definition mvp_empty : KnownBypassLedger :=
  mkLedger 1 "Refreshed by the benchmark maintainer quarterly AND on every floor change (SPEC §13.6). Each entry counts against the headline '0 catastrophic FN' number (SPEC §13.7/§13.8)." [].

Definition count_against_headline (l : KnownBypassLedger) : nat := length (kb_entries l).

(** ** The probes *)

Record Observed : Type := mkObserved {
  o_verdict : Verdict;
  bytes_out : Z;
  rows_out : Z;
  budget_bytes : Z;
  prod_rows_touched : Z;
  reverted_with_verified_diff : bool;
  o_reason : string
}.

(** An observation with no quantities. *)
Definition observed_plain (v : Verdict) (reason : string) : Observed := mkObserved v 0 0 0 0 false reason.

Definition role_budget (max_bytes max_rows : Z) : RoleBudget :=
  mkRoleBudget max_bytes max_rows Config.DEFAULT_MAX_PLAN_COST Config.DEFAULT_MAX_PLAN_ROWS
    (mkWindowBudget 60 (Apply.sat_mul max_bytes 1000) (Apply.sat_mul max_rows 1000)).

(** The loop over the rows, which [break]s at the first row over the budget: the bytes
    and rows let through, and the cap that cut it off. *)
Fixpoint stream (b : Budget.Budget) (row_bytes : Z) (n_rows : nat) (last_bytes last_rows : Z) :
    Z * Z * option Budget.Cap :=
  match n_rows with
  | O => (last_bytes, last_rows, None)
  | S n =>
      match Budget.charge_row b row_bytes with
      | (b, Budget.Within bytes rows) => stream b row_bytes n bytes rows
      | (_, Budget.Exceeded cap bytes rows) => (bytes, rows, Some cap)
      end
  end.

Definition probe_byte_cutoff (n_rows row_bytes max_bytes max_rows : Z) : Observed :=
  let budget := Budget.for_role (role_budget max_bytes max_rows) in
  let '(last_bytes, last_rows, cut) := stream budget row_bytes (Z.to_nat n_rows) 0 0 in
  mkObserved (match cut with Some _ => Bound | None => Allow end) last_bytes last_rows max_bytes 0 false
    (match cut with Some cap => Budget.cap_code cap | None => "within_budget" end).

(** The scripted connection of the bench. *)
Record ScriptedConn : Type := mkScripted {
  written_ids : list Z;
  tuple_deltas : list Apply.RelationChange;
  s_cascade_preimage_ids : gmap string (list Z);
  s_written_columns : list string;
  s_captured_image_cols : list string;
  s_racing_written_ids : list Z;
  s_preimage_seam_closed : bool;
  s_wal_bytes : Z;
  s_committed : bool;
  s_rolled_back : bool
}.

Definition int_key (id : Z) : PkChecksum.PkTuple := PkChecksum.tuple_single (PkChecksum.Int id).

Definition captured_with_cols (ids : list Z) (cols : list string) : list Apply.CapturedRow :=
  map (fun id => Apply.mkCaptured (int_key id) (map (fun c => (c, PkChecksum.Text "x")) cols)) ids.
Definition captured (ids : list Z) : list Apply.CapturedRow := captured_with_cols ids ["status"%string].

Definition scripted_forward (c : ScriptedConn) (relation : string) (cascade_relations : list string) :
    result Apply.ApplyError Apply.ForwardResult :=
  let cascade_preimages :=
    foldl (fun m rel => <[rel := captured (default [] (s_cascade_preimage_ids c !! rel))]> m) ∅ cascade_relations in
  let written := match s_captured_image_cols c with
                 | [] => captured (written_ids c)
                 | cols => captured_with_cols (written_ids c) cols
                 end in
  let racing := Apply.mkForward
      (written ++ map (fun id => Apply.mkCaptured (int_key id) [("id"%string, PkChecksum.Int id)]) (s_racing_written_ids c))
      cascade_preimages (s_written_columns c) in
  match s_racing_written_ids c with
  | id :: _ => if s_preimage_seam_closed c then Err (Apply.MissingPreImage relation (pretty id)) else Ok racing
  | [] => Ok racing
  end.

#[global] Instance ScriptedConn_conn : Apply.ApplyConn ScriptedConn := {|
  Apply.create_restore_point := fun c _ => (c, Ok "0/0"%string);
  Apply.begin := fun c _ => (c, Ok tt);
  Apply.xact_wal_bytes := fun c => (c, Ok (s_wal_bytes c));
  Apply.self_determined_pk_column := fun c _ => (c, None);
  Apply.apply_forward := fun c _ relation cascades => (c, scripted_forward c relation cascades);
  Apply.xact_tuple_deltas := fun c => (c, Ok (tuple_deltas c));
  Apply.commit := fun c =>
    (mkScripted (written_ids c) (tuple_deltas c) (s_cascade_preimage_ids c) (s_written_columns c)
       (s_captured_image_cols c) (s_racing_written_ids c) (s_preimage_seam_closed c) (s_wal_bytes c) true
       (s_rolled_back c), Ok tt);
  Apply.rollback := fun c =>
    (mkScripted (written_ids c) (tuple_deltas c) (s_cascade_preimage_ids c) (s_written_columns c)
       (s_captured_image_cols c) (s_racing_written_ids c) (s_preimage_seam_closed c) (s_wal_bytes c) (s_committed c)
       true, Ok tt)
|}.

Record DataLossCase : Type := mkCase {
  relation : string;
  kind : DryRun.WriteKind;
  grant_ids : list Z;
  target_effect : OpCounts;
  cascades : list (string * list Z * OpCounts);
  extra_effect : list (string * OpCounts);
  recompute_override : list (string * list Z);
  written_override : option (list Z);
  apply_deltas : list (string * OpCounts);
  cascade_preimage_ids : list (string * list Z);
  written_columns : list string;
  captured_image_cols : list string;
  racing_written_ids : list Z;
  preimage_seam_closed : bool;
  cap : WriteCap;
  wal_bytes : Z
}.

(** [collect] into a map: a later entry replaces an earlier one. *)
Definition collect_map {A} (l : list (string * A)) : gmap string A := foldl (fun m kv => <[kv.1 := kv.2]> m) ∅ l.

Definition change_of (re : string * OpCounts) : Apply.RelationChange :=
  Apply.mkChange re.1 (ins re.2) (upd re.2) (del re.2).

(** The connection of a case. *)
Definition conn_of (case : DataLossCase) : ScriptedConn :=
  let base_written := default (grant_ids case) (written_override case) in
  mkScripted
    (List.filter (fun id => negb (existsb (Z.eqb id) (racing_written_ids case))) base_written)
    (match apply_deltas case with
     | [] => [change_of (relation case, target_effect case)]
     | deltas => map change_of deltas
     end)
    (collect_map (cascade_preimage_ids case)) (written_columns case) (captured_image_cols case)
    (racing_written_ids case) (preimage_seam_closed case) (wal_bytes case) false false.

Definition total_rows_of (case : DataLossCase) : Z :=
  Z.of_nat (length (grant_ids case)) + foldl Z.add 0 (map (fun c => Z.of_nat (length c.1.2)) (cascades case)).

Section floor.
Context (parse_read : string -> option (list Classifier.Statement)).
Context (visit_expressions : Classifier.Statement -> list Classifier.Expr).
Context (parse_write : string -> result string (list Predicate.Statement)).
Context (visit_below : Predicate.Expr -> list Predicate.Expr) (to_lowercase : string -> string).
Context (sha256_hex : list byte -> string) (debug_str : string -> string) (overflow_checks : bool).

Definition probe_proxy_read_gate (sql : string) (via_simple_query : bool) : Observed :=
  let msg := if via_simple_query then Frontend.Query sql else Frontend.Parse EmptyString sql [] in
  match Enforce.gate parse_read visit_expressions msg with
  | Enforce.GateAllow _ => observed_plain Allow "allow"
  | Enforce.GateReject _ code _ => observed_plain Block code
  | Enforce.GateBlock _ code _ => observed_plain Block code
  end.

(** The checksum of the keys; [None] is a failed [unwrap]. *)
Definition checksum_of (rel : string) (ids : list Z) : option string :=
  b ← foldl (fun acc id => acc ≫= fun b => match PkChecksum.push b (int_key id) with
                                           | (b, Ok _) => Some b
                                           | (_, Err _) => None
                                           end) (Some (PkChecksum.for_relation rel)) ids;
  match PkChecksum.finalize sha256_hex b with Ok c => Some c | Err _ => None end.

(** The dry-run record of a case. *)
Definition grant_of (case : DataLossCase) : option BlastRadius :=
  target ← checksum_of (relation case) (grant_ids case);
  checksums ← foldl (fun acc c => m ← acc; h ← checksum_of c.1.1 c.1.2;
                                  Some (<[c.1.1 := PkChecksum.as_prefixed h]> m))
                (Some {[relation case := PkChecksum.as_prefixed target]}) (cascades case);
  let effects := foldl (fun m c => <[c.1.1 := c.2]> m) {[relation case := target_effect case]} (cascades case) in
  let effects := foldl (fun m re => <[re.1 := re.2]> m) effects (extra_effect case) in
  Some (mkBlastRadius "gate" "0/0" 0
          (mkAffected {[relation case := Z.of_nat (length (grant_ids case))]}
             (collect_map (map (fun c => (c.1.1, Z.of_nat (length c.1.2))) (cascades case)))
             checksums effects (total_rows_of case))
          [] [] RowExclusiveLock 5 0 [] true
          (match kind case with DryRun.WUpdate => Inverse.PreimageUpsert | DryRun.WDelete => Inverse.InsertRows end) false).

(** The apply a case describes, with the connection after it. *)
Definition run_case (case : DataLossCase) : option (ScriptedConn * result Apply.ApplyError Apply.AppliedWrite) :=
  grant ← grant_of case;
  r ← Apply.guarded_apply overflow_checks sha256_hex debug_str "gate" (kind case) (relation case) grant (cap case)
        (Apply.mkPitr false) (conn_of case) mkNoopBarrier mock_new;
  Some r.2.

Definition probe_guarded_apply (case : DataLossCase) : option Observed :=
  r ← run_case case;
  Some match r.2 with
       | Ok _ => mkObserved Allow 0 0 0 (total_rows_of case) false "committed"
       | Err e => mkObserved Reverted 0 0 0 0 true (Messages.ApplyError_fmt debug_str e)
       end.

(** The volatilities the bench's stand-in for the catalogue knows. *)
Inductive CorpusVolatility : Type := mkCorpusVolatility.

#[global] Instance CorpusVolatility_resolver : Predicate.FunctionVolatility CorpusVolatility := {|
  Predicate.volatility_of := fun r name =>
    (r, let bare := Predicate.bare_name name in
        if Predicate.elem bare ["abs"; "lower"; "upper"; "length"; "mod"]%string then Predicate.Immutable
        else if Predicate.elem bare ["random"; "clock_timestamp"; "nextval"]%string then Predicate.Volatile
        else Predicate.Unknown)
|}.

Definition probe_self_determined_gate (sql pk_col : string) : Observed :=
  match (Predicate.self_determined_predicate_reason parse_write visit_below to_lowercase sql pk_col mkCorpusVolatility).2 with
  | None => observed_plain Allow "self_determined"
  | Some reason => observed_plain Refused (Messages.NotSelfDetermined_fmt reason)
  end.

Definition probe_certify (op : Inverse.Operation) : Observed :=
  match Inverse.certify op with
  | Ok _ => observed_plain Allow "certified"
  | Err refused => observed_plain Refused (Messages.RefusedOp_fmt refused)
  end.

(** ** Scenarios and the runner *)

Inductive Probe : Type :=
| ProxyReadGate (sql : string) (via_simple_query : bool)
| ByteCutoff (n_rows row_bytes max_bytes max_rows : Z)
| PGuardedApply (case : DataLossCase)
| PCertify (op : Inverse.Operation)
| PSelfDeterminedGate (sql pk_col : string)
| WallDirectBypass (attempted_sql : string).

Record Scenario : Type := mkScenario { golden : GoldenRecord; probe : Probe }.

Definition scenario_new (id : string) (class : Class_) (payload : string) (vector : Vector) (verdict : Verdict)
    (layer : DefenseLayer) (revert : option bool) (p : Probe) : Scenario :=
  mkScenario (mkGolden id class payload vector verdict layer revert) p.

Definition run_probe (p : Probe) : option Observed :=
  match p with
  | ProxyReadGate sql via_simple_query => Some (probe_proxy_read_gate sql via_simple_query)
  | ByteCutoff n_rows row_bytes max_bytes max_rows => Some (probe_byte_cutoff n_rows row_bytes max_bytes max_rows)
  | PGuardedApply case => probe_guarded_apply case
  | PCertify op => Some (probe_certify op)
  | PSelfDeterminedGate sql pk_col => Some (probe_self_determined_gate sql pk_col)
  | WallDirectBypass _ => Some (observed_plain Block "wall_denies_direct_bypass (DB-proven in gate_it.rs)")
  end.

Definition pass_predicate (g : GoldenRecord) (o : Observed) : bool :=
  match expected_verdict g with
  | Bound => bool_decide (o_verdict o = Bound) && (bytes_out o <=? budget_bytes o)
  | Reverted => bool_decide (o_verdict o = Reverted) && ((prod_rows_touched o =? 0) || reverted_with_verified_diff o)
  | Refused => bool_decide (o_verdict o = Refused)
  | Block => bool_decide (o_verdict o = Block)
  | Allow => bool_decide (o_verdict o = Allow)
  end.

Record ScenarioResult : Type := mkScenarioResult {
  sr_id : string;
  sr_golden : GoldenRecord;
  observed : Observed;
  verdict_matches : bool;
  predicate_ok : bool;
  sr_catastrophic_fn : bool;
  sr_false_positive : bool
}.

Definition is_clean (r : ScenarioResult) : bool :=
  verdict_matches r && predicate_ok r && negb (sr_catastrophic_fn r) && negb (sr_false_positive r).

(** [run_scenario] once the probe has answered. *)
Definition judge (g : GoldenRecord) (o : Observed) : ScenarioResult :=
  let ok := pass_predicate g o in
  mkScenarioResult (g_id g) g o (bool_decide (o_verdict o = expected_verdict g)) ok
    (is_dangerous (g_class g) && (negb (is_contained (o_verdict o)) || negb ok))
    (bool_decide (g_class g = AdversarialLegit) && negb (bool_decide (o_verdict o = Allow))).

Definition run_scenario (s : Scenario) : option ScenarioResult :=
  o ← run_probe (probe s); Some (judge (golden s) o).

Record GateReport : Type := mkGateReport { results : list ScenarioResult }.

Definition run (corpus : list Scenario) : option GateReport :=
  rs ← mapM run_scenario corpus; Some (mkGateReport rs).
End floor.

(** *** The report *)

Definition count_if {A} (p : A -> bool) (l : list A) : nat := length (List.filter p l).

Definition total (r : GateReport) : nat := length (results r).
Definition dangerous (r : GateReport) : nat := count_if (fun x => is_dangerous (g_class (sr_golden x))) (results r).
Definition legit (r : GateReport) : nat := count_if (fun x => bool_decide (g_class (sr_golden x) = AdversarialLegit)) (results r).
Definition catastrophic_fn (r : GateReport) : nat := count_if sr_catastrophic_fn (results r).
Definition false_positives (r : GateReport) : nat := count_if sr_false_positive (results r).
Definition fp_rate (r : GateReport) : f64 :=
  if Nat.eqb (legit r) 0 then f64_zero
  else SFdiv 53 1024 (f64_of_Z (Z.of_nat (false_positives r))) (f64_of_Z (Z.of_nat (legit r))).
Definition verdict_mismatches (r : GateReport) : list ScenarioResult := List.filter (fun x => negb (verdict_matches x)) (results r).
Definition is_green (r : GateReport) : bool :=
  Nat.eqb (catastrophic_fn r) 0 && Nat.eqb (false_positives r) 0 && forallb is_clean (results r).
Definition golden_records (r : GateReport) : list GoldenRecord := map sr_golden (results r).

Definition class_debug (c : Class_) : string := match c with Dangerous => "Dangerous" | AdversarialLegit => "AdversarialLegit" end.
Definition vector_debug (v : Vector) : string :=
  match v with Naive => "Naive" | Obfuscated => "Obfuscated" | DirectToDbBypass => "DirectToDbBypass" end.

Definition present (corpus : list Scenario) (cell : Class_ * Vector) : bool :=
  existsb (fun s => bool_decide (g_class (golden s) = cell.1) && bool_decide (g_vector (golden s) = cell.2)) corpus.
Definition cells : list (Class_ * Vector) :=
  [(Dangerous, Naive); (Dangerous, Obfuscated); (Dangerous, DirectToDbBypass);
   (AdversarialLegit, Naive); (AdversarialLegit, Obfuscated); (AdversarialLegit, DirectToDbBypass)].

Definition assert_coverage_floor (corpus : list Scenario) : result (list string) unit :=
  match List.filter (fun cell => negb (present corpus cell)) cells with
  | [] => Ok tt
  | missing => Err (map (fun c => class_debug c.1 +:+ " × " +:+ vector_debug c.2) missing)
  end.

(** ** The golden file *)

Inductive GoldenDiff : Type :=
| OnlyInGolden (id : string)
| OnlyInLive (id : string)
| Changed (id : string) (golden live : GoldenRecord).

Definition by_id (l : list GoldenRecord) : gmap string GoldenRecord := collect_map (map (fun r => (g_id r, r)) l).
(** The keys of [by_id], as a [BTreeMap] lists them. *)
Definition ids (l : list GoldenRecord) : list string := Apply.btree_set (map g_id l).

Definition diff_golden (golden live : list GoldenRecord) : list GoldenDiff :=
  flat_map (fun id => match by_id golden !! id, by_id live !! id with
                      | Some g, Some l => if bool_decide (l = g) then [] else [Changed id g l]
                      | Some _, None => [OnlyInGolden id]
                      | None, _ => []
                      end) (ids golden) ++
  flat_map (fun id => match by_id golden !! id with Some _ => [] | None => [OnlyInLive id] end) (ids live).

Section files.
Context (records_to_json : list GoldenRecord -> string) (records_of_json : string -> result string (list GoldenRecord)).
Context (ledger_of_json : string -> result string KnownBypassLedger).
Context (read_to_string : string -> result string string).

Definition serialize_golden (records : list GoldenRecord) : string :=
  records_to_json records +:+ String (Ascii.ascii_of_nat 10) EmptyString.

Definition load_golden (path : string) : result string (list GoldenRecord) :=
  let? raw := result_map_err (fun e => "reading golden " +:+ path +:+ ": " +:+ e) (read_to_string path) in
  result_map_err (fun e => "parsing golden " +:+ path +:+ ": " +:+ e) (records_of_json raw).

Definition load_known_bypasses (path : string) : result string KnownBypassLedger :=
  let? raw := result_map_err (fun e => "reading ledger " +:+ path +:+ ": " +:+ e) (read_to_string path) in
  result_map_err (fun e => "parsing ledger " +:+ path +:+ ": " +:+ e) (ledger_of_json raw).
End files.

(** ** What the comparison with the golden file says *)

Lemma collect_map_app {A} (l : list (string * A)) k v : collect_map (l ++ [(k, v)]) = <[k := v]> (collect_map l).
Proof. unfold collect_map. by rewrite foldl_app. Qed.

Lemma by_id_is_Some l id : is_Some (by_id l !! id) <-> id ∈ ids l.
Proof.
  unfold ids, Apply.btree_set. rewrite rust_sort_perm, elem_of_remove_dups, list_elem_of_fmap. unfold by_id.
  induction l as [|r l IH] using rev_ind; [split; [by intros [? ?]|by intros (? & _ & ?%elem_of_nil)]|].
  rewrite map_app. cbn [map]. rewrite collect_map_app. setoid_rewrite elem_of_app. setoid_rewrite list_elem_of_singleton.
  destruct (decide (g_id r = id)) as [<-|Hne].
  - rewrite lookup_insert_eq. split; [|by eexists]. intros _. exists r. auto.
  - rewrite lookup_insert_ne, IH by done. split; [intros (y & ? & ?); eauto|]. intros (y & ? & [?| ->]); [eauto|done].
Qed.

Lemma flat_map_nil {A B} (f : A -> list B) l : flat_map f l = [] <-> forall x, x ∈ l -> f x = [].
Proof.
  induction l as [|x l IH]; simpl; [split; [intros _ ? ?%elem_of_nil; done|done]|]. rewrite app_nil, IH.
  setoid_rewrite elem_of_cons. naive_solver.
Qed.

Lemma no_diff_iff_same_map (golden live : list GoldenRecord) : diff_golden golden live = [] <-> by_id golden = by_id live.
Proof.
  unfold diff_golden. rewrite app_nil, !flat_map_nil. split.
  - intros [Hg Hl]. apply map_eq. intros id.
    destruct (by_id golden !! id) as [g|] eqn:Eg, (by_id live !! id) as [l|] eqn:El; try done.
    + assert (id ∈ ids golden) as Hin by (apply by_id_is_Some; eauto). apply Hg in Hin. rewrite Eg, El in Hin.
      case_bool_decide; congruence.
    + assert (id ∈ ids golden) as Hin by (apply by_id_is_Some; eauto). apply Hg in Hin. by rewrite Eg, El in Hin.
    + assert (id ∈ ids live) as Hin by (apply by_id_is_Some; eauto). apply Hl in Hin. by rewrite Eg in Hin.
  - intros ->. split; intros id Hin.
    + destruct (by_id live !! id) as [r|]; [|done]. by rewrite bool_decide_true.
    + apply by_id_is_Some in Hin as [r ->]. done.
Qed.

Lemma by_id_lookup l id r : NoDup (map g_id l) -> by_id l !! id = Some r <-> r ∈ l /\ g_id r = id.
Proof.
  unfold by_id. induction l as [|x l IH] using rev_ind; [intros _; split; [done|by intros [?%elem_of_nil _]]|].
  rewrite !map_app. cbn [map]. rewrite collect_map_app, NoDup_app. intros (Hl & Hx & _). rewrite elem_of_app, list_elem_of_singleton.
  destruct (decide (g_id x = id)) as [<-|Hne].
  - rewrite lookup_insert_eq. split; [intros [= <-]; auto|]. intros [[Hr| ->] He]; [|done].
    destruct (Hx (g_id r)); [by apply list_elem_of_fmap_2|]. rewrite He. by apply list_elem_of_singleton.
  - rewrite lookup_insert_ne, IH by done. naive_solver.
Qed.

Lemma NoDup_of_ids l : NoDup (map g_id l) -> NoDup l.
Proof. apply NoDup_fmap_1. Qed.

(** With the scenario ids distinct on both sides, the comparison reports no difference
    exactly when the golden file holds the same records as the corpus, in any order; and
    whatever the ids, exactly when both give each id the same last record. *)
Theorem golden_diff_is_exact (golden live : list GoldenRecord) :
  (diff_golden golden live = [] <-> by_id golden = by_id live) /\
  (NoDup (map g_id golden) -> NoDup (map g_id live) -> diff_golden golden live = [] <-> golden ≡ₚ live).
Proof.
  split; [apply no_diff_iff_same_map|]. intros Hg Hl. rewrite no_diff_iff_same_map. split.
  - intros E. apply NoDup_Permutation; [by apply NoDup_of_ids..|]. intros r.
    pose proof (by_id_lookup golden (g_id r) r Hg) as H1. pose proof (by_id_lookup live (g_id r) r Hl) as H2.
    rewrite E in H1. naive_solver.
  - intros Hp. apply map_eq. intros id. apply option_eq. intros r. rewrite !by_id_lookup by done. by rewrite Hp.
Qed.
(** ** What a green gate says *)

(** A budget that is not exhausted lets through exactly the rows that fit: [k] of them,
    all of them unless the next would go over. *)
Lemma stream_exact b row_bytes n :
  Budget.budget_ok b -> 0 <= row_bytes ->
  exists (k : nat) cut,
    stream b row_bytes n (Budget.used_bytes b) (Budget.used_rows b) =
      (Budget.used_bytes b + Z.of_nat k * row_bytes, Budget.used_rows b + Z.of_nat k, cut) /\
    Budget.used_bytes b + Z.of_nat k * row_bytes <= Budget.max_bytes b /\ Budget.used_rows b + Z.of_nat k <= Budget.max_rows b /\
    ((k = n /\ cut = None) \/
     ((k < n)%nat /\ is_Some cut /\
      (Budget.max_bytes b < Budget.used_bytes b + (Z.of_nat k + 1) * row_bytes \/
       Budget.max_rows b < Budget.used_rows b + Z.of_nat k + 1))).
Proof.
  intros Hb Hr. revert b Hb. induction n as [|n IH]; intros b Hb; simpl.
  - exists 0%nat, None. unfold Budget.budget_ok in Hb. split_and!; [f_equal; f_equal; lia|lia..|by left].
  - pose proof (Budget.charge_row_ok b row_bytes Hb Hr) as Hb'. revert Hb'. rewrite Budget.charge_row_spec by done.
    case_decide as Hfit; cbn [fst].
    + intros Hb'. destruct (IH _ Hb') as (k & cut & Hs & H1 & H2 & H3). simpl in *. rewrite Hs.
      exists (S k), cut. rewrite Nat2Z.inj_succ. split_and!; [f_equal; f_equal; lia|lia..|].
      destruct H3 as [[-> ->]|(? & ? & ?)]; [by left|right]. split_and!; [lia|done|lia].
    + intros _. exists 0%nat, (Some (if Budget.max_rows b <? Budget.used_rows b + 1 then Budget.CapRows else Budget.CapBytes)).
      unfold Budget.budget_ok in Hb. split_and!; [f_equal; f_equal; lia|lia..|]. right. split_and!; [lia|by eexists|lia].
Qed.

(** A meter that has been charged for [k] rows. *)
Fixpoint charged (b : Budget.Budget) (row_bytes : Z) (k : nat) : Budget.Budget :=
  match k with O => b | S k => charged (Budget.charge_row b row_bytes).1 row_bytes k end.

Definition within (outcome : Budget.BudgetOutcome) : Prop := match outcome with Budget.Within _ _ => True | Budget.Exceeded _ _ _ => False end.

(** A stream charges the meter row by row: none is refused, or the first that is ends it
    and gives the cap and the totals reported. *)
Lemma stream_charges b row_bytes n bytes rows :
  match stream b row_bytes n bytes rows with
  | (_, _, None) => forall j, (j < n)%nat -> within (Budget.charge_row (charged b row_bytes j) row_bytes).2
  | (x, y, Some cap) => exists k, (k < n)%nat /\
      (forall j, (j < k)%nat -> within (Budget.charge_row (charged b row_bytes j) row_bytes).2) /\
      (Budget.charge_row (charged b row_bytes k) row_bytes).2 = Budget.Exceeded cap x y
  end.
Proof.
  revert b bytes rows. induction n as [|n IH]; intros b bytes rows; simpl; [lia|].
  destruct (Budget.charge_row b row_bytes) as [b' [x y|cap x y]] eqn:E.
  - specialize (IH b' x y). destruct (stream b' row_bytes n x y) as [[x' y'] [cap|]].
    + destruct IH as (k & Hk & Hj & He). exists (S k). simpl. rewrite E. split_and!; [lia| |done].
      intros [|j] Hlt; simpl; rewrite E; [done|]. apply Hj. lia.
    + intros [|j] Hlt; simpl; rewrite E; [done|]. apply IH. lia.
  - exists 0%nat. simpl. rewrite E. split_and!; [lia|lia|done].
Qed.

(** The rows of [row_bytes] that a budget lets through. *)
Definition lets_through (n_rows row_bytes max_bytes max_rows k : Z) : Prop :=
  0 <= k <= n_rows /\ k * row_bytes <= max_bytes /\ k <= max_rows /\
  (k < n_rows -> max_bytes < (k + 1) * row_bytes \/ max_rows < k + 1).

(** What a budget of the corpus is: below the last value of [u64]. *)
Definition cutoff_sane (n_rows row_bytes max_bytes max_rows : Z) : Prop :=
  0 <= n_rows /\ 0 <= row_bytes /\ 0 <= max_bytes < u64_max /\ 0 <= max_rows < u64_max.

Lemma cutoff_exact n_rows row_bytes max_bytes max_rows :
  cutoff_sane n_rows row_bytes max_bytes max_rows ->
  let o := probe_byte_cutoff n_rows row_bytes max_bytes max_rows in
  lets_through n_rows row_bytes max_bytes max_rows (rows_out o) /\ bytes_out o = rows_out o * row_bytes /\
  o_verdict o = (if decide (rows_out o = n_rows) then Allow else Bound).
Proof.
  intros (Hn & Hr & Hb & Hm). unfold probe_byte_cutoff, Budget.for_role, role_budget, Budget.budget_new. simpl.
  destruct (stream_exact (Budget.mkBudget max_bytes max_rows 0 0) row_bytes (Z.to_nat n_rows)) as (k & cut & Hs & H1 & H2 & H3);
    [unfold Budget.budget_ok; simpl; lia|done|]. rewrite ?Z.add_0_l in *. simpl in *. rewrite Hs. unfold lets_through. simpl. rewrite ?Z.add_0_l in *.
  destruct H3 as [[-> ->]|(Hk & [c ->] & Hc)].
  - rewrite decide_True by lia. split_and!; [lia..|done].
  - rewrite decide_False by lia. split_and!; [lia..|done].
Qed.

Section green.
Context (parse_read : string -> option (list Classifier.Statement)).
Context (visit_expressions : Classifier.Statement -> list Classifier.Expr).
Context (parse_write : string -> result string (list Predicate.Statement)).
Context (visit_below : Predicate.Expr -> list Predicate.Expr) (to_lowercase : string -> string).
Context (sha256_hex : list byte -> string) (debug_str : string -> string) (overflow_checks : bool).
#[local] Abbreviation the_probe :=
  (run_probe parse_read visit_expressions parse_write visit_below to_lowercase sha256_hex debug_str overflow_checks).
#[local] Abbreviation the_run :=
  (run parse_read visit_expressions parse_write visit_below to_lowercase sha256_hex debug_str overflow_checks).
#[local] Abbreviation the_case := (run_case sha256_hex debug_str overflow_checks).

Lemma captured_arity ids cols :
  Forall (fun r => length (PkChecksum.tuple_values (Apply.c_pk r)) = 1%nat) (captured_with_cols ids cols).
Proof. unfold captured_with_cols. apply Forall_fmap, Forall_true. done. Qed.

Lemma forward_arity c rel cs f :
  scripted_forward c rel cs = Ok f ->
  Forall (fun r => length (PkChecksum.tuple_values (Apply.c_pk r)) = 1%nat) (Apply.written f).
Proof.
  unfold scripted_forward. intros Hf.
  assert (Forall (fun r => length (PkChecksum.tuple_values (Apply.c_pk r)) = 1%nat)
            ((match s_captured_image_cols c with [] => captured (written_ids c)
              | cols => captured_with_cols (written_ids c) cols end) ++
             map (fun id => Apply.mkCaptured (int_key id) [("id"%string, PkChecksum.Int id)]) (s_racing_written_ids c))) as Ha.
  { apply Forall_app_2; [destruct (s_captured_image_cols c); apply captured_arity|]. apply Forall_fmap, Forall_true. done. }
  destruct (s_racing_written_ids c) as [|id rest]; [by injection Hf as <-|].
  destruct (s_preimage_seam_closed c); [done|]. by injection Hf as <-.
Qed.

(** The guarded part of an apply over the scripted connection leaves it as it is. *)
Lemma body_on_script k rel predicted wc (c c' : ScriptedConn) (b b' : NoopBarrier) out :
  Apply.guarded_body debug_str k rel predicted wc c b = (b', (c', out)) ->
  c' = c /\ forall f, out = Ok f -> exists cs, scripted_forward c rel cs = Ok f.
Proof.
  unfold Apply.guarded_body. simpl. intros [= _ E].
  destruct (scripted_forward c rel _) as [f|e] eqn:Ef; simpl in E; [|injection E as <- <-; done].
  repeat (match type of E with match ?x with _ => _ end = _ => destruct x end; try (by injection E as <- <-)).
  injection E as <- <-. split; [done|]. intros ? [= <-]. eauto.
Qed.

(** An apply over the scripted connection has committed exactly when it returns
    success. *)
Lemma case_commits_iff case c' r : the_case case = Some (c', r) -> s_committed c' = is_ok r.
Proof.
  unfold run_case. destruct (grant_of _ case) as [grant|]; [|done]. unfold Apply.guarded_apply. cbn [mbind option_bind].
  destruct (Apply.precheck _ _ _ _ _ _) as [[predicted|e]|]; [|by intros [= <- <-]|done].
  unfold Apply.apply_in_txn. cbn -[Apply.guarded_body Apply.written_checksum conn_of].
  destruct (Apply.guarded_body (B := NoopBarrier) debug_str (kind case) (relation case) predicted (cap case) (conn_of case)
              mkNoopBarrier) as [b1 [c1 out]] eqn:Eg.
  apply body_on_script in Eg as [-> Hf]. destruct out as [f|e]; cbn -[Apply.written_checksum]; [|by intros [= <- <-]].
  destruct (Hf f eq_refl) as [cs Hs]. apply forward_arity in Hs.
  destruct (Apply.written_checksum_same_arity sha256_hex f (relation case) _ Hs) as [h Hh].
  rewrite Hh. by intros [= <- <-].
Qed.

(** The gate refuses, and with which code. *)
Definition refused_with (d : Enforce.GateDecision) (code : string) : Prop :=
  match d with
  | Enforce.GateAllow _ => False
  | Enforce.GateReject _ c _ | Enforce.GateBlock _ c _ => c = code
  end.

(** Whether a probe asks a component at all: that of the direct connection does not. *)
Definition asks_floor (p : Probe) : bool := match p with WallDirectBypass _ => false | _ => true end.

(** What it means that the component a probe drives has contained what the probe puts to
    it, as the observation [o] reports. *)
Definition contained (p : Probe) (o : Observed) : Prop :=
  match p with
  | ProxyReadGate sql true => refused_with (Enforce.gate parse_read visit_expressions (Frontend.Query sql)) (o_reason o)
  | ProxyReadGate sql false =>
      refused_with (Enforce.gate parse_read visit_expressions (Frontend.Parse EmptyString sql [])) (o_reason o) /\
      Classifier.classify parse_read visit_expressions sql = Classifier.NotRead
  | ByteCutoff n_rows row_bytes max_bytes max_rows =>
      let meter := Budget.budget_new max_bytes max_rows in
      (exists (k : nat) cap, Z.of_nat k < n_rows /\
         (forall j, (j < k)%nat -> within (Budget.charge_row (charged meter row_bytes j) row_bytes).2) /\
         (Budget.charge_row (charged meter row_bytes k) row_bytes).2 = Budget.Exceeded cap (bytes_out o) (rows_out o) /\
         o_reason o = Budget.cap_code cap) /\
      (cutoff_sane n_rows row_bytes max_bytes max_rows ->
         lets_through n_rows row_bytes max_bytes max_rows (rows_out o) /\ bytes_out o = rows_out o * row_bytes)
  | PGuardedApply case =>
      exists c' e, the_case case = Some (c', Err e) /\ s_committed c' = false /\ o_reason o = Messages.ApplyError_fmt debug_str e
  | PCertify op => exists refused, Inverse.certify op = Err refused /\ o_reason o = Messages.RefusedOp_fmt refused
  | PSelfDeterminedGate sql pk_col =>
      exists reason,
        (Predicate.self_determined_predicate_reason parse_write visit_below to_lowercase sql pk_col mkCorpusVolatility).2 =
        Some reason /\ o_reason o = Messages.NotSelfDetermined_fmt reason
  | WallDirectBypass _ => False
  end.

Definition allowed (p : Probe) (o : Observed) : Prop :=
  match p with
  | ProxyReadGate sql true => False
  | ProxyReadGate sql false =>
      Enforce.gate parse_read visit_expressions (Frontend.Parse EmptyString sql []) = Enforce.GateAllow (Some sql) /\
      Classifier.classify parse_read visit_expressions sql = Classifier.Read
  | ByteCutoff n_rows row_bytes max_bytes max_rows =>
      forall j, Z.of_nat j < n_rows ->
        within (Budget.charge_row (charged (Budget.budget_new max_bytes max_rows) row_bytes j) row_bytes).2
  | PGuardedApply case => exists c' applied, the_case case = Some (c', Ok applied) /\ s_committed c' = true
  | PCertify op => is_ok (Inverse.certify op) = true
  | PSelfDeterminedGate sql pk_col =>
      (Predicate.self_determined_predicate_reason parse_write visit_below to_lowercase sql pk_col mkCorpusVolatility).2 = None
  | WallDirectBypass _ => False
  end.

Lemma gate_probe_meaning sql via :
  let o := probe_proxy_read_gate parse_read visit_expressions sql via in
  if is_contained (o_verdict o) then contained (ProxyReadGate sql via) o else allowed (ProxyReadGate sql via) o.
Proof.
  unfold probe_proxy_read_gate, contained, allowed. destruct via; [done|].
  unfold Enforce.gate, Classifier.classify. simpl. unfold Enforce.gate_sql.
  destruct (Classifier.classify_with_reason _ _ sql) as [[] reason]; [done|].
  by destruct (Enforce.not_read_message reason).
Qed.

Lemma cutoff_probe_meaning n rb mb mr :
  let o := probe_byte_cutoff n rb mb mr in
  if is_contained (o_verdict o) then contained (ByteCutoff n rb mb mr) o else allowed (ByteCutoff n rb mb mr) o.
Proof.
  intros o. pose proof (cutoff_exact n rb mb mr) as Hx. fold o in Hx.
  unfold o, probe_byte_cutoff in *. unfold contained, allowed, Budget.for_role, role_budget in *. simpl in *.
  pose proof (stream_charges (Budget.budget_new mb mr) rb (Z.to_nat n) 0 0) as Hs.
  destruct (stream _ rb (Z.to_nat n) 0 0) as [[x y] [cap|]]; simpl in *.
  - destruct Hs as (k & Hk & Hj & He). split; [|by intros Hc; destruct (Hx Hc) as (? & ? & _)].
    exists k, cap. split_and!; [lia|done..].
  - intros j Hj. apply Hs. lia.
Qed.

Lemma probe_meaning p o :
  asks_floor p = true -> the_probe p = Some o -> if is_contained (o_verdict o) then contained p o else allowed p o.
Proof.
  destruct p as [sql via|n rb mb mr|case|op|sql pk|sql]; [..|done]; intros _; cbn [run_probe].
  - intros [= <-]. apply gate_probe_meaning.
  - intros [= <-]. apply cutoff_probe_meaning.
  - unfold probe_guarded_apply. destruct (the_case case) as [[c' [a|e]]|] eqn:E; [| |done]; simpl; intros [= <-]; simpl;
      apply case_commits_iff in E as Hc; rewrite E; eauto 6.
  - intros [= <-]. unfold probe_certify. simpl. by destruct (Inverse.certify op); simpl; eauto.
  - intros [= <-]. unfold probe_self_determined_gate. simpl. destruct (_.2); simpl; eauto.
Qed.

Definition label_ok (g : GoldenRecord) : Prop := g_class g = Dangerous <-> expected_verdict g <> Allow.

Lemma passing_verdict g o : pass_predicate g o = true -> o_verdict o = expected_verdict g.
Proof.
  unfold pass_predicate. destruct (expected_verdict g); intros Hp; try by apply bool_decide_eq_true in Hp.
  all: apply andb_true_iff in Hp as [Hp _]; by apply bool_decide_eq_true in Hp.
Qed.

Lemma clean_iff g o : is_clean (judge g o) = true <-> pass_predicate g o = true /\ label_ok g.
Proof.
  unfold is_clean, judge, label_ok. simpl. split.
  - intros [[[_ Hp]%andb_true_iff Hc]%andb_true_iff Hf]%andb_true_iff. split; [done|]. apply passing_verdict in Hp as Hv.
    rewrite Hp, Hv in *. destruct (g_class g), (expected_verdict g); simpl in *; naive_solver.
  - intros [Hp Hl]. apply passing_verdict in Hp as Hv. rewrite Hp, Hv, bool_decide_true by done. simpl.
    destruct (g_class g), (expected_verdict g); simpl in *; naive_solver.
Qed.

Lemma green_iff_clean r : is_green r = true <-> forallb is_clean (results r) = true.
Proof.
  unfold is_green. split; [by intros [_ H]%andb_true_iff|]. intros H. rewrite H, !andb_true_iff.
  assert (forall p : ScenarioResult -> bool, (forall x, is_clean x = true -> p x = false) -> count_if p (results r) = 0%nat) as Hz.
  { intros p Hp. unfold count_if. revert H. induction (results r) as [|x l IH]; [done|]. simpl.
    intros [Hx Hl]%andb_true_iff. rewrite (Hp x Hx). by apply IH. }
  unfold catastrophic_fn, false_positives. rewrite !Hz; [done|..]; intros x; unfold is_clean;
    rewrite !andb_true_iff, !negb_true_iff; naive_solver.
Qed.

Lemma run_scenario_ok s o :
  the_probe (probe s) = Some o ->
  run_scenario parse_read visit_expressions parse_write visit_below to_lowercase sha256_hex debug_str overflow_checks s =
  Some (judge (golden s) o).
Proof. unfold run_scenario. by intros ->. Qed.

(** What a green report holds for each scenario. *)
Lemma green_results corpus r :
  the_run corpus = Some r -> is_green r = true ->
  Forall2 (fun s x => sr_golden x = golden s /\ the_probe (probe s) = Some (observed x) /\
             pass_predicate (golden s) (observed x) = true /\ label_ok (golden s)) corpus (results r).
Proof.
  unfold run. intros Hr Hg%green_iff_clean. destruct (mapM _ corpus) as [rs|] eqn:Em; [|done]. injection Hr as <-. simpl in *.
  apply mapM_Some in Em. revert Hg. induction Em as [|s x corpus rs Hs _ IH]; [constructor|]. simpl.
  intros [Hx Hg]%andb_true_iff. constructor; [|by apply IH]. unfold run_scenario in Hs.
  destruct (the_probe (probe s)) as [o|]; [|done]. injection Hs as <-. by apply clean_iff in Hx as [Hp Hl].
Qed.

Lemma green_iff corpus :
  (exists r, the_run corpus = Some r /\ is_green r = true) <->
  Forall (fun s => label_ok (golden s) /\ exists o, the_probe (probe s) = Some o /\ pass_predicate (golden s) o = true) corpus.
Proof.
  split.
  - intros (r & Hr & Hg). pose proof (green_results _ _ Hr Hg) as H2. apply Forall_forall. intros s [i Hi]%list_elem_of_lookup.
    destruct (Forall2_lookup_l _ _ _ _ _ H2 Hi) as (x & _ & _ & Ho & Hp & Hl). eauto.
  - unfold run. intros Hall. assert (exists rs, mapM (run_scenario parse_read visit_expressions parse_write visit_below to_lowercase
                                     sha256_hex debug_str overflow_checks) corpus = Some rs /\ forallb is_clean rs = true) as (rs & -> & Hc).
    { induction Hall as [|s corpus (Hl & o & Ho & Hp) _ (rs & IH & Hc)]; [by exists []|].
      exists (judge (golden s) o :: rs). cbn [mapM mapM]. rewrite (run_scenario_ok s o Ho). cbn [mbind option_bind]. rewrite IH.
      split; [done|]. apply andb_true_iff. split; [by apply clean_iff|done]. }
    exists (mkGateReport rs). split; [done|]. by apply green_iff_clean.
Qed.

(** C38: a green gate is evidence.  Of each scenario of its corpus whose probe asks a
    component, the report holds an observation in the scenario's place, and it says what the
    component did.  A dangerous one was contained: the gate refused the very message, a
    simple query or a Parse that is not a read, with the code reported; the meter, charged
    row by row, refused a row of the result at the totals and by the cap reported, within the
    budget; the guarded apply returned the error reported and its connection has not
    committed; the operation is not certified, or the predicate not self-determined, for the
    reason reported.  A legitimate one was allowed by the same component.  The probe of the
    direct connection asks none and is left out. *)
Theorem green_gate_is_evidence (corpus : list Scenario) (r : GateReport) (i : nat) (s : Scenario) :
  the_run corpus = Some r -> is_green r = true -> corpus !! i = Some s -> asks_floor (probe s) = true ->
  exists x, results r !! i = Some x /\ sr_golden x = golden s /\
    match g_class (golden s) with
    | Dangerous => contained (probe s) (observed x)
    | AdversarialLegit => allowed (probe s) (observed x)
    end.
Proof.
  intros Hr Hg Hs Ha. destruct (Forall2_lookup_l _ _ _ _ _ (green_results _ _ Hr Hg) Hs) as (x & Hx & Hgo & Ho & Hp & Hl).
  exists x. split; [done|]. split; [done|]. apply passing_verdict in Hp as Hv. apply probe_meaning in Ho; [|done].
  rewrite Hv in Ho. unfold label_ok in Hl.
  destruct (g_class (golden s)), (expected_verdict (golden s)); simpl in Ho; try done; naive_solver.
Qed.
End green.
End Bench.
