(* ===== verification/Fidelity.v ===== *)
(** * Fidelity: the spike that the apply and the revert grew out of

    Models [src/spikes/fidelity/src]: the differ that compares the state before and after
    a restore ([differ.rs], Module [Differ]) and the harness ([harness.rs], Module
    [Harness]) with its seed, the affected-key snapshot, the capture of typed inverses,
    the guarded apply across the barrier, and the restore.  The database is the one the
    seed creates: orders keyed by id, their items keyed by order and line with the
    cascading reference, the audit table the trigger writes, and the ticket sequence.

    Parameters: what a predicate text selects ([matches]), which of the statements sent
    over a connection fail ([fault], by their number), the hash, the row text and MD5 of
    Postgres, and its LSN codec.  Other sessions act at the barrier.  [None] is a panic;
    the position of the write-ahead log moves in [burn_wal] only; a commit
    whose acknowledgement is lost is not modelled. *)

From stdpp Require Import sorting pretty.
From S2P Require Import Prelude Text Session PkChecksum Inverse Approval.

Module Schema.

Record Order : Type := mkOrder { customer : string; status : string; total_cents : Z }.
Record Item : Type := mkItem { sku : string; qty : Z }.

#[global] Instance Order_eq_dec : EqDecision Order.
Proof. solve_decision. Defined.
#[global] Instance Item_eq_dec : EqDecision Item.
Proof. solve_decision. Defined.

(** The sequence is its [last_value] and whether it was drawn from. *)
Record Db : Type := mkDb {
  orders : gmap Z Order;
  order_items : gmap (Z * Z) Item;
  order_audit : list (Z * string);
  amplified : bool;
  ticket_seq : Z * bool;
  wal : Z
}.

Definition set_rows (d : Db) (os : gmap Z Order) (is_ : gmap (Z * Z) Item) (audit : list (Z * string)) : Db :=
  mkDb os is_ audit (amplified d) (ticket_seq d) (wal d).

(** The rows of a table in the order of their key. *)
Definition order_by_id (a b : Z * Order) : Prop := a.1 <= b.1.
Definition by_line (a b : Z * Z * Item) : Prop := a.1.1 < b.1.1 \/ (a.1.1 = b.1.1 /\ a.1.2 <= b.1.2).
#[global] Instance order_by_id_dec : RelDecision order_by_id.
Proof. intros a b. unfold order_by_id. apply _. Defined.
#[global] Instance by_line_dec : RelDecision by_line.
Proof. intros a b. unfold by_line. apply _. Defined.

(** [SEED_SQL]. *)
Definition seed_order (g : Z) : Z * Order :=
  (g, mkOrder ("cust-" +:+ pretty g) (if Z.even g then "open" else "closed")%string (g * 100)).
Definition seed_items (g : Z) : list (Z * Z * Item) :=
  map (fun ln => (g, ln, mkItem ("sku-" +:+ pretty g +:+ "-" +:+ pretty ln) (g + ln))) [1; 2].
Definition seeded : Db :=
  mkDb (list_to_map (map seed_order (seqZ 1 10))) (list_to_map (concat (map seed_items (seqZ 1 10)))) [] false (1000, false) 0.

(** The triggers of [orders]: the seed's, and the one [install_amplifying_trigger] adds. *)
Definition fired (d : Db) (op : string) (id : Z) : list (Z * string) :=
  (id, op) :: (if amplified d && bool_decide (op = "UPDATE"%string) then [(id, "AMPLIFY"%string)] else []).
End Schema.

(** ** The differ *)

Module Differ.
Import Schema.

Record GoldenState : Type := mkGolden {
  orders_md5 : string;
  order_items_md5 : string;
  ticket_seq_last_value : Z;
  audit_row_count : Z
}.

Record RestoreVerdict : Type := mkVerdict {
  certified_rows_restored : bool;
  sequence_restored : bool;
  trigger_side_effects_restored : bool
}.

Definition certified_fingerprint (g : GoldenState) : string * string := (orders_md5 g, order_items_md5 g).

Definition diff (golden restored : GoldenState) : RestoreVerdict :=
  mkVerdict (bool_decide (certified_fingerprint golden = certified_fingerprint restored))
    (bool_decide (ticket_seq_last_value golden = ticket_seq_last_value restored))
    (bool_decide (audit_row_count golden = audit_row_count restored)).

Section capture.
Context (md5 : string -> string) (order_text : Z * Order -> string) (item_text : Z * Z * Item -> string).

(** [string_agg(.., '|' ORDER BY ..)]. *)
Fixpoint joined (l : list string) : string :=
  match l with [] => ""%string | [x] => x | x :: l => x +:+ "|" +:+ joined l end.

Definition capture (d : Db) : GoldenState :=
  mkGolden (md5 (joined (map order_text (merge_sort order_by_id (map_to_list (orders d))))))
    (md5 (joined (map item_text (merge_sort by_line (map_to_list (order_items d))))))
    (ticket_seq d).1 (Z.of_nat (length (order_audit d))).
End capture.
End Differ.

(** ** The harness *)

Module Harness.
Import Schema Barrier PkChecksum Inverse.

Inductive SpikeError : Type :=
| Pg (message : string)
| Checksum (e : ChecksumError)
| DriftAbort (relation dry_run apply_time : string)
| Refused (op : RefusedOp)
| StalenessExceeded (actual ceiling : Z).

Record AffectedSnapshot : Type := mkSnapshot {
  snap_relation : string;
  snap_checksum : string;
  snap_total_rows : Z
}.

Record ApplyOutcome : Type := mkOutcome { actual_rows : Z; apply_time_checksum : string }.

(** A connection: what it sees of the database, and how many statements it has sent. *)
Record Client : Type := mkClient { db : Db; sent : nat }.

(** The panic of [unwrap_or_else] and of a value of another type. *)
Definition col (row : InverseRow) (name : string) : option PkValue :=
  snd <$> List.find (fun c => bool_decide (c.1 = name)) (before_image row).
Definition expect_int (v : PkValue) : option Z := match v with Int i => Some i | _ => None end.
Definition expect_text (v : PkValue) : option string := match v with Text s => Some s | _ => None end.
Definition int_col (row : InverseRow) (name : string) : option Z := col row name ≫= expect_int.
Definition text_col (row : InverseRow) (name : string) : option string := col row name ≫= expect_text.

Section harness.
Context (sha256_hex : list byte -> string).
Context (matches : string -> Z -> Order -> bool).
Context (fault : nat -> option string).

(** One statement over the connection. *)
Definition stmt {A} (f : Db -> result string (Db * A)) (c : Client) : Client * result SpikeError A :=
  match fault (sent c) with
  | Some e => (mkClient (db c) (S (sent c)), Err (Pg e))
  | None => match f (db c) with
            | Ok (d, a) => (mkClient d (S (sent c)), Ok a)
            | Err e => (mkClient (db c) (S (sent c)), Err (Pg e))
            end
  end.
Definition select {A} (f : Db -> A) : Client -> Client * result SpikeError A := stmt (fun d => Ok (d, f d)).
Definition control : Client -> Client * result SpikeError unit := select (fun _ => tt).

Definition then_ {A B} (m : Client * result SpikeError A) (k : Client -> A -> Client * result SpikeError B) :
    Client * result SpikeError B :=
  match m with (c, Ok a) => k c a | (c, Err e) => (c, Err e) end.

(** The end of a transaction begun on [base]: committed when its body and the commit
    succeed, rolled back to [base] otherwise. *)
Definition end_txn {A} (base : Db) (m : Client * result SpikeError A) : Client * result SpikeError A :=
  match then_ m (fun c a => then_ (control c) (fun c _ => (c, Ok a))) with
  | (c, Ok a) => (c, Ok a)
  | (c, Err e) => (mkClient base (sent c), Err e)
  end.

(** *** Snapshots *)

Definition matching_orders (where_sql : string) (d : Db) : list (Z * Order) :=
  merge_sort order_by_id (map_to_list (filter (fun r => matches where_sql r.1 r.2 = true) (orders d))).
Definition matching_items (where_sql : string) (d : Db) : list (Z * Z * Item) :=
  merge_sort by_line (map_to_list (filter (fun r => match orders d !! r.1.1 with
                                                    | Some o => matches where_sql r.1.1 o
                                                    | None => false
                                                    end = true) (order_items d))).

Fixpoint push_tuples (b : PkSetBuilder) (ts : list PkTuple) : result ChecksumError PkSetBuilder :=
  match ts with
  | [] => Ok b
  | t :: ts => match push b t with (b, Ok _) => push_tuples b ts | (_, Err e) => Err e end
  end.

Definition order_key (r : Z * Order) : PkTuple := tuple_single (Int r.1).
Definition item_key (r : Z * Z * Item) : PkTuple := mkPkTuple [Int r.1.1; Int r.1.2].

Definition snapshot_of (relation : string) (ts : list PkTuple) : result SpikeError AffectedSnapshot :=
  let? b := result_map_err Checksum (push_tuples (for_relation relation) ts) in
  let? sum := result_map_err Checksum (finalize sha256_hex b) in
  Ok (mkSnapshot relation sum (Z.of_nat (length ts))).

Definition snapshot_orders_pks (c : Client) (where_sql : string) : Client * result SpikeError AffectedSnapshot :=
  then_ (select (matching_orders where_sql) c) (fun c rows => (c, snapshot_of "public.orders" (map order_key rows))).
Definition snapshot_cascade_item_pks (c : Client) (where_sql : string) : Client * result SpikeError AffectedSnapshot :=
  then_ (select (matching_items where_sql) c) (fun c rows => (c, snapshot_of "public.order_items" (map item_key rows))).

(** *** Typed inverses *)

Definition order_image (o : Order) : list (string * PkValue) :=
  [("customer", Text (customer o)); ("status", Text (status o)); ("total_cents", Int (total_cents o))]%string.
Definition update_row (r : Z * Order) : InverseRow := mkInverseRow (order_key r) (order_image r.2).
Definition delete_row (r : Z * Order) : InverseRow := mkInverseRow (order_key r) (("id"%string, Int r.1) :: order_image r.2).
Definition item_row (r : Z * Z * Item) : InverseRow :=
  mkInverseRow (item_key r)
    [("order_id", Int r.1.1); ("line_no", Int r.1.2); ("sku", Text (sku r.2)); ("qty", Int (qty r.2))]%string.

Definition capture_update_inverse (c : Client) (where_sql : string) : Client * result SpikeError InversePlan :=
  then_ (select (matching_orders where_sql) c) (fun c rows =>
    (c, Ok (plan_build (foldl push_row (plan_builder_new "public.orders" for_update) (map update_row rows))))).

Definition capture_delete_inverse (c : Client) (where_sql : string) : Client * result SpikeError (InversePlan * InversePlan) :=
  then_ (select (matching_orders where_sql) c) (fun c order_rows =>
  then_ (select (matching_items where_sql) c) (fun c item_rows =>
    (c, Ok (plan_build (foldl push_row (set_fk_order (plan_builder_new "public.orders" for_delete)
                                          ["public.orders"; "public.order_items"]%string) (map delete_row order_rows)),
            plan_build (foldl push_row (plan_builder_new "public.order_items" for_delete) (map item_row item_rows)))))).

(** *** The forward statements *)

Definition update_orders (where_sql new_status : string) (d : Db) : Db * list Z :=
  let ids := map fst (matching_orders where_sql d) in
  (set_rows d (map_imap (fun id o => Some (if matches where_sql id o then mkOrder (customer o) new_status (total_cents o) else o))
                 (orders d))
     (order_items d) (order_audit d ++ concat (map (fired d "UPDATE") ids)), ids).

Definition delete_orders (where_sql : string) (d : Db) : Db * list Z :=
  let ids := map fst (matching_orders where_sql d) in
  (set_rows d (filter (fun r => matches where_sql r.1 r.2 = false) (orders d))
     (filter (fun r => r.1.1 ∉ ids) (order_items d)) (order_audit d ++ concat (map (fired d "DELETE") ids)), ids).

(** [guarded_update_apply] and [guarded_delete_apply] differ in the forward statement. *)
Definition guarded_write {B} `{ApplyBarrier B Db} (forward : Db -> Db * list Z) (c : Client) (barrier : B) (where_sql : string)
    (expected : AffectedSnapshot) : B * (Client * result SpikeError ApplyOutcome) :=
  match control c with
  | (c, Err e) => (barrier, (c, Err e))
  | (c, Ok _) =>
      let '(barrier, d) := pause_point barrier "between dry_run and apply" (db c) in
      (barrier,
       match snapshot_orders_pks (mkClient d (sent c)) where_sql with
       | (c, Err e) => (mkClient d (sent c), Err e)
       | (c, Ok now) =>
           if negb (bool_decide (snap_checksum now = snap_checksum expected)) then
             then_ (control c) (fun c _ =>
               (c, Err (DriftAbort (snap_relation expected) (as_prefixed (snap_checksum expected)) (as_prefixed (snap_checksum now)))))
           else
             end_txn d (then_ (stmt (fun d => Ok (forward d)) c)
                         (fun c ids => (c, Ok (mkOutcome (Z.of_nat (length ids)) (snap_checksum now)))))
       end)
  end.

Definition guarded_update_apply {B} `{ApplyBarrier B Db} (c : Client) (barrier : B) (where_sql new_status : string)
    (expected : AffectedSnapshot) : B * (Client * result SpikeError ApplyOutcome) :=
  guarded_write (update_orders where_sql new_status) c barrier where_sql expected.
Definition guarded_delete_apply {B} `{ApplyBarrier B Db} (c : Client) (barrier : B) (where_sql : string)
    (expected : AffectedSnapshot) : B * (Client * result SpikeError ApplyOutcome) :=
  guarded_write (delete_orders where_sql) c barrier where_sql expected.

(** *** The restores *)

(** A row updated by its key fires the triggers if it is there. *)
Definition restore_order (id : Z) (o : Order) (d : Db) : Db :=
  match orders d !! id with
  | Some _ => set_rows d (<[id := o]> (orders d)) (order_items d) (order_audit d ++ fired d "UPDATE" id)
  | None => d
  end.
Definition insert_order (id : Z) (o : Order) (d : Db) : result string (Db * unit) :=
  match orders d !! id with
  | Some _ => Err "duplicate key value violates unique constraint orders_pkey"%string
  | None => Ok (set_rows d (<[id := o]> (orders d)) (order_items d) (order_audit d), tt)
  end.
Definition insert_item (k : Z * Z) (i : Item) (d : Db) : result string (Db * unit) :=
  match order_items d !! k, orders d !! k.1 with
  | Some _, _ => Err "duplicate key value violates unique constraint order_items_pkey"%string
  | None, None => Err "violates foreign key constraint order_items_order_id_fkey"%string
  | None, Some _ => Ok (set_rows d (orders d) (<[k := i]> (order_items d)) (order_audit d), tt)
  end.

(** The values a row of a plan is read as; the casts of the keys are to 32 bits. *)
Definition order_of (row : InverseRow) : option Order :=
  customer ← text_col row "customer"; status ← text_col row "status"; total ← int_col row "total_cents";
  Some (mkOrder customer status total).
Definition key_of_row (row : InverseRow) : option Z :=
  v ← head (tuple_values (row_pk row)); id ← expect_int v; Some (wrap_s 32 id).
Definition id_of_row (row : InverseRow) : option Z := id ← int_col row "id"; Some (wrap_s 32 id).
Definition item_of (row : InverseRow) : option (Z * Z * Item) :=
  order_id ← int_col row "order_id"; line_no ← int_col row "line_no"; sku ← text_col row "sku"; qty ← int_col row "qty";
  Some (wrap_s 32 order_id, wrap_s 32 line_no, mkItem sku (wrap_s 32 qty)).

(** One statement per row; a row that cannot be read panics. *)
Fixpoint each_row {A} (read : InverseRow -> option A) (f : A -> Db -> result string (Db * unit)) (rows : list InverseRow)
    (n : Z) (c : Client) : option (Client * result SpikeError Z) :=
  match rows with
  | [] => Some (c, Ok n)
  | row :: rows =>
      a ← read row;
      match stmt (f a) c with
      | (c, Err e) => Some (c, Err e)
      | (c, Ok _) => each_row read f rows (n + 1) c
      end
  end.

Definition restore_update_inverse (c : Client) (plan : InversePlan) : option (Client * result SpikeError Z) :=
  if negb (bool_decide (plan_kind plan = PreimageUpsert)) then None
  else
    match control c with
    | (c, Err e) => Some (c, Err e)
    | (c, Ok _) =>
        m ← each_row (fun row => id ← key_of_row row; o ← order_of row; Some (id, o))
              (fun p d => Ok (restore_order p.1 p.2 d, tt)) (plan_rows plan) 0 c;
        Some (end_txn (db c) m)
    end.

Definition restore_delete_inverse (c : Client) (orders_plan items_plan : InversePlan) : option (Client * result SpikeError (Z * Z)) :=
  if negb (bool_decide (plan_kind orders_plan = InsertRows) && bool_decide (plan_kind items_plan = InsertRows)
           && bool_decide (plan_fk_order orders_plan = ["public.orders"; "public.order_items"]%string)) then None
  else
    match control c with
    | (c, Err e) => Some (c, Err e)
    | (c0, Ok _) =>
        '(c, r) ← each_row (fun row => id ← id_of_row row; o ← order_of row; Some (id, o)) (fun p => insert_order p.1 p.2)
                    (plan_rows orders_plan) 0 c0;
        match r with
        | Err e => Some (end_txn (db c0) (c, Err e))
        | Ok orders_n =>
            '(c, r) ← each_row item_of (fun p => insert_item p.1 p.2) (plan_rows items_plan) 0 c;
            Some (end_txn (db c0) (c, let? items_n := r in Ok (orders_n, items_n)))
        end
    end.

(** *** Staleness *)

Context (lsn_text : Z -> string) (lsn_of : string -> option Z) (burn_bytes : Z).

Definition is_hex (b : byte) : bool :=
  let v := Z_of_byte b in ((48 <=? v) && (v <=? 57)) || ((65 <=? v) && (v <=? 70)) || ((97 <=? v) && (v <=? 102)).

Definition is_valid_lsn (s : string) : bool :=
  match Webhook.split_first x2f (as_bytes s) with
  | Some (hi, lo) => negb (bool_decide (hi = [])) && negb (bool_decide (lo = [])) && forallb is_hex hi && forallb is_hex lo
  | None => false
  end.

Definition current_wal_lsn (c : Client) : Client * result SpikeError string := select (fun d => lsn_text (wal d)) c.

Definition staleness_lsn_bytes (c : Client) (snapshot_lsn : string) : option (Client * result SpikeError Z) :=
  if negb (is_valid_lsn snapshot_lsn) then None
  else Some (stmt (fun d => match lsn_of snapshot_lsn with
                            | Some l => Ok (d, Z.max (Z.max (wal d - l) 0) 0)
                            | None => Err "invalid input syntax for type pg_lsn"%string
                            end) c).

Definition enforce_staleness_ceiling (actual ceiling : Z) : result SpikeError unit :=
  if ceiling <? actual then Err (StalenessExceeded actual ceiling) else Ok tt.

Definition advance_wal (d : Db) : Db :=
  mkDb (orders d) (order_items d) (order_audit d) (amplified d) (ticket_seq d) (wal d + burn_bytes).
Fixpoint burn_loop (n : nat) (c : Client) : Client * result SpikeError unit :=
  match n with
  | O => (c, Ok tt)
  | S n => then_ (stmt (fun d => Ok (advance_wal d, tt)) c) (fun c _ => burn_loop n c)
  end.
Definition burn_wal (c : Client) (n : nat) : Client * result SpikeError unit :=
  then_ (control c) (fun c _ => burn_loop n c).

(** *** The rest of the seams *)

Definition certify_or_refuse (op : Operation) : result RefusedOp CertifiedAction := certify op.
Definition audit_row_count (c : Client) : Client * result SpikeError Z := select (fun d => Z.of_nat (length (order_audit d))) c.
Definition ticket_seq_last_value (c : Client) : Client * result SpikeError Z := select (fun d => (ticket_seq d).1) c.
Definition nextval (d : Db) : Db * Z :=
  let v := if (ticket_seq d).2 then (ticket_seq d).1 + 1 else (ticket_seq d).1 in
  (mkDb (orders d) (order_items d) (order_audit d) (amplified d) (v, true) (wal d), v).
Definition advance_ticket_seq (c : Client) : Client * result SpikeError Z := stmt (fun d => Ok (nextval d)) c.

(** The function, the trigger and then the update of order 1, which fires both. *)
Definition amplify (d : Db) : Db :=
  let d := mkDb (orders d) (order_items d) (order_audit d) true (ticket_seq d) (wal d) in
  match orders d !! 1 with
  | Some o => set_rows d (<[1 := mkOrder (customer o) "open" (total_cents o)]> (orders d)) (order_items d)
                (order_audit d ++ fired d "UPDATE" 1)
  | None => d
  end.
Definition install_amplifying_trigger (c : Client) : Client * result SpikeError unit :=
  stmt (fun d => if amplified d then Err "function orders_amplify already exists"%string else Ok (amplify d, tt)) c.

Definition affected_map (snapshot : AffectedSnapshot) : gmap string Z := {[snap_relation snapshot := snap_total_rows snapshot]}.

(** *** Databases of their own *)

(** Every character that is not an ASCII letter or digit becomes an underscore: of a longer
    encoding the first byte stands for the character. *)
Definition tag_byte (b : byte) : list byte :=
  let v := Z_of_byte b in
  if ((48 <=? v) && (v <=? 57)) || ((65 <=? v) && (v <=? 90)) || ((97 <=? v) && (v <=? 122)) then [b]
  else if (128 <=? v) && (v <=? 191) then [] else [x5f].
Definition dbname_of (tag : string) : string :=
  "fid_" +:+ Text.to_ascii_lowercase (of_bytes (concat (map tag_byte (as_bytes tag)))).

Definition replace_dbname (url dbname : string) : string :=
  let parts := List.filter (fun kv => negb (Text.starts_with (as_bytes "dbname=") kv)) (Webhook.split_whitespace (as_bytes url)) in
  of_bytes (foldr (fun p rest => match rest with [] => p | _ => p ++ x20 :: rest end) []
              (parts ++ [as_bytes ("dbname=" +:+ dbname)])).

(** The databases of the server, and a connection to the new one. *)
Definition create_fresh_db (connect : string -> result string Client) (admin : string -> option string) (names : gset string)
    (admin_url tag : string) : gset string * result SpikeError (string * Client) :=
  match connect admin_url with
  | Err e => (names, Err (Pg e))
  | Ok _ =>
      let dbname := dbname_of tag in
      match admin ("DROP DATABASE IF EXISTS " +:+ dbname +:+ " WITH (FORCE)") with
      | Some e => (names, Err (Pg e))
      | None =>
          match admin ("CREATE DATABASE " +:+ dbname) with
          | Some e => (names ∖ {[dbname]}, Err (Pg e))
          | None =>
              ({[dbname]} ∪ names,
               let? c := result_map_err Pg (connect (replace_dbname admin_url dbname)) in Ok (dbname, c))
          end
      end
  end.
Definition drop_database (connect : string -> result string Client) (admin : string -> option string) (names : gset string)
    (admin_url dbname : string) : gset string * result SpikeError unit :=
  match connect admin_url with
  | Err e => (names, Err (Pg e))
  | Ok _ =>
      match admin ("DROP DATABASE IF EXISTS " +:+ dbname +:+ " WITH (FORCE)") with
      | Some e => (names, Err (Pg e))
      | None => (names ∖ {[dbname]}, Ok tt)
      end
  end.

(** [seed] on a new database; a second one fails on the tables that are there. *)
Definition seed (c : Client) : Client * result SpikeError unit :=
  stmt (fun d => if bool_decide (orders d = ∅) && bool_decide (order_items d = ∅)
                 then Ok (mkDb (orders seeded) (order_items seeded) (order_audit seeded) false (ticket_seq seeded) (wal d), tt)
                 else Err "relation orders already exists"%string) c.

Lemma split_first_app b l a c : Webhook.split_first b l = Some (a, c) -> l = a ++ b :: c.
Proof.
  revert a. induction l as [|x l IH]; intros a; simpl; [done|]. case_bool_decide as E; [intros [= <- <-]; by subst|].
  destruct (Webhook.split_first b l) as [[a' c']|]; [|done]. intros [= <- <-]. simpl. f_equal. by apply IH.
Qed.

(** What is spliced between quotes is two runs of hexadecimal digits and a slash. *)
Lemma valid_lsn_is_clean s :
  is_valid_lsn s = true -> Forall (fun b => is_hex b = true \/ b = x2f) (as_bytes s).
Proof.
  unfold is_valid_lsn. destruct (Webhook.split_first x2f (as_bytes s)) as [[hi lo]|] eqn:E; [|done].
  apply split_first_app in E as ->. rewrite !andb_true_iff, !forallb_forall. intros [[_ Hhi] Hlo].
  apply Forall_app. split; [|apply Forall_cons; split; [by right|]]; apply Forall_forall; intros b Hb%list_elem_of_In; auto.
Qed.

(** ** The statements *)

Lemma stmt_ok {A} (f : Db -> result string (Db * A)) c c' a : stmt f c = (c', Ok a) -> f (db c) = Ok (db c', a).
Proof. unfold stmt. destruct (fault _); [done|]. destruct (f (db c)) as [[d x]|]; [|done]. by intros [= <- <-]. Qed.
Lemma stmt_err {A} (f : Db -> result string (Db * A)) c c' e : stmt f c = (c', Err e) -> db c' = db c.
Proof. unfold stmt. destruct (fault _); [by intros [= <- _]|]. destruct (f (db c)) as [[d x]|]; [done|]. by intros [= <- _]. Qed.
Lemma query_db {A} (f : Db -> A) c c' r : select f c = (c', r) -> db c' = db c /\ forall a, r = Ok a -> a = f (db c).
Proof.
  intros Hq. destruct r as [a|e]; [|by apply stmt_err in Hq]. apply stmt_ok in Hq. injection Hq as <- <-.
  split; [done|]. by intros a [= <-].
Qed.

Lemma end_txn_ok {A} base (m : Client * result SpikeError A) c a : end_txn base m = (c, Ok a) -> exists c1, m = (c1, Ok a) /\ db c = db c1.
Proof.
  unfold end_txn. destruct m as [c1 [a1|e]]; simpl; [|done]. destruct (control c1) as [c2 [[]|e]] eqn:Ec; simpl; [|done].
  intros [= <- <-]. apply query_db in Ec as [Ec _]. eauto.
Qed.
Lemma end_txn_err {A} base (m : Client * result SpikeError A) c e : end_txn base m = (c, Err e) -> db c = base.
Proof. unfold end_txn. destruct (then_ _ _) as [c2 [a2|e2]]; [done|]. by intros [= <- _]. Qed.

(** ** Snapshots *)

Definition one_key (n : nat) (t : PkTuple) : Prop := length (tuple_values t) = n.

Lemma push_tuples_ok b n ts :
  Forall (one_key n) ts -> (arity b = None \/ arity b = Some n) ->
  exists b', push_tuples b ts = Ok b' /\ tuples b' = tuples b ++ ts /\ pk_less b' = pk_less b.
Proof.
  intros Hts. revert b. induction Hts as [|t ts Ht Hts IH]; intros b Hb; simpl.
  - exists b. by rewrite app_nil_r.
  - unfold push, one_key in *. destruct (arity b) as [k|] eqn:Ea.
    + destruct Hb as [?|[= ->]]; [done|]. rewrite decide_True by done. destruct (IH (mkBuilder (relation b) (Some n) (tuples b ++ [t]) (pk_less b)))
        as (b' & -> & E & Hp); [by right|]. exists b'. simpl in *. by rewrite E, <- app_assoc.
    + destruct (IH (mkBuilder (relation b) (Some (length (tuple_values t))) (tuples b ++ [t]) (pk_less b)))
        as (b' & -> & E & Hp); [right; simpl; by rewrite Ht|]. exists b'. simpl in *. by rewrite E, <- app_assoc.
Qed.

Lemma order_keys_single rows : Forall (one_key 1) (map order_key rows).
Proof. apply Forall_map, Forall_true. done. Qed.

(** A snapshot always has a checksum, and its checksum is that of the keys. *)
Lemma snapshot_of_orders rows :
  exists b, tuples b = map order_key rows /\ pk_less b = false /\
    snapshot_of "public.orders" (map order_key rows) =
      Ok (mkSnapshot "public.orders" (sha256_hex (hashed_stream (rust_sort tuple_cmp (tuples b)))) (Z.of_nat (length (map order_key rows)))).
Proof.
  destruct (push_tuples_ok (for_relation "public.orders") 1 (map order_key rows)) as (b & Hb & Ht & Hp);
    [apply order_keys_single|by left|].
  exists b. unfold snapshot_of. rewrite Hb. simpl. unfold finalize. rewrite Hp. simpl. by rewrite Ht.
Qed.

Definition ids (where_sql : string) (d : Db) : list Z := map fst (matching_orders where_sql d).
Definition small_ids (d : Db) : Prop := map_Forall (fun id _ => in_s 32 id) (orders d).
Definition collision : Prop := exists x y, x <> y /\ sha256_hex x = sha256_hex y.

Lemma matching_perm w d : matching_orders w d ≡ₚ map_to_list (filter (fun r => matches w r.1 r.2 = true) (orders d)).
Proof. apply merge_sort_Permutation. Qed.

Lemma elem_of_matching w d id o : (id, o) ∈ matching_orders w d <-> orders d !! id = Some o /\ matches w id o = true.
Proof. by rewrite matching_perm, elem_of_map_to_list, map_lookup_filter_Some. Qed.

Lemma ids_nodup w d : NoDup (ids w d).
Proof. unfold ids. rewrite matching_perm. apply NoDup_fst_map_to_list. Qed.

Definition key_id (t : PkTuple) : Z := match tuple_values t with Int i :: _ => i | _ => 0 end.

Lemma small_keys_fit w d : small_ids d -> Forall tuple_fits (map order_key (matching_orders w d)).
Proof.
  intros Hs. apply Forall_map, Forall_forall. intros [id o] [Ho _]%elem_of_matching. apply Hs in Ho. simpl in Ho.
  split; [by_decide|]. constructor; [|constructor]. simpl. unfold in_s in *. lia.
Qed.

(** Two snapshots with one checksum are of the same orders. *)
Lemma same_checksum_same_ids w d1 d2 s1 s2 :
  small_ids d1 -> small_ids d2 ->
  in_u 64 (Z.of_nat (length (ids w d1))) -> in_u 64 (Z.of_nat (length (ids w d2))) ->
  snapshot_of "public.orders" (map order_key (matching_orders w d1)) = Ok s1 ->
  snapshot_of "public.orders" (map order_key (matching_orders w d2)) = Ok s2 ->
  snap_checksum s1 = snap_checksum s2 -> ids w d1 ≡ₚ ids w d2 \/ collision.
Proof.
  intros Hs1 Hs2 Hl1 Hl2 H1 H2 E.
  destruct (snapshot_of_orders (matching_orders w d1)) as (b1 & T1 & P1 & R1).
  destruct (snapshot_of_orders (matching_orders w d2)) as (b2 & T2 & P2 & R2).
  rewrite R1 in H1. rewrite R2 in H2. injection H1 as <-. injection H2 as <-. simpl in E.
  destruct (finalize_identifies_rows sha256_hex b1 b2 (sha256_hex (hashed_stream (rust_sort tuple_cmp (tuples b1)))))
    as [Hp|Hc]; [| | | | | | |by right].
  - unfold builder_len. rewrite T1, length_map. unfold ids in Hl1. by rewrite length_map in Hl1.
  - unfold builder_len. rewrite T2, length_map. unfold ids in Hl2. by rewrite length_map in Hl2.
  - rewrite T1. by apply small_keys_fit.
  - rewrite T2. by apply small_keys_fit.
  - by apply finalize_ok.
  - by apply finalize_ok.
  - left. rewrite T1, T2 in Hp. apply (Permutation_map key_id) in Hp. by rewrite !map_map in Hp.
Qed.

(** ** The guarded apply *)

Lemma snapshot_orders_db c w c' r :
  snapshot_orders_pks c w = (c', r) ->
  db c' = db c /\ forall s, r = Ok s -> snapshot_of "public.orders" (map order_key (matching_orders w (db c))) = Ok s.
Proof.
  unfold snapshot_orders_pks. destruct (select _ c) as [c1 [rows|e]] eqn:Eq; simpl; apply query_db in Eq as [Ed Er].
  - intros [= <- <-]. rewrite <- (Er _ eq_refl). done.
  - by intros [= <- <-].
Qed.

(** What the barrier left: other sessions may have written, the transaction has not. *)
Definition after_pause {B} `{ApplyBarrier B Db} (b : B) (d : Db) : Db := (pause_point b "between dry_run and apply" d).2.

Lemma guarded_write_spec {B} `{ApplyBarrier B Db} forward c (b b' : B) w expected c' r :
  guarded_write forward c b w expected = (b', (c', r)) ->
  match r with
  | Ok out =>
      db c' = (forward (after_pause b (db c))).1 /\ actual_rows out = Z.of_nat (length (forward (after_pause b (db c))).2) /\
      exists s, snapshot_of "public.orders" (map order_key (matching_orders w (after_pause b (db c)))) = Ok s /\
                snap_checksum s = snap_checksum expected
  | Err _ => db c' = db c \/ db c' = after_pause b (db c)
  end.
Proof.
  unfold guarded_write. destruct (control c) as [c1 [[]|e]] eqn:Ec; apply query_db in Ec as [Ed _].
  2: { intros [= <- <- <-]. by left. }
  rewrite <- Ed. unfold after_pause. destruct (pause_point b _ (db c1)) as [b1 d]. cbn [snd].
  destruct (snapshot_orders_pks _ w) as [c2 [now|e]] eqn:Es.
  2: { intros [= <- <- <-]. by right. }
  apply snapshot_orders_db in Es as [Ed2 Hs]. simpl in Ed2, Hs. case_bool_decide as Hck; simpl.
  - destruct (end_txn d _) as [c3 [out|e]] eqn:Est; intros [= <- <- <-].
    + apply end_txn_ok in Est as (c4 & E & ->). destruct (stmt _ c2) as [c5 [l|e]] eqn:Ef; [|done]. simpl in E.
      apply stmt_ok in Ef. rewrite Ed2 in Ef. injection Ef as Ef. injection E as <- <-. rewrite Ef. simpl.
      split; [done|]. split; [done|]. exists now. auto.
    + right. by apply end_txn_err in Est.
  - destruct (control c2) as [c3 [[]|e]] eqn:Ec2; simpl; intros [= <- <- <-]; right;
      apply query_db in Ec2 as [-> _]; done.
Qed.

(** ** The restores *)

Fixpoint steps {A} (f : A -> Db -> result string (Db * unit)) (vals : list A) (d : Db) : result string Db :=
  match vals with
  | [] => Ok d
  | a :: vals => match f a d with Ok (d, _) => steps f vals d | Err e => Err e end
  end.

Lemma each_row_ok {A} (read : InverseRow -> option A) f rows n c c' m :
  each_row read f rows n c = Some (c', Ok m) ->
  exists vals, mapM read rows = Some vals /\ m = n + Z.of_nat (length rows) /\ steps f vals (db c) = Ok (db c').
Proof.
  revert n c. induction rows as [|row rows IH]; intros n c; simpl.
  - intros [= <- <-]. exists []. split; [done|]. split; [lia|done].
  - destruct (read row) as [a|]; simpl; [|done]. destruct (stmt (f a) c) as [c1 [[]|e]] eqn:Es; [|done].
    intros (vals & Hv & Hm & Hs)%IH. exists (a :: vals). rewrite Hv. split; [done|]. split; [lia|].
    simpl. apply stmt_ok in Es. by rewrite Es.
Qed.

Lemma foldl_push_row rel kind fk rows acc :
  b_rows (foldl push_row (mkPlanBuilder rel kind acc fk) rows) = acc ++ rows /\
  b_kind (foldl push_row (mkPlanBuilder rel kind acc fk) rows) = kind /\
  b_fk_order (foldl push_row (mkPlanBuilder rel kind acc fk) rows) = fk.
Proof.
  revert acc. induction rows as [|r rows IH]; intros acc; simpl; [by rewrite app_nil_r|].
  destruct (IH (acc ++ [r])) as (H1 & H2 & H3).
  change (push_row (mkPlanBuilder rel kind acc fk) r) with (mkPlanBuilder rel kind (acc ++ [r]) fk).
  by rewrite H1, H2, H3, <- app_assoc.
Qed.

(** Reading a captured row back gives the row. *)
Lemma mapM_read {A} (read : InverseRow -> option A) (f : A -> InverseRow) l :
  Forall (fun a => read (f a) = Some a) l -> mapM read (map f l) = Some l.
Proof. induction 1 as [|a l Ha _ IH]; simpl; [done|]. by rewrite Ha, IH. Qed.
Lemma read_update_rows w d :
  small_ids d ->
  mapM (fun row => id ← key_of_row row; o ← order_of row; Some (id, o)) (map update_row (matching_orders w d)) =
  Some (matching_orders w d).
Proof.
  intros Hs. apply mapM_read, Forall_forall. intros [id o] [Ho _]%elem_of_matching.
  apply Hs in Ho. simpl in Ho. unfold key_of_row, order_of, text_col, int_col, col. simpl. rewrite (wrap_s_id 32) by done. by destruct o.
Qed.
Lemma read_delete_rows w d :
  small_ids d ->
  mapM (fun row => id ← id_of_row row; o ← order_of row; Some (id, o)) (map delete_row (matching_orders w d)) =
  Some (matching_orders w d).
Proof.
  intros Hs. apply mapM_read, Forall_forall. intros [id o] [Ho _]%elem_of_matching.
  apply Hs in Ho. simpl in Ho. unfold id_of_row, order_of, text_col, int_col, col. simpl. rewrite (wrap_s_id 32) by done. by destruct o.
Qed.

Lemma steps_restore vals d d' :
  NoDup vals.*1 -> Forall (fun p => is_Some (orders d !! p.1)) vals ->
  steps (fun p d => Ok (restore_order p.1 p.2 d, tt)) vals d = Ok d' ->
  orders d' = list_to_map vals ∪ orders d /\ order_items d' = order_items d.
Proof.
  revert d. induction vals as [|[id o] vals IH]; intros d Hnd Hin; simpl.
  - intros [= <-]. by rewrite map_empty_union.
  - apply NoDup_cons in Hnd as [Hni Hnd]. apply Forall_cons in Hin as [[old Hold] Hin]. simpl in Hold.
    assert (restore_order id o d = set_rows d (<[id := o]> (orders d)) (order_items d) (order_audit d ++ fired d "UPDATE" id)) as ->
      by (unfold restore_order; by rewrite Hold).
    intros Hs. apply IH in Hs as [-> ->]; [|done|].
    + simpl. split; [|done]. rewrite <- insert_union_l. by rewrite insert_union_r by (by apply not_elem_of_list_to_map_1).
    + eapply Forall_impl; [exact Hin|]. intros [id' o'] Hx. simpl. rewrite lookup_insert_is_Some. 
      destruct (decide (id = id')); [by left|by right].
Qed.

Lemma steps_insert_orders vals d d' :
  NoDup vals.*1 -> steps (fun p => insert_order p.1 p.2) vals d = Ok d' ->
  orders d' = list_to_map vals ∪ orders d /\ order_items d' = order_items d /\ order_audit d' = order_audit d.
Proof.
  revert d. induction vals as [|[id o] vals IH]; intros d Hnd; simpl.
  - intros [= <-]. by rewrite map_empty_union.
  - apply NoDup_cons in Hnd as [Hni Hnd]. destruct (insert_order id o d) as [[d1 []]|] eqn:Ei; [|done].
    unfold insert_order in Ei. destruct (orders d !! id); [done|]. injection Ei as <-. intros Hs. apply IH in Hs as (-> & -> & ->); [|done]. simpl. split; [|done].
    rewrite <- insert_union_l. by rewrite insert_union_r by (by apply not_elem_of_list_to_map_1).
Qed.

Lemma steps_insert_items vals d d' :
  NoDup vals.*1 -> steps (fun p => insert_item p.1 p.2) vals d = Ok d' ->
  order_items d' = list_to_map vals ∪ order_items d /\ orders d' = orders d /\ order_audit d' = order_audit d.
Proof.
  revert d. induction vals as [|[k i] vals IH]; intros d Hnd; simpl.
  - intros [= <-]. by rewrite map_empty_union.
  - apply NoDup_cons in Hnd as [Hni Hnd]. destruct (insert_item k i d) as [[d1 []]|] eqn:Ei; [|done].
    unfold insert_item in Ei. destruct (order_items d !! k); [done|]. destruct (orders d !! k.1); [|done].
    injection Ei as <-. intros Hs. apply IH in Hs as (-> & -> & ->); [|done]. simpl. split; [|done].
    rewrite <- insert_union_l. by rewrite insert_union_r by (by apply not_elem_of_list_to_map_1).
Qed.

Lemma matching_map w d : list_to_map (matching_orders w d) = filter (fun r => matches w r.1 r.2 = true) (orders d).
Proof.
  rewrite <- (list_to_map_to_list (filter _ (orders d))). apply list_to_map_proper; [apply ids_nodup|apply matching_perm].
Qed.

Lemma elem_of_ids w d id : id ∈ ids w d <-> exists o, orders d !! id = Some o /\ matches w id o = true.
Proof.
  unfold ids. rewrite list_elem_of_fmap. split.
  - intros ([id' o] & -> & Ho%elem_of_matching). eauto.
  - intros (o & Ho%elem_of_matching). by exists (id, o).
Qed.

(** The captured orders over an update of the same orders: the captured ones, and the
    others as they are. *)
Lemma restored_over_update w new_status d0 d :
  ids w d ≡ₚ ids w d0 ->
  list_to_map (matching_orders w d0) ∪ orders (update_orders w new_status d).1 =
  list_to_map (matching_orders w d0) ∪ orders d.
Proof.
  intros Hids. apply map_eq. intros id. rewrite !lookup_union, matching_map.
  destruct (filter _ (orders d0) !! id) as [o|] eqn:E; [by rewrite !union_Some_l|].
  simpl. rewrite map_lookup_imap. f_equal. destruct (orders d !! id) as [o|] eqn:Ho; [|done]. simpl.
  destruct (matches w id o) eqn:Em; [|done]. exfalso.
  assert (id ∈ ids w d0) as (o0 & Ho0 & Hm0)%elem_of_ids by (rewrite <- Hids; apply elem_of_ids; eauto).
  rewrite map_lookup_filter_None in E. destruct E as [E|E]; [congruence|]. by apply (E o0).
Qed.

Lemma restored_over_delete w d0 d :
  ids w d ≡ₚ ids w d0 ->
  list_to_map (matching_orders w d0) ∪ orders (delete_orders w d).1 = list_to_map (matching_orders w d0) ∪ orders d.
Proof.
  intros Hids. apply map_eq. intros id. rewrite !lookup_union, matching_map.
  destruct (filter _ (orders d0) !! id) as [o|] eqn:E; [by rewrite !union_Some_l|].
  simpl. f_equal. destruct (orders d !! id) as [o|] eqn:Ho; [|by rewrite map_lookup_filter_None; left].
  apply map_lookup_filter_Some. split; [done|]. simpl. destruct (matches w id o) eqn:Em; [|done]. exfalso.
  assert (id ∈ ids w d0) as (o0 & Ho0 & Hm0)%elem_of_ids by (rewrite <- Hids; apply elem_of_ids; eauto).
  rewrite map_lookup_filter_None in E. destruct E as [E|E]; [congruence|]. by apply (E o0).
Qed.

Lemma matching_items_perm w d :
  matching_items w d ≡ₚ map_to_list (filter (fun r => r.1.1 ∈ ids w d) (order_items d)).
Proof.
  unfold matching_items. rewrite merge_sort_Permutation. f_equiv. apply map_filter_ext. intros [o l] i _. simpl.
  rewrite elem_of_ids. destruct (orders d !! o) as [x|]; [|split; [done|by intros (y & ? & ?)]]. split; [by exists x|]. by intros (y & [= <-] & ?).
Qed.

Lemma read_item_rows w d :
  map_Forall (fun k i => in_s 32 k.1 /\ in_s 32 k.2 /\ in_s 32 (qty i)) (order_items d) ->
  mapM item_of (map item_row (matching_items w d)) = Some (matching_items w d).
Proof.
  intros Hs. apply mapM_read, Forall_forall. intros [[o l] i] Hi. rewrite matching_items_perm, elem_of_map_to_list in Hi.
  apply map_lookup_filter_Some in Hi as [Hi _]. apply Hs in Hi as (H1 & H2 & H3). simpl in *.
  unfold item_of, text_col, int_col, col. simpl. rewrite !(wrap_s_id 32) by done. by destruct i.
Qed.

(** The orders are those the guard saw, unless the hash collides. *)
Lemma apply_saw_same_ids {B} `{ApplyBarrier B Db} forward c0 c1 c2 (b b' : B) w expected out :
  small_ids (db c0) -> small_ids (after_pause b (db c1)) ->
  in_u 64 (Z.of_nat (length (ids w (db c0)))) -> in_u 64 (Z.of_nat (length (ids w (after_pause b (db c1))))) ->
  snapshot_orders_pks c0 w = (c1, Ok expected) ->
  guarded_write forward c1 b w expected = (b', (c2, Ok out)) ->
  ids w (after_pause b (db c0)) ≡ₚ ids w (db c0) \/ collision.
Proof.
  intros Hs0 Hs1 Hl0 Hl1 Hsnap Hap. apply snapshot_orders_db in Hsnap as [Ed Hsn]. rewrite Ed in *.
  apply guarded_write_spec in Hap as (_ & _ & s & Hs & Hck). rewrite Ed in Hs.
  destruct (same_checksum_same_ids w _ _ _ _ Hs1 Hs0 Hl1 Hl0 Hs (Hsn _ eq_refl) Hck); auto.
Qed.
End harness.
End Harness.

(** ** Properties *)

Module Criteria.
Import Schema Differ Harness Barrier PkChecksum Inverse.

Section criteria.
Context (sha256_hex : list byte -> string) (matches : string -> Z -> Order -> bool) (fault : nat -> option string).
Context {B : Type} `{ApplyBarrier B Db}.

#[local] Abbreviation collision := (Harness.collision sha256_hex).
#[local] Abbreviation ids := (Harness.ids matches).

(** An update and its restore, across whatever other sessions did at the barrier: if the
    guard let the update through and the restore succeeded, the captured orders have their
    captured values, every other row is as the other sessions left it, and as many rows
    were restored as written; or two key sets share a checksum. *)
Theorem update_then_restore (c0 c1 c2 c3 c4 : Client) (b b' : B) (w new_status : string) (plan : InversePlan)
    (expected : AffectedSnapshot) (out : ApplyOutcome) (n : Z) :
  let d0 := db c0 in
  let d := after_pause b d0 in
  small_ids d0 -> small_ids d ->
  in_u 64 (Z.of_nat (length (ids w d0))) -> in_u 64 (Z.of_nat (length (ids w d))) ->
  capture_update_inverse matches fault c0 w = (c1, Ok plan) ->
  snapshot_orders_pks sha256_hex matches fault c1 w = (c2, Ok expected) ->
  guarded_update_apply sha256_hex matches fault c2 b w new_status expected = (b', (c3, Ok out)) ->
  restore_update_inverse fault c3 plan = Some (c4, Ok n) ->
  (orders (db c4) = filter (fun r => matches w r.1 r.2 = true) (orders d0) ∪ orders d /\
   order_items (db c4) = order_items d /\ n = actual_rows out) \/ collision.
Proof.
  intros d0 d Hs0 Hs Hl0 Hl Hcap Hsnap Hap Hre.
  unfold capture_update_inverse in Hcap. destruct (select _ _ c0) as [c1' [rows|]] eqn:Eq; [|done].
  apply query_db in Eq as [Ed1 Er]. simpl in Hcap. injection Hcap as <- <-. rewrite (Er _ eq_refl) in Hre. fold d0 in Ed1, Hre.
  pose proof (snapshot_orders_db _ _ _ _ _ _ _ Hsnap) as [Ed2 _].
  assert (ids w d ≡ₚ ids w d0 \/ collision) as [Hids|?]; [|left|by right].
  { unfold d. rewrite <- Ed1. eapply (apply_saw_same_ids _ _ _ _ c1' c2); rewrite ?Ed2, ?Ed1; done. }
  apply guarded_write_spec in Hap as (Hd3 & Hn & _). rewrite Ed2, Ed1 in Hd3, Hn. fold d in Hd3, Hn.
  unfold restore_update_inverse in Hre. destruct (foldl_push_row "public.orders" for_update ["public.orders"%string] (map update_row (matching_orders matches w d0)) [])
    as (Hrows & Hkind & _). simpl in Hre. unfold plan_builder_new in Hre. rewrite Hkind, Hrows in Hre. simpl in Hre.
  destruct (control fault c3) as [c3' [[]|]] eqn:Ec; [|done]. apply query_db in Ec as [Ed3 _].
  destruct (each_row _ _ _ _ _ _) as [m|] eqn:Ee; [|done]. simpl in Hre. injection Hre as Hre.
  apply end_txn_ok in Hre as (c5 & -> & ->). apply each_row_ok in Ee as (vals & Hv & -> & Hst).
  rewrite read_update_rows in Hv by done. injection Hv as <-. rewrite Ed3, Hd3 in Hst.
  apply steps_restore in Hst as [Ho Hi]; [|apply ids_nodup|].
  - rewrite Ho, Hi. rewrite restored_over_update by done. rewrite matching_map. split; [done|]. split; [done|].
    rewrite Hn. simpl. rewrite Z.add_0_l, length_map. f_equal. apply Permutation_length in Hids. unfold Harness.ids in Hids.
    rewrite !length_map in Hids. rewrite length_map. done.
  - apply Forall_forall. intros [id o] Hin. simpl. rewrite map_lookup_imap.
    assert (id ∈ ids w d) as (o' & -> & _)%elem_of_ids; [|done]. rewrite Hids. apply elem_of_ids. exists o.
    by apply elem_of_matching.
Qed.

(** A delete and its restore, across whatever other sessions did at the barrier: if the
    guard let the delete through and both halves of the restore succeeded, the orders are
    as after an update restored, an item of a deleted order is as it was captured, and
    every other item as the other sessions left it.  So an item that another session gave
    to a deleted order, which the guard does not look at, is gone. *)
Theorem delete_then_restore (c0 c1 c2 c3 c4 : Client) (b b' : B) (w : string) (orders_plan items_plan : InversePlan)
    (expected : AffectedSnapshot) (out : ApplyOutcome) (n m : Z) :
  let d0 := db c0 in
  let d := after_pause b d0 in
  small_ids d0 -> small_ids d ->
  map_Forall (fun k i => in_s 32 k.1 /\ in_s 32 k.2 /\ in_s 32 (qty i)) (order_items d0) ->
  in_u 64 (Z.of_nat (length (ids w d0))) -> in_u 64 (Z.of_nat (length (ids w d))) ->
  capture_delete_inverse matches fault c0 w = (c1, Ok (orders_plan, items_plan)) ->
  snapshot_orders_pks sha256_hex matches fault c1 w = (c2, Ok expected) ->
  guarded_delete_apply sha256_hex matches fault c2 b w expected = (b', (c3, Ok out)) ->
  restore_delete_inverse fault c3 orders_plan items_plan = Some (c4, Ok (n, m)) ->
  (orders (db c4) = filter (fun r => matches w r.1 r.2 = true) (orders d0) ∪ orders d /\
   (forall k, order_items (db c4) !! k = if decide (k.1 ∈ ids w d0) then order_items d0 !! k else order_items d !! k) /\
   n = actual_rows out) \/ collision.
Proof.
  intros d0 d Hs0 Hs Hit Hl0 Hl Hcap Hsnap Hap Hre.
  unfold capture_delete_inverse in Hcap. destruct (select _ _ c0) as [c0' [rows|]] eqn:Eq; [|done].
  apply query_db in Eq as [Ed0 Er]. simpl in Hcap. destruct (select _ _ c0') as [c1' [irows|]] eqn:Eq2; [|done].
  apply query_db in Eq2 as [Ed1 Eir]. simpl in Hcap. injection Hcap as <- <- <-.
  rewrite (Er _ eq_refl), (Eir _ eq_refl), Ed0 in Hre. rewrite Ed0 in Ed1. fold d0 in Ed1, Hre.
  pose proof (snapshot_orders_db _ _ _ _ _ _ _ Hsnap) as [Ed2 _].
  assert (ids w d ≡ₚ ids w d0 \/ collision) as [Hids|?]; [|left|by right].
  { unfold d. rewrite <- Ed1. eapply (apply_saw_same_ids _ _ _ _ c1' c2); rewrite ?Ed2, ?Ed1; done. }
  apply guarded_write_spec in Hap as (Hd3 & Hn & _). rewrite Ed2, Ed1 in Hd3, Hn. fold d in Hd3, Hn.
  unfold restore_delete_inverse in Hre.
  destruct (foldl_push_row "public.orders" for_delete ["public.orders"; "public.order_items"]%string (map delete_row (matching_orders matches w d0)) [])
    as (Hrows & Hkind & Hfk).
  destruct (foldl_push_row "public.order_items" for_delete ["public.order_items"%string] (map item_row (matching_items matches w d0)) [])
    as (Hrows2 & Hkind2 & _).
  unfold plan_builder_new, set_fk_order in Hre. cbn [plan_build plan_kind plan_rows plan_fk_order b_relation b_kind b_rows b_fk_order] in Hre.
  rewrite Hkind, Hrows, Hfk, Hkind2, Hrows2 in Hre. rewrite !bool_decide_eq_true_2 in Hre by done. cbn [negb andb] in Hre.
  destruct (control fault c3) as [c3' [[]|]] eqn:Ec; [|done]. apply query_db in Ec as [Ed3 _].
  destruct (each_row fault (fun row => id ← id_of_row row; o ← order_of row; Some (id, o)) _ _ _ _) as [[c5 [on|]]|] eqn:Ee; [| |done].
  2: { simpl in Hre. discriminate. }
  simpl in Hre. destruct (each_row fault item_of _ _ _ _) as [[c6 r6]|] eqn:Ee2; [|done]. simpl in Hre. injection Hre as Hre.
  apply end_txn_ok in Hre as (c7 & E & ->). injection E as <- (im & -> & [= <- <-])%result_bind_ok.
  apply each_row_ok in Ee as (vals & Hv & -> & Hst). cbn [app] in Hv. rewrite read_delete_rows in Hv by done. injection Hv as <-.
  apply each_row_ok in Ee2 as (ivals & Hiv & -> & Hst2). cbn [app] in Hiv. rewrite read_item_rows in Hiv by done. injection Hiv as <-.
  rewrite Ed3, Hd3 in Hst. apply steps_insert_orders in Hst as (Ho & Hi & _); [|apply ids_nodup].
  assert (NoDup (matching_items matches w d0).*1) as Hnd by (rewrite matching_items_perm; apply NoDup_fst_map_to_list).
  apply steps_insert_items in Hst2 as (Hi2 & Ho2 & _); [|done].
  rewrite Ho2, Ho, restored_over_delete, matching_map by done. split; [done|]. split.
  - intros k. rewrite Hi2, Hi. rewrite (list_to_map_proper _ _ Hnd (matching_items_perm _ _ _)), list_to_map_to_list.
    rewrite lookup_union. cbn [delete_orders fst order_items set_rows]. fold (ids w d). case_decide as Hk.
    + assert (filter (fun r => r.1.1 ∉ ids w d) (order_items d) !! k = None) as ->.
      { apply map_lookup_filter_None. right. intros i _ Hni. apply Hni. simpl. by rewrite Hids. }
      rewrite (right_id_L None union). destruct (order_items d0 !! k) as [i|] eqn:Ei; [by apply map_lookup_filter_Some|].
      apply map_lookup_filter_None. by left.
    + assert (filter (fun r => r.1.1 ∈ ids w d0) (order_items d0) !! k = None) as ->.
      { apply map_lookup_filter_None. right. intros i _ Hni. by apply Hk. }
      rewrite (left_id_L None union). destruct (order_items d !! k) as [i|] eqn:Ei.
      * apply map_lookup_filter_Some. split; [done|]. simpl. by rewrite Hids.
      * apply map_lookup_filter_None. by left.
  - rewrite Hn. simpl. rewrite Z.add_0_l, !length_map. f_equal. apply Permutation_length in Hids. unfold Harness.ids in Hids.
    rewrite !length_map in Hids. done.
Qed.
End criteria.

(** *** Without drift and without failing statements *)

Inductive Write : Type := WUpdate (new_status : string) | WDelete.

Section gate.
Context (sha256_hex : list byte -> string) (matches : string -> Z -> Order -> bool).
#[local] Abbreviation calm := (fun _ : nat => @None string).
#[local] Abbreviation ids := (Harness.ids matches).

(** Criterion (b) of the gate: capture the inverse, rehearse, apply, restore. *)
Definition spike_round_trip {B} `{ApplyBarrier B Db} (wr : Write) (c : Client) (b : B) (w : string) :
    option (Client * result SpikeError ApplyOutcome) :=
  match wr with
  | WUpdate st =>
      match then_ (capture_update_inverse matches calm c w) (fun c plan =>
              then_ (snapshot_orders_pks sha256_hex matches calm c w) (fun c dry =>
                then_ (guarded_update_apply sha256_hex matches calm c b w st dry).2 (fun c out => (c, Ok (plan, out))))) with
      | (c, Err e) => Some (c, Err e)
      | (c, Ok (plan, out)) =>
          m ← restore_update_inverse calm c plan; Some (then_ m (fun c _ => (c, Ok out)))
      end
  | WDelete =>
      match then_ (capture_delete_inverse matches calm c w) (fun c plans =>
              then_ (snapshot_orders_pks sha256_hex matches calm c w) (fun c dry =>
                then_ (guarded_delete_apply sha256_hex matches calm c b w dry).2 (fun c out => (c, Ok (plans, out))))) with
      | (c, Err e) => Some (c, Err e)
      | (c, Ok (plans, out)) =>
          m ← restore_delete_inverse calm c plans.1 plans.2; Some (then_ m (fun c _ => (c, Ok out)))
      end
  end.

Lemma stmt_calm {A} (f : Db -> result string (Db * A)) c d a :
  f (db c) = Ok (d, a) -> stmt calm f c = (mkClient d (S (sent c)), Ok a).
Proof. intros E. unfold stmt. by rewrite E. Qed.

Lemma each_row_calm {A} (read : InverseRow -> option A) f rows vals n c d :
  mapM read rows = Some vals -> steps f vals (db c) = Ok d ->
  exists c', each_row calm read f rows n c = Some (c', Ok (n + Z.of_nat (length rows))) /\ db c' = d.
Proof.
  revert vals n c. induction rows as [|row rows IH]; intros vals n c; simpl.
  - intros [= <-] [= <-]. exists c. by rewrite Z.add_0_r.
  - destruct (read row) as [a|]; simpl; [|done]. destruct (mapM read rows) as [vs|]; simpl; [|done].
    intros [= <-]. simpl. destruct (f a (db c)) as [[d1 []]|] eqn:Ef; [|done]. intros Hs.
    rewrite (stmt_calm _ _ _ _ Ef). destruct (IH vs (n + 1) (mkClient d1 (S (sent c))) eq_refl Hs) as (c' & E & Hd).
    exists c'. split; [|done]. rewrite E. do 3 f_equal. lia.
Qed.

Lemma snapshot_calm c w : exists s, snapshot_orders_pks sha256_hex matches calm c w = (mkClient (db c) (S (sent c)), Ok s) /\
  snapshot_of sha256_hex "public.orders" (map order_key (matching_orders matches w (db c))) = Ok s.
Proof.
  unfold snapshot_orders_pks, select. rewrite (stmt_calm _ _ _ _ eq_refl). simpl.
  destruct (snapshot_of_orders sha256_hex (matching_orders matches w (db c))) as (b & _ & _ & ->). eauto.
Qed.

(** With nothing in between, the guard lets the write through. *)
Lemma guarded_calm forward c w s :
  snapshot_of sha256_hex "public.orders" (map order_key (matching_orders matches w (db c))) = Ok s ->
  exists c' out, (guarded_write sha256_hex matches calm forward c mkNoopBarrier w s).2 = (c', Ok out) /\
    db c' = (forward (db c)).1 /\ actual_rows out = Z.of_nat (length (forward (db c)).2).
Proof.
  intros Hs. unfold guarded_write, control, select. rewrite (stmt_calm _ _ _ _ eq_refl). cbn [pause_point NoopBarrier_barrier snd].
  destruct (snapshot_calm (mkClient (db c) (S (sent c))) w) as (s' & E & Hs'). cbn [db sent] in *. rewrite E.
  rewrite Hs in Hs'. injection Hs' as <-. rewrite bool_decide_eq_true_2 by done. cbn [negb].
  unfold end_txn. destruct (forward (db c)) as [d l] eqn:Ef.
  rewrite (stmt_calm _ (mkClient (db c) (S (S (sent c)))) d l) by (simpl; by rewrite Ef). simpl. by eexists _, _.
Qed.

Lemma end_txn_calm {A} base c (a : A) : end_txn calm base (c, Ok a) = (mkClient (db c) (S (sent c)), Ok a).
Proof. reflexivity. Qed.

Lemma steps_restore_total vals d : exists d', steps (fun p d => Ok (restore_order p.1 p.2 d, tt)) vals d = Ok d'.
Proof. revert d. induction vals as [|p vals IH]; intros d; simpl; [eauto|apply IH]. Qed.

Lemma steps_insert_orders_total vals d :
  NoDup vals.*1 -> Forall (fun p => orders d !! p.1 = None) vals -> exists d', steps (fun p => insert_order p.1 p.2) vals d = Ok d'.
Proof.
  revert d. induction vals as [|[id o] vals IH]; intros d Hnd Hf; simpl; [eauto|].
  apply NoDup_cons in Hnd as [Hni Hnd]. apply Forall_cons in Hf as [Hid Hf]. simpl in Hid.
  destruct (insert_order id o d) as [[d1 u]|] eqn:Ei; unfold insert_order in Ei; rewrite Hid in Ei; [|done].
  injection Ei as <- <-. apply IH; [done|]. apply Forall_forall. intros [id' o'] Hin. simpl.
  rewrite lookup_insert_ne; [by apply (proj1 (Forall_forall _ _) Hf (id', o'))|].
  intros <-. apply Hni. apply list_elem_of_fmap. by exists (id, o').
Qed.

Lemma steps_insert_items_total vals d :
  NoDup vals.*1 -> Forall (fun p => order_items d !! p.1 = None /\ is_Some (orders d !! p.1.1)) vals ->
  exists d', steps (fun p => insert_item p.1 p.2) vals d = Ok d'.
Proof.
  revert d. induction vals as [|[k i] vals IH]; intros d Hnd Hf; simpl; [eauto|].
  apply NoDup_cons in Hnd as [Hni Hnd]. apply Forall_cons in Hf as [[Hid [o Ho]] Hf]. simpl in Hid, Ho.
  destruct (insert_item k i d) as [[d1 u]|] eqn:Ei; unfold insert_item in Ei; rewrite Hid, Ho in Ei; [|done].
  injection Ei as <- <-. apply IH; [done|]. apply Forall_forall. intros [k' i'] Hin. simpl.
  destruct (proj1 (Forall_forall _ _) Hf (k', i') Hin) as [H1 H2]. split; [|done].
  rewrite lookup_insert_ne; [done|]. intros <-. apply Hni. apply list_elem_of_fmap. by exists (k, i').
Qed.

(** What no statement of the harness undoes: the sequence, and the audit rows. *)
Definition outgrown (d d' : Db) : Prop := ticket_seq d' = ticket_seq d /\ exists l, order_audit d' = order_audit d ++ l.

Lemma outgrown_refl d : outgrown d d.
Proof. split; [done|]. exists []. by rewrite app_nil_r. Qed.
Lemma outgrown_trans d1 d2 d3 : outgrown d1 d2 -> outgrown d2 d3 -> outgrown d1 d3.
Proof. intros [T1 [l1 A1]] [T2 [l2 A2]]. split; [congruence|]. exists (l1 ++ l2). by rewrite A2, A1, app_assoc. Qed.

Lemma steps_outgrow {A} (f : A -> Db -> result string (Db * unit)) vals d d' :
  (forall a d d1 u, f a d = Ok (d1, u) -> outgrown d d1) -> steps f vals d = Ok d' -> outgrown d d'.
Proof.
  intros Hf. revert d. induction vals as [|a vals IH]; intros d; simpl; [intros [= <-]; apply outgrown_refl|].
  destruct (f a d) as [[d1 u]|] eqn:E; [|done]. intros Hs. eapply outgrown_trans; [by eapply Hf|by apply IH].
Qed.

Lemma restore_outgrows p d d1 u : Ok (restore_order p.1 p.2 d, tt) = Ok (E := string) (d1, u) -> outgrown d d1.
Proof.
  intros [= <- _]. unfold restore_order. destruct (orders d !! p.1); [|apply outgrown_refl]. split; [done|]. by eexists.
Qed.
Lemma insert_order_outgrows p d d1 u : insert_order p.1 p.2 d = Ok (d1, u) -> outgrown d d1.
Proof. unfold insert_order. destruct (orders d !! p.1); [done|]. intros [= <- _]. exact (outgrown_refl d). Qed.
Lemma insert_item_outgrows (p : Z * Z * Item) d d1 u : insert_item p.1 p.2 d = Ok (d1, u) -> outgrown d d1.
Proof.
  unfold insert_item. destruct (order_items d !! p.1); [done|]. destruct (orders d !! p.1.1); [|done].
  intros [= <- _]. exact (outgrown_refl d).
Qed.

Lemma captured_over_all w d : list_to_map (matching_orders matches w d) ∪ orders d = orders d.
Proof. rewrite matching_map. apply map_subseteq_union, map_filter_subseteq. Qed.

(** What the round trip leaves of a database: the rows, and the two gaps. *)
Definition came_back (w : string) (d0 d : Db) : Prop :=
  orders d = orders d0 /\ order_items d = order_items d0 /\ ticket_seq d = ticket_seq d0 /\
  (length (order_audit d) = length (order_audit d0) <-> ids w d0 = []).

(** The forward statement fires a trigger per row, and what follows keeps what it wrote. *)
Lemma audit_gap w op d0 d1 d :
  order_audit d1 = order_audit d0 ++ concat (map (fired d0 op) (ids w d0)) -> outgrown d1 d ->
  (ids w d0 = [] -> d = d1) -> length (order_audit d) = length (order_audit d0) <-> ids w d0 = [].
Proof.
  intros E [_ [l El]] Hnil. split.
  - rewrite El, E, !length_app. destruct (ids w d0); [done|]. simpl. lia.
  - intros Hi. rewrite (Hnil Hi), E, Hi. simpl. by rewrite app_nil_r.
Qed.

Lemma update_comes_back c w st :
  small_ids (db c) ->
  exists c' out, spike_round_trip (WUpdate st) c mkNoopBarrier w = Some (c', Ok out) /\ came_back w (db c) (db c') /\
                 actual_rows out = Z.of_nat (length (ids w (db c))).
Proof.
  intros Hs. unfold spike_round_trip, capture_update_inverse, select. rewrite (stmt_calm _ _ _ _ eq_refl). cbn [then_].
  destruct (snapshot_calm (mkClient (db c) (S (sent c))) w) as (s & -> & Hsnap). cbn [then_ db sent] in *.
  destruct (guarded_calm (update_orders matches w st) (mkClient (db c) (S (S (sent c)))) w s Hsnap) as (c3 & out & Hg & Hd3 & Hout).
  unfold guarded_update_apply. rewrite Hg. cbn [then_ db] in *.
  unfold restore_update_inverse, plan_builder_new.
  destruct (foldl_push_row "public.orders" for_update ["public.orders"%string] (map update_row (matching_orders matches w (db c))) [])
    as (Hrows & Hkind & _). cbn [plan_build plan_kind plan_rows]. rewrite Hkind, Hrows. cbn [app].
  rewrite bool_decide_eq_true_2 by done. cbn [negb]. unfold control, select. rewrite (stmt_calm _ _ _ _ eq_refl). cbn [db sent].
  destruct (steps_restore_total (matching_orders matches w (db c)) (db c3)) as [d' Hst].
  destruct (each_row_calm _ _ _ _ 0 (mkClient (db c3) (S (sent c3))) _ (read_update_rows matches w (db c) Hs) Hst) as (c5 & -> & Hd5).
  cbn [mbind option_bind]. rewrite end_txn_calm. cbn [then_]. eexists _, out. split; [reflexivity|].
  split; [|rewrite Hout; done]. cbn [db]. rewrite Hd5.
  assert (outgrown (db c3) d') as Hgrown by (eapply steps_outgrow, Hst; exact restore_outgrows).
  destruct (steps_restore (matching_orders matches w (db c)) (db c3) d' (ids_nodup matches w (db c))) as [Ho Hi]; [|done|].
  { apply Forall_forall. intros [id o] [Hin _]%elem_of_matching. simpl. rewrite Hd3. simpl. by rewrite map_lookup_imap, Hin. }
  rewrite Hd3 in *. rewrite restored_over_update, captured_over_all in Ho by done. split; [done|]. split; [done|].
  split; [by destruct Hgrown|]. eapply audit_gap; [|exact Hgrown|]; [done|].
  intros Hn. unfold Harness.ids in Hn. apply map_eq_nil in Hn. rewrite Hn in Hst. by injection Hst as <-.
Qed.

(** The reference of an item to its order. *)
Definition fk_ok (d : Db) : Prop := map_Forall (fun k _ => is_Some (orders d !! k.1)) (order_items d).
Definition small_items (d : Db) : Prop :=
  map_Forall (fun k i => in_s 32 k.1 /\ in_s 32 k.2 /\ in_s 32 (qty i)) (order_items d).

Lemma captured_items_over_rest w d :
  list_to_map (matching_items matches w d) ∪ order_items (delete_orders matches w d).1 = order_items d.
Proof.
  assert (NoDup (matching_items matches w d).*1) as Hnd by (rewrite matching_items_perm; apply NoDup_fst_map_to_list).
  rewrite (list_to_map_proper _ _ Hnd (matching_items_perm _ _ _)), list_to_map_to_list.
  simpl. fold (ids w d). apply (map_filter_union_complement (fun r => r.1.1 ∈ ids w d)).
Qed.

(** Both halves of the restore of a delete go through. *)
Lemma delete_restores w d0 :
  small_ids d0 -> fk_ok d0 ->
  let d1 := (delete_orders matches w d0).1 in
  exists d2 d3, steps (fun p => insert_order p.1 p.2) (matching_orders matches w d0) d1 = Ok d2 /\
    steps (fun p => insert_item p.1 p.2) (matching_items matches w d0) d2 = Ok d3 /\
    orders d3 = orders d0 /\ order_items d3 = order_items d0 /\ ticket_seq d3 = ticket_seq d0 /\
    order_audit d3 = order_audit d1.
Proof.
  intros Hs Hfk d1. destruct (steps_insert_orders_total (matching_orders matches w d0) d1 (ids_nodup matches w d0)) as [d2 H2].
  { apply Forall_forall. intros [id o] [Ho Hm]%elem_of_matching. simpl. apply map_lookup_filter_None. right.
    intros o' Ho' E. simpl in E. congruence. }
  destruct (steps_insert_orders _ _ _ (ids_nodup matches w d0) H2) as (Ho2 & Hi2 & Ha2).
  unfold d1 in Ho2. rewrite restored_over_delete, captured_over_all in Ho2 by done.
  assert (NoDup (matching_items matches w d0).*1) as Hnd by (rewrite matching_items_perm; apply NoDup_fst_map_to_list).
  destruct (steps_insert_items_total (matching_items matches w d0) d2 Hnd) as [d3 H3].
  { apply Forall_forall. intros [k i] Hin. rewrite matching_items_perm, elem_of_map_to_list in Hin.
    apply map_lookup_filter_Some in Hin as [Hin Hk]. simpl in *. rewrite Hi2, Ho2. split; [|by apply (Hfk k i)].
    apply map_lookup_filter_None. right. intros i' _ Hn. by apply Hn. }
  destruct (steps_insert_items _ _ _ Hnd H3) as (Hi3 & Ho3 & Ha3). exists d2, d3. split; [done|]. split; [done|].
  rewrite Ho3, Ho2, Hi3, Hi2, Ha3, Ha2. split; [done|]. split; [apply captured_items_over_rest|]. split; [|done].
  apply (steps_outgrow _ _ _ _ insert_order_outgrows) in H2 as [T2 _].
  apply (steps_outgrow _ _ _ _ insert_item_outgrows) in H3 as [T3 _]. by rewrite T3, T2.
Qed.

Lemma delete_comes_back c w :
  small_ids (db c) -> small_items (db c) -> fk_ok (db c) ->
  exists c' out, spike_round_trip WDelete c mkNoopBarrier w = Some (c', Ok out) /\ came_back w (db c) (db c') /\
                 actual_rows out = Z.of_nat (length (ids w (db c))).
Proof.
  intros Hs Hit Hfk. unfold spike_round_trip, capture_delete_inverse, select. rewrite (stmt_calm _ _ _ _ eq_refl). cbn [then_ db].
  rewrite (stmt_calm _ _ _ _ eq_refl). cbn [then_ db sent].
  destruct (snapshot_calm (mkClient (db c) (S (S (sent c)))) w) as (s & -> & Hsnap). cbn [then_ db sent] in *.
  destruct (guarded_calm (delete_orders matches w) (mkClient (db c) (S (S (S (sent c))))) w s Hsnap) as (c3 & out & Hg & Hd3 & Hout).
  unfold guarded_delete_apply. rewrite Hg. cbn [then_ db fst snd] in *.
  unfold restore_delete_inverse, plan_builder_new, set_fk_order.
  destruct (foldl_push_row "public.orders" for_delete ["public.orders"; "public.order_items"]%string (map delete_row (matching_orders matches w (db c))) [])
    as (Hrows & Hkind & Hfko).
  destruct (foldl_push_row "public.order_items" for_delete ["public.order_items"%string] (map item_row (matching_items matches w (db c))) [])
    as (Hrows2 & Hkind2 & _).
  cbn [plan_build plan_kind plan_rows plan_fk_order b_relation b_kind b_rows b_fk_order].
  rewrite Hkind, Hrows, Hfko, Hkind2, Hrows2. cbn [app]. rewrite !bool_decide_eq_true_2 by done. cbn [negb andb].
  unfold control, select. rewrite (stmt_calm _ _ _ _ eq_refl). cbn [db sent].
  destruct (delete_restores w (db c) Hs Hfk) as (d2 & d4 & H2 & H4 & Ho & Hi & Ht & Ha). rewrite <- Hd3 in H2, Ha.
  destruct (each_row_calm _ _ _ _ 0 (mkClient (db c3) (S (sent c3))) _ (read_delete_rows matches w (db c) Hs) H2) as (c5 & -> & Hd5).
  cbn [mbind option_bind]. rewrite <- Hd5 in H4.
  destruct (each_row_calm _ _ _ _ 0 c5 _ (read_item_rows matches w (db c) Hit) H4) as (c6 & -> & Hd6).
  cbn [mbind option_bind result_bind]. rewrite end_txn_calm. cbn [then_]. eexists _, out. split; [reflexivity|].
  split; [|rewrite Hout; done]. cbn [db]. rewrite Hd6. split; [done|]. split; [done|]. split; [done|].
  rewrite Ha, Hd3. cbn [delete_orders fst order_audit set_rows]. fold (ids w (db c)). rewrite length_app. split.
  - destruct (ids w (db c)); [done|]. simpl. lia.
  - intros ->. simpl. lia.
Qed.
End gate.

(** C37: the gate's criterion on the inverse.  On any database of the spike's schema, with no
    other session and no failing statement, an update or a delete of any set of orders that
    is captured, rehearsed, applied under the guard and restored goes through to the end;
    the differ then finds the orders and their items as before, as many rows written as
    matched, and the sequence as it was; the rows its triggers wrote stay, so the side
    effects are reported restored exactly when nothing matched. *)
Theorem certified_rows_come_back (sha256_hex md5 : list byte -> string) (order_text : Z * Order -> string)
    (item_text : Z * Z * Item -> string) (matches : string -> Z -> Order -> bool) (wr : Write) (c : Client) (w : string) :
  let hash (s : string) := md5 (as_bytes s) in
  small_ids (db c) -> small_items (db c) -> fk_ok (db c) ->
  exists c' out, spike_round_trip sha256_hex matches wr c mkNoopBarrier w = Some (c', Ok out) /\
    orders (db c') = orders (db c) /\ order_items (db c') = order_items (db c) /\
    actual_rows out = Z.of_nat (length (Harness.ids matches w (db c))) /\
    let v := diff (capture hash order_text item_text (db c)) (capture hash order_text item_text (db c')) in
    certified_rows_restored v = true /\ sequence_restored v = true /\
    (trigger_side_effects_restored v = true <-> Harness.ids matches w (db c) = []).
Proof.
  intros hash Hs Hit Hfk.
  assert (exists c' out, spike_round_trip sha256_hex matches wr c mkNoopBarrier w = Some (c', Ok out) /\ came_back matches w (db c) (db c') /\
            actual_rows out = Z.of_nat (length (Harness.ids matches w (db c)))) as (c' & out & Hr & (Ho & Hi & Ht & Ha) & Hn).
  { destruct wr; [by apply update_comes_back|by apply delete_comes_back]. }
  exists c', out. split; [done|]. split; [done|]. split; [done|]. split; [done|]. simpl.
  unfold certified_fingerprint, capture. simpl. rewrite Ho, Hi, Ht. rewrite !bool_decide_eq_true_2 by done.
  split; [done|]. split; [done|]. rewrite bool_decide_eq_true, <- Ha. lia.
Qed.

(** *** The seeded database *)

Definition is_open (w : string) (id : Z) (o : Order) : bool := bool_decide (status o = "open"%string).
Definition fresh_client : Client := mkClient seeded 0.
Definition open_predicate : string := "status = 'open'".

Lemma seeded_ok : small_ids seeded /\ small_items seeded /\ fk_ok seeded.
Proof. unfold small_ids, small_items, fk_ok. split; [|split]; by_decide. Qed.

Lemma certified_rows_come_back_witness :
  exists c' out, spike_round_trip of_bytes is_open WDelete fresh_client mkNoopBarrier open_predicate = Some (c', Ok out) /\
    orders (db c') = orders seeded /\ order_items (db c') = order_items seeded /\ actual_rows out = 5.
Proof.
  destruct (certified_rows_come_back of_bytes of_bytes (fun _ => EmptyString) (fun _ => EmptyString) is_open WDelete
              fresh_client open_predicate) as (c' & out & H1 & H2 & H3 & H4 & _);
    [apply seeded_ok|apply seeded_ok|apply seeded_ok|].
  exists c', out. split; [exact H1|]. split; [exact H2|]. split; [exact H3|]. rewrite H4. vm_compute. reflexivity.
Defined.

(** Another session adds a line to an order that is about to be deleted: the guard lets the
    delete through, the restore succeeds, and the line is gone. *)
Definition late_line : ClosureBarrier Db :=
  closure_barrier_new (fun _ d => set_rows d (orders d) (<[(2, 9) := mkItem "late" 1]> (order_items d)) (order_audit d)).

Example cascade_drift_escapes :
  match spike_round_trip of_bytes is_open WDelete fresh_client late_line open_predicate with
  | Some (c, Ok out) => actual_rows out = 5 /\ order_items (db c) !! (2, 9) = None
  | _ => False
  end.
Proof. vm_compute. done. Qed.

(** An order that another session opens at the barrier is noticed. *)
Definition late_open : ClosureBarrier Db := closure_barrier_new (fun _ d => amplify d).
Example trigger_drift_aborts :
  match spike_round_trip of_bytes is_open (WUpdate "paid") fresh_client late_open open_predicate with
  | Some (c, Err (DriftAbort rel _ _)) => rel = "public.orders"%string /\ orders (db c) = orders (amplify seeded)
  | _ => False
  end.
Proof. vm_compute. done. Qed.
End Criteria.
