(* ===== verification/Machine.v ===== *)
(** * Machine: the host the clone orchestrator runs on

    The file system, the process table and the faults the standard library's file and
    command calls meet, as the clone provider uses them.  A path is its list of components
    from the root.  Every fallible call takes the next [Fault] of the machine: it succeeds,
    it fails after part of its work, or the calling process is killed there.  An empty list
    of faults is a host on which nothing fails.  The text of an operating-system error is
    not kept. *)

From S2P Require Import Prelude.

Module Machine.

Abbreviation path := (list string).

Inductive Node : Type := Dir | File (content : list byte).

#[global] Instance Node_eq_dec : EqDecision Node.
Proof. solve_decision. Defined.

(** What [ps -o lstart=] prints for a process, when it prints anything. *)
Record Process : Type := mkProcess { start_time : option string }.

Inductive Fault : Type :=
| Succeed
| FailAfter (k : nat)
| KillAfter (k : nat).

Record Machine : Type := mkMachine {
  fs : gmap path Node;
  procs : gmap Z Process;
  faults : list Fault
}.

Definition set_fs (m : Machine) (f : gmap path Node) : Machine := mkMachine f (procs m) (faults m).
Definition set_procs (m : Machine) (p : gmap Z Process) : Machine := mkMachine (fs m) p (faults m).

(** The fault the next fallible call meets. *)
Definition next (m : Machine) : Fault * Machine :=
  match faults m with
  | [] => (Succeed, m)
  | f :: l => (f, mkMachine (fs m) (procs m) l)
  end.

(** ** Programs: the machine after, and the result unless the process was killed *)

Section monad.
Context {E : Type}.

Definition M (A : Type) : Type := Machine -> Machine * option (result E A).

Definition ret {A} (a : A) : M A := fun m => (m, Some (Ok a)).
Definition fail {A} (e : E) : M A := fun m => (m, Some (Err e)).
Definition lift {A} (r : result E A) : M A := fun m => (m, Some r).
Definition get {A} (f : Machine -> A) : M A := fun m => (m, Some (Ok (f m))).

Definition bind {A B} (x : M A) (f : A -> M B) : M B :=
  fun m =>
    match x m with
    | (m, Some (Ok a)) => f a m
    | (m, Some (Err e)) => (m, Some (Err e))
    | (m, None) => (m, None)
    end.

(** The result of a call as a value: [.ok()], [let _ = ...], [match ... { Err(e) => ... }]. *)
Definition attempt {A} (x : M A) : M (result E A) :=
  fun m => match x m with (m, Some r) => (m, Some (Ok r)) | (m, None) => (m, None) end.

(** A call that fails with [e] where the machine does not allow it or the next fault says
    so; [partial k] is what [k] steps of it leave behind. *)
Definition fallible {A} (e : E) (full : Machine -> option (Machine * A)) (partial : nat -> Machine -> Machine) : M A :=
  fun m =>
    match next m with
    | (Succeed, m) => match full m with Some (m, a) => (m, Some (Ok a)) | None => (m, Some (Err e)) end
    | (FailAfter k, m) => (partial k m, Some (Err e))
    | (KillAfter k, m) => (partial k m, None)
    end.
End monad.
#[global] Arguments M : clear implicits.

Notation "'run!' x ':=' m 'in' k" := (bind m (fun x => k))
  (at level 10, x pattern, m at level 100, k at level 200) : rust_scope.

(** ** The file system *)

Definition exists_at (m : Machine) (p : path) : bool := bool_decide (is_Some (fs m !! p)).
Definition is_dir (m : Machine) (p : path) : bool := bool_decide (fs m !! p = Some Dir).

Definition name_of (p : path) : option string := last p.
Definition parent (p : path) : path := take (pred (length p)) p.

(** The non-empty prefixes of a path, shortest first. *)
Definition ancestors (p : path) : list path := map (fun n => take n p) (seq 1 (length p)).

Definition mkdir (f : gmap path Node) (p : path) : gmap path Node :=
  match f !! p with None => <[p := Dir]> f | Some _ => f end.

Definition blocked (f : gmap path Node) (p : path) : bool :=
  match f !! p with Some (File _) => true | _ => false end.

Definition is_below (p q : path) : bool := bool_decide (p `prefix_of` q).

Definition without (p : path) (f : gmap path Node) : gmap path Node := filter (fun kv => is_below p kv.1 = false) f.

(** The files below a directory, in the order a walk meets them. *)
Definition files_below (p : path) (f : gmap path Node) : list path :=
  omap (fun kv : path * Node => match kv.2 with File _ => if is_below p kv.1 then Some kv.1 else None | Dir => None end)
    (map_to_list f).

Definition children (f : gmap path Node) (p : path) : list path :=
  filter (fun q => q <> [] /\ parent q = p) (map fst (map_to_list f)).

Section fs_calls.
Context {E : Type}.

Definition create_dir_all (e : E) (p : path) : M E unit :=
  fallible e
    (fun m => if existsb (blocked (fs m)) (ancestors p) then None
              else Some (set_fs m (foldl mkdir (fs m) (ancestors p)), tt))
    (fun k m => set_fs m (foldl mkdir (fs m) (take k (ancestors p)))).

(** [fs::write]: truncates or creates the file, then writes; cut short after that it has
    part of the bytes. *)
Definition writable (m : Machine) (p : path) : bool :=
  bool_decide (fs m !! parent p = Some Dir) && negb (is_dir m p).

Definition write (e : E) (p : path) (bytes : list byte) : M E unit :=
  fallible e
    (fun m => if writable m p then Some (set_fs m (<[p := File bytes]> (fs m)), tt) else None)
    (fun k m => match k with
                | O => m
                | S k => if writable m p then set_fs m (<[p := File (take k bytes)]> (fs m)) else m
                end).

Definition content (m : Machine) (p : path) : list byte := match fs m !! p with Some (File l) => l | _ => [] end.

Definition append (e : E) (p : path) (bytes : list byte) : M E unit :=
  fallible e
    (fun m => if writable m p then Some (set_fs m (<[p := File (content m p ++ bytes)]> (fs m)), tt) else None)
    (fun k m => match k with
                | O => m
                | S k => if writable m p then set_fs m (<[p := File (content m p ++ take k bytes)]> (fs m)) else m
                end).

(** Whether there was a file to remove; anything else is an error. *)
Definition remove_file (e : E) (p : path) : M E bool :=
  fallible e
    (fun m => match fs m !! p with
              | Some (File _) => Some (set_fs m (delete p (fs m)), true)
              | None => Some (m, false)
              | Some Dir => None
              end)
    (fun _ m => m).

Definition remove_dir_all (e : E) (p : path) : M E unit :=
  fallible e
    (fun m => if is_dir m p then Some (set_fs m (without p (fs m)), tt) else None)
    (fun k m => set_fs m (foldr delete (fs m) (take k (files_below p (fs m))))).

Definition read (e : E) (p : path) : M E (list byte) :=
  fallible e
    (fun m => match fs m !! p with Some (File l) => Some (m, l) | _ => None end)
    (fun _ m => m).

(** [None] is [ErrorKind::NotFound]. *)
Definition read_dir (e : E) (p : path) : M E (option (list path)) :=
  fallible e
    (fun m => match fs m !! p with
              | Some Dir => Some (m, Some (children (fs m) p))
              | None => Some (m, None)
              | Some (File _) => None
              end)
    (fun _ m => m).

(** A change of mode, which the model does not keep. *)
Definition chmod (e : E) (p : path) : M E unit :=
  fallible e (fun m => if exists_at m p then Some (m, tt) else None) (fun _ m => m).
End fs_calls.

(** *** Lemmas *)

Lemma children_elem f p name n : f !! (p ++ [name]) = Some n -> p ++ [name] ∈ children f p.
Proof.
  intros H. unfold children. apply list_elem_of_filter. split.
  - split; [by destruct p|]. unfold parent. rewrite length_app, Nat.add_comm. simpl. apply take_app_length.
  - apply list_elem_of_fmap. exists (p ++ [name], n). split; [done|]. by apply elem_of_map_to_list.
Qed.

Lemma children_inv f p q : q ∈ children f p -> exists name n, q = p ++ [name] /\ f !! q = Some n.
Proof.
  unfold children. intros [[Hne Hp] ([q' n] & -> & H%elem_of_map_to_list)%list_elem_of_fmap]%list_elem_of_filter.
  simpl in *. destruct (exists_last Hne) as (l & name & ->). exists name, n.
  unfold parent in Hp. rewrite length_app, Nat.add_comm in Hp. simpl in Hp. rewrite take_app_length in Hp. by subst.
Qed.

Lemma without_lookup p f q n : without p f !! q = Some n <-> f !! q = Some n /\ ~ p `prefix_of` q.
Proof.
  unfold without, is_below. rewrite map_lookup_filter_Some. simpl. by rewrite bool_decide_eq_false.
Qed.

Lemma foldr_delete_lookup (l : list path) (f : gmap path Node) q n : foldr delete f l !! q = Some n -> f !! q = Some n.
Proof.
  induction l as [|p l IH]; simpl; [done|]. intros [_ H]%lookup_delete_Some. by apply IH.
Qed.

Lemma files_below_file p f q : q ∈ files_below p f -> exists l, f !! q = Some (File l).
Proof.
  unfold files_below. intros ([q' n] & H%elem_of_map_to_list & E)%list_elem_of_omap. simpl in *.
  destruct n; [done|]. destruct (is_below p q'); simplify_eq. eauto.
Qed.

Lemma foldr_delete_dir p k f q : f !! q = Some Dir -> foldr delete f (take k (files_below p f)) !! q = Some Dir.
Proof.
  intros H. assert (Forall (fun r => r <> q) (take k (files_below p f))) as Hne.
  { apply Forall_take, Forall_forall. intros r Hr ->. apply files_below_file in Hr as [l Hl]. congruence. }
  revert Hne. generalize (take k (files_below p f)). induction 1 as [|r l Hr _ IH]; simpl; [done|].
  by rewrite lookup_delete_ne.
Qed.

Lemma next_fs m : fs (next m).2 = fs m.
Proof. unfold next. by destruct (faults m). Qed.
Lemma next_procs m : procs (next m).2 = procs m.
Proof. unfold next. by destruct (faults m). Qed.

(** *** What each call can do to one path, whatever its outcome *)

Section one_path.
Context {E : Type}.
Implicit Types (e : E) (m : Machine) (p q : path).

Lemma fallible_lookup {A} e (full : Machine -> option (Machine * A)) partial m q (R : option Node -> option Node -> Prop) :
  (forall n, R n n) ->
  (forall m m' a, full m = Some (m', a) -> R (fs m !! q) (fs m' !! q)) ->
  (forall k m, R (fs m !! q) (fs (partial k m) !! q)) ->
  R (fs m !! q) (fs (fallible e full partial m).1 !! q).
Proof.
  intros Hr Hf Hp. unfold fallible. rewrite <- (next_fs m). destruct (next m) as [[|k|k] m1]; simpl; [|apply Hp..].
  destruct (full m1) as [[m2 a]|] eqn:F; simpl; [by eapply Hf|apply Hr].
Qed.

Lemma mkdir_lookup (ps : list path) (f : gmap path Node) q :
  foldl mkdir f ps !! q = f !! q \/ (q ∈ ps /\ f !! q = None /\ foldl mkdir f ps !! q = Some Dir).
Proof.
  revert f. induction ps as [|p ps IH]; intros f; simpl; [by left|].
  assert (mkdir f p !! q = f !! q \/ (q = p /\ f !! q = None /\ mkdir f p !! q = Some Dir)) as H.
  { unfold mkdir. destruct (f !! p) eqn:Ep; [by left|]. destruct (decide (p = q)) as [->|Hne].
    - right. by rewrite lookup_insert_eq.
    - left. by rewrite lookup_insert_ne. }
  destruct (IH (mkdir f p)) as [Hi|(Hin & Hn & Hd)], H as [Hm|(-> & Hm & Hd')];
    rewrite ?Hi, ?Hm in *; first [by left | right; repeat split; done || set_solver || congruence].
Qed.

Lemma create_dir_all_lookup e p m q :
  fs (create_dir_all e p m).1 !! q = fs m !! q \/
  (q ∈ ancestors p /\ fs m !! q = None /\ fs (create_dir_all e p m).1 !! q = Some Dir).
Proof.
  apply (fallible_lookup e _ _ m q (fun a b => b = a \/ (q ∈ ancestors p /\ a = None /\ b = Some Dir))).
  - by left.
  - intros m1 m2 a. destruct (existsb _ _); intros; simplify_eq. apply mkdir_lookup.
  - intros k m1. simpl. destruct (mkdir_lookup (take k (ancestors p)) (fs m1) q) as [?|(Hin & ? & ?)]; [by left|right].
    split; [|done]. rewrite <- (take_drop k (ancestors p)). apply elem_of_app. by left.
Qed.

Lemma write_lookup e p bytes m q :
  fs (write e p bytes m).1 !! q = fs m !! q \/ (q = p /\ exists k, fs (write e p bytes m).1 !! q = Some (File (take k bytes))).
Proof.
  apply (fallible_lookup e _ _ m q (fun a b => b = a \/ (q = p /\ exists k, b = Some (File (take k bytes))))).
  - by left.
  - intros m1 m2 a. destruct (writable m1 p); intros; simplify_eq. simpl. destruct (decide (p = q)) as [->|Hne].
    + right. split; [done|]. exists (length bytes). by rewrite lookup_insert_eq, take_ge by lia.
    + left. by rewrite lookup_insert_ne.
  - intros [|k] m1; [by left|]. destruct (writable m1 p); [|by left]. simpl. destruct (decide (p = q)) as [->|Hne].
    + right. split; [done|]. exists k. by rewrite lookup_insert_eq.
    + left. by rewrite lookup_insert_ne.
Qed.

Lemma append_lookup e p bytes m q : fs (append e p bytes m).1 !! q = fs m !! q \/ q = p.
Proof.
  apply (fallible_lookup e _ _ m q (fun a b => b = a \/ q = p)).
  - by left.
  - intros m1 m2 a. destruct (writable m1 p); intros; simplify_eq. simpl.
    destruct (decide (p = q)) as [->|Hne]; [by right|left]. by rewrite lookup_insert_ne.
  - intros [|k] m1; [by left|]. destruct (writable m1 p); [|by left]. simpl.
    destruct (decide (p = q)) as [->|Hne]; [by right|left]. by rewrite lookup_insert_ne.
Qed.

Lemma remove_file_lookup e p m q :
  fs (remove_file e p m).1 !! q = fs m !! q \/ (q = p /\ fs (remove_file e p m).1 !! q = None).
Proof.
  apply (fallible_lookup e _ _ m q (fun a b => b = a \/ (q = p /\ b = None))).
  - by left.
  - intros m1 m2 a. destruct (fs m1 !! p) as [[]|]; intros; simplify_eq; [|by left]. simpl.
    destruct (decide (p = q)) as [->|Hne]; [right|left]; by rewrite ?lookup_delete_eq, ?lookup_delete_ne.
  - by left.
Qed.

Lemma remove_dir_all_lookup e p m q :
  fs (remove_dir_all e p m).1 !! q = fs m !! q \/ (p `prefix_of` q /\ fs (remove_dir_all e p m).1 !! q = None).
Proof.
  apply (fallible_lookup e _ _ m q (fun a b => b = a \/ (p `prefix_of` q /\ b = None))).
  - by left.
  - intros m1 m2 a. destruct (is_dir m1 p); intros; simplify_eq. simpl.
    destruct (decide (p `prefix_of` q)) as [Hp|Hp].
    + right. split; [done|]. apply eq_None_not_Some. intros [n [_ Hn]%without_lookup]. done.
    + left. destruct (fs m1 !! q) as [n|] eqn:Q; [by apply without_lookup|].
      apply eq_None_not_Some. intros [n [Hn _]%without_lookup]. congruence.
  - intros k m1. simpl. assert (Forall (fun r => p `prefix_of` r) (take k (files_below p (fs m1)))) as Hb.
    { apply Forall_take, Forall_forall. intros r. unfold files_below. rewrite list_elem_of_omap.
      intros ([r' n] & _ & Hr). simpl in Hr. destruct n; [done|]. unfold is_below in Hr.
      case_bool_decide; simplify_eq. done. }
    generalize dependent (take k (files_below p (fs m1))). induction 1 as [|r l Hr _ IH]; simpl; [by left|].
    destruct (decide (r = q)) as [->|Hne]; [right|]; rewrite ?lookup_delete_eq, ?lookup_delete_ne by done; done.
Qed.

Lemma read_lookup e p m : fs (read e p m).1 = fs m.
Proof.
  unfold read, fallible. rewrite <- (next_fs m). destruct (next m) as [[|k|k] m1]; simpl; [|done..].
  by destruct (fs m1 !! p) as [[]|].
Qed.

Lemma chmod_lookup e p m : fs (chmod e p m).1 = fs m.
Proof.
  unfold chmod, fallible. rewrite <- (next_fs m). destruct (next m) as [[|k|k] m1]; simpl; [|done..].
  by destruct (exists_at m1 p).
Qed.

(** An invariant that a program keeps, whatever its outcome. *)
Definition preserves {A} (I : Machine -> Prop) (x : M E A) : Prop := forall m, I m -> I (x m).1.

Lemma preserves_bind {A B} I (x : M E A) (f : A -> M E B) : preserves I x -> (forall a, preserves I (f a)) -> preserves I (bind x f).
Proof.
  intros Hx Hf m Hm. specialize (Hx m Hm). unfold bind. destruct (x m) as [m1 [[a|]|]]; simpl in *; [by apply Hf|done..].
Qed.

Lemma preserves_ret {A} I (a : A) : preserves I (ret a).
Proof. by intros m. Qed.

Lemma preserves_fail {A} I e : preserves I (fail e : M E A).
Proof. by intros m. Qed.

Lemma preserves_get {A} I (f : Machine -> A) : preserves I (get f).
Proof. by intros m. Qed.

Lemma preserves_attempt {A} I (x : M E A) : preserves I x -> preserves I (attempt x).
Proof. intros Hx m Hm. specialize (Hx m Hm). unfold attempt. by destruct (x m) as [m1 [r|]]. Qed.
End one_path.
End Machine.
