(* ===== verification/CloneLedger.v ===== *)
(** * CloneLedger: the ledger of live clones and the orphan reaper

    Models [src/crates/clone-orchestrator/src/provider/ledger.rs] on the host of [Machine]:
    the ledger directory with one file per clone, the owner marker inside a data directory,
    process liveness, and the two halves of a reaper pass.  The JSON codec is a parameter;
    so is what a signal and the passing of time do to the host. *)

From S2P Require Import Prelude Text Config Wire GrantedApply Machine.

Module CloneLedger.
Import Text Machine.
Import GrantedApply(ProviderKind, PK_None, PK_Local, PK_Dblab).

Inductive CloneError : Type :=
| Tooling (what : string)
| ProvisionFailed (what : string)
| TeardownFailed (what : string)
| GovernanceViolation (reason : string)
| Unavailable (provider : ProviderKind).

Abbreviation IO := (M CloneError).

Definition display (p : path) : string := String.concat "" (map (fun c => "/" +:+ c) p).

(** ** Owners *)

Record OwnerIdentity : Type := mkOwner { owner_pid_of : Z; owner_start_of : string }.

Record LedgerEntry : Type := mkEntry {
  clone_id : string;
  datadir : path;
  entry_port : Z;
  owner_pid : Z;
  owner_start : string
}.

Definition OWNER_MARKER : string := ".pgb_clone_owner.json".

Definition pidfile (e : LedgerEntry) : path := datadir e ++ ["postmaster.pid"%string].
Definition entry_owner (e : LedgerEntry) : OwnerIdentity := mkOwner (owner_pid e) (owner_start e).

(** A command run for its answer; where it cannot be run, [otherwise]. *)
Definition command {A} (answer : Machine -> A) (otherwise : A) : IO A :=
  fun m =>
    match next m with
    | (Succeed, m) => (m, Some (Ok (answer m)))
    | (FailAfter _, m) => (m, Some (Ok otherwise))
    | (KillAfter _, m) => (m, None)
    end.

(** [kill -0]. *)
Definition pid_alive (pid : Z) : IO bool :=
  if pid =? 0 then ret false else command (fun m => bool_decide (is_Some (procs m !! pid))) false.

(** [ps -o lstart=], trimmed; empty output counts as none. *)
Definition started (m : Machine) (pid : Z) : option string :=
  match procs m !! pid with
  | Some p => match start_time p with
              | Some s => let s := trim s in if bool_decide (s = EmptyString) then None else Some s
              | None => None
              end
  | None => None
  end.

Definition process_start_time (pid : Z) : IO (option string) :=
  if pid =? 0 then ret None else command (fun m => started m pid) None.

Definition owner_current (my_pid : Z) : IO OwnerIdentity :=
  run! start := process_start_time my_pid in ret (mkOwner my_pid (default EmptyString start)).

Definition start_matches (now : option string) (recorded : string) : bool :=
  match now with
  | Some now => if bool_decide (recorded = EmptyString) then true else bool_decide (now = recorded)
  | None => true
  end.

Definition is_live (o : OwnerIdentity) : IO bool :=
  run! alive := pid_alive (owner_pid_of o) in
  if negb alive then ret false
  else run! now := process_start_time (owner_pid_of o) in ret (start_matches now (owner_start_of o)).

(** ** The ledger: a directory of one JSON file per clone *)

Record CloneLedger : Type := mkLedger { ledger_dir : path }.

Definition open (dir : path) : IO CloneLedger :=
  run! _ := create_dir_all (Tooling ("ledger dir " +:+ display dir)) dir in ret (mkLedger dir).

(** The directory the orchestrators and the reaper share; an absolute path is one that
    [PathBuf::from] reads from a text with a leading slash. *)
Definition canonical_dir_from (path_of : string -> path) (is_absolute : string -> bool) (temp_dir : path)
    (explicit xdg_state home : option string) : path :=
  match explicit with
  | Some explicit => path_of explicit
  | None =>
      let state_base :=
        match xdg_state with
        | Some x => if is_absolute x then Some (path_of x) else None
        | None => None
        end in
      let state_base :=
        match state_base with
        | Some b => Some b
        | None => option_map (fun h => path_of h ++ [".local"; "state"]%string) home
        end in
      default temp_dir state_base ++ ["pg_brakes"; "clone-ledger"]%string
  end.

(** One character of a file name for each character of the id: a continuation byte of UTF-8
    is part of the character before it. *)
Definition is_continuation (b : byte) : bool := let z := Z_of_byte b in (128 <=? z) && (z <=? 191).
Definition is_alphanumeric (b : byte) : bool :=
  let z := Z_of_byte b in
  ((48 <=? z) && (z <=? 57)) || ((65 <=? z) && (z <=? 90)) || ((97 <=? z) && (z <=? 122)).
Definition safe_byte (b : byte) : byte :=
  if is_alphanumeric b || bool_decide (b = x2d) || bool_decide (b = x5f) then b else x5f.
Definition sanitize (clone_id : string) : string :=
  of_bytes (map safe_byte (List.filter (fun b => negb (is_continuation b)) (as_bytes clone_id))).

Definition entry_path (l : CloneLedger) (clone_id : string) : path := ledger_dir l ++ [sanitize clone_id +:+ ".json"].

(** [path.extension() == Some("json")]: the name has a stem before its last dot. *)
Definition has_json_extension (name : string) : bool :=
  let n := as_bytes name in
  (5 <? Z.of_nat (length n)) && starts_with (rev (as_bytes ".json")) (rev n).

(** [local-clone-*]. *)
Definition is_clone_datadir_name (name : string) : bool := starts_with (as_bytes "local-clone-") (as_bytes name).

Record OrphanAlarm : Type := mkAlarm {
  alarm_clone_id : string;
  alarm_datadir : path;
  alarm_port : Z;
  alarm_owner_pid : Z;
  reaped : bool
}.

Record ReapOutcome : Type := mkOutcome { alarms : list OrphanAlarm; live_skipped : list string }.

Definition add_alarm (o : ReapOutcome) (a : OrphanAlarm) : ReapOutcome := mkOutcome (alarms o ++ [a]) (live_skipped o).
Definition add_live (o : ReapOutcome) (name : string) : ReapOutcome := mkOutcome (alarms o) (live_skipped o ++ [name]).

(** [text.lines().next()]. *)
Fixpoint until_newline (l : list byte) : list byte :=
  match l with
  | [] => []
  | b :: l => if bool_decide (b = x0a) then [] else b :: until_newline l
  end.
Definition first_line (l : list byte) : option (list byte) := match l with [] => None | _ => Some (until_newline l) end.

Definition pid_in (text : list byte) : option Z :=
  if Wire.utf8_valid text then
    match first_line text with
    | Some line => Config.parse_unsigned u32_max (of_bytes (trim_bytes line))
    | None => None
    end
  else None.

Section reaper.
Context (entry_json : LedgerEntry -> option (list byte)) (entry_of_json : list byte -> option LedgerEntry).
Context (owner_json : OwnerIdentity -> option (list byte)) (owner_of_json : list byte -> option OwnerIdentity).
(** What the host does when a signal is sent to a process, and while the reaper sleeps. *)
Context (deliver : Z -> string -> Machine -> Machine) (passes : Machine -> Machine).

Definition record (l : CloneLedger) (e : LedgerEntry) : IO unit :=
  match entry_json e with
  | None => fail (Tooling "ledger encode")
  | Some json =>
      let p := entry_path l (clone_id e) in write (Tooling ("ledger write " +:+ display p)) p json
  end.

Definition forget (l : CloneLedger) (clone_id : string) : IO unit :=
  let p := entry_path l clone_id in
  run! _ := remove_file (Tooling ("ledger forget " +:+ display p)) p in ret tt.

Definition is_json (p : path) : bool := match name_of p with Some n => has_json_extension n | None => false end.

Fixpoint read_entries (ps : list path) : IO (list LedgerEntry) :=
  match ps with
  | [] => ret []
  | p :: ps =>
      if is_json p then
        run! bytes := read (Tooling ("ledger read " +:+ display p)) p in
        match entry_of_json bytes with
        | None => fail (Tooling ("ledger decode " +:+ display p))
        | Some e => run! es := read_entries ps in ret (e :: es)
        end
      else read_entries ps
  end.

Definition entries (l : CloneLedger) : IO (list LedgerEntry) :=
  run! rd := read_dir (Tooling "ledger read") (ledger_dir l) in
  match rd with
  | None => ret []
  | Some ps => read_entries ps
  end.

Definition write_owner_marker (datadir : path) (o : OwnerIdentity) : IO unit :=
  match owner_json o with
  | None => fail (Tooling "owner marker encode")
  | Some json =>
      let p := datadir ++ [OWNER_MARKER] in write (Tooling ("owner marker " +:+ display p)) p json
  end.

Definition read_owner_marker (datadir : path) : IO (option OwnerIdentity) :=
  run! r := attempt (read (Tooling EmptyString) (datadir ++ [OWNER_MARKER])) in
  ret (match r with Ok bytes => owner_of_json bytes | Err _ => None end).

Definition signal (pid : Z) (sig : string) : IO unit :=
  fun m =>
    match next m with
    | (Succeed, m) => (deliver pid sig m, Some (Ok tt))
    | (FailAfter _, m) => (m, Some (Ok tt))
    | (KillAfter _, m) => (m, None)
    end.

Definition sleep : IO unit := fun m => (passes m, Some (Ok tt)).

Definition postmaster_pid (pidfile : path) : IO (option Z) :=
  run! r := attempt (read (Tooling EmptyString) pidfile) in
  ret (match r with Ok text => pid_in text | Err _ => None end).

Fixpoint wait_pid_gone (pid : Z) (tries : nat) : IO bool :=
  match tries with
  | O => run! alive := pid_alive pid in ret (negb alive)
  | S tries =>
      run! alive := pid_alive pid in
      if negb alive then ret true else run! _ := sleep in wait_pid_gone pid tries
  end.

Definition stop_postmaster (pid : Z) : IO unit :=
  run! alive := pid_alive pid in
  if negb alive then ret tt
  else
    run! _ := signal pid "INT" in
    run! gone := wait_pid_gone pid 50 in
    if gone then ret tt
    else run! _ := signal pid "QUIT" in run! _ := wait_pid_gone pid 50 in ret tt.

Definition destroy_orphan (e : LedgerEntry) : IO bool :=
  run! pid := postmaster_pid (pidfile e) in
  run! _ := match pid with Some pid => stop_postmaster pid | None => ret tt end in
  run! there := get (fun m => exists_at m (datadir e)) in
  run! _ := if there then run! _ := attempt (remove_dir_all (Tooling EmptyString) (datadir e)) in ret tt else ret tt in
  run! there := get (fun m => exists_at m (datadir e)) in
  ret (negb there).

(** An orphan: destroyed, alarmed, and forgotten once it is gone. *)
Definition reap_one (l : CloneLedger) (e : LedgerEntry) (outcome : ReapOutcome) : IO ReapOutcome :=
  run! gone := destroy_orphan e in
  let outcome := add_alarm outcome (mkAlarm (clone_id e) (datadir e) (entry_port e) (owner_pid e) gone) in
  if gone then run! _ := forget l (clone_id e) in ret outcome else ret outcome.

Fixpoint reap_entries (l : CloneLedger) (es : list LedgerEntry) (outcome : ReapOutcome) : IO ReapOutcome :=
  match es with
  | [] => ret outcome
  | e :: es =>
      run! live := is_live (entry_owner e) in
      if live then reap_entries l es (add_live outcome (clone_id e))
      else run! outcome := reap_one l e outcome in reap_entries l es outcome
  end.

Definition reap_from_ledger (l : CloneLedger) (outcome : ReapOutcome) : IO ReapOutcome :=
  run! es := entries l in reap_entries l es outcome.

Definition reap_orphans (l : CloneLedger) : IO ReapOutcome := reap_from_ledger l (mkOutcome [] []).

(** Whether some entry for the directory has a live owner, asked one after the other. *)
Fixpoint live_by_ledger (p : path) (es : list LedgerEntry) : IO bool :=
  match es with
  | [] => ret false
  | e :: es =>
      if bool_decide (datadir e = p) then
        run! live := is_live (entry_owner e) in if live then ret true else live_by_ledger p es
      else live_by_ledger p es
  end.

Definition live_by_marker (o : option OwnerIdentity) : IO bool :=
  match o with Some o => is_live o | None => ret false end.

Definition sweep_entry (p : path) (name : string) (o : option OwnerIdentity) : LedgerEntry :=
  mkEntry name p 0 (default 0 (option_map owner_pid_of o)) (default EmptyString (option_map owner_start_of o)).

Definition sweep_one (l : CloneLedger) (es : list LedgerEntry) (p : path) (outcome : ReapOutcome) : IO ReapOutcome :=
  match name_of p with
  | None => ret outcome
  | Some name =>
      run! dir := get (fun m => is_dir m p) in
      if negb dir || negb (is_clone_datadir_name name) then ret outcome
      else if existsb (fun a => bool_decide (alarm_datadir a = p)) (alarms outcome) then ret outcome
      else
        run! live := live_by_ledger p es in
        if live then ret (add_live outcome name)
        else
          run! owner := read_owner_marker p in
          run! live := live_by_marker owner in
          if live then ret (add_live outcome name)
          else reap_one l (sweep_entry p name owner) outcome
  end.

Fixpoint sweep_children (l : CloneLedger) (es : list LedgerEntry) (ps : list path) (outcome : ReapOutcome)
    : IO ReapOutcome :=
  match ps with
  | [] => ret outcome
  | p :: ps => run! outcome := sweep_one l es p outcome in sweep_children l es ps outcome
  end.

Definition sweep_clone_root (clone_root : path) (l : CloneLedger) (outcome : ReapOutcome) : IO ReapOutcome :=
  run! rd := read_dir (Tooling "sweep read") clone_root in
  match rd with
  | None => ret outcome
  | Some ps => run! es := entries l in sweep_children l es ps outcome
  end.

Definition reap_orphans_with_sweep (l : CloneLedger) (clone_root : path) : IO ReapOutcome :=
  run! outcome := reap_from_ledger l (mkOutcome [] []) in sweep_clone_root clone_root l outcome.

(** ** What a pass may do to the host *)

Section pass.
Context (l : CloneLedger) (root : path).

(** The places a pass looks at: the two directories, what is in them, the markers. *)
Definition watched (q : path) : Prop :=
  q = root \/ q = ledger_dir l \/ (exists name, q = root ++ [name]) \/ (exists name, q = ledger_dir l ++ [name]) \/
  (exists name, q = (root ++ [name]) ++ [OWNER_MARKER]).

(** A host that has at most lost something: processes, and watched files and directories. *)
Definition tame (m m' : Machine) : Prop :=
  procs m' ⊆ procs m /\ (faults m = [] -> faults m' = []) /\
  (forall q n, watched q -> fs m' !! q = Some n -> fs m !! q = Some n).

Lemma tame_refl m : tame m m.
Proof. by split; [|split]. Qed.

Lemma tame_trans m1 m2 m3 : tame m1 m2 -> tame m2 m3 -> tame m1 m3.
Proof. intros (P1 & F1 & W1) (P2 & F2 & W2). split; [by etrans|]. split; eauto. Qed.

Lemma tame_gone m m' q : tame m m' -> watched q -> fs m !! q = None -> fs m' !! q = None.
Proof.
  intros (_ & _ & W) Hq Hn. destruct (fs m' !! q) as [n|] eqn:E; [|done]. apply W in E; [congruence|done].
Qed.

Lemma tame_fs m f : (forall q n, f !! q = Some n -> fs m !! q = Some n) -> tame m (set_fs m f).
Proof. intros H. split; [done|]. split; [done|]. intros q n _. apply H. Qed.

Lemma tame_next m : tame m (next m).2.
Proof. unfold next. destruct (faults m) eqn:E; [apply tame_refl|]. split; [done|]. split; [congruence|done]. Qed.

(** From a host in [P] a program tames the host, and what it returns satisfies [Q]. *)
Definition tames {A} (P : Machine -> Prop) (x : IO A) (Q : A -> Machine -> Prop) : Prop :=
  forall m, P m -> tame m (x m).1 /\ forall a, (x m).2 = Some (Ok a) -> Q a (x m).1.

Definition anywhere (m : Machine) : Prop := True.
Definition nothing {A} (a : A) (m : Machine) : Prop := True.

Lemma tames_bind {A B} P (x : IO A) Q (f : A -> IO B) R :
  tames P x Q -> (forall a, tames (Q a) (f a) R) -> tames P (bind x f) R.
Proof.
  intros Hx Hf m HP. destruct (Hx m HP) as [Ht Hq]. unfold bind. destruct (x m) as [m1 [[a|e]|]]; simpl in *; try done.
  destruct (Hf a m1 (Hq a eq_refl)) as [Ht' Hr]. split; [by eapply tame_trans|done].
Qed.

Lemma tames_weaken {A} (P P' : Machine -> Prop) (x : IO A) (Q Q' : A -> Machine -> Prop) :
  tames P x Q -> (forall m, P' m -> P m) -> (forall a m, Q a m -> Q' a m) -> tames P' x Q'.
Proof. intros H HP HQ m Hm. destruct (H m (HP m Hm)). split; auto. Qed.

(** A fact of the host before that the proof may use outright. *)
Lemma tames_with {A} (F : Prop) (P P' : Machine -> Prop) (x : IO A) Q :
  (forall m, P' m -> F /\ P m) -> (F -> tames P x Q) -> tames P' x Q.
Proof. intros HP H m Hm. destruct (HP m Hm). by apply H. Qed.

Lemma tames_ret {A} (a : A) (Q : A -> Machine -> Prop) : tames (Q a) (ret a) Q.
Proof. intros m HQ. split; [apply tame_refl|]. by intros b [= <-]. Qed.

Lemma tames_fail {A} (e : CloneError) P (Q : A -> Machine -> Prop) : tames P (fail e) Q.
Proof. intros m _. split; [apply tame_refl|done]. Qed.

Lemma tames_get {A} (f : Machine -> A) P : tames P (get f) (fun a m => a = f m /\ P m).
Proof. intros m HP. split; [apply tame_refl|]. by intros a [= <-]. Qed.

Lemma tames_fallible {A} e (full : Machine -> option (Machine * A)) partial P :
  (forall m m' a, full m = Some (m', a) -> tame m m') -> (forall k m, tame m (partial k m)) ->
  tames P (fallible e full partial) (fun a m' => exists m, tame m m' /\ full m = Some (m', a)).
Proof.
  intros Hf Hp m _. pose proof (tame_next m) as Hn. unfold fallible. destruct (next m) as [[|k|k] m1]; simpl in *.
  - destruct (full m1) as [[m2 a]|] eqn:E; simpl.
    + split; [eapply tame_trans; eauto|]. intros b [= <-]. exists m1. split; [by eapply Hf|done].
    + done.
  - split; [by eapply tame_trans|done].
  - split; [by eapply tame_trans|done].
Qed.

Lemma tames_attempt {A} P (x : IO A) Q :
  tames P x Q -> tames P (attempt x) (fun r m => forall a, r = Ok a -> Q a m).
Proof.
  intros Hx m HP. destruct (Hx m HP) as [Ht Hq]. unfold attempt.
  destruct (x m) as [m1 [r|]]; simpl in *; [|done]. split; [done|]. intros r' [= <-] a ->. by apply Hq.
Qed.

Lemma tames_command {A} (answer : Machine -> A) otherwise P :
  tames P (command answer otherwise) (fun a m => a = otherwise \/ a = answer m).
Proof.
  intros m _. pose proof (tame_next m) as Hn. unfold command.
  destruct (next m) as [[|k|k] m1]; simpl in *; (split; [done|]); intros a Ha; simplify_eq; auto.
Qed.

(** Holding of the host before, holds of it after: what a pass cannot take back. *)
Definition stable (P : Machine -> Prop) : Prop := forall m m', tame m m' -> P m -> P m'.

Lemma tames_keep {A} P (x : IO A) Q (R : Machine -> Prop) :
  stable R -> tames P x Q -> tames (fun m => P m /\ R m) x (fun a m => Q a m /\ R m).
Proof. intros HR Hx m [HP HRm]. destruct (Hx m HP) as [Ht Hq]. split; [done|]. eauto. Qed.

(** *** The calls of a pass, from a host [m0] *)

Hypothesis deliver_tame : forall pid sig m, tame m (deliver pid sig m).
Hypothesis passes_tame : forall m, tame m (passes m).
Context (m0 : Machine).

Abbreviation since := (tame m0).

Lemma since_stable : stable since.
Proof. intros m m' H1 H2. by eapply tame_trans. Qed.

(** A program that tames from anywhere does so since [m0]. *)
Lemma tames_since {A} (x : IO A) Q : tames anywhere x Q -> tames since x (fun a m => Q a m /\ since m).
Proof.
  intros Hx. eapply tames_weaken; [apply (tames_keep anywhere _ _ since since_stable Hx)|by split|done].
Qed.

Lemma tames_read e p : tames anywhere (read e p) (fun bytes m => fs m !! p = Some (File bytes)).
Proof.
  eapply tames_weaken; [apply tames_fallible|done|].
  - intros m m' a. destruct (fs m !! p) as [[]|]; intros; simplify_eq. apply tame_refl.
  - intros. apply tame_refl.
  - intros a m (m1 & _ & H). destruct (fs m1 !! p) as [[]|] eqn:E; simplify_eq. done.
Qed.

Lemma tames_read_dir e p :
  tames anywhere (read_dir e p) (fun rd m =>
    match rd with Some ps => fs m !! p = Some Dir /\ ps = children (fs m) p | None => fs m !! p = None end).
Proof.
  eapply tames_weaken; [apply tames_fallible|done|].
  - intros m m' a. destruct (fs m !! p) as [[]|]; intros; simplify_eq; apply tame_refl.
  - intros. apply tame_refl.
  - intros a m (m1 & _ & H). destruct (fs m1 !! p) as [[]|] eqn:E; simplify_eq; done.
Qed.

(** The entry is one the ledger held, at [m0] too. *)
Definition ledgered (e : LedgerEntry) : Prop :=
  exists name bytes, fs m0 !! (ledger_dir l ++ [name]) = Some (File bytes) /\ entry_of_json bytes = Some e.

Lemma tames_read_entries ps :
  Forall (fun p => exists name, p = ledger_dir l ++ [name]) ps ->
  tames since (read_entries ps) (fun es m => Forall ledgered es /\ since m).
Proof.
  induction 1 as [|p ps [name ->] Hps IH]; simpl.
  - eapply tames_weaken; [apply (tames_ret [] (fun es m => Forall ledgered es /\ since m))|by split; [constructor|]|done].
  - destruct (is_json _); [|done]. eapply tames_bind; [apply tames_since, tames_read|]. intros bytes. simpl.
    destruct (entry_of_json bytes) as [e|] eqn:E; [|apply tames_fail].
    eapply (tames_with (ledgered e) since).
    { intros m [Hb Hm]. split; [|done]. exists name, bytes. split; [|done]. destruct Hm as (_ & _ & W).
      apply W; [|done]. unfold watched. eauto 6. }
    intros He. eapply tames_bind; [exact IH|]. intros es m [Hes Hm]. split; [apply tame_refl|].
    intros a [= <-]. split; [by constructor|done].
Qed.

Lemma tames_entries : tames since (entries l) (fun es m => Forall ledgered es /\ since m).
Proof.
  unfold entries. eapply tames_bind; [apply tames_since, tames_read_dir|]. intros [ps|]; simpl.
  - intros m [[_ ->] Hm]. apply tames_read_entries; [|done].
    apply Forall_forall. intros q (name & n & -> & _)%children_inv. eauto.
  - eapply tames_weaken; [apply (tames_ret [] (fun es m => Forall ledgered es /\ since m))|by intros m [_ ?]|done].
Qed.

(** A probe leaves the processes as they are; where nothing fails it has the answer. *)
Lemma command_cases {A} (answer : Machine -> A) otherwise m a :
  (command answer otherwise m).2 = Some (Ok a) ->
  procs (command answer otherwise m).1 = procs m /\ (faults m = [] -> faults (command answer otherwise m).1 = []) /\
  (a = answer (next m).2 \/ a = otherwise /\ faults m <> []).
Proof.
  unfold command, next. destruct (faults m) as [|[|k|k] fl] eqn:F; simpl; intros H; simplify_eq;
    (split; [done|split; [done|]]); [by left..|by right].
Qed.

Lemma tames_pid_alive pid : tames anywhere (pid_alive pid) nothing.
Proof.
  unfold pid_alive. destruct (pid =? 0); [|eapply tames_weaken; [apply tames_command|done|done]].
  eapply tames_weaken; [apply (tames_ret false nothing)|done|done].
Qed.

Lemma tames_process_start_time pid : tames anywhere (process_start_time pid) nothing.
Proof.
  unfold process_start_time. destruct (pid =? 0); [|eapply tames_weaken; [apply tames_command|done|done]].
  eapply tames_weaken; [apply (tames_ret None nothing)|done|done].
Qed.

(** The owner's process is there and, on a host where no probe fails, is the one recorded. *)
Definition alive (o : OwnerIdentity) : Prop :=
  owner_pid_of o <> 0 /\ is_Some (procs m0 !! owner_pid_of o) /\
  (faults m0 = [] -> start_matches (started m0 (owner_pid_of o)) (owner_start_of o) = true).

Lemma started_mono m pid p : since m -> procs m !! pid = Some p -> started m pid = started m0 pid /\ is_Some (procs m0 !! pid).
Proof.
  intros (Hp & _ & _) H. pose proof (lookup_weaken _ _ _ _ H Hp) as H0. unfold started. by rewrite H, H0.
Qed.

Lemma is_live_tame o : tames anywhere (is_live o) nothing.
Proof.
  unfold is_live. eapply tames_bind; [apply tames_pid_alive|].
  intros []; simpl; [|by eapply tames_weaken; [apply (tames_ret false nothing)|..]].
  eapply tames_bind; [eapply tames_weaken; [apply tames_process_start_time|done|done]|]. intros now.
  by eapply tames_weaken; [apply (tames_ret _ nothing)|..].
Qed.

Lemma tames_is_live o : tames since (is_live o) (fun live m => (live = true -> alive o) /\ since m).
Proof.
  intros m Hm. pose proof (proj1 (is_live_tame o m I)) as Ht. split; [done|]. intros live H.
  split; [|by eapply tame_trans]. intros ->. clear Ht. revert H. unfold is_live, pid_alive, process_start_time.
  destruct (owner_pid_of o =? 0) eqn:Z; [done|]. unfold bind at 1.
  set (x := command _ false). destruct (x m) as [m1 [[b|]|]] eqn:E1; simpl; try done.
  pose proof (command_cases _ _ m b (f_equal snd E1)) as (P1 & F1 & A1). fold x in P1, F1. rewrite E1 in P1, F1. simpl in *.
  destruct b; simpl; [|done]. unfold bind.
  set (y := command _ None). destruct (y m1) as [m2 [[now|]|]] eqn:E2; simpl; try done. intros [= Hst].
  pose proof (command_cases _ _ m1 now (f_equal snd E2)) as (P2 & F2 & A2).
  destruct A1 as [A1|[? _]]; [|done]. symmetry in A1. apply bool_decide_eq_true in A1 as [pr Hpr].
  rewrite next_procs in Hpr. destruct (started_mono m _ pr Hm Hpr) as [Est Hsome].
  split; [lia|]. split; [done|]. intros Hf. destruct Hm as (_ & Hf0 & _).
  destruct A2 as [->|[_ Hne]]; [|destruct Hne; auto].
  rewrite <- Est, <- Hst. f_equal. unfold started. by rewrite next_procs, P1.
Qed.

Lemma tames_signal pid sig : tames anywhere (signal pid sig) nothing.
Proof.
  intros m _. split; [|done]. pose proof (tame_next m) as Hn. unfold signal.
  destruct (next m) as [[|k|k] m1]; simpl in *; [|done..]. eapply tame_trans; [exact Hn|apply deliver_tame].
Qed.

Lemma tames_sleep : tames anywhere sleep nothing.
Proof. intros m _. split; [apply passes_tame|done]. Qed.

(** A step of a program that only has to tame the host. *)
Lemma tame_bind {A B} (x : IO A) (f : A -> IO B) :
  tames anywhere x nothing -> (forall a, tames anywhere (f a) nothing) -> tames anywhere (bind x f) nothing.
Proof. intros Hx Hf. eapply tames_bind; [exact Hx|]. intros a. by eapply tames_weaken; [apply Hf|..]. Qed.

Lemma tame_ret {A} (a : A) : tames anywhere (ret a) nothing.
Proof. by eapply tames_weaken; [apply (tames_ret _ nothing)|..]. Qed.

Lemma tames_wait_pid_gone pid tries : tames anywhere (wait_pid_gone pid tries) nothing.
Proof.
  induction tries as [|n IH]; simpl; (apply tame_bind; [apply tames_pid_alive|]); intros a; [apply tame_ret|].
  destruct (negb a); [apply tame_ret|]. apply tame_bind; [apply tames_sleep|done].
Qed.

Lemma tames_stop_postmaster pid : tames anywhere (stop_postmaster pid) nothing.
Proof.
  unfold stop_postmaster. apply tame_bind; [apply tames_pid_alive|]. intros a. destruct (negb a); [apply tame_ret|].
  apply tame_bind; [apply tames_signal|]. intros _. apply tame_bind; [apply tames_wait_pid_gone|].
  intros []; [apply tame_ret|]. apply tame_bind; [apply tames_signal|]. intros _.
  apply tame_bind; [apply tames_wait_pid_gone|]. intros _. apply tame_ret.
Qed.

Lemma tames_remove_dir_all e p : tames anywhere (remove_dir_all e p) nothing.
Proof.
  eapply tames_weaken; [apply tames_fallible|done|done].
  - intros m m' a. destruct (is_dir m p); [|done]. intros. simplify_eq. apply tame_fs.
    intros q n H. by apply without_lookup in H as [? _].
  - intros k m. apply tame_fs. intros q n. apply foldr_delete_lookup.
Qed.

Lemma tames_remove_file e p : tames anywhere (remove_file e p) nothing.
Proof.
  eapply tames_weaken; [apply tames_fallible|done|done].
  - intros m m' a. destruct (fs m !! p) as [[]|]; intros; simplify_eq; [apply tame_fs|apply tame_refl].
    intros q n H. by apply lookup_delete_Some in H as [_ ?].
  - intros. apply tame_refl.
Qed.

Lemma tames_postmaster_pid p : tames anywhere (postmaster_pid p) nothing.
Proof.
  unfold postmaster_pid. apply tame_bind.
  - by eapply tames_weaken; [apply tames_attempt, tames_read|..].
  - intros r. apply tame_ret.
Qed.

(** Where nothing fails, a directory that is removed is gone. *)
Lemma attempt_remove_dir (e : CloneError) p m :
  faults m = [] -> fs (attempt (remove_dir_all e p) m).1 !! p <> Some Dir.
Proof.
  intros Hf. unfold attempt, remove_dir_all, fallible, next. rewrite Hf. simpl. unfold is_dir.
  case_bool_decide as Hd; simpl; [|done]. intros [_ Hn]%without_lookup. by apply Hn.
Qed.

Lemma tames_remove_there (e : CloneError) p (there : bool) :
  tames (fun m => since m /\ (there = false -> fs m !! p = None))
    (if there then run! _ := attempt (remove_dir_all e p) in ret tt else ret tt)
    (fun _ m => since m /\ (faults m0 = [] -> fs m !! p <> Some Dir)).
Proof.
  destruct there.
  - intros m [Hs _]. assert (tames anywhere (run! _ := attempt (remove_dir_all e p) in ret tt) nothing) as Ht.
    { apply tame_bind; [by eapply tames_weaken; [apply tames_attempt, tames_remove_dir_all|..]|intros; apply tame_ret]. }
    destruct (Ht m I) as [Ht' _]. split; [done|]. intros a _. split; [by eapply tame_trans|]. intros Hf.
    pose proof (attempt_remove_dir e p m) as Hr. unfold bind. destruct (attempt _ m) as [m1 [[r|]|]]; simpl in *;
      apply Hr; destruct Hs as (_ & Hs & _); by apply Hs.
  - intros m [Hs Hn]. split; [apply tame_refl|]. intros a _. split; [done|]. intros _. simpl. by rewrite Hn.
Qed.

Lemma tames_destroy_orphan e :
  tames since (destroy_orphan e) (fun gone m =>
    since m /\ (gone = true -> fs m !! datadir e = None) /\ (faults m0 = [] -> fs m !! datadir e <> Some Dir)).
Proof.
  unfold destroy_orphan. eapply tames_bind; [apply tames_since, tames_postmaster_pid|]. intros pid.
  eapply tames_bind with (Q := fun _ m => since m).
  { eapply tames_weaken with (P := since) (Q := fun _ m => nothing tt m /\ since m); [|by intros m [_ ?]|by intros a m [_ ?]].
    apply tames_since. destruct pid; [apply tames_stop_postmaster|apply tame_ret]. }
  intros u. eapply tames_bind; [apply tames_get|]. intros there.
  eapply tames_bind.
  { eapply tames_weaken; [apply (tames_remove_there (Tooling EmptyString) (datadir e) there)| |intros a m H; exact H].
    intros m [-> Hs]. split; [done|]. unfold exists_at. intros H%bool_decide_eq_false. by apply eq_None_not_Some. }
  intros v. eapply tames_bind; [apply tames_get|]. intros b m (-> & Hs & Hd). split; [apply tame_refl|].
  intros a [= <-]. split; [done|]. split; [|done]. unfold exists_at, ret. simpl.
  destruct (fs m !! datadir e); [|done]. rewrite bool_decide_eq_true_2 by eauto. done.
Qed.

Lemma tames_forget id : tames anywhere (forget l id) nothing.
Proof. unfold forget. apply tame_bind; [apply tames_remove_file|]. intros _. apply tame_ret. Qed.

(** *** The outcome of a pass *)

(** An alarm that says reaped is one whose directory is gone; where nothing fails no alarmed
    directory is left. *)
Definition honest (o : ReapOutcome) (m : Machine) : Prop :=
  forall a, a ∈ alarms o -> watched (alarm_datadir a) ->
    (reaped a = true -> fs m !! alarm_datadir a = None) /\ (faults m0 = [] -> fs m !! alarm_datadir a <> Some Dir).

Lemma honest_stable o : stable (honest o).
Proof.
  intros m m' Ht Ho a Ha Hw. destruct (Ho a Ha Hw) as [H1 H2]. split.
  - intros Hr. eapply tame_gone; [done|done|]. by apply H1.
  - intros Hf Hd. destruct Ht as (_ & _ & W). by apply (H2 Hf), W.
Qed.

Lemma honest_live o name m : honest o m -> honest (add_live o name) m.
Proof. done. Qed.

Lemma tames_honest {A} o (x : IO A) Q :
  tames anywhere x Q ->
  tames (fun m => since m /\ honest o m) x (fun a m => Q a m /\ since m /\ honest o m).
Proof.
  intros Hx m Hm. apply (tames_keep anywhere x Q (fun m => since m /\ honest o m)); [|done|by split].
  intros m1 m2 Ht [Hs Ho]. split; [by eapply since_stable|by eapply honest_stable].
Qed.

Lemma tames_reap_one e o :
  tames (fun m => since m /\ honest o m) (reap_one l e o)
    (fun o' m => since m /\ honest o' m /\ exists gone, o' = add_alarm o (mkAlarm (clone_id e) (datadir e) (entry_port e) (owner_pid e) gone)).
Proof.
  unfold reap_one.
  eapply tames_bind; [eapply (tames_keep since); [apply (honest_stable o)|apply tames_destroy_orphan]|].
  intros gone. set (a := mkAlarm _ _ _ _ gone). set (o' := add_alarm o a).
  eapply tames_weaken with (P := fun m => since m /\ honest o' m).
  2: { intros m ((Hs & Hg & Hd) & Ho). split; [done|]. intros x Hx. unfold o', add_alarm in Hx. simpl in Hx.
       apply elem_of_app in Hx as [Hx|Hx%list_elem_of_singleton]; [by apply Ho|subst x]. simpl. done. }
  2: { intros x m H. exact H. }
  destruct gone.
  - eapply tames_bind; [apply tames_honest, tames_forget|].
    intros u m (_ & Hs & Ho). split; [apply tame_refl|]. intros x [= <-]. eauto.
  - intros m (Hs & Ho). split; [apply tame_refl|]. intros x [= <-]. eauto.
Qed.

Lemma tames_reap_entries es : forall o,
  tames (fun m => since m /\ honest o m) (reap_entries l es o) (fun o' m => since m /\ honest o' m).
Proof.
  induction es as [|e es IH]; intros o; simpl.
  - intros m H. split; [apply tame_refl|]. by intros x [= <-].
  - eapply tames_bind; [eapply (tames_keep since); [apply honest_stable|apply tames_is_live]|].
    intros live. destruct live; simpl.
    + eapply tames_weaken; [apply IH|by intros m ((_ & ?) & ?)|done].
    + eapply tames_bind; [eapply tames_weaken; [apply (tames_reap_one e o)|by intros m ((_ & ?) & ?)|intros x m H; exact H]|].
      intros o'. simpl. eapply tames_weaken; [apply (IH o')|by intros m (? & ? & _)|done].
Qed.

(** *** The sweep *)

(** The owners a directory was recorded under at [m0], in the ledger or in its marker. *)
Definition recorded (p : path) (o : OwnerIdentity) : Prop :=
  (exists e, ledgered e /\ datadir e = p /\ entry_owner e = o) \/
  (exists bytes, fs m0 !! (p ++ [OWNER_MARKER]) = Some (File bytes) /\ owner_of_json bytes = Some o).

(** What the outcome says of a directory the sweep has looked at. *)
Definition settled (o : ReapOutcome) (p : path) (name : string) : Prop :=
  (exists a, a ∈ alarms o /\ alarm_datadir a = p) \/
  (name ∈ live_skipped o /\ exists owner, recorded p owner /\ alive owner).

Definition extends (o o' : ReapOutcome) : Prop := alarms o ⊆ alarms o' /\ live_skipped o ⊆ live_skipped o'.

Lemma settled_extends o o' p name : extends o o' -> settled o p name -> settled o' p name.
Proof. intros [H1 H2] [(a & Ha & Hp)|[Hl Hr]]; [left; eauto|right; auto]. Qed.

Lemma tames_live_by_ledger p es :
  Forall ledgered es ->
  tames since (live_by_ledger p es) (fun live m => (live = true -> exists o, recorded p o /\ alive o) /\ since m).
Proof.
  induction 1 as [|e es He Hes IH]; simpl.
  - intros m Hm. split; [apply tame_refl|]. by intros a [= <-].
  - case_bool_decide as Hp; [|done]. eapply tames_bind; [apply tames_is_live|]. intros [|]; simpl.
    + intros m [Hl Hm]. split; [apply tame_refl|]. intros a [= <-]. split; [|done]. intros _.
      exists (entry_owner e). split; [left; by exists e|by apply Hl].
    + eapply tames_weaken; [exact IH|by intros m [_ ?]|done].
Qed.

Lemma tames_read_owner_marker p :
  watched (p ++ [OWNER_MARKER]) ->
  tames since (read_owner_marker p) (fun o m => (forall owner, o = Some owner -> recorded p owner) /\ since m).
Proof.
  intros Hw. unfold read_owner_marker. eapply tames_bind; [apply tames_since, tames_attempt, tames_read|].
  intros r m [Hr Hm]. split; [apply tame_refl|]. intros a [= <-]. split; [|done].
  destruct r as [bytes|]; [|done]. intros owner Ho. right. exists bytes. split; [|done].
  destruct Hm as (_ & _ & W). by apply W; [|apply Hr].
Qed.

Lemma tames_live_by_marker p o :
  tames (fun m => (forall owner, o = Some owner -> recorded p owner) /\ since m) (live_by_marker o)
    (fun live m => (live = true -> exists o, recorded p o /\ alive o) /\ since m).
Proof.
  destruct o as [o|]; simpl.
  - eapply (tames_with (recorded p o)); [intros m [H Hm]; split; [by apply H|exact Hm]|]. intros Hr.
    eapply tames_weaken; [apply tames_is_live|done|]. intros live m [H Hm]. split; [|done]. eauto.
  - intros m [_ Hm]. split; [apply tame_refl|]. by intros a [= <-].
Qed.

(** One directory of the root: unless it is not a clone's, or is gone, it is settled. *)
Definition handled (name : string) (o : ReapOutcome) (m : Machine) : Prop :=
  is_clone_datadir_name name = true -> fs m !! (root ++ [name]) = Some Dir -> settled o (root ++ [name]) name.

Lemma handled_mono name o o' m m' : tame m m' -> extends o o' -> handled name o m -> handled name o' m'.
Proof.
  intros (_ & _ & W) He Hh Hn Hd. eapply settled_extends; [done|]. apply Hh; [done|]. apply W; [|done]. unfold watched. eauto.
Qed.

Definition swept (o0 o : ReapOutcome) (name : string) (m : Machine) : Prop :=
  since m /\ honest o m /\ extends o0 o /\ handled name o m.

Lemma extends_refl o : extends o o.
Proof. done. Qed.

Lemma extends_trans o1 o2 o3 : extends o1 o2 -> extends o2 o3 -> extends o1 o3.
Proof. intros [A1 L1] [A2 L2]. split; by etrans. Qed.

Lemma tames_sweep_one es name o :
  Forall ledgered es ->
  tames (fun m => since m /\ honest o m) (sweep_one l es (root ++ [name]) o) (fun o' m => swept o o' name m).
Proof.
  intros Hes. unfold sweep_one, name_of. rewrite last_snoc.
  eapply tames_bind; [apply tames_get|]. intros dir.
  destruct (negb dir || negb (is_clone_datadir_name name)) eqn:Hd.
  { intros m (-> & Hs & Ho). split; [apply tame_refl|]. intros a [= <-]. do 3 (split; [done|]). intros Hn Hdir.
    simpl in Hdir. unfold is_dir in Hd. rewrite bool_decide_eq_true_2, Hn in Hd by done. done. }
  destruct (existsb _ (alarms o)) eqn:Ha.
  { intros m (-> & Hs & Ho). split; [apply tame_refl|]. intros a [= <-]. do 3 (split; [done|]). intros _ _. left.
    apply existsb_exists in Ha as (x & Hx & Hp). exists x. split; [by apply list_elem_of_In|by apply bool_decide_eq_true in Hp]. }
  assert (forall m live, since m -> honest o m -> (live = true -> exists w, recorded (root ++ [name]) w /\ alive w) ->
    live = true -> swept o (add_live o name) name m) as Hlive.
  { intros m live Hs Ho Hl ->. do 2 (split; [done|]). split; [split; [done|]; simpl; set_solver|]. intros _ _. right.
    split; [simpl; set_solver|by apply Hl]. }
  eapply tames_bind.
  { eapply tames_weaken; [eapply (tames_keep since); [apply (honest_stable o)|apply (tames_live_by_ledger (root ++ [name]) es Hes)]
                        |by intros m (_ & ? & ?)|intros x m H; exact H]. }
  intros [|]; simpl.
  { intros m ((Hl & Hs) & Ho). split; [apply tame_refl|]. intros a [= <-]. by eapply Hlive. }
  eapply tames_bind.
  { eapply tames_weaken; [eapply (tames_keep since); [apply (honest_stable o)|apply tames_read_owner_marker]
                        |by intros m ((_ & ?) & ?)|intros x m H; exact H]. unfold watched. eauto 8. }
  intros owner. simpl. eapply tames_bind; [eapply tames_keep; [apply (honest_stable o)|apply tames_live_by_marker]|].
  intros [|]; simpl.
  { intros m ((Hl & Hs) & Ho). split; [apply tame_refl|]. intros a [= <-]. by eapply Hlive. }
  eapply tames_weaken; [apply tames_reap_one|by intros m ((_ & ?) & ?)|].
  intros o' m (Hs & Ho & gone & ->). do 2 (split; [done|]). split; [split; [simpl; set_solver|done]|].
  intros _ _. left. eexists. split; [simpl; apply elem_of_app; right; by apply list_elem_of_singleton|done].
Qed.

Lemma tames_sweep_children es ps : forall o,
  Forall ledgered es -> Forall (fun p => exists name, p = root ++ [name]) ps ->
  tames (fun m => since m /\ honest o m) (sweep_children l es ps o)
    (fun o' m => since m /\ honest o' m /\ extends o o' /\ forall name, root ++ [name] ∈ ps -> handled name o' m).
Proof.
  induction ps as [|p ps IH]; intros o Hes Hps; simpl.
  - intros m [Hs Ho]. split; [apply tame_refl|]. intros a [= <-]. do 3 (split; [done|]). set_solver.
  - apply Forall_cons in Hps as [[name ->] Hps]. eapply tames_bind; [apply (tames_sweep_one _ name o Hes)|]. intros o1 m (Hs & Ho & He & Hh).
    destruct (IH o1 Hes Hps m (conj Hs Ho)) as [Ht Hq]. split; [done|]. intros o' E. destruct (Hq o' E) as (Hs' & Ho' & He' & Hh').
    do 2 (split; [done|]). split; [by eapply extends_trans|]. intros n [Hn|Hn]%elem_of_cons; [|by apply Hh'].
    apply app_inj_2 in Hn as [_ [= ->]]; [|done]. eapply handled_mono; [exact Ht|exact He'|exact Hh].
Qed.

(** A whole pass: every clone directory of the root that is still there is settled. *)
Lemma tames_pass :
  tames (eq m0) (reap_orphans_with_sweep l root) (fun o m =>
    honest o m /\ (fs m !! root = Some Dir -> forall name, handled name o m)).
Proof.
  unfold reap_orphans_with_sweep, reap_from_ledger.
  eapply tames_weaken with (P := since); [|by intros m <-; apply tame_refl|intros o m H; exact H].
  eapply tames_bind with (Q := fun o m => since m /\ honest o m).
  { eapply tames_bind; [apply tames_entries|]. intros es.
    eapply tames_weaken; [apply tames_reap_entries|intros m [_ Hm]; by split; [|intros a Ha%elem_of_nil]|done]. }
  intros o. unfold sweep_clone_root.
  eapply tames_bind.
  { apply tames_honest, tames_read_dir. }
  intros [ps|]; simpl.
  - intros m ([Hroot ->] & Hs & Ho). assert (Forall (fun p => exists name, p = root ++ [name]) (children (fs m) root)) as Hps.
    { apply Forall_forall. intros q (name & n & -> & _)%children_inv. eauto. }
    assert (tames (fun m' => (since m' /\ honest o m') /\ tame m m') (run! es := entries l in sweep_children l es (children (fs m) root) o)
      (fun o' m' => (honest o' m' /\ forall name, root ++ [name] ∈ children (fs m) root -> handled name o' m') /\ tame m m')) as H.
    { eapply tames_keep; [intros m1 m2 H1 H2; by eapply tame_trans|].
      eapply tames_bind; [eapply (tames_keep since); [apply (honest_stable o)|apply tames_entries]|].
      intros es. simpl. eapply (tames_with (Forall ledgered es)); [intros m1 ((Hes & Hs1) & Ho1); split; [done|exact (conj Hs1 Ho1)]|].
      intros Hes. eapply tames_weaken; [by apply tames_sweep_children|done|]. intros o' m' (_ & ? & _ & ?). done. }
    destruct (H m) as [Ht Hq]; [by split; [|apply tame_refl]|]. split; [done|]. intros o' E.
    destruct (Hq o' E) as [[Ho' Hh] Htm]. split; [done|]. intros _ name Hn Hd. apply Hh; [|done|done].
    destruct Htm as (_ & _ & W). eapply children_elem, W; [|done]. unfold watched. eauto.
  - intros m (Hroot & Hs & Ho). split; [apply tame_refl|]. intros a [= <-]. split; [done|]. intros Hd. simpl in Hd. congruence.
Qed.

(** *** A pass that nothing disturbs ends *)

(** Every file of the ledger decodes, and neither directory is in fact a file. *)
Definition readable (m : Machine) : Prop :=
  (forall n, fs m !! ledger_dir l = Some n -> n = Dir) /\ (forall n, fs m !! root = Some n -> n = Dir) /\
  (forall name n, fs m !! (ledger_dir l ++ [name]) = Some n ->
     exists bytes, n = File bytes /\ (has_json_extension name = true -> is_Some (entry_of_json bytes))).

Lemma readable_stable : stable readable.
Proof.
  intros m m' (_ & _ & W) (H1 & H2 & H3). unfold watched in W. split; [|split].
  - intros n Hn. apply H1, W; [eauto|done].
  - intros n Hn. apply H2, W; [eauto|done].
  - intros name n Hn. eapply H3, W; [eauto 6|done].
Qed.

Definition finishes {A} (x : IO A) : Prop :=
  tames anywhere x nothing /\ forall m, faults m = [] -> readable m -> exists a, (x m).2 = Some (Ok a).

Lemma finishes_bind {A B} (x : IO A) (f : A -> IO B) : finishes x -> (forall a, finishes (f a)) -> finishes (bind x f).
Proof.
  intros [Tx Ex] Hf. split; [apply tame_bind; [done|intros a; apply Hf]|]. intros m Hm Hr.
  destruct (Ex m Hm Hr) as [a Ha]. destruct (Tx m I) as [Ht _]. unfold bind.
  destruct (x m) as [m1 r]. simpl in *. subst r. apply Hf; [by apply Ht|by eapply readable_stable].
Qed.

Lemma finishes_ret {A} (a : A) : finishes (ret a).
Proof. split; [apply tame_ret|]. intros m _ _. by exists a. Qed.

Lemma finishes_get {A} (f : Machine -> A) : finishes (get f).
Proof. split; [by eapply tames_weaken; [apply tames_get|..]|]. intros m _ _. by exists (f m). Qed.

Lemma finishes_command {A} (answer : Machine -> A) otherwise : finishes (command answer otherwise).
Proof.
  split; [by eapply tames_weaken; [apply tames_command|..]|]. intros m Hf _. unfold command, next. rewrite Hf. eauto.
Qed.

Lemma finishes_attempt {A} (x : IO A) : tames anywhere x nothing -> (forall m, faults m = [] -> (x m).2 <> None) -> finishes (attempt x).
Proof.
  intros Hx Hn. split; [by eapply tames_weaken; [apply tames_attempt, Hx|..]|]. intros m Hf _. specialize (Hn m Hf).
  unfold attempt. destruct (x m) as [m1 [r|]]; simpl in *; [eauto|done].
Qed.

Lemma fallible_not_killed {A} (e : CloneError) (full : Machine -> option (Machine * A)) partial m :
  faults m = [] -> (fallible e full partial m).2 <> None.
Proof. intros Hf. unfold fallible, next. rewrite Hf. by destruct (full m) as [[]|]. Qed.

Lemma finishes_signal pid sig : finishes (signal pid sig).
Proof. split; [apply tames_signal|]. intros m Hf _. unfold signal, next. rewrite Hf. by exists tt. Qed.

Lemma finishes_sleep : finishes sleep.
Proof. split; [apply tames_sleep|]. intros m _ _. by exists tt. Qed.

Lemma finishes_pid_alive pid : finishes (pid_alive pid).
Proof. unfold pid_alive. destruct (pid =? 0); [apply finishes_ret|apply finishes_command]. Qed.

Lemma finishes_is_live o : finishes (is_live o).
Proof.
  unfold is_live. apply finishes_bind; [apply finishes_pid_alive|]. intros []; simpl; [|apply finishes_ret].
  apply finishes_bind; [|intros; apply finishes_ret]. unfold process_start_time.
  destruct (_ =? 0); [apply finishes_ret|apply finishes_command].
Qed.

Lemma finishes_wait_pid_gone pid tries : finishes (wait_pid_gone pid tries).
Proof.
  induction tries as [|n IH]; simpl; (apply finishes_bind; [apply finishes_pid_alive|]); intros []; simpl; try apply finishes_ret.
  apply finishes_bind; [apply finishes_sleep|done].
Qed.

Lemma finishes_stop_postmaster pid : finishes (stop_postmaster pid).
Proof.
  unfold stop_postmaster. apply finishes_bind; [apply finishes_pid_alive|]. intros []; cbn [negb]; [|apply finishes_ret].
  apply finishes_bind; [apply finishes_signal|]. intros _. apply finishes_bind; [apply finishes_wait_pid_gone|].
  intros []; [apply finishes_ret|]. apply finishes_bind; [apply finishes_signal|]. intros _.
  apply finishes_bind; [apply finishes_wait_pid_gone|]. intros _. apply finishes_ret.
Qed.

Lemma finishes_attempt_read p : finishes (attempt (read (Tooling EmptyString) p)).
Proof. apply finishes_attempt; [by eapply tames_weaken; [apply tames_read|..]|]. intros m. apply fallible_not_killed. Qed.

Lemma finishes_destroy_orphan e : finishes (destroy_orphan e).
Proof.
  unfold destroy_orphan, postmaster_pid. apply finishes_bind.
  { apply finishes_bind; [apply finishes_attempt_read|]. intros r. apply finishes_ret. }
  intros pid. apply finishes_bind; [destruct pid; [apply finishes_stop_postmaster|apply finishes_ret]|]. intros _.
  apply finishes_bind; [apply finishes_get|]. intros there. apply finishes_bind.
  { destruct there; [|apply finishes_ret]. apply finishes_bind; [|intros; apply finishes_ret].
    apply finishes_attempt; [apply tames_remove_dir_all|]. intros m. apply fallible_not_killed. }
  intros _. apply finishes_bind; [apply finishes_get|]. intros. apply finishes_ret.
Qed.

Lemma finishes_forget id : finishes (forget l id).
Proof.
  unfold forget. apply finishes_bind; [|intros; apply finishes_ret]. split; [apply tames_remove_file|].
  intros m Hf (_ & _ & Hr). unfold remove_file, fallible, next. rewrite Hf.
  destruct (fs m !! entry_path l id) as [n|] eqn:E; [|simpl; eauto]. unfold entry_path in E.
  destruct (Hr _ _ E) as (bytes & -> & _). simpl. eauto.
Qed.

Lemma finishes_reap_one e o : finishes (reap_one l e o).
Proof.
  unfold reap_one. apply finishes_bind; [apply finishes_destroy_orphan|]. intros []; [|apply finishes_ret].
  apply finishes_bind; [apply finishes_forget|]. intros. apply finishes_ret.
Qed.

Lemma read_entries_ends m ps :
  faults m = [] -> readable m -> Forall (fun p => exists name n, p = ledger_dir l ++ [name] /\ fs m !! p = Some n) ps ->
  exists es, read_entries ps m = (m, Some (Ok es)).
Proof.
  intros Hf (_ & _ & Hr). induction 1 as [|p ps (name & n & -> & Hn) _ IH]; simpl; [by exists []|].
  destruct (Hr _ _ Hn) as (bytes & -> & Hd). unfold is_json, name_of. rewrite last_snoc.
  destruct (has_json_extension name); [|done]. destruct (Hd eq_refl) as [e He]. destruct IH as [es Hes].
  unfold bind at 1, read, fallible, next. rewrite Hf, Hn, He. unfold bind. rewrite Hes. by exists (e :: es).
Qed.

Lemma entries_tame : tames anywhere (entries l) nothing.
Proof.
  unfold entries. apply tame_bind; [by eapply tames_weaken; [apply tames_read_dir|..]|]. intros [ps|]; [|apply tame_ret].
  induction ps as [|p ps IH]; simpl; [apply tame_ret|]. destruct (is_json p); [|done].
  apply tame_bind; [by eapply tames_weaken; [apply tames_read|..]|]. intros bytes.
  destruct (entry_of_json bytes); [|apply tames_fail]. apply tame_bind; [done|]. intros. apply tame_ret.
Qed.

Lemma finishes_entries : finishes (entries l).
Proof.
  split; [apply entries_tame|]. intros m Hf Hr. unfold entries, bind, read_dir, fallible, next. rewrite Hf.
  destruct (fs m !! ledger_dir l) as [n|] eqn:E; [|simpl; by exists []]. destruct Hr as (H1 & H2 & H3).
  rewrite (H1 _ E). destruct (read_entries_ends m (children (fs m) (ledger_dir l)) Hf) as [es Hes].
  - by split; [|split].
  - apply Forall_forall. intros q (name & n' & -> & Hq)%children_inv. eauto.
  - simpl. rewrite Hes. by exists es.
Qed.

Lemma finishes_read_root e : finishes (read_dir e root).
Proof.
  split; [by eapply tames_weaken; [apply tames_read_dir|..]|]. intros m Hf (_ & H2 & _).
  unfold read_dir, fallible, next. rewrite Hf. destruct (fs m !! root) as [n|] eqn:E; [|simpl; eauto].
  rewrite (H2 _ eq_refl). simpl. eauto.
Qed.

Lemma finishes_reap_entries es : forall o, finishes (reap_entries l es o).
Proof.
  induction es as [|e es IH]; intros o; simpl; [apply finishes_ret|]. apply finishes_bind; [apply finishes_is_live|].
  intros []; [apply IH|]. apply finishes_bind; [apply finishes_reap_one|done].
Qed.

Lemma finishes_live_by_ledger p es : finishes (live_by_ledger p es).
Proof.
  induction es as [|e es IH]; simpl; [apply finishes_ret|]. case_bool_decide; [|done].
  apply finishes_bind; [apply finishes_is_live|]. intros []; [apply finishes_ret|done].
Qed.

Lemma finishes_sweep_one es p o : finishes (sweep_one l es p o).
Proof.
  unfold sweep_one. destruct (name_of p) as [name|]; [|apply finishes_ret]. apply finishes_bind; [apply finishes_get|]. intros dir.
  destruct (_ || _); [apply finishes_ret|]. destruct (existsb _ _); [apply finishes_ret|].
  apply finishes_bind; [apply finishes_live_by_ledger|]. intros []; [apply finishes_ret|].
  apply finishes_bind; [apply finishes_bind; [apply finishes_attempt_read|intros; apply finishes_ret]|]. intros owner.
  apply finishes_bind; [destruct owner; [apply finishes_is_live|apply finishes_ret]|].
  intros []; [apply finishes_ret|apply finishes_reap_one].
Qed.

Lemma finishes_sweep_children es ps : forall o, finishes (sweep_children l es ps o).
Proof.
  induction ps as [|p ps IH]; intros o; simpl; [apply finishes_ret|]. apply finishes_bind; [apply finishes_sweep_one|done].
Qed.

Lemma finishes_pass : finishes (reap_orphans_with_sweep l root).
Proof.
  unfold reap_orphans_with_sweep, reap_from_ledger, sweep_clone_root.
  apply finishes_bind; [apply finishes_bind; [apply finishes_entries|intros; apply finishes_reap_entries]|]. intros o.
  apply finishes_bind; [apply finishes_read_root|]. intros [ps|]; [|apply finishes_ret].
  apply finishes_bind; [apply finishes_entries|]. intros. apply finishes_sweep_children.
Qed.
End pass.

(** No clone is left unaccounted for.  Whatever fails along the way and whatever the
    postmasters do when they are signalled, after a reaper pass that returns, each clone
    directory still under the root either raised an alarm that says it was not reaped, or
    is listed as in use and was recorded, in the ledger or in its marker, under an owner
    whose process was there when the pass began. *)
Theorem reaper_accounts_for_every_clone (l : CloneLedger) (root : path) (m m' : Machine) (o : ReapOutcome) (name : string) :
  (forall pid sig m, tame l root m (deliver pid sig m)) -> (forall m, tame l root m (passes m)) ->
  reap_orphans_with_sweep l root m = (m', Some (Ok o)) ->
  is_clone_datadir_name name = true -> fs m' !! root = Some Dir -> fs m' !! (root ++ [name]) = Some Dir ->
  (exists a, a ∈ alarms o /\ alarm_datadir a = root ++ [name] /\ reaped a = false) \/
  (name ∈ live_skipped o /\
   exists owner, recorded l m (root ++ [name]) owner /\ owner_pid_of owner <> 0 /\ is_Some (procs m !! owner_pid_of owner)).
Proof.
  intros Hd Hp Hrun Hname Hroot Hdir. destruct (tames_pass l root Hd Hp m m eq_refl) as [_ H].
  rewrite Hrun in H. destruct (H o eq_refl) as [Ho Hh].
  destruct (Hh Hroot name Hname Hdir) as [(a & Ha & Hp')|(Hl & owner & Hrec & Hal & Hal' & _)]; [left|right; eauto 8].
  exists a. split; [done|]. split; [done|]. destruct (reaped a) eqn:R; [|done]. exfalso.
  destruct (Ho a Ha) as [Hgone _]; [rewrite Hp'; unfold watched; eauto 6|].
  specialize (Hgone R). rewrite Hp' in Hgone. simpl in Hgone. congruence.
Qed.

(** A dead owner's clone does not outlive a pass.  On a host where nothing fails and
    every file of the ledger decodes, a pass ends, and each clone directory still under the
    root is recorded under an owner that is alive with the start time recorded for it, or
    whose start time was not recorded or cannot be read. *)
Lemma reaper_clears_dead_owners (l : CloneLedger) (root : path) (m : Machine) :
  (forall pid sig m, tame l root m (deliver pid sig m)) -> (forall m, tame l root m (passes m)) ->
  faults m = [] -> readable l root m ->
  exists m' o, reap_orphans_with_sweep l root m = (m', Some (Ok o)) /\
    forall name, is_clone_datadir_name name = true -> fs m' !! root = Some Dir -> fs m' !! (root ++ [name]) = Some Dir ->
    exists owner, recorded l m (root ++ [name]) owner /\ is_Some (procs m !! owner_pid_of owner) /\
      start_matches (started m (owner_pid_of owner)) (owner_start_of owner) = true.
Proof.
  intros Hd Hp Hf Hr. destruct (finishes_pass l root Hd Hp) as [_ He]. destruct (He m Hf Hr) as [o Ho].
  destruct (reap_orphans_with_sweep l root m) as [m' r] eqn:Hrun. simpl in Ho. subst r. exists m', o. split; [done|].
  intros name Hname Hroot Hdir. destruct (tames_pass l root Hd Hp m m eq_refl) as [_ H]. rewrite Hrun in H.
  destruct (H o eq_refl) as [Hon Hh].
  destruct (Hh Hroot name Hname Hdir) as [(a & Ha & Hp')|(_ & owner & Hrec & _ & Hal & Hst)]; [|eauto 6].
  exfalso. destruct (Hon a Ha) as [_ Hnd]; [rewrite Hp'; unfold watched; eauto 6|]. apply (Hnd Hf). by rewrite Hp'.
Qed.

(** One ledger file that does not decode stops every pass, the sweep included: the pass
    fails and nothing on the host has changed. *)
Theorem torn_entry_stops_the_reaper (l : CloneLedger) (root : path) (m : Machine) (name : string) (bytes : list byte) :
  faults m = [] -> fs m !! ledger_dir l = Some Dir ->
  fs m !! (ledger_dir l ++ [name]) = Some (File bytes) -> has_json_extension name = true -> entry_of_json bytes = None ->
  exists e, reap_orphans_with_sweep l root m = (m, Some (Err e)) /\ reap_orphans l m = (m, Some (Err e)).
Proof.
  intros Hf Hl Hn Hj Hd. assert (exists e, entries l m = (m, Some (Err e))) as [e He].
  { unfold entries, bind at 1, read_dir, fallible, next. rewrite Hf, Hl. simpl.
    pose proof (children_elem _ _ _ _ Hn) as Hin. revert Hin. generalize (children (fs m) (ledger_dir l)).
    induction l0 as [|p ps IH]; intros Hin; [by apply elem_of_nil in Hin|]. simpl.
    apply elem_of_cons in Hin as [<-|Hin].
    - unfold is_json, name_of. rewrite last_snoc, Hj. unfold bind, read, fallible, next. rewrite Hf, Hn, Hd. by eexists.
    - destruct (IH Hin) as [e He]. destruct (is_json p); [|eauto]. unfold bind at 1, read, fallible, next. rewrite Hf.
      destruct (fs m !! p) as [[|bytes']|]; [by eexists| |by eexists]. destruct (entry_of_json bytes'); [|by eexists].
      unfold bind. rewrite He. by eexists. }
  exists e. unfold reap_orphans_with_sweep, reap_orphans, reap_from_ledger, bind. by rewrite He.
Qed.
End reaper.

(** ** A host to try a pass on *)

Module Demo.

#[global] Instance OwnerIdentity_eq_dec : EqDecision OwnerIdentity.
Proof. solve_decision. Defined.
#[global] Instance LedgerEntry_eq_dec : EqDecision LedgerEntry.
Proof. solve_decision. Defined.

#[global, refine] Instance OwnerIdentity_countable : Countable OwnerIdentity :=
  inj_countable' (fun o => (owner_pid_of o, owner_start_of o)) (fun '(p, s) => mkOwner p s) _.
Proof. by intros []. Defined.
#[global, refine] Instance LedgerEntry_countable : Countable LedgerEntry :=
  inj_countable' (fun e => (clone_id e, datadir e, entry_port e, owner_pid e, owner_start e))
    (fun '(i, d, p, o, s) => mkEntry i d p o s) _.
Proof. by intros []. Defined.

(** A codec for the witnesses: the bits of a number, then an end mark. *)
Fixpoint bits (p : positive) : list byte :=
  match p with xH => [x02] | xO p => x00 :: bits p | xI p => x01 :: bits p end.
Fixpoint unbits (l : list byte) : option positive :=
  match l with
  | [x02] => Some xH
  | x00 :: l => option_map xO (unbits l)
  | x01 :: l => option_map xI (unbits l)
  | _ => None
  end.

Lemma unbits_bits p : unbits (bits p) = Some p.
Proof. induction p as [p IH|p IH|]; simpl; [by rewrite IH..|done]. Qed.

Lemma unbits_prefix p : forall k p', unbits (take k (bits p)) = Some p' -> p' = p.
Proof.
  induction p as [p IH|p IH|]; intros [|k] p'; simpl; try done.
  - destruct (unbits (take k (bits p))) eqn:E; [|done]. simpl. intros [= <-]. by rewrite (IH _ _ E).
  - destruct (unbits (take k (bits p))) eqn:E; [|done]. simpl. intros [= <-]. by rewrite (IH _ _ E).
  - rewrite take_nil. by intros [= <-].
Qed.

Definition to_bits {A} `{Countable A} (a : A) : option (list byte) := Some (bits (encode a)).
Definition of_bits {A} `{Countable A} (l : list byte) : option A := unbits l ≫= decode.

Lemma of_to_bits {A} `{Countable A} (a : A) b : to_bits a = Some b -> of_bits b = Some a.
Proof. intros [= <-]. unfold of_bits. rewrite unbits_bits. simpl. apply decode_encode. Qed.

Lemma of_bits_prefix {A} `{Countable A} (a a' : A) b k : to_bits a = Some b -> of_bits (take k b) = Some a' -> a' = a.
Proof.
  intros [= <-]. unfold of_bits. destruct (unbits _) as [p|] eqn:E; [|done]. rewrite (unbits_prefix _ _ _ E). simpl.
  rewrite decode_encode. congruence.
Qed.

(** A run that is evaluated once: a test of its end state and its value. *)
Lemma ran_ok {S A E} (x : S * option (result E A)) (test : S -> A -> bool) :
  match x with (s, Some (Ok a)) => test s a | _ => false end = true ->
  exists s a, x = (s, Some (Ok a)) /\ test s a = true.
Proof. destruct x as [s [[a|e]|]]; intros H; [eauto|done..]. Qed.

Definition is_dir (n : option Node) : bool := match n with Some Dir => true | _ => false end.
Lemma is_dir_true n : is_dir n = true -> n = Some Dir.
Proof. by destruct n as [[]|]. Qed.

(** A signal ends the process it is sent to, and nothing happens meanwhile. *)
Definition demo_deliver (pid : Z) (sig : string) (m : Machine) : Machine := set_procs m (delete pid (procs m)).

Lemma demo_deliver_tame l root pid sig m : tame l root m (demo_deliver pid sig m).
Proof. split; [apply delete_subseteq|]. by split. Qed.
Lemma demo_passes_tame l root m : tame l root m (id m).
Proof. apply tame_refl. Qed.

Definition demo_ledger : CloneLedger := mkLedger ["state"%string].
Definition demo_root : path := ["clones"%string].
Definition demo_clone : path := ["clones"; "local-clone-42-1"]%string.

(** One clone of process 42, with its data, and a postmaster 77 serving it. *)
Definition demo_host (ps : gmap Z Process) (fl : list Fault) (entry : list byte) : Machine :=
  mkMachine (list_to_map
    [(["state"%string], Dir); (["state"; "local-clone-42-1.json"]%string, File entry);
     (demo_root, Dir); (demo_clone, Dir);
     (demo_clone ++ ["PG_VERSION"%string], File [x31; x38]);
     (demo_clone ++ ["postmaster.pid"%string], File (as_bytes "77"))]) ps fl.

Definition demo_entry : list byte :=
  Eval vm_compute in bits (encode (mkEntry "local-clone-42-1" demo_clone 6000 42 "Mon")).
Definition demo_procs : gmap Z Process := {[77 := mkProcess (Some "Tue"%string)]}.

(** The removal of the data directory fails: the directory stays, alarmed. *)
Abbreviation demo_pass m := (reap_orphans_with_sweep of_bits of_bits demo_deliver id demo_ledger demo_root m).
Abbreviation demo_stuck := (demo_host demo_procs [Succeed; Succeed; Succeed; Succeed; Succeed; Succeed; Succeed; FailAfter 1] demo_entry).

Lemma reaper_accounts_for_every_clone_witness :
  exists m' o, demo_pass demo_stuck = (m', Some (Ok o)) /\
    ((exists a, a ∈ alarms o /\ alarm_datadir a = demo_root ++ ["local-clone-42-1"%string] /\ reaped a = false) \/
     ("local-clone-42-1"%string ∈ live_skipped o /\
      exists owner, recorded of_bits of_bits demo_ledger demo_stuck (demo_root ++ ["local-clone-42-1"%string]) owner /\
        owner_pid_of owner <> 0 /\ is_Some (procs demo_stuck !! owner_pid_of owner))).
Proof.
  destruct (ran_ok (demo_pass demo_stuck) (fun m' _ => is_dir (fs m' !! demo_root) && is_dir (fs m' !! demo_clone)))
    as (m' & o & E & [Hr Hc]%andb_true_iff); [vm_compute; reflexivity|].
  exists m', o. split; [exact E|].
  apply (reaper_accounts_for_every_clone of_bits of_bits demo_deliver id demo_ledger demo_root demo_stuck m' o "local-clone-42-1").
  - apply demo_deliver_tame.
  - apply demo_passes_tame.
  - exact E.
  - vm_compute. reflexivity.
  - by apply is_dir_true.
  - by apply is_dir_true.
Defined.

(** With nothing failing the directory goes, and with it the entry and the postmaster. *)
Example demo_pass_clears :
  let m' := (demo_pass (demo_host demo_procs [] demo_entry)).1 in
  fs m' !! demo_clone = None /\ fs m' !! ["state"; "local-clone-42-1.json"]%string = None /\ procs m' !! 77 = None.
Proof. vm_compute. done. Qed.

(** A write cut short after ten bytes. *)
Lemma torn_entry_stops_the_reaper_witness :
  exists e, demo_pass (demo_host demo_procs [] (take 10 demo_entry)) = (demo_host demo_procs [] (take 10 demo_entry), Some (Err e)) /\
    reap_orphans of_bits demo_deliver id demo_ledger (demo_host demo_procs [] (take 10 demo_entry)) =
      (demo_host demo_procs [] (take 10 demo_entry), Some (Err e)).
Proof.
  apply (torn_entry_stops_the_reaper of_bits of_bits demo_deliver id demo_ledger demo_root
    (demo_host demo_procs [] (take 10 demo_entry)) "local-clone-42-1.json" (take 10 demo_entry)); vm_compute; reflexivity.
Defined.
End Demo.
End CloneLedger.
