(* ===== verification/CloneProvider.v ===== *)
(** * CloneProvider: clone governance, the providers and the parity check

    Models [src/crates/clone-orchestrator/src/provider.rs] (the trait, [with_clone], the
    [none] and [dblab] providers), [provider/local.rs] (the [pg_basebackup] provider) and
    [provider/parity.rs] on the host of [Machine].  The PostgreSQL tools are parameters: a
    tool is what it leaves behind when it succeeds and when it is cut short. *)

From stdpp Require Import pretty.
From S2P Require Import Prelude Text Config Wire GrantedApply Machine CloneLedger.

Module Governance.
Import Text CloneLedger.
Import GrantedApply(ProviderKind, PK_None, PK_Local, PK_Dblab).

Inductive DataClassification : Type := ProdPii | Synthetic.

#[global] Instance DataClassification_eq_dec : EqDecision DataClassification.
Proof. solve_decision. Defined.

Record CloneGovernance : Type := mkGovernance {
  encryption_at_rest : bool;
  access_log : string;
  gov_owner : string;
  location : string;
  classification : DataClassification
}.

Definition blank (s : string) : bool := bool_decide (trim s = EmptyString).

Definition noncompliance (g : CloneGovernance) : option string :=
  if negb (encryption_at_rest g) then Some "clone is not encrypted at rest (SPEC §4)"%string
  else if blank (access_log g) then Some "clone is not access-logged (SPEC §4)"%string
  else if blank (gov_owner g) then Some "clone has no documented owner (SPEC §4)"%string
  else if blank (location g) then Some "clone has no documented location (SPEC §4)"%string
  else if negb (bool_decide (classification g = ProdPii)) then
    Some "a clone of prod must be prod-PII-classified (SPEC §4 clone = prod-classified)"%string
  else None.

Definition assert_compliant (g : CloneGovernance) : result CloneError unit :=
  match noncompliance g with
  | Some reason => Err (GovernanceViolation reason)
  | None => Ok tt
  end.

Record CloneHandle : Type := mkHandle {
  handle_provider : ProviderKind;
  handle_clone_id : string;
  conn : string;
  lsn : string;
  staleness_lsn_bytes : Z;
  governance : CloneGovernance
}.

(** ** The trait, and the funnel that always tears down *)

Import Machine.

Class CloneProvider (P : Type) := {
  provision : P -> Machine -> Machine * P * option (result CloneError CloneHandle);
  destroy : P -> CloneHandle -> Machine -> Machine * P * option (result CloneError unit)
}.

(** The result, with what [on_teardown_err] was told. *)
Definition with_clone {P} `{CloneProvider P} {T} (provider : P) (body : CloneHandle -> IO T) (m : Machine)
    : Machine * P * option (result CloneError T * option CloneError) :=
  match provision provider m with
  | (m, provider, None) => (m, provider, None)
  | (m, provider, Some (Err e)) => (m, provider, Some (Err e, None))
  | (m, provider, Some (Ok handle)) =>
      match assert_compliant (governance handle) with
      | Err e =>
          match destroy provider handle m with
          | (m, provider, None) => (m, provider, None)
          | (m, provider, Some _) => (m, provider, Some (Err e, None))
          end
      | Ok _ =>
          match body handle m with
          | (m, None) => (m, provider, None)
          | (m, Some result) =>
              match destroy provider handle m with
              | (m, provider, None) => (m, provider, None)
              | (m, provider, Some (Err te)) => (m, provider, Some (result, Some te))
              | (m, provider, Some (Ok _)) => (m, provider, Some (result, None))
              end
          end
      end
  end.

(** ** The [none] and [dblab] providers *)

Record NoneProvider : Type := mkNoneProvider { primary_dsn : string; none_owner : string; none_access_log : string }.

#[global] Instance NoneProvider_provider : CloneProvider NoneProvider := {|
  provision p m :=
    (m, p, Some (Ok (mkHandle PK_None "primary-intxn" (primary_dsn p) "0/0" 0
                       (mkGovernance true (none_access_log p) (none_owner p) (primary_dsn p) ProdPii))));
  destroy p _ m := (m, p, Some (Ok tt))
|}.

Record DblabProvider : Type := mkDblabProvider { detected : bool }.

Definition detect (dblab_api_url : option string) : DblabProvider :=
  mkDblabProvider (match dblab_api_url with Some v => negb (blank v) | None => false end).

#[global] Instance DblabProvider_provider : CloneProvider DblabProvider := {|
  provision p m :=
    (m, p, Some (if negb (detected p) then Err (Unavailable PK_Dblab) else Err (Unavailable PK_Dblab)));
  destroy p _ m := (m, p, Some (Ok tt))
|}.
End Governance.

Module LocalClone.
Import Text Machine CloneLedger Governance.
Import GrantedApply(ProviderKind, PK_None, PK_Local, PK_Dblab).

Record PrimaryRef : Type := mkPrimary { pr_host : string; pr_port : Z; repl_user : string; pr_dbname : string }.

Definition sql_dsn (p : PrimaryRef) : string :=
  "host=" +:+ pr_host p +:+ " port=" +:+ pretty (pr_port p) +:+ " user=" +:+ repl_user p +:+ " dbname=" +:+ pr_dbname p.

Record LocalCloneConfig : Type := mkLocalConfig {
  pg_bin : path;
  clone_root : path;
  clone_port : Z;
  local_primary : PrimaryRef;
  local_owner : string
}.

Record LocalCloneProvider : Type := mkLocalProvider { cfg : LocalCloneConfig; ledger : CloneLedger; provision_seq : Z }.

Definition local_new (c : LocalCloneConfig) (l : CloneLedger) : LocalCloneProvider := mkLocalProvider c l 0.

(** ** The PostgreSQL tools *)

(** A program run to its end, [None] where it exits with an error, and cut short. *)
Record Tool (Arg : Type) : Type := mkTool {
  full : Arg -> Machine -> option Machine;
  partial : Arg -> nat -> Machine -> Machine
}.
#[global] Arguments full {Arg} t _ _.
#[global] Arguments partial {Arg} t _ _ _.

(** [Self::run]: a tool that cannot be started, and one that exits with an error. *)
Definition run_tool {Arg} (t : Tool Arg) (arg : Arg) (what : string) : IO unit :=
  fun m =>
    match next m with
    | (Succeed, m) =>
        match full t arg m with
        | Some m => (m, Some (Ok tt))
        | None => (m, Some (Err (ProvisionFailed (what +:+ " failed"))))
        end
    | (FailAfter O, m) => (m, Some (Err (Tooling (what +:+ ": spawn failed"))))
    | (FailAfter (S k), m) => (partial t arg k m, Some (Err (ProvisionFailed (what +:+ " failed"))))
    | (KillAfter k, m) => (partial t arg k m, None)
    end.

Definition is_hexdigit (b : byte) : bool :=
  let z := Z_of_byte b in ((48 <=? z) && (z <=? 57)) || ((65 <=? z) && (z <=? 70)) || ((97 <=? z) && (z <=? 102)).

(** [lsn.split_once('/')]. *)
Fixpoint split_slash (l : list byte) : option (list byte * list byte) :=
  match l with
  | [] => None
  | b :: l =>
      if bool_decide (b = x2f) then Some ([], l)
      else match split_slash l with Some (h, t) => Some (b :: h, t) | None => None end
  end.

Definition looks_like_lsn (l : list byte) : bool :=
  match split_slash l with
  | Some (h, t) =>
      negb (bool_decide (h = [])) && negb (bool_decide (t = [])) && forallb is_hexdigit h && forallb is_hexdigit t
  | None => false
  end.

Section local.
Context (entry_json : LedgerEntry -> option (list byte)) (owner_json : OwnerIdentity -> option (list byte)).
Context (pg_basebackup : Tool path) (pg_ctl_start : Tool (path * path)) (pg_ctl_stop : Tool path).
(** What [psql] prints for the LSN query, where it succeeds. *)
Context (psql : Machine -> option (list byte)).
Context (temp_dir : path) (my_pid : Z).

Definition read_clone_lsn : IO string :=
  run! out := command psql None in
  match out with
  | None => fail (Tooling "psql lsn query failed")
  | Some out =>
      let lsn := trim_bytes out in
      if looks_like_lsn lsn then ret (of_bytes lsn) else fail (Tooling "unexpected lsn output")
  end.

Definition set_mode_0700 (p : path) : IO unit := chmod (Tooling ("chmod 0700 " +:+ display p)) p.

Definition append_file (p : path) (text : string) : IO unit :=
  append (Tooling ("append " +:+ display p)) p (as_bytes text).

(** [if p.exists() { fs::remove_dir_all(&p).ok(); }]. *)
Definition clear_dir (p : path) : IO unit :=
  run! there := get (fun m => exists_at m p) in
  if there then run! _ := attempt (remove_dir_all (Tooling EmptyString) p) in ret tt else ret tt.

Definition clone_id_of (seq : Z) : string := "local-clone-" +:+ pretty my_pid +:+ "-" +:+ pretty seq.
Definition sockdir_of (c : LocalCloneConfig) : path := temp_dir ++ ["pgb-clone-" +:+ pretty (clone_port c)].
Definition logfile_of (c : LocalCloneConfig) (clone_id : string) : path := clone_root c ++ [clone_id +:+ ".log"].

Definition newline : string := of_bytes [x0a].

Definition auto_conf (c : LocalCloneConfig) : string :=
  newline +:+ "# pg_brakes local clone — isolated rehearsal target (SPEC §12)" +:+ newline +:+
  "port = " +:+ pretty (clone_port c) +:+ newline +:+
  "listen_addresses = '127.0.0.1'" +:+ newline +:+
  "unix_socket_directories = '" +:+ display (sockdir_of c) +:+ "'" +:+ newline +:+
  "# access-logging the prod-PII clone (SPEC §4 clone governance)" +:+ newline +:+
  "log_connections = on" +:+ newline +:+
  "log_disconnections = on" +:+ newline +:+
  "log_statement = 'all'" +:+ newline +:+
  "logging_collector = off" +:+ newline.

(** Up to and with the ledger record: the owner it was recorded under. *)
Definition prepare (c : LocalCloneConfig) (l : CloneLedger) (clone_id : string) : IO OwnerIdentity :=
  let datadir := clone_root c ++ [clone_id] in
  run! _ := create_dir_all (Tooling ("clone root " +:+ display (clone_root c))) (clone_root c) in
  run! _ := set_mode_0700 (clone_root c) in
  run! _ := clear_dir datadir in
  run! _ := clear_dir (sockdir_of c) in
  run! _ := create_dir_all (Tooling "sock dir") (sockdir_of c) in
  run! owner := owner_current my_pid in
  run! _ := record entry_json l (mkEntry clone_id datadir (clone_port c) (owner_pid_of owner) (owner_start_of owner)) in
  ret owner.

(** From the base backup on. *)
Definition build (c : LocalCloneConfig) (clone_id : string) (owner : OwnerIdentity) : IO CloneHandle :=
  let datadir := clone_root c ++ [clone_id] in
  let logfile := logfile_of c clone_id in
  run! _ := run_tool pg_basebackup datadir "pg_basebackup" in
  run! _ := set_mode_0700 datadir in
  run! _ := write_owner_marker owner_json datadir owner in
  run! _ := append_file (datadir ++ ["postgresql.auto.conf"%string]) (auto_conf c) in
  run! _ := attempt (remove_file (Tooling EmptyString) (datadir ++ ["standby.signal"%string])) in
  run! _ := attempt (remove_file (Tooling EmptyString) (datadir ++ ["recovery.signal"%string])) in
  run! _ := run_tool pg_ctl_start (datadir, logfile) "pg_ctl start" in
  let conn := "host=127.0.0.1 port=" +:+ pretty (clone_port c) +:+ " user=" +:+ repl_user (local_primary c) +:+
              " dbname=" +:+ pr_dbname (local_primary c) in
  run! lsn := attempt read_clone_lsn in
  ret (mkHandle PK_Local clone_id conn (match lsn with Ok s => s | Err _ => "0/0"%string end) 0
         (mkGovernance true (display logfile) (local_owner c) (display datadir) ProdPii)).

Definition local_provision (p : LocalCloneProvider) : IO CloneHandle :=
  let clone_id := clone_id_of (provision_seq p) in
  run! owner := prepare (cfg p) (ledger p) clone_id in build (cfg p) clone_id owner.

(** [pg_ctl stop], whose failure is ignored. *)
Definition stop_clone (datadir : path) : IO unit :=
  fun m =>
    match next m with
    | (Succeed, m) => (default m (full pg_ctl_stop datadir m), Some (Ok tt))
    | (FailAfter k, m) => (partial pg_ctl_stop datadir k m, Some (Ok tt))
    | (KillAfter k, m) => (partial pg_ctl_stop datadir k m, None)
    end.

(** [if p.exists() { fs::remove_dir_all(&p)?; }]. *)
Definition remove_present (e : CloneError) (p : path) : IO unit :=
  run! there := get (fun m => exists_at m p) in if there then remove_dir_all e p else ret tt.

Definition local_destroy (p : LocalCloneProvider) (clone_id : string) : IO unit :=
  let datadir := clone_root (cfg p) ++ [clone_id] in
  run! running := get (fun m => exists_at m (datadir ++ ["postmaster.pid"%string])) in
  run! _ := if running then stop_clone datadir else ret tt in
  run! _ := remove_present (TeardownFailed ("rm datadir " +:+ display datadir)) datadir in
  run! _ := attempt (remove_dir_all (Tooling EmptyString) (sockdir_of (cfg p))) in
  run! _ := attempt (remove_file (Tooling EmptyString) (logfile_of (cfg p) clone_id)) in
  forget (ledger p) clone_id.

(** [self.seq += 1]. *)
Definition bump (p : LocalCloneProvider) : LocalCloneProvider :=
  mkLocalProvider (cfg p) (ledger p) (wrap_u 32 (provision_seq p + 1)).

#[global] Instance LocalCloneProvider_provider : CloneProvider LocalCloneProvider := {|
  provision p m := let p := bump p in let '(m, r) := local_provision p m in (m, p, r);
  destroy p h m := let '(m, r) := local_destroy p (handle_clone_id h) m in (m, p, r)
|}.

(** ** What provisioning leaves behind, wherever it stops *)

Definition changes_only (area : path -> Prop) (m m' : Machine) : Prop :=
  forall q, ~ area q -> fs m' !! q = fs m !! q.

Definition works_in {Arg} (t : Tool Arg) (arg : Arg) (area : path -> Prop) : Prop :=
  (forall m m', full t arg m = Some m' -> changes_only area m m') /\
  (forall k m, changes_only area m (partial t arg k m)).

(** Below a data directory, the owner marker apart. *)
Definition inside (d q : path) : Prop := d `prefix_of` q /\ q <> d ++ [OWNER_MARKER].

(** The tools write nowhere but in the data directory and the log file. *)
Class ToolLaws : Prop := {
  backup_inside d : works_in pg_basebackup d (inside d);
  start_inside d log : works_in pg_ctl_start (d, log) (fun q => inside d q \/ q = log);
  stop_inside d : works_in pg_ctl_stop d (fun q => d `prefix_of` q)
}.

Lemma run_tool_lookup {Arg} (t : Tool Arg) arg what area m q :
  works_in t arg area -> ~ area q -> fs (run_tool t arg what m).1 !! q = fs m !! q.
Proof.
  intros [Hf Hp] Hq. unfold run_tool. rewrite <- (next_fs m). destruct (next m) as [[|[|k]|k] m1]; simpl; [|done|by apply Hp..].
  destruct (full t arg m1) eqn:E; [|done]. by eapply Hf.
Qed.

Lemma command_fs {A} (answer : Machine -> A) otherwise m : fs (command answer otherwise m).1 = fs m.
Proof. unfold command. rewrite <- (next_fs m). by destruct (next m) as [[] ?]. Qed.

(** Where a calm call is the file system is as it was. *)
Lemma owner_current_fs m : fs (owner_current my_pid m).1 = fs m.
Proof.
  unfold owner_current, process_start_time. destruct (my_pid =? 0); [done|]. unfold bind.
  pose proof (command_fs (fun m => started m my_pid) None m) as H. by destruct (command _ _ m) as [m1 [[]|]].
Qed.

Lemma read_clone_lsn_fs m : fs (read_clone_lsn m).1 = fs m.
Proof.
  unfold read_clone_lsn, bind. pose proof (command_fs psql None m) as H.
  destruct (command _ _ m) as [m1 [[[out|]|]|]]; simpl in *; try done. by destruct (looks_like_lsn _).
Qed.

Section crash.
Context (entry_of_json : list byte -> option LedgerEntry) (owner_of_json : list byte -> option OwnerIdentity).
Context {tools : ToolLaws}.
Context (c : LocalCloneConfig) (l : CloneLedger) (clone_id : string).

(** What the decoders make of the bytes the encoders wrote, all of them or a part. *)
Class JsonLaws : Prop := {
  entry_decodes e b : entry_json e = Some b -> entry_of_json b = Some e;
  entry_prefix e b k e' : entry_json e = Some b -> entry_of_json (take k b) = Some e' -> e' = e;
  owner_prefix o b k o' : owner_json o = Some b -> owner_of_json (take k b) = Some o' -> o' = o
}.
Context {json : JsonLaws}.

Let dir : path := clone_root c ++ [clone_id].

(** The ledger is kept outside the clone root, and the socket directory outside the clone. *)
Definition apart : Prop := ~ clone_root c `prefix_of` ledger_dir l /\ ~ dir `prefix_of` sockdir_of c.
Hypothesis Hapart : apart.

Lemma dir_not_in_ledger q name : dir `prefix_of` q -> q <> ledger_dir l ++ [name].
Proof.
  intros Hp ->. destruct Hapart as [Ha _]. apply Ha. unfold dir in Hp.
  destruct Hp as [k Hk]. destruct k as [|x k _] using rev_ind.
  - rewrite app_nil_r in Hk. apply app_inj_2 in Hk as [-> _]; done.
  - rewrite (assoc_L (++)) in Hk. apply app_inj_2 in Hk as [-> _]; [|done]. rewrite <- (assoc_L (++)). by apply prefix_app_r.
Qed.

Lemma logfile_not_in_ledger id name : logfile_of c id <> ledger_dir l ++ [name].
Proof. unfold logfile_of. intros [E _]%app_inj_2; [|done]. destruct Hapart as [Ha _]. by apply Ha; rewrite E. Qed.

Lemma marker_not_logfile id : dir ++ [OWNER_MARKER] <> logfile_of c id.
Proof.
  unfold logfile_of. intros [E _]%app_inj_2; [|done]. apply (f_equal length) in E. unfold dir in E.
  rewrite length_app in E. simpl in E. lia.
Qed.

(** *** The data directory does not exist before the ledger has its entry *)

Definition absent (m : Machine) : Prop := fs m !! dir = None.

Lemma ancestors_prefix p q : q ∈ ancestors p -> q `prefix_of` p.
Proof.
  unfold ancestors. intros (n & -> & _)%list_elem_of_fmap. rewrite <- (take_drop n p) at 2. by apply prefix_app_r.
Qed.

Lemma absent_create (e : CloneError) p : ~ dir `prefix_of` p -> preserves absent (create_dir_all e p).
Proof.
  intros Hp m Hm. unfold absent in *. destruct (create_dir_all_lookup e p m dir) as [->|(Hin%ancestors_prefix & _)]; done.
Qed.

Lemma absent_clear p : preserves absent (clear_dir p).
Proof.
  unfold clear_dir. apply preserves_bind; [apply preserves_get|]. intros []; [|apply preserves_ret].
  apply preserves_bind; [apply preserves_attempt|intros; apply preserves_ret]. intros m Hm. unfold absent in *.
  by destruct (remove_dir_all_lookup (Tooling EmptyString) p m dir) as [->|[_ ->]].
Qed.

Lemma dir_not_below_root : ~ dir `prefix_of` clone_root c.
Proof. intros Hl%prefix_length. unfold dir in Hl. rewrite length_app in Hl. simpl in Hl. lia. Qed.

Lemma absent_record e : preserves absent (record entry_json l e).
Proof.
  unfold record. destruct (entry_json e); [|apply preserves_fail]. intros m Hm. unfold absent in *.
  destruct (write_lookup (Tooling ("ledger write " +:+ display (entry_path l (CloneLedger.clone_id e)))) (entry_path l (CloneLedger.clone_id e)) l0 m dir)
    as [->|[E _]]; [done|]. by apply dir_not_in_ledger in E.
Qed.

Lemma absent_prepare : preserves absent (prepare c l clone_id).
Proof.
  unfold prepare. destruct Hapart as [_ Hs].
  apply preserves_bind; [apply absent_create, dir_not_below_root|]. intros _.
  apply preserves_bind; [intros m; unfold absent, set_mode_0700; by rewrite chmod_lookup|]. intros _.
  apply preserves_bind; [apply absent_clear|]. intros _.
  apply preserves_bind; [apply absent_clear|]. intros _.
  apply preserves_bind; [by apply absent_create|]. intros _.
  apply preserves_bind; [intros m; unfold absent; by rewrite owner_current_fs|]. intros o.
  apply preserves_bind; [apply absent_record|]. intros _. apply preserves_ret.
Qed.

(** *** The entry, once recorded, stays *)

Definition entry_for (o : OwnerIdentity) : LedgerEntry :=
  mkEntry clone_id dir (clone_port c) (owner_pid_of o) (owner_start_of o).

Definition has_entry (o : OwnerIdentity) (m : Machine) : Prop :=
  exists b, entry_json (entry_for o) = Some b /\ fs m !! entry_path l clone_id = Some (File b).

Definition gives {A} (x : IO A) (Q : A -> Machine -> Prop) : Prop := forall m a, (x m).2 = Some (Ok a) -> Q a (x m).1.

Lemma gives_then {A B} (x : IO A) (P : A -> Machine -> Prop) (f : A -> IO B) (Q : B -> Machine -> Prop) :
  gives x P -> (forall a m, P a m -> forall b, (f a m).2 = Some (Ok b) -> Q b (f a m).1) -> gives (bind x f) Q.
Proof.
  intros Hx Hf m b. specialize (Hx m). unfold bind. destruct (x m) as [m1 [[a|]|]]; simpl in *; [|done..].
  apply Hf. by apply Hx.
Qed.

Lemma gives_bind {A B} (x : IO A) (f : A -> IO B) (Q : B -> Machine -> Prop) :
  (forall a, gives (f a) Q) -> gives (bind x f) Q.
Proof. intros Hf. eapply (gives_then x (fun _ _ => True)); [done|]. intros a m _. apply Hf. Qed.

Lemma owner_current_pid : gives (owner_current my_pid) (fun o _ => owner_pid_of o = my_pid).
Proof. unfold owner_current. apply gives_bind. by intros start m o [= <-]. Qed.

Lemma record_entry o : gives (record entry_json l (entry_for o)) (fun _ m => has_entry o m).
Proof.
  unfold record, has_entry. destruct (entry_json (entry_for o)) as [b|]; [|done]. intros m u. simpl.
  unfold write, fallible. destruct (next m) as [[|k|k] m1]; simpl; [|done..].
  destruct (writable m1 _); [|done]. intros _. exists b. split; [done|]. simpl. by rewrite lookup_insert_eq.
Qed.

Lemma prepare_gives : gives (prepare c l clone_id) (fun o m => owner_pid_of o = my_pid /\ has_entry o m).
Proof.
  unfold prepare. do 5 (apply gives_bind; intros _). eapply gives_then; [apply owner_current_pid|].
  intros o m Ho b. revert b m Ho. intros b m Ho Hb.
  assert (gives (run! _ := record entry_json l (entry_for o) in ret o) (fun o m => owner_pid_of o = my_pid /\ has_entry o m)) as H.
  { eapply gives_then; [apply record_entry|]. intros u m1 He b1 [= <-]. done. }
  by apply H.
Qed.

Lemma build_keeps_path (q : path) o (v : option Node) :
  ~ dir `prefix_of` q -> q <> logfile_of c clone_id ->
  preserves (fun m => fs m !! q = v) (build c clone_id o).
Proof.
  intros Hd Hl. assert (forall x, q <> dir ++ [x]) as Hx.
  { intros x ->. apply Hd. by apply prefix_app_r. }
  unfold build. fold dir.
  apply preserves_bind; [intros m <-; apply (run_tool_lookup _ _ _ _ m q (backup_inside dir)); by intros []|]. intros _.
  apply preserves_bind; [intros m; unfold set_mode_0700; by rewrite chmod_lookup|]. intros _.
  apply preserves_bind.
  { unfold write_owner_marker. destruct (owner_json o) as [b|]; [|apply preserves_fail]. intros m <-.
    match goal with |- fs (write ?e ?p b m).1 !! q = _ => destruct (write_lookup e p b m q) as [->|[E _]] end; [done|].
    by apply Hx in E. }
  intros _. apply preserves_bind.
  { unfold append_file. intros m <-.
    match goal with |- fs (append ?e ?p ?b m).1 !! q = _ => destruct (append_lookup e p b m q) as [->|E] end; [done|].
    by apply Hx in E. }
  intros _. assert (forall e x, preserves (fun m => fs m !! q = v) (attempt (remove_file (e : CloneError) (dir ++ [x])))) as Hr.
  { intros e x. apply preserves_attempt. intros m <-. destruct (remove_file_lookup e (dir ++ [x]) m q) as [->|[E _]]; [done|].
    by apply Hx in E. }
  apply preserves_bind; [apply Hr|]. intros _. apply preserves_bind; [apply Hr|]. intros _.
  apply preserves_bind; [intros m <-; apply (run_tool_lookup _ _ _ _ m q (start_inside dir _)); by intros [[]|]|]. intros _.
  apply preserves_bind; [apply preserves_attempt; intros m; by rewrite read_clone_lsn_fs|]. intros. apply preserves_ret.
Qed.

Lemma entry_path_outside : ~ dir `prefix_of` entry_path l clone_id /\ entry_path l clone_id <> logfile_of c clone_id.
Proof.
  split; [intros H; by eapply dir_not_in_ledger|]. intros E. symmetry in E. by apply logfile_not_in_ledger in E.
Qed.

(** *** Whoever is recorded for the directory is this process *)

Definition mine (m : Machine) : Prop :=
  forall o, recorded entry_of_json owner_of_json l m dir o -> owner_pid_of o = my_pid.

(** Paths whose content says who owns the clone. *)
Definition telling (q : path) : Prop := (exists name, q = ledger_dir l ++ [name]) \/ q = dir ++ [OWNER_MARKER].

Lemma mine_keeps {A} (x : IO A) :
  (forall m q b, telling q -> fs (x m).1 !! q = Some (File b) -> fs m !! q = Some (File b)) -> preserves mine x.
Proof.
  intros Hx m Hm o [(e & (name & b & Hb & He) & Hd & Ho)|(b & Hb & Ho)]; apply Hm.
  - left. exists e. split; [|done]. exists name, b. split; [|done]. apply Hx; [|done]. left. eauto.
  - right. exists b. split; [|done]. apply Hx; [|done]. by right.
Qed.

Lemma mine_fs {A} (x : IO A) : (forall m, fs (x m).1 = fs m) -> preserves mine x.
Proof. intros Hx. apply mine_keeps. intros m q b _. by rewrite Hx. Qed.

Lemma mine_create (e : CloneError) p : preserves mine (create_dir_all e p).
Proof.
  apply mine_keeps. intros m q b _. destruct (create_dir_all_lookup e p m q) as [->|(_ & _ & ->)]; done.
Qed.

Lemma mine_remove_dir (e : CloneError) p : preserves mine (remove_dir_all e p).
Proof. apply mine_keeps. intros m q b _. by destruct (remove_dir_all_lookup e p m q) as [->|[_ ->]]. Qed.

Lemma mine_remove_file (e : CloneError) p : preserves mine (remove_file e p).
Proof. apply mine_keeps. intros m q b _. by destruct (remove_file_lookup e p m q) as [->|[_ ->]]. Qed.

Lemma mine_clear p : preserves mine (clear_dir p).
Proof.
  unfold clear_dir. apply preserves_bind; [apply preserves_get|]. intros []; [|apply preserves_ret].
  apply preserves_bind; [apply preserves_attempt, mine_remove_dir|intros; apply preserves_ret].
Qed.

Lemma mine_record o : owner_pid_of o = my_pid -> preserves mine (record entry_json l (entry_for o)).
Proof.
  intros Hpid. unfold record. destruct (entry_json (entry_for o)) as [j|] eqn:J; [|apply preserves_fail]. simpl.
  set (err := Tooling _). intros m Hm w [(e & (name & b & Hb & He) & Hd & <-)|(b & Hb & Ho)].
  - destruct (write_lookup err (entry_path l clone_id) j m (ledger_dir l ++ [name])) as [E|(_ & k & E)].
    + apply Hm. left. exists e. split; [|done]. exists name, b. by rewrite <- E.
    + rewrite E in Hb. injection Hb as <-. by rewrite (entry_prefix _ _ _ _ J He).
  - apply Hm. right. exists b. split; [|done].
    destruct (write_lookup err (entry_path l clone_id) j m (dir ++ [OWNER_MARKER])) as [<-|[E _]]; [done|].
    by apply dir_not_in_ledger in E; [|apply prefix_app_r].
Qed.

Lemma mine_marker o : owner_pid_of o = my_pid -> preserves mine (write_owner_marker owner_json dir o).
Proof.
  intros Hpid. unfold write_owner_marker. destruct (owner_json o) as [j|] eqn:J; [|apply preserves_fail].
  set (err := Tooling _). intros m Hm w [(e & (name & b & Hb & He) & Hd & Ho)|(b & Hb & Ho)].
  - apply Hm. left. exists e. split; [|done]. exists name, b. split; [|done].
    destruct (write_lookup err (dir ++ [OWNER_MARKER]) j m (ledger_dir l ++ [name])) as [<-|[E _]]; [done|].
    symmetry in E. by apply dir_not_in_ledger in E; [|apply prefix_app_r].
  - destruct (write_lookup err (dir ++ [OWNER_MARKER]) j m (dir ++ [OWNER_MARKER])) as [E|(_ & k & E)].
    + apply Hm. right. exists b. by rewrite <- E.
    + rewrite E in Hb. injection Hb as <-. by rewrite (owner_prefix _ _ _ _ J Ho).
Qed.

Lemma telling_outside q : telling q -> ~ inside dir q /\ q <> logfile_of c clone_id /\ forall x, x <> OWNER_MARKER -> q <> dir ++ [x].
Proof.
  intros [[name ->]| ->].
  - split; [intros [Hp _]; by eapply dir_not_in_ledger|]. split; [intros E; symmetry in E; by apply logfile_not_in_ledger in E|].
    intros x _ E. symmetry in E. by apply dir_not_in_ledger in E; [|apply prefix_app_r].
  - split; [by intros []|]. split; [apply marker_not_logfile|]. intros x Hx [_ [= E]]%app_inj_2; [|done]. by destruct Hx.
Qed.

Lemma mine_prepare : preserves mine (prepare c l clone_id).
Proof.
  unfold prepare. apply preserves_bind; [apply mine_create|]. intros _.
  apply preserves_bind; [apply mine_fs; intros m; apply chmod_lookup|]. intros _.
  apply preserves_bind; [apply mine_clear|]. intros _. apply preserves_bind; [apply mine_clear|]. intros _.
  apply preserves_bind; [apply mine_create|]. intros _. intros m Hm.
  pose proof (owner_current_fs m) as Hf. pose proof (owner_current_pid m) as Hpid. unfold bind at 1.
  assert (mine (owner_current my_pid m).1) as Hm1.
  { by apply (mine_fs (owner_current my_pid) owner_current_fs). }
  destruct (owner_current my_pid m) as [m1 [[o|]|]]; simpl in *; [|done..].
  apply (preserves_bind mine (record entry_json l (entry_for o)) (fun _ => ret o)); [apply mine_record; by apply Hpid| |done].
  intros _. apply preserves_ret.
Qed.

Lemma mine_build o : owner_pid_of o = my_pid -> preserves mine (build c clone_id o).
Proof.
  intros Hpid. unfold build. fold dir.
  apply preserves_bind.
  { apply mine_keeps. intros m q b Hq. destruct (telling_outside q Hq) as (Hi & _).
    by rewrite (run_tool_lookup _ _ _ _ m q (backup_inside dir)). }
  intros _. apply preserves_bind; [apply mine_fs; intros m; apply chmod_lookup|]. intros _.
  apply preserves_bind; [by apply mine_marker|]. intros _. apply preserves_bind.
  { apply mine_keeps. intros m q b Hq. destruct (telling_outside q Hq) as (_ & _ & Hx). unfold append_file.
    match goal with |- fs (append ?e ?p ?t m).1 !! q = _ -> _ => destruct (append_lookup e p t m q) as [->|E] end; [done|].
    by apply Hx in E. }
  intros _. apply preserves_bind; [apply preserves_attempt, mine_remove_file|]. intros _.
  apply preserves_bind; [apply preserves_attempt, mine_remove_file|]. intros _. apply preserves_bind.
  { apply mine_keeps. intros m q b Hq. destruct (telling_outside q Hq) as (Hi & Hl & _).
    rewrite (run_tool_lookup _ _ _ _ m q (start_inside dir _)); [done|by intros [?|?]]. }
  intros _. apply preserves_bind; [apply preserves_attempt, mine_fs, read_clone_lsn_fs|]. intros. apply preserves_ret.
Qed.
End crash.

Section theorems.
Context (entry_of_json : list byte -> option LedgerEntry) (owner_of_json : list byte -> option OwnerIdentity).

Definition datadir_of (p : LocalCloneProvider) : path := clone_root (cfg p) ++ [clone_id_of (provision_seq p)].

(** The breadcrumb precedes the copy.  Wherever provisioning stops, by success, by error
    or by a kill in the middle of any step, if there is anything at the data directory then
    the ledger holds the whole entry for it, under this process. *)
Theorem provision_records_before_copy (p : LocalCloneProvider) (m : Machine) :
  ToolLaws -> JsonLaws entry_of_json owner_of_json -> apart (cfg p) (ledger p) (clone_id_of (provision_seq p)) ->
  fs m !! datadir_of p = None ->
  fs (local_provision p m).1 !! datadir_of p <> None ->
  exists b e, fs (local_provision p m).1 !! entry_path (ledger p) (clone_id_of (provision_seq p)) = Some (File b) /\
    entry_of_json b = Some e /\ datadir e = datadir_of p /\ owner_pid e = my_pid.
Proof.
  intros tools json Hap Hm. unfold local_provision. set (id := clone_id_of (provision_seq p)) in *.
  pose proof (absent_prepare (cfg p) (ledger p) id Hap m Hm) as Habs.
  pose proof (prepare_gives (cfg p) (ledger p) id m) as Hgive. unfold bind.
  destruct (prepare _ _ _ m) as [m1 [[o|]|]]; simpl in *; [|done..].
  destruct (Hgive o eq_refl) as [Hpid (b & Hj & Hb)]. intros _. exists b, (entry_for (cfg p) id o).
  destruct (entry_path_outside (cfg p) (ledger p) id Hap) as [H1 H2].
  split; [by apply (build_keeps_path (cfg p) id _ o (Some (File b)) H1 H2)|].
  split; [by apply (entry_decodes entry_of_json owner_of_json (JsonLaws := json))|]. by split.
Qed.

Lemma clone_id_is_swept seq : is_clone_datadir_name (clone_id_of seq) = true.
Proof.
  unfold is_clone_datadir_name, clone_id_of. apply starts_with_spec. rewrite Config.as_bytes_app. eauto.
Qed.

(** C27: no clone survives a killed orchestrator.  Provisioning may stop anywhere, killed in
    the middle of any step; once the process is gone, a reaper pass on a host where nothing
    fails and the ledger decodes ends, and the clone's directory is not there. *)
Theorem killed_orchestrator_leaves_no_clone (deliver : Z -> string -> Machine -> Machine) (passes : Machine -> Machine)
    (p : LocalCloneProvider) (m m2 : Machine) :
  ToolLaws -> JsonLaws entry_of_json owner_of_json -> apart (cfg p) (ledger p) (clone_id_of (provision_seq p)) ->
  (forall pid sig m, tame (ledger p) (clone_root (cfg p)) m (deliver pid sig m)) ->
  (forall m, tame (ledger p) (clone_root (cfg p)) m (passes m)) ->
  (forall o, ~ recorded entry_of_json owner_of_json (ledger p) m (datadir_of p) o) ->
  fs m2 = fs (local_provision p m).1 -> procs m2 !! my_pid = None -> faults m2 = [] ->
  readable entry_of_json (ledger p) (clone_root (cfg p)) m2 ->
  exists m3 o, reap_orphans_with_sweep entry_of_json owner_of_json deliver passes (ledger p) (clone_root (cfg p)) m2
      = (m3, Some (Ok o)) /\
    ~ (fs m3 !! clone_root (cfg p) = Some Dir /\ fs m3 !! datadir_of p = Some Dir).
Proof.
  intros tools json Hap Hd Hp Hfresh Hfs Hdead Hf Hr. set (id := clone_id_of (provision_seq p)) in *.
  destruct (reaper_clears_dead_owners entry_of_json owner_of_json deliver passes (ledger p) (clone_root (cfg p)) m2 Hd Hp Hf Hr)
    as (m3 & o & Hrun & Hlive).
  exists m3, o. split; [done|]. intros [Hroot Hdir].
  destruct (Hlive id (clone_id_is_swept _) Hroot Hdir) as (w & Hrec & [pr Hpr] & _).
  assert (mine entry_of_json owner_of_json (cfg p) (ledger p) id (local_provision p m).1) as Hmine.
  { assert (mine entry_of_json owner_of_json (cfg p) (ledger p) id m) as Hm.
    { intros w' Hw'. by apply Hfresh in Hw'. }
    unfold local_provision. fold id. pose proof (mine_prepare entry_of_json owner_of_json (cfg p) (ledger p) id Hap m Hm) as Hm1.
    pose proof (prepare_gives (cfg p) (ledger p) id m) as Hgive. unfold bind.
    destruct (prepare _ _ _ m) as [m1 [[ow|]|]]; simpl in *; [|done..].
    apply (mine_build entry_of_json owner_of_json (cfg p) (ledger p) id Hap); [|done]. by apply Hgive. }
  unfold mine, recorded, ledgered in Hmine. unfold recorded, ledgered in Hrec. rewrite Hfs in Hrec.
  apply Hmine in Hrec. congruence.
Qed.

(** *** Teardown *)

Lemma gives_keeps {A B} (I : Machine -> Prop) (x : IO A) (f : A -> IO B) :
  gives x (fun _ => I) -> (forall a, preserves I (f a)) -> gives (bind x f) (fun _ => I).
Proof. intros Hx Hf. eapply gives_then; [exact Hx|]. intros a m Hm b _. by apply Hf. Qed.

Lemma preserves_none_remove_dir (e : CloneError) p q : preserves (fun m => fs m !! q = None) (remove_dir_all e p).
Proof. intros m Hm. by destruct (remove_dir_all_lookup e p m q) as [->|[_ ->]]. Qed.

Lemma preserves_none_remove_file (e : CloneError) p q : preserves (fun m => fs m !! q = None) (remove_file e p).
Proof. intros m Hm. by destruct (remove_file_lookup e p m q) as [->|[_ ->]]. Qed.

Lemma preserves_none_forget l id q : preserves (fun m => fs m !! q = None) (forget l id).
Proof. unfold forget. apply preserves_bind; [apply preserves_none_remove_file|]. intros. apply preserves_ret. Qed.

Lemma forget_gone l id : gives (forget l id) (fun _ m => fs m !! entry_path l id = None).
Proof.
  intros m u. unfold forget, bind, remove_file, fallible. destruct (next m) as [[|k|k] m1]; simpl; [|done..].
  destruct (fs m1 !! entry_path l id) as [[|b]|] eqn:F; simpl; [done| |done]. intros _. apply lookup_delete_eq.
Qed.

Lemma gives_and {A} (x : IO A) P Q : gives x P -> gives x Q -> gives x (fun a m => P a m /\ Q a m).
Proof. intros HP HQ m a H. split; [by apply HP|by apply HQ]. Qed.

Lemma remove_present_gone e p : gives (remove_present e p) (fun _ m => fs m !! p = None).
Proof.
  unfold remove_present. intros m u. unfold bind, get. simpl. unfold exists_at. case_bool_decide as Hp.
  - unfold remove_dir_all, fallible. destruct (next m) as [[|k|k] m1]; simpl; [|done..].
    destruct (is_dir m1 p); [|done]. intros _. simpl. apply eq_None_not_Some. intros [n [_ Hn]%without_lookup]. by apply Hn.
  - intros _. by apply eq_None_not_Some.
Qed.

Lemma local_destroy_gone p id :
  gives (local_destroy p id)
    (fun _ m => fs m !! (clone_root (cfg p) ++ [id]) = None /\ fs m !! entry_path (ledger p) id = None).
Proof.
  unfold local_destroy. set (dir := clone_root (cfg p) ++ [id]). do 2 (apply gives_bind; intros ?).
  apply gives_and.
  - apply (gives_keeps (fun m => fs m !! dir = None)); [apply remove_present_gone|]. intros _.
    apply preserves_bind; [apply preserves_attempt, preserves_none_remove_dir|]. intros _.
    apply preserves_bind; [apply preserves_attempt, preserves_none_remove_file|]. intros _. apply preserves_none_forget.
  - do 3 (apply gives_bind; intros ?). apply forget_gone.
Qed.

#[local] Existing Instance LocalCloneProvider_provider.

(** The funnel tears down what it made.  Whatever the rehearsal does and returns, if the
    call comes back without a teardown error then the clone it provisioned has neither a
    data directory nor a ledger entry. *)
Theorem with_clone_tears_down {T} (p p1 p' : LocalCloneProvider) (body : CloneHandle -> IO T) (m m1 m' : Machine)
    (h : CloneHandle) (r : result CloneError T) :
  provision p m = (m1, p1, Some (Ok h)) -> assert_compliant (governance h) = Ok tt ->
  with_clone p body m = (m', p', Some (r, None)) ->
  fs m' !! (clone_root (cfg p) ++ [handle_clone_id h]) = None /\
  fs m' !! entry_path (ledger p) (handle_clone_id h) = None.
Proof.
  intros Hp Hg. unfold with_clone. rewrite Hp, Hg. destruct (body h m1) as [m2 [r'|]]; [|done].
  assert (cfg p1 = cfg p /\ ledger p1 = ledger p) as [Hc Hl].
  { cbn [provision LocalCloneProvider_provider] in Hp. destruct (local_provision (bump p) m) as [m3 r3]. by injection Hp as _ <- _. }
  cbn [destroy LocalCloneProvider_provider]. pose proof (local_destroy_gone p1 (handle_clone_id h) m2) as Hd. rewrite Hc, Hl in Hd.
  destruct (local_destroy p1 (handle_clone_id h) m2) as [m3 [[[]|]|]]; intros E; simplify_eq. by apply (Hd tt).
Qed.

(** A provisioning that fails is not torn down: the funnel returns its error and leaves
    the host as the failure left it, with whatever had been copied. *)
Theorem failed_provision_is_not_torn_down {T} (p p1 : LocalCloneProvider) (body : CloneHandle -> IO T) (m m1 : Machine) (e : CloneError) :
  provision p m = (m1, p1, Some (Err e)) -> with_clone p body m = (m1, p1, Some (Err e, None)).
Proof. intros Hp. unfold with_clone. by rewrite Hp. Qed.
End theorems.
End local.

(** ** A host to provision on *)

Module Demo.
Import CloneLedger.Demo.

Definition demo_backup : Tool path := mkTool path
  (fun d m => Some (set_fs m (<[d ++ ["PG_VERSION"%string] := File [x31; x38]]> (<[d := Dir]> (fs m)))))
  (fun d k m => match k with O => m | S _ => set_fs m (<[d := Dir]> (fs m)) end).
(** A postmaster that starts, and one whose port is taken. *)
Definition demo_start : Tool (path * path) := mkTool (path * path)
  (fun '(d, log) m =>
     Some (mkMachine (<[d ++ ["postmaster.pid"%string] := File (as_bytes "77")]> (<[log := File []]> (fs m)))
             (<[77 := mkProcess None]> (procs m)) (faults m)))
  (fun _ _ m => m).
Definition demo_stop : Tool path := mkTool path
  (fun d m => Some (mkMachine (delete (d ++ ["postmaster.pid"%string]) (fs m)) (delete 77 (procs m)) (faults m)))
  (fun _ _ m => m).

Lemma inside_dir d : inside d d.
Proof. split; [done|]. intros E%(f_equal length). rewrite length_app in E. simpl in E. lia. Qed.
Lemma inside_child d x : x <> OWNER_MARKER -> inside d (d ++ [x]).
Proof. intros Hx. split; [by apply prefix_app_r|]. by intros [_ [= ?]]%app_inj_2. Qed.

Lemma demo_tools : ToolLaws demo_backup demo_start demo_stop.
Proof.
  split.
  - intros d. assert (inside d (d ++ ["PG_VERSION"%string])) as H1 by (by apply inside_child).
    pose proof (inside_dir d) as H2. split.
    + intros m m' [= <-] q Hq. simpl. rewrite !lookup_insert_ne; [done|intros E; apply Hq; by rewrite <- E..].
    + intros [|k] m q Hq; [done|]. simpl. rewrite lookup_insert_ne; [done|intros E; apply Hq; by rewrite <- E].
  - intros d log. assert (inside d (d ++ ["postmaster.pid"%string])) as H1 by (by apply inside_child). split; [|done].
    intros m m' [= <-] q Hq. simpl. rewrite !lookup_insert_ne; [done|intros E; apply Hq; by right|intros E; apply Hq; left; by rewrite <- E].
  - intros d. split; [|done]. intros m m' [= <-] q Hq. simpl. apply lookup_delete_ne. intros E. apply Hq. rewrite <- E. by apply prefix_app_r.
Qed.

Lemma demo_json : JsonLaws to_bits to_bits of_bits of_bits.
Proof. split; [intros e b; apply of_to_bits|intros e b k e'; apply of_bits_prefix|intros o b k o'; apply of_bits_prefix]. Qed.

Definition demo_config : LocalCloneConfig :=
  mkLocalConfig ["bin"%string] demo_root 6000 (mkPrimary "127.0.0.1" 54321 "repl" "prod") "data-platform".
Definition demo_provider : LocalCloneProvider := mkLocalProvider demo_config demo_ledger 1.
Definition empty_host (fl : list Fault) : Machine :=
  mkMachine {[ ["state"%string] := Dir ]} {[42 := mkProcess (Some "Mon"%string)]} fl.
(** Five calls succeed, the ledger's write among them; the sixth is the base backup. *)
Definition cut (f : Fault) : list Fault := [Succeed; Succeed; Succeed; Succeed; Succeed; f].

Abbreviation demo_run fl :=
  (local_provision to_bits to_bits demo_backup demo_start (fun _ => None) ["tmp"%string] 42 demo_provider (empty_host fl)).

Lemma demo_apart : apart ["tmp"%string] demo_config demo_ledger (clone_id_of 42 1).
Proof. split; intros [k Hk]; vm_compute in Hk; discriminate Hk. Qed.

Lemma provision_records_before_copy_witness :
  exists b e, fs (demo_run (cut (KillAfter 1))).1 !! entry_path demo_ledger (clone_id_of 42 1) = Some (File b) /\
    of_bits b = Some e /\ datadir e = datadir_of 42 demo_provider /\ owner_pid e = 42.
Proof.
  apply (provision_records_before_copy to_bits to_bits demo_backup demo_start demo_stop (fun _ => None) ["tmp"%string] 42
    of_bits of_bits demo_provider (empty_host (cut (KillAfter 1))) demo_tools demo_json demo_apart).
  - vm_compute. reflexivity.
  - vm_compute. discriminate.
Defined.

(** The same host once the process is gone. *)
Definition demo_after : Machine := mkMachine (fs (demo_run (cut (KillAfter 1))).1) ∅ [].

Lemma demo_after_readable : readable of_bits demo_ledger demo_root demo_after.
Proof.
  assert (Forall (fun kv : path * Node =>
    match kv.1 with
    | [_] => kv.2 = Dir
    | [d; name] => d <> "state"%string \/ match kv.2 with File b => is_Some (of_bits (A := LedgerEntry) b) | Dir => False end
    | _ => True
    end) (map_to_list (fs demo_after))) as H.
  { vm_compute. repeat (apply Forall_cons; split; [first [reflexivity | left; discriminate | right; eexists; reflexivity | exact I]|]).
    constructor. }
  rewrite Forall_forall in H.
  assert (forall q n, fs demo_after !! q = Some n -> (q, n) ∈ map_to_list (fs demo_after)) as Hin.
  { intros q n Hq. by apply elem_of_map_to_list. }
  split; [|split].
  - intros n Hn. exact (H _ (Hin _ _ Hn)).
  - intros n Hn. exact (H _ (Hin _ _ Hn)).
  - intros name n Hn. destruct (H _ (Hin _ _ Hn)) as [Hd|Hf]; [by destruct Hd|]. simpl in Hf. destruct n as [|b]; [done|eauto].
Qed.

Lemma killed_orchestrator_leaves_no_clone_witness :
  exists m3 o, reap_orphans_with_sweep of_bits of_bits demo_deliver id demo_ledger demo_root demo_after = (m3, Some (Ok o)) /\
    ~ (fs m3 !! demo_root = Some Dir /\ fs m3 !! datadir_of 42 demo_provider = Some Dir).
Proof.
  apply (killed_orchestrator_leaves_no_clone to_bits to_bits demo_backup demo_start demo_stop (fun _ => None) ["tmp"%string] 42
    of_bits of_bits demo_deliver id demo_provider (empty_host (cut (KillAfter 1))) demo_after demo_tools demo_json demo_apart).
  - apply demo_deliver_tame.
  - apply demo_passes_tame.
  - intros o [(e & (name & b & Hb & _) & _)|(b & Hb & _)]; simpl in Hb; apply lookup_singleton_Some in Hb as [_ Hb]; discriminate Hb.
  - reflexivity.
  - reflexivity.
  - reflexivity.
  - apply demo_after_readable.
Defined.

Lemma ran_err {S A E} (x : S * option (result E A)) (test : S -> bool) :
  match x with (s, Some (Err _)) => test s | _ => false end = true ->
  exists s e, x = (s, Some (Err e)) /\ test s = true.
Proof. destruct x as [s [[a|e]|]]; intros H; [done|eauto|done]. Qed.

Abbreviation demo_instance start :=
  (LocalCloneProvider_provider to_bits to_bits demo_backup start demo_stop (fun _ => None) ["tmp"%string] 42).
Definition fresh_provider : LocalCloneProvider := local_new demo_config demo_ledger.
(** A start that always exits with an error. *)
Definition broken_start : Tool (path * path) := mkTool (path * path) (fun _ _ => None) (fun _ _ m => m).

Lemma with_clone_tears_down_witness :
  exists m' p' r, with_clone (H := demo_instance demo_start) fresh_provider (fun h => ret (conn h)) (empty_host []) =
      (m', p', Some (r, None)) /\
    fs m' !! (demo_root ++ ["local-clone-42-1"%string]) = None /\
    fs m' !! entry_path demo_ledger "local-clone-42-1" = None.
Proof.
  destruct (ran_ok (@provision _ (demo_instance demo_start) fresh_provider (empty_host []))
    (fun _ h => bool_decide (handle_clone_id h = "local-clone-42-1"%string) && is_ok (assert_compliant (governance h))))
    as ([m1 p1] & h & P & [Hid Hg]%andb_true_iff); [vm_compute; reflexivity|].
  apply bool_decide_eq_true in Hid.
  destruct (with_clone (H := demo_instance demo_start) fresh_provider (fun h => ret (conn h)) (empty_host []))
    as [[m' p'] [[r [te|]]|]] eqn:E;
    [exfalso; vm_compute in E; discriminate E| |exfalso; vm_compute in E; discriminate E].
  exists m', p', r. split; [reflexivity|]. rewrite <- Hid.
  apply (with_clone_tears_down to_bits to_bits demo_backup demo_start demo_stop (fun _ => None) ["tmp"%string] 42
    fresh_provider p1 p' (fun h => ret (conn h)) (empty_host []) m1 m' h r P); [|exact E].
  destruct (assert_compliant (governance h)) as [[]|]; [reflexivity|discriminate Hg].
Defined.

(** The copied file is still there after the funnel has returned its error. *)
Lemma failed_provision_is_not_torn_down_witness :
  exists m1 p1 e, with_clone (H := demo_instance broken_start) fresh_provider (fun h => ret (conn h)) (empty_host []) =
      (m1, p1, Some (Err e, None)) /\
    fs m1 !! ["clones"; "local-clone-42-1"; "PG_VERSION"]%string = Some (File [x31; x38]).
Proof.
  destruct (ran_err (@provision _ (demo_instance broken_start) fresh_provider (empty_host []))
    (fun '(m1, _) => bool_decide (fs m1 !! ["clones"; "local-clone-42-1"; "PG_VERSION"]%string = Some (File [x31; x38]))))
    as ([m1 p1] & e & P & H); [vm_compute; reflexivity|].
  exists m1, p1, e. split.
  - apply (failed_provision_is_not_torn_down to_bits to_bits demo_backup broken_start demo_stop (fun _ => None) ["tmp"%string] 42).
    exact P.
  - by apply bool_decide_eq_true in H.
Defined.

(** While the orchestrator lives, the reaper takes that copy for one in use. *)
Example failed_clone_is_spared :
  let '(m1, _, _) := with_clone (H := demo_instance broken_start) fresh_provider (fun h => ret (conn h)) (empty_host []) in
  match reap_orphans_with_sweep of_bits of_bits demo_deliver id demo_ledger demo_root m1 with
  | (m2, Some (Ok o)) =>
      alarms o = [] /\ "local-clone-42-1"%string ∈ live_skipped o /\
      fs m2 !! ["clones"; "local-clone-42-1"; "PG_VERSION"]%string = Some (File [x31; x38])
  | _ => False
  end.
Proof. vm_compute. split; [done|]. split; [left|done]. Qed.
End Demo.
End LocalClone.

Module Parity.

Record RlsPolicy : Type := mkRls {
  rls_schema : string;
  rls_table : string;
  policy : string;
  permissive : string;
  rls_roles : string;
  cmd : string;
  using_expr : string;
  check_expr : string;
  rls_enabled : bool
}.

Record ColumnGrant : Type := mkGrant {
  grantee : string;
  grant_schema : string;
  grant_table : string;
  column : string;
  privilege : string
}.

#[global] Instance RlsPolicy_eq_dec : EqDecision RlsPolicy.
Proof. solve_decision. Defined.
#[global] Instance ColumnGrant_eq_dec : EqDecision ColumnGrant.
Proof. solve_decision. Defined.

(** The derived orders: field by field; the flag last, false before true. *)
Definition rls_fields (p : RlsPolicy) : list string :=
  [rls_schema p; rls_table p; policy p; permissive p; rls_roles p; cmd p; using_expr p; check_expr p;
   if rls_enabled p then "1" else "0"]%string.
Definition grant_fields (g : ColumnGrant) : list string :=
  [grantee g; grant_schema g; grant_table g; column g; privilege g].

Definition rls_cmp (a b : RlsPolicy) : comparison := lex_cmp str_cmp (rls_fields a) (rls_fields b).
Definition grant_cmp (a b : ColumnGrant) : comparison := lex_cmp str_cmp (grant_fields a) (grant_fields b).

Lemma cmp_order_by {A B} (f : A -> B) (cmp : B -> B -> comparison) :
  Inj (=) (=) f -> CmpOrder cmp -> CmpOrder (fun x y => cmp (f x) (f y)).
Proof.
  intros Hf Hc. split.
  - intros x y. rewrite cmp_eq. split; [apply Hf|by intros ->].
  - intros. apply cmp_flip.
  - intros x y z. apply cmp_lt_trans.
Qed.

#[global] Instance rls_cmp_order : CmpOrder rls_cmp.
Proof.
  apply (cmp_order_by rls_fields); [|apply _]. intros [] []; unfold rls_fields; simpl. intros.
  simplify_eq. by repeat case_match; simplify_eq.
Qed.
#[global] Instance grant_cmp_order : CmpOrder grant_cmp.
Proof. apply (cmp_order_by grant_fields); [|apply _]. intros [] []; unfold grant_fields; simpl. intros. by simplify_eq. Qed.

(** [BTreeSet]: its elements once each, in order. *)
Definition btree_set {A} `{EqDecision A} (cmp : A -> A -> comparison) (l : list A) : list A := rust_sort cmp (remove_dups l).
Definition difference {A} `{EqDecision A} (s t : list A) : list A := filter (fun x => x ∉ t) s.

Record ParityReport : Type := mkReport {
  rls_missing_on_clone : list RlsPolicy;
  rls_extra_on_clone : list RlsPolicy;
  grants_missing_on_clone : list ColumnGrant;
  grants_extra_on_clone : list ColumnGrant
}.

Definition is_empty {A} (l : list A) : bool := match l with [] => true | _ => false end.

Definition is_parity (r : ParityReport) : bool :=
  is_empty (rls_missing_on_clone r) && is_empty (rls_extra_on_clone r) &&
  is_empty (grants_missing_on_clone r) && is_empty (grants_extra_on_clone r).

Definition summary (r : ParityReport) : string :=
  if is_parity r then "RLS/column-grant parity: OK (clone matches prod)"
  else
    "RLS/column-grant parity FAILED: rls(-" +:+ pretty (length (rls_missing_on_clone r)) +:+ "/+" +:+
    pretty (length (rls_extra_on_clone r)) +:+ ") grants(-" +:+ pretty (length (grants_missing_on_clone r)) +:+ "/+" +:+
    pretty (length (grants_extra_on_clone r)) +:+ ")".

Definition check_parity (prod_rls clone_rls : list RlsPolicy) (prod_grants clone_grants : list ColumnGrant) : ParityReport :=
  let prod_rls_set := btree_set rls_cmp prod_rls in
  let clone_rls_set := btree_set rls_cmp clone_rls in
  let prod_grant_set := btree_set grant_cmp prod_grants in
  let clone_grant_set := btree_set grant_cmp clone_grants in
  mkReport (difference prod_rls_set clone_rls_set) (difference clone_rls_set prod_rls_set)
    (difference prod_grant_set clone_grant_set) (difference clone_grant_set prod_grant_set).

Section sets.
Context {A : Type} `{EqDecision A} (cmp : A -> A -> comparison) `{!CmpOrder cmp}.

Lemma elem_of_btree_set x l : x ∈ btree_set cmp l <-> x ∈ l.
Proof. unfold btree_set. rewrite (rust_sort_perm cmp). apply elem_of_remove_dups. Qed.

(** A set has one representation, whatever order and however often its elements came. *)
Lemma btree_set_canonical l l' : (forall x, x ∈ l <-> x ∈ l') -> btree_set cmp l = btree_set cmp l'.
Proof.
  intros H. apply rust_sort_canonical; [done|]. apply NoDup_Permutation; [apply NoDup_remove_dups..|].
  intros x. by rewrite !elem_of_remove_dups.
Qed.

Lemma elem_of_difference_set x l l' : x ∈ difference (btree_set cmp l) (btree_set cmp l') <-> x ∈ l /\ x ∉ l'.
Proof. unfold difference. rewrite list_elem_of_filter, !elem_of_btree_set. tauto. Qed.

Lemma is_empty_difference l l' :
  is_empty (difference (btree_set cmp l) (btree_set cmp l')) = true <-> forall x, x ∈ l -> x ∈ l'.
Proof.
  transitivity (forall x, x ∉ difference (btree_set cmp l) (btree_set cmp l')).
  - destruct (difference _ _) as [|y d]; simpl; [split; [intros _ x; apply not_elem_of_nil|done]|].
    split; [done|]. intros H. exfalso. apply (H y). left.
  - setoid_rewrite elem_of_difference_set. split; intros H x.
    + intros Hx. destruct (decide (x ∈ l')); [done|]. exfalso. by apply (H x).
    + intros [Hx Hn]. by apply Hn, H.
Qed.
End sets.

(** The parity check passes exactly when production and clone have the same policies and
    the same column grants, in whatever order and however often they were captured; the
    report names exactly what differs and depends on the sets alone. *)
Theorem parity_is_set_equality (pr cr pr' cr' : list RlsPolicy) (pg cg pg' cg' : list ColumnGrant) :
  (is_parity (check_parity pr cr pg cg) = true <-> (forall x, x ∈ pr <-> x ∈ cr) /\ (forall g, g ∈ pg <-> g ∈ cg)) /\
  (forall x, x ∈ rls_missing_on_clone (check_parity pr cr pg cg) <-> x ∈ pr /\ x ∉ cr) /\
  (forall x, x ∈ rls_extra_on_clone (check_parity pr cr pg cg) <-> x ∈ cr /\ x ∉ pr) /\
  (forall g, g ∈ grants_missing_on_clone (check_parity pr cr pg cg) <-> g ∈ pg /\ g ∉ cg) /\
  (forall g, g ∈ grants_extra_on_clone (check_parity pr cr pg cg) <-> g ∈ cg /\ g ∉ pg) /\
  ((forall x, x ∈ pr <-> x ∈ pr') -> (forall x, x ∈ cr <-> x ∈ cr') ->
   (forall g, g ∈ pg <-> g ∈ pg') -> (forall g, g ∈ cg <-> g ∈ cg') ->
   check_parity pr cr pg cg = check_parity pr' cr' pg' cg').
Proof.
  split; [unfold is_parity, check_parity; simpl; rewrite !andb_true_iff, !is_empty_difference; firstorder|].
  do 4 (split; [intros x; apply elem_of_difference_set; apply _|]).
  intros H1 H2 H3 H4. unfold check_parity.
  by rewrite (btree_set_canonical rls_cmp _ _ H1), (btree_set_canonical rls_cmp _ _ H2),
    (btree_set_canonical grant_cmp _ _ H3), (btree_set_canonical grant_cmp _ _ H4).
Qed.
End Parity.
